(* ===== verification/_CoqProject ===== *)
-Q . S2P
Prelude.v
Ring.v
Queue.v
RingBuffer.v
Checksum.v
Blocks.v
Sha256.v
MavlinkTypes.v
Mavlink.v
MavlinkParser.v
MavlinkRoundTrip.v
Aes.v
AesDecrypt.v
Gf128.v
Gcm.v
GcmSpec.v
AesModes.v
AesBlockModes.v
Gec.v
Sha512Spec.v
Sha512.v
GecKe.v
Relay.v
FrameStream.v
Heartbeat.v
SealedStream.v
LinkSample.v
KeyExchangeRelay.v
Receiver.v
KeyExchangeSeed.v
KeyExchangeApp.v
Limbs.v
LimbBytes.v
Donna.v
DonnaCurve.v
CryptoRelay.v
CryptoBlock.v
GroundStation.v
PlainRelay.v
CommPacket.v
CryptoRpc.v
CommUart.v
CommUartRelay.v
