(* ===== verification/Prelude.v ===== *)
(** * Secure relay on seL4 / Raspberry Pi 4: verification library

    The program puts a single-board computer between a flight controller
    ("Pixhawk") and its telemetry radio.  Components of a seL4/CAmkES system
    read MAVLink from the controller, encrypt it and write it to the radio,
    and the other way round; one application first agrees on the keys with the
    ground station.  This library models that path, from the bytes of a serial
    port to the bytes of the other one, as executable Rocq functions
    translated from the C code, and proves what the code does.

    ** The parts and how they interact

    A receiver thread stores the bytes of a serial port in a circular buffer
    in shared memory.  Encrypt takes them out, feeds them to the MAVLink
    parser, serialises every message the parser reports into a byte queue, and
    seals the queue 64 bytes at a time with AES-128-GCM under a counter; a
    sealed block of 80 bytes is written to the radio behind a two-byte header.
    Decrypt finds such frames in the buffer of the radio's receiver, opens
    them, and parses the plaintext again before writing it to the controller.
    KeyExchange runs the responder of a station-to-station protocol
    (Curve25519, Ed25519, SHA-512) once, gives Encrypt and Decrypt their keys
    and tells the receivers to switch buffers.

    ** Files (under verification/) and code (under src/)

    Foundations:
    - Prelude: machine integers as [Z] with explicit wrapping, byte buffers,
      big- and little-endian words, the tactics and hint databases;
    - Ring: a window of a circular array; Blocks: hashing in blocks.

    Data structures, apps/*/include/my_type.h and the receivers:
    - Queue: [queue_t] and [deque_t], macro by macro, behind the class
      [ByteFifo], a bounded list of bytes;
    - RingBuffer: [ring_buffer_t] with its producer and consumer as a step
      relation, one access to the shared memory per step;
    - Receiver: Pixhawk and Telemetry of apps/key-exchange, which change the
      buffer they fill when a notification arrives.

    MAVLink, mavlink/include/mavlink/v2.0:
    - Checksum (checksum.h), Sha256 (mavlink_sha256.h), MavlinkTypes
      (mavlink_types.h, and the table of the ardupilotmega dialect), Mavlink
      (the sending half of mavlink_helpers.h: finalising, signing, checking of
      signatures, serialising), MavlinkParser ([mavlink_frame_char_buffer], one
      function per state of the parser), MavlinkRoundTrip (whole frames).

    Cryptography, GEC-block:
    - Aes and AesDecrypt (aestab.c, aeskey.c, aescrypt.c), Gf128 (gf128mul.c,
      gf_mul_lo.h, mode_hdr.h), Gcm and GcmSpec (gcm.c and NIST SP 800-38D),
      AesModes and AesBlockModes (aes_modes.c: the counter mode; ECB, CBC, CFB
      and OFB), Gec (gec.c: boxes, channels, the confidentiality mode),
      Sha512Spec (FIPS 180-4) and Sha512 (ed25519-hash.h), GecKe (gec-ke.c).
    - Limbs, LimbBytes and Donna (curve25519-donna.c): the field in signed limbs,
      the conversions from and to bytes, and the ladder, with X25519 of RFC 7748
      as the reference; DonnaCurve: the instance of the curve interface of
      GecKe that they are.

    Applications, apps/:
    - Relay: the loops and the parser call that all components share;
      SealedStream: a byte stream as a sequence of sealed frames, the class
      [BlockSealer], and the induction over the bytes of a ring that every
      sealing component uses; LinkSample: concrete values for examples;
    - KeyExchangeRelay: Encrypt and Decrypt of key-exchange; KeyExchangeSeed and
      KeyExchangeApp: its KeyExchange, with [fabsf] and [rand] of
      projects/musllibc;
    - CryptoRelay: the four components of comm-crypto-relay.
    - FrameStream: a stream cut into frames, the class [FrameHandler] of the
      loops that act on each frame, and what a handler makes of a prefix of a
      stream; Heartbeat: minimal/mavlink_msg_heartbeat.h, the one generated
      message that the applications make;
    - CryptoBlock: Encrypt and Decrypt of comm-crypto-block; GroundStation:
      gcs-crypto-block, the Linux program at the other end of its radio, with
      both sides put together;
    - PlainRelay: comm-mavlink-relay and comm-mavlink-rpc-relay, which forward
      without encryption; CryptoRpc: Encrypt and Decrypt of
      comm-crypto-rpc-relay, which write through remote calls; CommPacket:
      comm-packet, which makes heartbeats at random intervals;
    - CommUart: the threads of UART and Encrypt of comm-uart, as an interleaving of
      memory accesses under a semaphore; CommUartRelay: what Encrypt makes of a
      block, and the sending half of UART.

    ** How the model corresponds to the code

    A C structure is a [Record] whose fields keep their names; an assignment
    to a field is a function [set_f].  A [w]-bit unsigned integer is a [Z] and
    every operation that can leave its range is wrapped.  A buffer is a list
    of bytes of the size of the array; [rd], [wr] and [memcpy_at] are the
    accesses.  Pointers are not modelled; where the code branches on the
    alignment of one, the alignment is an argument.  Variables that the code
    leaves uninitialised are arguments too ([stack]).  A component is a record
    of its static variables, with the list of its writes to the port; one turn
    of its endless loop is a function on the record and the shared buffer as
    it is during the turn.  Log output is left out.  Where a loop waits for the
    producer the turn returns without effect, and is taken again later from
    the same index.  Where the interleaving itself is the point (RingBuffer,
    Receiver, CommUart, Decrypt of CryptoRpc) a step is one access to the
    shared memory.

    ** What the theorems show

    - The link: the frames Encrypt writes, put in the ring of a Decrypt with the
      same key, come out as what Decrypt's parser makes of a prefix of the
      relayed stream; which bytes each component writes, for every content of
      the ring; the same for comm-crypto-relay from its initialisation.  On
      streams of whole frames the two ends are the identity, but for a bounded
      rest; the board of comm-crypto-block and its ground station agree on
      every heartbeat, and the ground station counts the missing ones; frames
      that comm-crypto-block writes past the end of its buffer.  The plaintext
      relay is transparent in every interleaving of its threads that does not
      overrun the ring, and so are the packets of comm-packet, whose random
      waits all end; over remote calls only the first byte of every buffer
      arrives, and Decrypt of comm-crypto-rpc-relay opens the frame at the start
      of its ring again and again.
    - The key exchange: an honest run ends with the same key material on both
      sides, and with Decrypt and Encrypt holding the other ends of the ground
      station's channels; material is released only after the signature
      verified; every reachable context satisfies the protocol's invariant;
      calls out of turn change nothing; what is installed after a failed run.
    - Cryptography against its standards: AES against FIPS 197 in both
      directions, CBC, CFB and OFB read back, GCM against
      SP 800-38D, the field multiplication against its definition, SHA-512
      against FIPS 180-4 and the SHA-256 of the signatures against its one-shot
      form, both for every way of cutting the input,
      the CRC against its bitwise definition; the boxes open, wrong tags are
      refused, counters do not repeat; the defects of the confidentiality mode.
    - curve25519_donna is X25519: no 64-bit operation overflows, the limbs stay
      within the bounds that the comments of the code announce, the result is
      the least representative; the reference runs over all 256 bits of the
      scalar as the code does, and [x25519_leading_bit] relates it to the 255
      of the RFC.
    - MAVLink: the parser never leaves its arrays and returns to idle; a frame
      that is sent is received unchanged; the verdict on every unsigned frame.
    - Concurrency: in every interleaving without overrun the consumer handles a
      prefix of what was published, and can catch up; an overrun is silent; the
      switch of buffers loses no byte.  In comm-uart a block is never read
      while it is written; its queue is exact with one unit of the semaphore, and
      loses and invents bytes with the two that the code gives it.

    Theorems whose outcome is not what the code means to do are listed as
    findings in the manifest.

    ** Fuel and bounds

    Loops with a bound in the code are structural recursions on it.  The loops
    over the ring have fuel [RING_BUFFER_SIZE] (2048): [available_length] shows
    that fewer bytes are ever available, and [drain_ring_spec],
    [read_header_spec] and [read_message_front] that the fuel is enough.  The
    loop over the queue has fuel for its 4096 bytes ([drain_queue_spec]).  The
    waits of comm-packet have no bound: [wait_ends] gives the fuel from the full
    period of the generator.  The
    counters of the boxes stop 15 short of 2^32 ([counter_limit]), which the
    theorems on sealing carry as a bound on the stream.

    ** Not modelled
    - the arithmetic of ed25519.c: the protocol is proved against the interface
      [Curve] and its laws [CurveLaws], of which DonnaCurve derives the one on
      the length of keys and reduces the agreement to the commutation of
      X25519, a theorem on the group of the curve that is not proved here;
    - comm, comm-crypto and gcs-crypto, earlier versions of the modelled
      applications on a library with boxes of 280 bytes (src/GEC), and the
      functions of comm-packet that would use such boxes, which nothing calls;
      comm-smaccm, generated by another tool chain; the programs under apps/
      that try out one driver each;
    - the seL4 kernel, CAmkES, the drivers and the C library (third-party; the
      serial port is the list of bytes written or received);
    - the generated MAVLink message headers, beyond the heartbeat and the two
      accessors that KeyExchange uses: the relays treat payloads as bytes;
    - AES keys of 192 and 256 bits, the VIA ACE instructions, the 256-byte, 8K
      and 64K tables of gf128mul.c and gf_convert.c, which are compiled out or
      have no caller. *)

From stdpp Require Export list numbers option.
From Stdlib Require Export Lia.

#[export] Set Default Goal Selector "!".

Local Open Scope Z_scope.

(** ** Machine integers

    An unsigned [w]-bit C integer is a [Z]; every operation of the code that
    can leave the range is followed by the corresponding [wrap]. *)

Definition wrap (w x : Z) : Z := x mod 2 ^ w.

Abbreviation u8 := (wrap 8).
Abbreviation u16 := (wrap 16).
Abbreviation u32 := (wrap 32).
Abbreviation u64 := (wrap 64).

Definition in_range (w x : Z) : Prop := 0 <= x < 2 ^ w.

Abbreviation is_u8 := (in_range 8).
Abbreviation is_u16 := (in_range 16).
Abbreviation is_u32 := (in_range 32).
Abbreviation is_u64 := (in_range 64).

#[export] Instance in_range_dec w x : Decision (in_range w x).
Proof. unfold in_range; apply _. Defined.

(** A byte buffer. *)
Definition bytes (l : list Z) : Prop := Forall is_u8 l.

#[export] Instance bytes_dec l : Decision (bytes l).
Proof. unfold bytes; apply _. Defined.

(** ** Arrays: reads and writes at a C index *)

Definition rd (l : list Z) (i : Z) : Z := default 0 (l !! Z.to_nat i).
Definition wr (l : list Z) (i v : Z) : list Z := <[Z.to_nat i := v]> l.

(** [memcpy(dst + off, src, len src)] and [memset(dst + off, v, n)]. *)
Definition memcpy_at (dst : list Z) (off : nat) (src : list Z) : list Z :=
  list_inserts off src dst.
Definition memset_at (dst : list Z) (off n : nat) (v : Z) : list Z :=
  list_inserts off (replicate n v) dst.

(** The [n] bytes at offset [off]. *)
Definition slice (off n : nat) (l : list Z) : list Z := take n (drop off l).

(** Bytewise exclusive or of two buffers. *)
Definition xor_bytes (a b : list Z) : list Z := zip_with Z.lxor a b.

(** ** Words and their byte encodings *)

Fixpoint le_bytes (n : nat) (x : Z) : list Z :=
  match n with
  | O => []
  | S n => Z.land x 255 :: le_bytes n (Z.shiftr x 8)
  end.

Fixpoint le_word (l : list Z) : Z :=
  match l with
  | [] => 0
  | b :: l => Z.lor b (Z.shiftl (le_word l) 8)
  end.

(** ** Tactics *)

(** [case_bool] splits the boolean tests of the goal or of a hypothesis. *)
Ltac case_bool :=
  match goal with
  | |- context [ if ?b then _ else _ ] =>
      match type of b with bool => let E := fresh "E" in destruct b eqn:E end
  | H : context [ if ?b then _ else _ ] |- _ =>
      match type of b with bool => let E := fresh "E" in destruct b eqn:E end
  end.

(** Boolean comparisons as propositions. *)
Ltac bool_to_prop :=
  repeat match goal with
  | H : (_ && _)%bool = true |- _ => apply andb_true_iff in H as [? ?]
  | H : (_ || _)%bool = false |- _ => apply orb_false_iff in H as [? ?]
  | H : negb _ = true |- _ => apply negb_true_iff in H
  | H : negb _ = false |- _ => apply negb_false_iff in H
  | H : (_ =? _) = true |- _ => apply Z.eqb_eq in H
  | H : (_ =? _) = false |- _ => apply Z.eqb_neq in H
  | H : (_ <? _) = true |- _ => apply Z.ltb_lt in H
  | H : (_ <? _) = false |- _ => apply Z.ltb_ge in H
  | H : (_ <=? _) = true |- _ => apply Z.leb_le in H
  | H : (_ <=? _) = false |- _ => apply Z.leb_gt in H
  end.

(** Linear arithmetic with divisions and remainders by constants. *)
Ltac mod_lia := unfold wrap, in_range in *; Z.div_mod_to_equations; lia.

(** Bit extensionality: compare two numbers bit by bit, with the testbit
    lemmas of the library and of [bits]. *)
Create HintDb words.

Ltac bit_ext i :=
  apply Z.bits_inj'; intros i ?.

(** ** Lemmas on machine integers *)

Lemma pow2_pos w : 0 <= w -> 0 < 2 ^ w.
Proof. intros. by apply Z.pow_pos_nonneg. Qed.

Lemma wrap_range w x : 0 <= w -> in_range w (wrap w x).
Proof. intros. by apply Z.mod_pos_bound, pow2_pos. Qed.

Lemma wrap_id w x : in_range w x -> wrap w x = x.
Proof. intros. unfold wrap, in_range in *. by apply Z.mod_small. Qed.

Lemma wrap_idemp w x : 0 <= w -> wrap w (wrap w x) = wrap w x.
Proof. intros. by apply wrap_id, wrap_range. Qed.

Lemma wrap_land w x : 0 <= w -> wrap w x = Z.land x (Z.ones w).
Proof. intros. unfold wrap. by rewrite Z.land_ones. Qed.

Lemma wrap_testbit w x i :
  0 <= w -> Z.testbit (wrap w x) i = Z.testbit x i && bool_decide (i < w).
Proof.
  intros. rewrite wrap_land, Z.land_spec by done.
  destruct (decide (0 <= i)) as [Hi|Hi]; [|by rewrite !(Z.testbit_neg_r _ i) by lia].
  case_bool_decide; [by rewrite Z.ones_spec_low by lia|].
  by rewrite Z.ones_spec_high, andb_false_r by lia.
Qed.

Lemma in_range_testbit_high w x i :
  0 <= w -> in_range w x -> w <= i -> Z.testbit x i = false.
Proof.
  intros Hw Hx Hi. rewrite <- (wrap_id w x) by done.
  rewrite wrap_testbit by done. rewrite bool_decide_eq_false_2 by lia.
  by rewrite andb_false_r.
Qed.

Lemma in_range_of_testbit w x :
  0 <= w -> (forall i, w <= i -> Z.testbit x i = false) -> in_range w x.
Proof.
  intros Hw Hx. assert (wrap w x = x) as <-; [|by apply wrap_range].
  bit_ext i. rewrite wrap_testbit by done.
  case_bool_decide; [by rewrite andb_true_r|].
  rewrite Hx by lia. done.
Qed.

Lemma in_range_lxor w a b :
  0 <= w -> in_range w a -> in_range w b -> in_range w (Z.lxor a b).
Proof.
  intros Hw Ha Hb. apply in_range_of_testbit; [done|]. intros i Hi.
  by rewrite Z.lxor_spec, !(in_range_testbit_high w).
Qed.

Lemma in_range_lor w a b :
  0 <= w -> in_range w a -> in_range w b -> in_range w (Z.lor a b).
Proof.
  intros Hw Ha Hb. apply in_range_of_testbit; [done|]. intros i Hi.
  by rewrite Z.lor_spec, !(in_range_testbit_high w).
Qed.

Lemma in_range_land_l w a b : 0 <= w -> in_range w a -> in_range w (Z.land a b).
Proof.
  intros Hw Ha. apply in_range_of_testbit; [done|]. intros i Hi.
  by rewrite Z.land_spec, (in_range_testbit_high w).
Qed.

Lemma in_range_shiftr w a n :
  0 <= w -> 0 <= n -> in_range w a -> in_range w (Z.shiftr a n).
Proof.
  intros Hw Hn Ha. apply in_range_of_testbit; [done|]. intros i Hi.
  rewrite Z.shiftr_spec by lia. apply (in_range_testbit_high w); auto; lia.
Qed.

Lemma in_range_0 w : 0 <= w -> in_range w 0.
Proof. intros. split; [lia|]. by apply pow2_pos. Qed.

Lemma in_range_mono v w x : 0 <= v <= w -> in_range v x -> in_range w x.
Proof.
  intros ? [? ?]. split; [done|].
  apply Z.lt_le_trans with (2 ^ v); [done|]. apply Z.pow_le_mono_r; lia.
Qed.

Lemma land_255_u8 x : is_u8 (Z.land x 255).
Proof. change 255 with (Z.ones 8). rewrite Z.land_ones by lia. by apply Z.mod_pos_bound. Qed.

#[export] Hint Resolve in_range_lxor in_range_lor in_range_land_l in_range_shiftr
  in_range_0 wrap_range land_255_u8 : words.
#[export] Hint Extern 4 (0 <= _) => lia : words.

(** ** Lemmas on arrays *)

Lemma length_wr l i v : length (wr l i v) = length l.
Proof. apply length_insert. Qed.

Lemma rd_wr_eq l i v : 0 <= i < Z.of_nat (length l) -> rd (wr l i v) i = v.
Proof. intros. unfold rd, wr. by rewrite list_lookup_insert_eq by lia. Qed.

Lemma rd_wr_ne l i j v : 0 <= i -> 0 <= j -> i <> j -> rd (wr l i v) j = rd l j.
Proof. intros. unfold rd, wr. by rewrite list_lookup_insert_ne by lia. Qed.

Lemma rd_u8 l i : bytes l -> is_u8 (rd l i).
Proof.
  intros Hl. unfold rd.
  destruct (l !! Z.to_nat i) as [b|] eqn:E; simpl; [|by apply in_range_0].
  by eapply Forall_lookup_1 in Hl.
Qed.

Lemma bytes_wr l i v : bytes l -> is_u8 v -> bytes (wr l i v).
Proof. intros. unfold wr. by apply Forall_insert. Qed.

Lemma bytes_app a b : bytes a -> bytes b -> bytes (a ++ b).
Proof. apply Forall_app_2. Qed.

Lemma bytes_take n l : bytes l -> bytes (take n l).
Proof. apply Forall_take. Qed.

Lemma bytes_drop n l : bytes l -> bytes (drop n l).
Proof. apply Forall_drop. Qed.

Lemma bytes_slice o n l : bytes l -> bytes (slice o n l).
Proof. intros. by apply bytes_take, bytes_drop. Qed.

Lemma bytes_replicate n v : is_u8 v -> bytes (replicate n v).
Proof. intros. by apply Forall_replicate. Qed.

Lemma bytes_xor a b : bytes a -> bytes b -> bytes (xor_bytes a b).
Proof.
  intros Ha. revert b. induction Ha as [|x a Hx Ha IH]; intros b Hb; [constructor|].
  destruct Hb as [|y b Hy Hb]; [constructor|]. constructor; [|by apply IH].
  by apply in_range_lxor.
Qed.

Lemma bytes_le_bytes n x : bytes (le_bytes n x).
Proof. revert x. induction n; intros x; constructor; auto with words. apply IHn. Qed.

Lemma length_le_bytes n x : length (le_bytes n x) = n.
Proof. revert x. induction n; intros x; simpl; auto. Qed.

Lemma length_xor_bytes a b : length (xor_bytes a b) = (length a `min` length b)%nat.
Proof. apply length_zip_with. Qed.

Lemma xor_bytes_nil_l b : xor_bytes [] b = [].
Proof. done. Qed.

(** Adding the same key stream twice gives the data back. *)
Lemma xor_bytes_cancel a b :
  (length a <= length b)%nat -> xor_bytes (xor_bytes a b) b = a.
Proof.
  revert b. induction a as [|x a IH]; intros [|y b] Hl; simpl in *; try done; [lia|].
  f_equal; [|apply IH; lia].
  by rewrite Z.lxor_assoc, Z.lxor_nilpotent, Z.lxor_0_r.
Qed.

Lemma xor_bytes_comm a b : xor_bytes a b = xor_bytes b a.
Proof.
  revert b. induction a as [|x a IH]; intros [|y b]; simpl; try done.
  by rewrite Z.lxor_comm, IH.
Qed.

Lemma xor_bytes_assoc a b c :
  xor_bytes a (xor_bytes b c) = xor_bytes (xor_bytes a b) c.
Proof.
  revert b c. induction a as [|x a IH]; intros [|y b] [|z c]; simpl; try done.
  by rewrite Z.lxor_assoc, IH.
Qed.

Lemma length_slice o n l : (o + n <= length l)%nat -> length (slice o n l) = n.
Proof. intros. unfold slice. rewrite length_take, length_drop. lia. Qed.

Lemma length_memcpy_at dst off src : length (memcpy_at dst off src) = length dst.
Proof. apply length_inserts. Qed.

(** A copy that fits replaces exactly the bytes it covers. *)
Lemma memcpy_at_spec dst off src :
  (off + length src <= length dst)%nat ->
  memcpy_at dst off src = take off dst ++ src ++ drop (off + length src) dst.
Proof.
  intros Hl. unfold memcpy_at. apply list_eq. intros i.
  destruct (decide (i < off)%nat) as [Hi|Hi].
  { rewrite list_lookup_inserts_lt by done.
    rewrite lookup_app_l by (rewrite length_take; lia). by rewrite lookup_take_lt. }
  rewrite lookup_app_r by (rewrite length_take; lia).
  rewrite length_take, Nat.min_l by lia.
  destruct (decide (i < off + length src)%nat) as [Hi2|Hi2].
  { rewrite list_lookup_inserts by lia. by rewrite lookup_app_l by lia. }
  rewrite list_lookup_inserts_ge by lia.
  rewrite lookup_app_r by lia. rewrite lookup_drop. f_equal. lia.
Qed.

Lemma bytes_memcpy_at dst off src : bytes dst -> bytes src -> bytes (memcpy_at dst off src).
Proof.
  intros Hd Hs. unfold memcpy_at. revert off dst Hd.
  induction Hs as [|x src Hx Hs IH]; intros off dst Hd; simpl; [done|].
  apply Forall_insert; auto. apply IH; done.
Qed.

#[export] Hint Resolve bytes_wr bytes_app bytes_take bytes_drop bytes_slice
  bytes_replicate bytes_xor bytes_le_bytes bytes_memcpy_at rd_u8 : words.

(** ** Finite checks

    A boolean predicate that holds on all bytes by evaluation holds of every
    byte. *)
Lemma forall_u8 (P : Z -> bool) :
  forallb P (seqZ 0 256) = true -> forall x, is_u8 x -> P x = true.
Proof.
  intros HP x Hx. rewrite forallb_forall in HP. apply HP.
  apply list_elem_of_In, elem_of_seqZ. unfold in_range in Hx. lia.
Qed.

Ltac check_bytes x P :=
  let H := fresh in
  assert (H : P x = true) by (apply (forall_u8 P); [vm_compute; reflexivity | assumption]);
  revert H.

(** Close a decidable goal without variables by evaluation. *)
Ltac decide_true := eapply bool_decide_eq_true_1; vm_compute; reflexivity.

(** ** Lemmas on encodings *)

Definition be_bytes (n : nat) (x : Z) : list Z := rev (le_bytes n x).

Lemma length_be_bytes n x : length (be_bytes n x) = n.
Proof. unfold be_bytes. by rewrite length_rev, length_le_bytes. Qed.

Lemma bytes_be_bytes n x : bytes (be_bytes n x).
Proof. apply Forall_rev, bytes_le_bytes. Qed.

Lemma le_bytes_app m n x :
  le_bytes (m + n) x = le_bytes m x ++ le_bytes n (Z.shiftr x (8 * Z.of_nat m)).
Proof.
  revert x. induction m as [|m IH]; intros x; simpl; [by rewrite Z.shiftr_0_r|].
  f_equal. rewrite IH. f_equal. f_equal. rewrite Z.shiftr_shiftr by lia. f_equal. lia.
Qed.

Lemma le_bytes_wrap n x w : 8 * Z.of_nat n <= w -> le_bytes n (wrap w x) = le_bytes n x.
Proof.
  revert x w. induction n as [|n IH]; intros x w Hw; simpl; [done|]. f_equal.
  - bit_ext i. rewrite !Z.land_spec, wrap_testbit by lia.
    destruct (decide (i < 8)).
    + rewrite bool_decide_eq_true_2, andb_true_r by lia. done.
    + change 255 with (Z.ones 8). rewrite Z.ones_spec_high by lia. by rewrite !andb_false_r.
  - rewrite <- (IH (Z.shiftr x 8) (w - 8)) by lia. f_equal.
    bit_ext i. rewrite Z.shiftr_spec, !wrap_testbit, Z.shiftr_spec by lia.
    repeat case_bool_decide; try lia; done.
Qed.

Lemma le_word_le_bytes n x : le_word (le_bytes n x) = wrap (8 * Z.of_nat n) x.
Proof.
  revert x. induction n as [|n IH]; intros x; cbn [le_bytes le_word].
  { unfold wrap. change (2 ^ (8 * Z.of_nat 0)) with 1. by rewrite Z.mod_1_r. }
  rewrite IH. bit_ext i. rewrite Z.lor_spec, Z.land_spec, wrap_testbit by lia.
  change 255 with (Z.ones 8). destruct (decide (i < 8)).
  - rewrite Z.ones_spec_low, Z.shiftl_spec_low by lia.
    rewrite bool_decide_eq_true_2, orb_false_r by lia. done.
  - rewrite Z.ones_spec_high, Z.shiftl_spec, wrap_testbit, Z.shiftr_spec by lia.
    rewrite andb_false_r. simpl. f_equal; [f_equal; lia|].
    apply bool_decide_ext. lia.
Qed.

Lemma le_word_range l : bytes l -> in_range (8 * Z.of_nat (length l)) (le_word l).
Proof.
  induction 1 as [|b l Hb Hl IH]; simpl; [done|].
  apply in_range_lor; [lia| |].
  - eapply in_range_mono; [|exact Hb]. lia.
  - apply in_range_of_testbit; [lia|]. intros i Hi. rewrite Z.shiftl_spec by lia.
    apply (in_range_testbit_high (8 * Z.of_nat (length l))); [lia|done|lia].
Qed.

Lemma le_bytes_le_word l : bytes l -> le_bytes (length l) (le_word l) = l.
Proof.
  induction 1 as [|b l Hb Hl IH]; cbn [length le_bytes le_word]; [done|]. f_equal.
  - bit_ext i. rewrite Z.land_spec, Z.lor_spec. change 255 with (Z.ones 8).
    destruct (decide (i < 8)).
    + rewrite Z.shiftl_spec_low, Z.ones_spec_low by lia. by rewrite orb_false_r, andb_true_r.
    + rewrite Z.ones_spec_high, andb_false_r by lia. symmetry.
      apply (in_range_testbit_high 8); [lia|done|lia].
  - transitivity (le_bytes (length l) (le_word l)); [|done]. f_equal. bit_ext i.
    rewrite Z.shiftr_spec, Z.lor_spec, Z.shiftl_spec by lia.
    rewrite (in_range_testbit_high 8 b) by (try done; lia). simpl. f_equal. lia.
Qed.

Lemma take_snoc_lookup (l : list Z) n :
  (n < length l)%nat -> take (S n) l = take n l ++ [default 0 (l !! n)].
Proof.
  intros Hn. destruct (l !! n) as [x|] eqn:E; [by apply take_S_r|].
  apply lookup_ge_None in E. lia.
Qed.

(** Consecutive writes are one write of the concatenation. *)
Lemma memcpy_at_app dst off a b :
  memcpy_at (memcpy_at dst off a) (length a + off) b = memcpy_at dst off (a ++ b).
Proof. unfold memcpy_at. by rewrite list_inserts_app_l. Qed.

Lemma memcpy_at_nil dst off : memcpy_at dst off [] = dst.
Proof. done. Qed.

Lemma wr_memcpy_at dst i v : wr dst i v = memcpy_at dst (Z.to_nat i) [v].
Proof. done. Qed.

Lemma memcpy_at_join dst off off' a b :
  off' = (length a + off)%nat ->
  memcpy_at (memcpy_at dst off a) off' b = memcpy_at dst off (a ++ b).
Proof. intros ->. apply memcpy_at_app. Qed.

(** ** Loops *)

(** [while (c) f] with a bound on the number of turns; [while_rule] shows
    that the bound does not matter when a measure decreases. *)
Fixpoint while {S : Type} (fuel : nat) (c : S -> bool) (f : S -> S) (s : S) : S :=
  match fuel with
  | O => s
  | Datatypes.S fuel => if c s then while fuel c f (f s) else s
  end.

Lemma while_rule {S : Type} (c : S -> bool) (f : S -> S) (I : S -> Prop) (m : S -> nat) :
  (forall s, I s -> c s = true -> I (f s) /\ (m (f s) < m s)%nat) ->
  forall fuel s, (m s < fuel)%nat -> I s -> I (while fuel c f s) /\ c (while fuel c f s) = false.
Proof.
  intros Hstep fuel. induction fuel as [|fuel IH]; intros s Hm Hs; [lia|]. cbn [while].
  destruct (c s) eqn:E; [|done]. destruct (Hstep s Hs E) as [Hs' Hm'].
  apply IH; [lia|done].
Qed.

Lemma while_false {S : Type} fuel (c : S -> bool) (f : S -> S) s :
  c s = false -> while fuel c f s = s.
Proof. intros Hc. destruct fuel; cbn [while]; [done|]. by rewrite Hc. Qed.
