(* ===== verification/Ring.v ===== *)
(** * Reading a circular array

    [queue_t], [deque_t] and [ring_buffer_t] all keep a byte array that is
    used circularly.  [ring_read] is the window of [n] bytes that starts at
    a given index; the lemmas say how the window changes when a byte is
    written behind it, in front of it, or when its first byte is dropped. *)

From S2P Require Import Prelude.

Local Open Scope Z_scope.

Section ring.
Variable N : Z.
Hypothesis N_pos : 0 < N.

Fixpoint ring_read (raw : list Z) (start : Z) (n : nat) : list Z :=
  match n with
  | O => []
  | S n => rd raw (start mod N) :: ring_read raw (start + 1) n
  end.

Lemma length_ring_read raw start n : length (ring_read raw start n) = n.
Proof. revert start. induction n; intros; simpl; auto. Qed.

Lemma ring_read_mod raw start n :
  ring_read raw (start mod N) n = ring_read raw start n.
Proof.
  revert start. induction n as [|n IH]; intros start; simpl; [done|].
  rewrite Z.mod_mod by lia. f_equal.
  rewrite <- (IH (start mod N + 1)), <- (IH (start + 1)).
  by rewrite Zplus_mod_idemp_l.
Qed.

Lemma ring_read_app raw start m n :
  ring_read raw start (m + n) =
  ring_read raw start m ++ ring_read raw (start + Z.of_nat m) n.
Proof.
  revert start. induction m as [|m IH]; intros start; simpl.
  { f_equal. lia. }
  rewrite IH. do 3 f_equal. lia.
Qed.

(** Two indices less than [N] apart are different modulo [N]. *)
Lemma mod_neq a d : 0 < d < N -> (a + d) mod N <> a mod N.
Proof.
  intros Hd Heq.
  assert ((a + d - a) mod N = 0) as Hz.
  { rewrite Zminus_mod, Heq, Z.sub_diag. by apply Z.mod_0_l; lia. }
  replace (a + d - a) with d in Hz by lia. rewrite Z.mod_small in Hz; lia.
Qed.

(** A write outside the window does not change it. *)
Lemma ring_read_wr_outside raw start n i x :
  (forall k, (k < n)%nat -> (start + Z.of_nat k) mod N <> i mod N) ->
  ring_read (wr raw (i mod N) x) start n = ring_read raw start n.
Proof.
  revert start. induction n as [|n IH]; intros start Hk; simpl; [done|].
  assert (0 <= i mod N < N) by (apply Z.mod_pos_bound; lia).
  assert (0 <= start mod N < N) by (apply Z.mod_pos_bound; lia).
  rewrite rd_wr_ne by (try lia; specialize (Hk 0%nat ltac:(lia));
                       rewrite Z.add_0_r in Hk; congruence).
  f_equal. apply IH. intros k Hkn. specialize (Hk (S k) ltac:(lia)).
  by replace (start + 1 + Z.of_nat k) with (start + Z.of_nat (S k)) by lia.
Qed.

Section wf.
Variable raw : list Z.
Hypothesis raw_len : Z.of_nat (length raw) = N.

(** Writing the byte just behind the window appends it. *)
Lemma ring_read_push_back start n x :
  Z.of_nat n < N ->
  ring_read (wr raw ((start + Z.of_nat n) mod N) x) start (S n) =
  ring_read raw start n ++ [x].
Proof.
  intros Hn. replace (S n) with (n + 1)%nat by lia.
  rewrite ring_read_app. f_equal.
  - apply ring_read_wr_outside. intros k Hk Heq. symmetry in Heq.
    replace (start + Z.of_nat n) with ((start + Z.of_nat k) + (Z.of_nat n - Z.of_nat k))
      in Heq by lia. apply mod_neq in Heq; lia.
  - cbn [ring_read]. rewrite rd_wr_eq; [done|].
    rewrite raw_len. apply Z.mod_pos_bound. lia.
Qed.

(** Writing the byte just before the window pushes it in front. *)
Lemma ring_read_push_front start n x :
  Z.of_nat n < N ->
  ring_read (wr raw (start mod N) x) start (S n) =
  x :: ring_read raw (start + 1) n.
Proof.
  intros Hn. cbn [ring_read]. rewrite rd_wr_eq.
  2: { rewrite raw_len. apply Z.mod_pos_bound. lia. }
  f_equal. apply ring_read_wr_outside. intros k Hk.
  replace (start + 1 + Z.of_nat k) with (start + (1 + Z.of_nat k)) by lia.
  apply mod_neq. lia.
Qed.
End wf.

Lemma ring_read_bytes raw start n : bytes raw -> bytes (ring_read raw start n).
Proof.
  intros Hr. revert start. induction n; intros; simpl; constructor; auto with words.
  apply IHn.
Qed.
End ring.

#[export] Hint Resolve ring_read_bytes : words.
