(* ===== verification/Queue.v ===== *)
(** * The byte queues of the relay components

    [queue_t] of apps/*/include/my_type.h and [deque_t] of
    apps/comm-crypto-block/include/my_type.h: a 4096-byte array used
    circularly.  [Queue] and [Deque] translate the macros; the class
    [ByteFifo] is what the encryption and decryption components rely on, a
    bounded first-in first-out list of bytes, and both implementations
    satisfy it. *)

From S2P Require Import Prelude Ring.

Local Open Scope Z_scope.

(** ** What a client relies on *)

(** A bounded byte queue with an abstraction to the list of queued bytes.
    [fifo_put] and [fifo_get] return the C result code (0, or -1 when the
    operation is refused); a refused operation leaves the queue as it is. *)
Class ByteFifo (Q : Type) := {
  fifo_init : Q -> Q;
  fifo_size : Q -> Z;
  fifo_put : Q -> Z -> Z * Q;
  fifo_get : Q -> option Z * Q;
  fifo_wf : Q -> Prop;
  fifo_contents : Q -> list Z;
  fifo_capacity : Z;
  fifo_init_spec q : fifo_wf q -> fifo_wf (fifo_init q) /\ fifo_contents (fifo_init q) = [];
  fifo_size_spec q : fifo_wf q -> fifo_size q = Z.of_nat (length (fifo_contents q));
  fifo_bound q : fifo_wf q -> Z.of_nat (length (fifo_contents q)) <= fifo_capacity;
  fifo_put_ok q x :
    fifo_wf q -> is_u8 x -> Z.of_nat (length (fifo_contents q)) < fifo_capacity ->
    exists q', fifo_put q x = (0, q') /\ fifo_wf q' /\
      fifo_contents q' = fifo_contents q ++ [x];
  fifo_put_full q x :
    fifo_wf q -> Z.of_nat (length (fifo_contents q)) = fifo_capacity ->
    fifo_put q x = (-1, q);
  fifo_get_ok q x l :
    fifo_wf q -> fifo_contents q = x :: l ->
    exists q', fifo_get q = (Some x, q') /\ fifo_wf q' /\ fifo_contents q' = l;
  fifo_get_empty q :
    fifo_wf q -> fifo_contents q = [] -> fifo_get q = (None, q);
}.

Definition MAX_QUEUE_SIZE : Z := 4096.

Module Queue.
Record queue_t := mk_queue {
  raw_queue : list Z;
  head : Z;
  size : Z;
}.

Definition queue_init (q : queue_t) : queue_t :=
  {| raw_queue := replicate (Z.to_nat MAX_QUEUE_SIZE) (u8 (-1));
     head := 0; size := 0 |}.

Definition queue_full (q : queue_t) : bool := size q =? MAX_QUEUE_SIZE.

Definition queue_empty (q : queue_t) : bool := size q =? 0.

Definition enqueue (q : queue_t) (x : Z) : Z * queue_t :=
  if queue_full q then (-1, q)
  else
    let _index := (u32 (head q + size q)) mod MAX_QUEUE_SIZE in
    (0, {| raw_queue := wr (raw_queue q) _index (u8 x);
           head := head q;
           size := u32 (size q + 1) |}).

(** [*ret] is written only when a byte is taken: [None] is the result -1
    with [*ret] untouched. *)
Definition dequeue (q : queue_t) : option Z * queue_t :=
  if queue_empty q then (None, q)
  else
    (Some (rd (raw_queue q) (head q)),
     {| raw_queue := raw_queue q;
        head := (u32 (head q + 1)) mod MAX_QUEUE_SIZE;
        size := u32 (size q - 1) |}).

Definition wf (q : queue_t) : Prop :=
  Z.of_nat (length (raw_queue q)) = MAX_QUEUE_SIZE /\ bytes (raw_queue q) /\
  0 <= head q < MAX_QUEUE_SIZE /\ 0 <= size q <= MAX_QUEUE_SIZE.

Definition contents (q : queue_t) : list Z :=
  ring_read MAX_QUEUE_SIZE (raw_queue q) (head q) (Z.to_nat (size q)).

(** The bytes [print_queue] writes: [size] bytes from [head] on. *)
Definition print_queue (q : queue_t) : list Z :=
  (fix go (n : nat) (h : Z) : list Z :=
     match n with
     | O => []
     | S n => rd (raw_queue q) h :: go n ((u32 (h + 1)) mod MAX_QUEUE_SIZE)
     end) (Z.to_nat (size q)) (head q).

Lemma length_contents q : wf q -> Z.of_nat (length (contents q)) = size q.
Proof. intros (_ & _ & _ & ?). unfold contents. rewrite length_ring_read. lia. Qed.

Lemma contents_bytes q : wf q -> bytes (contents q).
Proof. intros (_ & ? & _). unfold contents. auto with words. Qed.

Lemma queue_init_wf q : wf (queue_init q) /\ contents (queue_init q) = [].
Proof.
  split; [|done]. unfold wf, queue_init, MAX_QUEUE_SIZE. cbn [raw_queue head size].
  rewrite length_replicate. split_and!; try lia. apply bytes_replicate. done.
Qed.

Lemma enqueue_spec q x :
  wf q -> is_u8 x -> size q < MAX_QUEUE_SIZE ->
  exists q', enqueue q x = (0, q') /\ wf q' /\ contents q' = contents q ++ [x].
Proof.
  intros (Hlen & Hb & Hh & Hs) Hx Hlt. unfold enqueue, queue_full.
  destruct (Z.eqb_spec (size q) MAX_QUEUE_SIZE); [lia|].
  eexists. split; [done|]. unfold MAX_QUEUE_SIZE in *.
  rewrite !(wrap_id 32) by (unfold in_range; lia). rewrite (wrap_id 8) by done.
  split.
  - unfold wf, MAX_QUEUE_SIZE; simpl. rewrite length_wr. split_and!; auto with words; lia.
  - unfold contents; simpl. unfold MAX_QUEUE_SIZE in *.
    replace (Z.to_nat (size q + 1)) with (S (Z.to_nat (size q))) by lia.
    replace (head q + size q) with (head q + Z.of_nat (Z.to_nat (size q))) by lia.
    apply ring_read_push_back; lia.
Qed.

Lemma dequeue_spec q x l :
  wf q -> contents q = x :: l ->
  exists q', dequeue q = (Some x, q') /\ wf q' /\ contents q' = l.
Proof.
  intros Hwf Hc. pose proof (length_contents q Hwf) as Hl. rewrite Hc in Hl.
  destruct Hwf as (Hlen & Hb & Hh & Hs). unfold dequeue, queue_empty.
  destruct (Z.eqb_spec (size q) 0); [simpl in Hl; lia|].
  unfold contents in Hc. unfold MAX_QUEUE_SIZE in *.
  replace (Z.to_nat (size q)) with (S (Z.to_nat (size q - 1))) in Hc by lia.
  cbn [ring_read] in Hc. rewrite Z.mod_small in Hc by lia. injection Hc as <- <-.
  eexists. split; [done|].
  rewrite !(wrap_id 32) by (unfold in_range; lia).
  assert (0 <= (head q + 1) mod 4096 < 4096) by (by apply Z.mod_pos_bound).
  split.
  - unfold wf, MAX_QUEUE_SIZE; simpl. split_and!; auto; lia.
  - unfold contents; simpl. apply ring_read_mod. unfold MAX_QUEUE_SIZE; lia.
Qed.

Lemma enqueue_full q x : wf q -> size q = MAX_QUEUE_SIZE -> enqueue q x = (-1, q).
Proof. intros _ Hs. unfold enqueue, queue_full. by rewrite Hs. Qed.

Lemma dequeue_empty q : wf q -> size q = 0 -> dequeue q = (None, q).
Proof. intros _ Hs. unfold dequeue, queue_empty. by rewrite Hs. Qed.

Lemma print_queue_contents q : wf q -> print_queue q = contents q.
Proof.
  intros (_ & _ & Hh & Hs). unfold print_queue, contents.
  assert (0 <= head q < MAX_QUEUE_SIZE) as Hr by done. clear Hh. revert Hr.
  generalize (head q) as h. induction (Z.to_nat (size q)) as [|n IH]; intros h Hr; [done|].
  unfold MAX_QUEUE_SIZE in *. cbn [ring_read]. rewrite (Z.mod_small h) by lia. f_equal.
  rewrite (wrap_id 32) by (unfold in_range; lia). rewrite IH by (by apply Z.mod_pos_bound).
  apply ring_read_mod. lia.
Qed.
End Queue.

#[export] Instance queue_fifo : ByteFifo Queue.queue_t.
Proof.
  refine {| fifo_init := Queue.queue_init; fifo_size := Queue.size;
            fifo_put := Queue.enqueue; fifo_get := Queue.dequeue;
            fifo_wf := Queue.wf; fifo_contents := Queue.contents;
            fifo_capacity := MAX_QUEUE_SIZE |}.
  - intros q _. apply Queue.queue_init_wf.
  - intros q Hq. by rewrite Queue.length_contents.
  - intros q Hq. rewrite Queue.length_contents by done. apply Hq.
  - intros q x Hq Hx Hl. rewrite Queue.length_contents in Hl by done.
    by apply Queue.enqueue_spec.
  - intros q x Hq Hl. rewrite Queue.length_contents in Hl by done.
    by apply Queue.enqueue_full.
  - intros q x l. apply Queue.dequeue_spec.
  - intros q Hq Hc. apply Queue.dequeue_empty; [done|].
    rewrite <- Queue.length_contents by done. by rewrite Hc.
Defined.

Definition MAX_DEQUE_SIZE : Z := 4096.

Module Deque.
Record deque_t := mk_deque {
  raw_queue : list Z;
  head : Z;
  tail : Z;
  size : Z;
}.

Definition deque_init (q : deque_t) : deque_t :=
  {| raw_queue := replicate (Z.to_nat MAX_DEQUE_SIZE) (u8 (-1));
     head := 0; tail := 0; size := 0 |}.

Definition deque_empty (q : deque_t) : bool := size q =? 0.

Definition deque_full (q : deque_t) : bool := size q =? MAX_DEQUE_SIZE.

Definition deque_pop_front (q : deque_t) : option Z * deque_t :=
  if deque_empty q then (None, q)
  else
    (Some (rd (raw_queue q) (head q)),
     {| raw_queue := raw_queue q;
        head := (u32 (head q + 1)) mod MAX_DEQUE_SIZE;
        tail := tail q;
        size := u32 (size q - 1) |}).

Definition deque_push_back (q : deque_t) (x : Z) : Z * deque_t :=
  if deque_full q then (-1, q)
  else
    (0, {| raw_queue := wr (raw_queue q) (tail q) (u8 x);
           head := head q;
           tail := (u32 (tail q + 1)) mod MAX_DEQUE_SIZE;
           size := u32 (size q + 1) |}).

(** On the branch that stores the byte the macro never assigns [_ret]:
    the result is the indeterminate value [uninit]. *)
Definition deque_push_front (uninit : Z) (q : deque_t) (x : Z) : Z * deque_t :=
  if deque_full q then (-1, q)
  else
    let _index := (u32 (u32 (head q - 1) + MAX_DEQUE_SIZE)) mod MAX_DEQUE_SIZE in
    (uninit,
     {| raw_queue := wr (raw_queue q) _index (u8 x);
        head := (u32 (head q - 1)) mod MAX_DEQUE_SIZE;
        tail := tail q;
        size := u32 (size q + 1) |}).

Definition wf (q : deque_t) : Prop :=
  Z.of_nat (length (raw_queue q)) = MAX_DEQUE_SIZE /\ bytes (raw_queue q) /\
  0 <= head q < MAX_DEQUE_SIZE /\ 0 <= size q <= MAX_DEQUE_SIZE /\
  tail q = (head q + size q) mod MAX_DEQUE_SIZE.

Definition contents (q : deque_t) : list Z :=
  ring_read MAX_DEQUE_SIZE (raw_queue q) (head q) (Z.to_nat (size q)).

Lemma length_deque q : wf q -> Z.of_nat (length (contents q)) = size q.
Proof. intros (_ & _ & _ & ? & _). unfold contents. rewrite length_ring_read. lia. Qed.

Lemma deque_init_wf q : wf (deque_init q) /\ contents (deque_init q) = [].
Proof.
  split; [|done]. unfold wf, deque_init, MAX_DEQUE_SIZE. cbn [raw_queue head size tail].
  rewrite length_replicate. split_and!; try lia; try done. by apply bytes_replicate.
Qed.

Lemma deque_push_back_spec q x :
  wf q -> is_u8 x -> size q < MAX_DEQUE_SIZE ->
  exists q', deque_push_back q x = (0, q') /\ wf q' /\ contents q' = contents q ++ [x].
Proof.
  intros (Hlen & Hb & Hh & Hs & Ht) Hx Hlt. unfold deque_push_back, deque_full.
  destruct (Z.eqb_spec (size q) MAX_DEQUE_SIZE); [lia|].
  eexists. split; [done|]. unfold MAX_DEQUE_SIZE in *.
  assert (0 <= tail q < 4096) by (rewrite Ht; by apply Z.mod_pos_bound).
  rewrite !(wrap_id 32) by (unfold in_range; lia). rewrite (wrap_id 8) by done.
  split.
  - unfold wf, MAX_DEQUE_SIZE; simpl. rewrite length_wr.
    split_and!; auto with words; try lia.
    rewrite Ht, Zplus_mod_idemp_l. f_equal. lia.
  - unfold contents; simpl. unfold MAX_DEQUE_SIZE in *.
    replace (Z.to_nat (size q + 1)) with (S (Z.to_nat (size q))) by lia.
    rewrite Ht.
    replace (head q + size q) with (head q + Z.of_nat (Z.to_nat (size q))) by lia.
    apply ring_read_push_back; lia.
Qed.

Lemma deque_pop_front_spec q x l :
  wf q -> contents q = x :: l ->
  exists q', deque_pop_front q = (Some x, q') /\ wf q' /\ contents q' = l.
Proof.
  intros Hwf Hc. pose proof (length_deque q Hwf) as Hl. rewrite Hc in Hl.
  destruct Hwf as (Hlen & Hb & Hh & Hs & Ht). unfold deque_pop_front, deque_empty.
  destruct (Z.eqb_spec (size q) 0); [simpl in Hl; lia|].
  unfold contents in Hc. unfold MAX_DEQUE_SIZE in *.
  replace (Z.to_nat (size q)) with (S (Z.to_nat (size q - 1))) in Hc by lia.
  cbn [ring_read] in Hc. rewrite Z.mod_small in Hc by lia. injection Hc as <- <-.
  eexists. split; [done|].
  rewrite !(wrap_id 32) by (unfold in_range; lia).
  assert (0 <= (head q + 1) mod 4096 < 4096) by (by apply Z.mod_pos_bound).
  split.
  - unfold wf, MAX_DEQUE_SIZE; simpl. split_and!; auto; try lia.
    rewrite Ht, Zplus_mod_idemp_l. f_equal. lia.
  - unfold contents; simpl. apply ring_read_mod. unfold MAX_DEQUE_SIZE; lia.
Qed.

(** The byte goes in front, whatever the undefined result is. *)
Lemma deque_push_front_spec uninit q x :
  wf q -> is_u8 x -> size q < MAX_DEQUE_SIZE ->
  exists q', deque_push_front uninit q x = (uninit, q') /\ wf q' /\
    contents q' = x :: contents q.
Proof.
  intros (Hlen & Hb & Hh & Hs & Ht) Hx Hlt. unfold deque_push_front, deque_full.
  destruct (Z.eqb_spec (size q) MAX_DEQUE_SIZE); [lia|].
  eexists. split; [done|]. unfold MAX_DEQUE_SIZE in *.
  assert (u32 (u32 (head q - 1) + 4096) mod 4096 = (head q - 1) mod 4096) as ->
    by mod_lia.
  assert (u32 (head q - 1) mod 4096 = (head q - 1) mod 4096) as -> by mod_lia.
  rewrite (wrap_id 32) by (unfold in_range; lia). rewrite (wrap_id 8) by done.
  assert (0 <= (head q - 1) mod 4096 < 4096) by (by apply Z.mod_pos_bound).
  split.
  - unfold wf, MAX_DEQUE_SIZE; simpl. rewrite length_wr.
    split_and!; auto with words; try lia.
    rewrite Ht, Zplus_mod_idemp_l. f_equal. lia.
  - unfold contents; simpl. unfold MAX_DEQUE_SIZE in *.
    replace (Z.to_nat (size q + 1)) with (S (Z.to_nat (size q))) by lia.
    rewrite ring_read_mod by lia.
    rewrite ring_read_push_front by lia.
    do 2 f_equal. lia.
Qed.
End Deque.

#[export] Instance deque_fifo : ByteFifo Deque.deque_t.
Proof.
  refine {| fifo_init := Deque.deque_init; fifo_size := Deque.size;
            fifo_put := Deque.deque_push_back; fifo_get := Deque.deque_pop_front;
            fifo_wf := Deque.wf; fifo_contents := Deque.contents;
            fifo_capacity := MAX_DEQUE_SIZE |}.
  - intros q _. apply Deque.deque_init_wf.
  - intros q Hq. by rewrite Deque.length_deque.
  - intros q Hq. rewrite Deque.length_deque by done. apply Hq.
  - intros q x Hq Hx Hl. rewrite Deque.length_deque in Hl by done.
    by apply Deque.deque_push_back_spec.
  - intros q x Hq Hl. rewrite Deque.length_deque in Hl by done.
    unfold Deque.deque_push_back, Deque.deque_full. by rewrite Hl.
  - intros q x l. apply Deque.deque_pop_front_spec.
  - intros q Hq Hc. unfold Deque.deque_pop_front, Deque.deque_empty.
    rewrite <- Deque.length_deque by done. by rewrite Hc.
Defined.

(** ** Refinement

    A sequence of calls, on an implementation and on the specification: a
    list of at most [cap] bytes.  A result is the code of the call and the
    byte it delivers. *)
Inductive fifo_op := Put (x : Z) | Get.

Definition fifo_result : Type := Z * option Z.

Section refinement.
Context `{ByteFifo Q}.

Definition fifo_do (q : Q) (op : fifo_op) : fifo_result * Q :=
  match op with
  | Put x => let '(r, q) := fifo_put q x in ((r, None), q)
  | Get => let '(o, q) := fifo_get q in ((if o is Some _ then 0 else -1, o), q)
  end.

Fixpoint fifo_run (q : Q) (ops : list fifo_op) : list fifo_result * Q :=
  match ops with
  | [] => ([], q)
  | op :: ops =>
      let '(r, q) := fifo_do q op in
      let '(rs, q) := fifo_run q ops in (r :: rs, q)
  end.

Definition list_do (cap : Z) (l : list Z) (op : fifo_op) : fifo_result * list Z :=
  match op, l with
  | Put x, _ => if Z.of_nat (length l) <? cap then ((0, None), l ++ [x]) else ((-1, None), l)
  | Get, [] => ((-1, None), [])
  | Get, x :: l => ((0, Some x), l)
  end.

Fixpoint list_run (cap : Z) (l : list Z) (ops : list fifo_op) : list fifo_result * list Z :=
  match ops with
  | [] => ([], l)
  | op :: ops =>
      let '(r, l) := list_do cap l op in
      let '(rs, l) := list_run cap l ops in (r :: rs, l)
  end.

Definition op_ok (op : fifo_op) : Prop := match op with Put x => is_u8 x | Get => True end.

Lemma fifo_do_refines q op :
  fifo_wf q -> op_ok op ->
  let '(r, q') := fifo_do q op in
  fifo_wf q' /\ list_do fifo_capacity (fifo_contents q) op = (r, fifo_contents q').
Proof.
  intros Hq Hop. pose proof (fifo_bound q Hq) as Hb. destruct op as [x|]; cbn [fifo_do list_do].
  - destruct (Z.ltb_spec (Z.of_nat (length (fifo_contents q))) fifo_capacity).
    + destruct (fifo_put_ok q x Hq Hop) as (q' & -> & Hq' & ->); [done|]. by split.
    + rewrite (fifo_put_full q x Hq) by lia. by split.
  - destruct (fifo_contents q) as [|x l] eqn:E.
    + rewrite (fifo_get_empty q Hq E). by rewrite E.
    + destruct (fifo_get_ok q x l Hq E) as (q' & -> & Hq' & ->). by split.
Qed.

Lemma fifo_run_refines ops : forall q,
  fifo_wf q -> Forall op_ok ops ->
  let '(rs, q') := fifo_run q ops in
  fifo_wf q' /\ list_run fifo_capacity (fifo_contents q) ops = (rs, fifo_contents q').
Proof.
  induction ops as [|op ops IH]; intros q Hq Hops; [by split|].
  apply List.Forall_cons_iff in Hops as [Hop Hops]. cbn [fifo_run list_run].
  pose proof (fifo_do_refines q op Hq Hop) as H1. destruct (fifo_do q op) as [r q1].
  destruct H1 as [Hq1 ->]. specialize (IH q1 Hq1 Hops). destruct (fifo_run q1 ops) as [rs q2].
  destruct IH as [Hq2 ->]. by split.
Qed.
End refinement.

(** C35. Both circular buffers refine the same specification: from
    initialisation on, every sequence of calls gives the results that it gives
    on a list of at most 4096 bytes, refusals included. *)
Theorem byte_queues_refine_list ops q d :
  Forall op_ok ops ->
  let '(qrs, q') := fifo_run (Queue.queue_init q) ops in
  let '(drs, d') := fifo_run (Deque.deque_init d) ops in
  let '(rs, l) := list_run MAX_QUEUE_SIZE [] ops in
  qrs = rs /\ drs = rs /\ Queue.contents q' = l /\ Deque.contents d' = l /\
  Queue.print_queue q' = l /\ Z.of_nat (length l) <= MAX_QUEUE_SIZE.
Proof.
  intros Hops.
  destruct (Queue.queue_init_wf q) as [Hq Eq]. destruct (Deque.deque_init_wf d) as [Hd Ed].
  pose proof (fifo_run_refines (H:=queue_fifo) ops _ Hq Hops) as H1. pose proof (fifo_run_refines (H:=deque_fifo) ops _ Hd Hops) as H2.
  cbn [fifo_contents fifo_capacity queue_fifo deque_fifo fifo_wf] in H1, H2. rewrite Eq in H1. rewrite Ed in H2.
  destruct (fifo_run (Queue.queue_init q) ops) as [qrs q']. destruct (fifo_run (Deque.deque_init d) ops) as [drs d'].
  destruct H1 as [Hq' E1]. destruct H2 as [_ E2]. change MAX_DEQUE_SIZE with MAX_QUEUE_SIZE in E2.
  rewrite E1. rewrite E1 in E2. injection E2 as <- El. split_and!; try done.
  - by apply Queue.print_queue_contents.
  - rewrite (Queue.length_contents q') by done. apply Hq'.
Qed.

Lemma byte_queues_refine_list_witness :
  let ops := [Get; Put 7; Put 8; Get; Put 9; Get; Get; Get] in
  let '(qrs, q') := fifo_run (Queue.queue_init (Queue.mk_queue [] 5 9)) ops in
  let '(drs, d') := fifo_run (Deque.deque_init (Deque.mk_deque [] 1 2 3)) ops in
  let '(rs, l) := list_run MAX_QUEUE_SIZE [] ops in
  qrs = rs /\ drs = rs /\ Queue.contents q' = l /\ Deque.contents d' = l /\
  Queue.print_queue q' = l /\ Z.of_nat (length l) <= MAX_QUEUE_SIZE.
Proof.
  refine (byte_queues_refine_list [Get; Put 7; Put 8; Get; Put 9; Get; Get; Get] (Queue.mk_queue [] 5 9) (Deque.mk_deque [] 1 2 3) _).
  repeat (apply Forall_cons_2; [first [exact I | cbn [op_ok]; decide_true]|]).
  apply Forall_nil_2.
Defined.
