(* ===== verification/RingBuffer.v ===== *)
(** * The shared receive ring buffer

    [ring_buffer_t] is a CAmkES dataport shared by one producer (the serial
    receiver: Pixhawk, Telemetry, Pixhawk_RX, Telemetry_RX) and one consumer
    (Encrypt, Decrypt, KeyExchange).  The two run on different cores and
    synchronise only through [head] and [tail]; the acquire/release fences
    around each access make the accesses sequentially consistent, so the
    system is a step relation whose steps are the single accesses of the two
    loops.  The producer never looks at [head]: the ghost flag [overrun]
    records that it caught up with the consumer. *)

From S2P Require Import Prelude Ring.

Local Open Scope Z_scope.

Definition RING_BUFFER_SIZE : Z := 2048.

Record ring_buffer_t := mk_rb {
  rb_buffer : list Z;
  rb_head : Z;
  rb_tail : Z;
}.

Definition set_buffer (rb : ring_buffer_t) (b : list Z) : ring_buffer_t :=
  {| rb_buffer := b; rb_head := rb_head rb; rb_tail := rb_tail rb |}.
Definition set_head (rb : ring_buffer_t) (h : Z) : ring_buffer_t :=
  {| rb_buffer := rb_buffer rb; rb_head := h; rb_tail := rb_tail rb |}.
Definition set_tail (rb : ring_buffer_t) (t : Z) : ring_buffer_t :=
  {| rb_buffer := rb_buffer rb; rb_head := rb_head rb; rb_tail := t |}.

(** [rb->head = 0; rb->tail = 0;] of the receivers' [pre_init]. *)
Definition rb_reset (rb : ring_buffer_t) : ring_buffer_t :=
  set_tail (set_head rb 0) 0.

(** The producer's loop body once [ps_cdev_getchar] has returned [c]:
    store at [tail], then publish the next index. *)
Definition rb_put (rb : ring_buffer_t) (c : Z) : ring_buffer_t :=
  let t := rb_tail rb in
  let rb := set_buffer rb (wr (rb_buffer rb) t (u8 c)) in
  let t := (u32 (t + 1)) mod RING_BUFFER_SIZE in
  set_tail rb t.

Definition rb_wf (rb : ring_buffer_t) : Prop :=
  Z.of_nat (length (rb_buffer rb)) = RING_BUFFER_SIZE /\ bytes (rb_buffer rb) /\
  0 <= rb_head rb < RING_BUFFER_SIZE /\ 0 <= rb_tail rb < RING_BUFFER_SIZE.

Definition next_index (i : Z) : Z := (u32 (i + 1)) mod RING_BUFFER_SIZE.

Lemma next_index_mod k : next_index (k mod RING_BUFFER_SIZE) = (k + 1) mod RING_BUFFER_SIZE.
Proof. unfold next_index, RING_BUFFER_SIZE. mod_lia. Qed.

Lemma rb_put_wf rb c : rb_wf rb -> rb_wf (rb_put rb c).
Proof.
  intros (Hl & Hb & Hh & Ht). unfold rb_wf, rb_put; simpl. rewrite length_wr.
  split_and!; auto with words; try lia.
  - apply Z.mod_pos_bound. unfold RING_BUFFER_SIZE; lia.
  - apply Z.mod_pos_bound. unfold RING_BUFFER_SIZE; lia.
Qed.

(** ** Producer and consumer, one memory access at a time *)

Inductive producer :=
  | PWait                      (** polling [ps_cdev_getchar] *)
  | PGot (c : Z)               (** before [tail = rb->tail] *)
  | PLoaded (c t : Z)          (** before [rb->buffer[tail] = c] *)
  | PStored (c t : Z).         (** before [rb->tail = (tail + 1) % SIZE] *)

Inductive consumer :=
  | CTop (h : Z)               (** before [tail = ringbuffer->tail] *)
  | CLoop (h t : Z).           (** [while (head != tail)] *)

Record system := mk_system {
  rb : ring_buffer_t;
  prod : producer;
  cons : consumer;
  sent : list Z;               (** ghost: bytes published by the producer *)
  got : list Z;                (** ghost: bytes handled by the consumer *)
  overrun : bool;              (** ghost: the producer lapped the consumer *)
}.

Inductive step : system -> system -> Prop :=
  | step_getchar b k s g o c :
      is_u8 c ->
      step (mk_system b PWait k s g o) (mk_system b (PGot c) k s g o)
  | step_load_tail b k s g o c :
      step (mk_system b (PGot c) k s g o) (mk_system b (PLoaded c (rb_tail b)) k s g o)
  | step_store b k s g o c t :
      step (mk_system b (PLoaded c t) k s g o)
           (mk_system (set_buffer b (wr (rb_buffer b) t (u8 c))) (PStored c t) k s g
              (o || bool_decide (RING_BUFFER_SIZE <= Z.of_nat (length s) - Z.of_nat (length g) + 1)))
  | step_publish b k s g o c t :
      step (mk_system b (PStored c t) k s g o)
           (mk_system (set_tail b (next_index t)) PWait k (s ++ [c]) g o)
  | step_snapshot b p s g o h :
      step (mk_system b p (CTop h) s g o) (mk_system b p (CLoop h (rb_tail b)) s g o)
  | step_drained b p s g o h t :
      h = t ->
      step (mk_system b p (CLoop h t) s g o) (mk_system b p (CTop h) s g o)
  | step_read b p s g o h t :
      h <> t ->
      step (mk_system b p (CLoop h t) s g o)
           (mk_system b p (CLoop (next_index h) t) s (g ++ [rd (rb_buffer b) h]) o).

Inductive steps : system -> system -> Prop :=
  | steps_refl s : steps s s
  | steps_step s1 s2 s3 : steps s1 s2 -> step s2 s3 -> steps s1 s3.

(** After the producer's [pre_init] has reset the indices; the consumer
    loads [head] once before its loop. *)
Definition initial (s : system) : Prop :=
  exists b, rb_wf b /\
    s = mk_system (rb_reset b) PWait (CTop (rb_head (rb_reset b))) [] [] false.

Definition reachable (s : system) : Prop := exists s0, initial s0 /\ steps s0 s.

(** ** The invariant of a run without overrun *)

Definition index_of (l : list Z) : Z := Z.of_nat (length l) mod RING_BUFFER_SIZE.

Definition producer_ok (s : system) : Prop :=
  match prod s with
  | PWait => True
  | PGot c => is_u8 c
  | PLoaded c t => is_u8 c /\ t = index_of (sent s)
  | PStored c t =>
      is_u8 c /\ t = index_of (sent s) /\ rd (rb_buffer (rb s)) t = c /\
      Z.of_nat (length (sent s)) - Z.of_nat (length (got s)) + 1 < RING_BUFFER_SIZE
  end.

Definition consumer_ok (s : system) : Prop :=
  match cons s with
  | CTop h => h = index_of (got s)
  | CLoop h t =>
      h = index_of (got s) /\
      exists k : nat, (length (got s) <= k <= length (sent s))%nat /\
        t = Z.of_nat k mod RING_BUFFER_SIZE
  end.

Record inv (s : system) : Prop := {
  inv_len : Z.of_nat (length (rb_buffer (rb s))) = RING_BUFFER_SIZE;
  inv_tail : rb_tail (rb s) = index_of (sent s);
  inv_le : (length (got s) <= length (sent s))%nat;
  inv_room : Z.of_nat (length (sent s)) - Z.of_nat (length (got s)) < RING_BUFFER_SIZE;
  inv_got : got s = take (length (got s)) (sent s);
  inv_data : forall k : nat, (length (got s) <= k < length (sent s))%nat ->
    rd (rb_buffer (rb s)) (Z.of_nat k mod RING_BUFFER_SIZE) = default 0 (sent s !! k);
  inv_prod : producer_ok s;
  inv_cons : consumer_ok s;
}.

Lemma index_of_snoc l x : next_index (index_of l) = index_of (l ++ [x]).
Proof.
  unfold index_of. rewrite next_index_mod, length_app. simpl. f_equal. lia.
Qed.

(** Distinct positions of an unfilled window have distinct slots. *)
Lemma slot_inj a b :
  a mod RING_BUFFER_SIZE = b mod RING_BUFFER_SIZE ->
  - RING_BUFFER_SIZE < a - b < RING_BUFFER_SIZE -> a = b.
Proof. unfold RING_BUFFER_SIZE. mod_lia. Qed.

Lemma index_of_range l : 0 <= index_of l < RING_BUFFER_SIZE.
Proof. unfold index_of. apply Z.mod_pos_bound. unfold RING_BUFFER_SIZE; lia. Qed.

Lemma initial_inv s : initial s -> inv s.
Proof.
  intros (b & (Hl & Hb & Hh & Ht) & ->).
  constructor; simpl; try done.
  intros k ?; lia.
Qed.

(** A store outside the window leaves the invariant's data clause. *)
Lemma data_store (s g b : list Z) c (t := index_of s) :
  Z.of_nat (length s) - Z.of_nat (length g) + 1 < RING_BUFFER_SIZE ->
  (forall k : nat, (length g <= k < length s)%nat ->
     rd b (Z.of_nat k mod RING_BUFFER_SIZE) = default 0 (s !! k)) ->
  forall k : nat, (length g <= k < length s)%nat ->
     rd (wr b t c) (Z.of_nat k mod RING_BUFFER_SIZE) = default 0 (s !! k).
Proof.
  intros Hroom Hd k Hk. subst t. unfold index_of in *.
  assert (0 < RING_BUFFER_SIZE) by (unfold RING_BUFFER_SIZE; lia).
  rewrite rd_wr_ne; [by apply Hd| | |]; try (apply Z.mod_pos_bound; lia).
  intros Heq. apply slot_inj in Heq; lia.
Qed.

Lemma step_overrun_mono s1 s2 : step s1 s2 -> overrun s2 = false -> overrun s1 = false.
Proof. destruct 1; simpl; auto. intros [? ?]%orb_false_iff. done. Qed.

Lemma step_inv s1 s2 : step s1 s2 -> overrun s2 = false -> inv s1 -> inv s2.
Proof.
  intros Hstep Hno [Hl Ht Hle Hroom Hgot Hdata Hp Hc].
  destruct Hstep as [b k s g o c Hc8|b k s g o c|b k s g o c t|b k s g o c t
                    |b p s g o h|b p s g o h t Hht|b p s g o h t Hht];
    simpl in *; unfold producer_ok, consumer_ok in *; simpl in *.
  - constructor; simpl; auto.
  - constructor; simpl; auto. split; [exact Hp|exact Ht].
  - apply orb_false_iff in Hno as [_ Hno]. apply bool_decide_eq_false in Hno.
    destruct Hp as [Hc8 ->]. rewrite (wrap_id 8) by done.
    constructor; simpl; auto.
    + by rewrite length_wr.
    + apply data_store; [lia|done].
    + unfold producer_ok; simpl. split_and!; [done|done| |lia].
      apply rd_wr_eq. rewrite Hl. apply index_of_range.
  - destruct Hp as (Hc8 & -> & Hrd & Hroom1).
    constructor; simpl; rewrite ?length_app; simpl; auto; try lia.
    + apply index_of_snoc.
    + rewrite take_app_le by lia. done.
    + intros j Hj. destruct (decide (j < length s)%nat).
      * rewrite Hdata by lia. by rewrite lookup_app_l by lia.
      * assert (j = length s) as -> by lia.
        rewrite lookup_app_r by lia. rewrite Nat.sub_diag. exact Hrd.
    + exact I.
    + unfold consumer_ok in *; simpl. destruct k as [h|h t]; [done|].
      destruct Hc as [? (j & Hj & ->)]. split; [done|]. exists j.
      rewrite length_app; simpl. split; [lia|done].
  - constructor; simpl; auto. unfold consumer_ok; simpl. split; [done|].
    exists (length s). split; [lia|done].
  - constructor; simpl; auto. unfold consumer_ok; simpl. by destruct Hc.
  - destruct Hc as [-> (j & Hj & ->)].
    assert (length g < j)%nat as Hlt.
    { destruct (decide (length g = j)); [|lia]. subst j. by destruct Hht. }
    assert (rd (rb_buffer b) (index_of g) = default 0 (s !! length g)) as Hrd
      by (apply Hdata; lia).
    constructor; simpl; rewrite ?length_app; simpl; auto; try lia.
    + rewrite Nat.add_1_r, take_snoc_lookup by lia. rewrite Hrd. by f_equal.
    + intros i Hi. apply Hdata. lia.
    + destruct p; simpl in *; auto. unfold producer_ok; simpl.
      destruct Hp as (? & ? & ? & ?). rewrite length_app; simpl. split_and!; auto; lia.
    + unfold consumer_ok; simpl. split; [apply index_of_snoc|].
      exists j. rewrite length_app; simpl. split; [lia|done].
Qed.

Lemma steps_inv s0 s : steps s0 s -> overrun s = false -> inv s0 -> inv s.
Proof.
  induction 1 as [|s1 s2 s3 H12 IH H23]; [done|]. intros Hno Hi.
  eapply step_inv; eauto. apply IH; [|done]. by eapply step_overrun_mono.
Qed.

Lemma steps_trans s1 s2 s3 : steps s1 s2 -> steps s2 s3 -> steps s1 s3.
Proof.
  intros H12 H23. induction H23 as [|a b c Hab IH Hbc]; [done|].
  apply steps_step with b; [by apply IH|done].
Qed.

Lemma steps_one s1 s2 : step s1 s2 -> steps s1 s2.
Proof. intros. by apply steps_step with s1; [constructor|]. Qed.

#[local] Hint Constructors step steps : core.
#[local] Hint Resolve steps_one : core.

Lemma reachable_inv s : reachable s -> overrun s = false -> inv s.
Proof.
  intros (s0 & Hi & Hs) Ho. eapply steps_inv; eauto. by apply initial_inv.
Qed.

(** ** What the consumer sees *)

(** C23. in every interleaving of the receiver's and the consumer's loops in
    which the receiver has not lapped the consumer, the bytes the consumer
    has handled are exactly the first bytes the receiver published, in order
    and without loss or duplication, and fewer than 2048 bytes are pending. *)
Theorem spsc_fifo s :
  reachable s -> overrun s = false ->
  got s = take (length (got s)) (sent s) /\
  Z.of_nat (length (sent s)) - Z.of_nat (length (got s)) < RING_BUFFER_SIZE.
Proof. intros Hr Ho. destruct (reachable_inv s Hr Ho). done. Qed.

(** Left alone, the consumer handles every published byte. *)
Lemma consumer_drains n b p s g o h t :
  inv (mk_system b p (CLoop h t) s g o) ->
  overrun (mk_system b p (CLoop h t) s g o) = false ->
  (length s - length g <= n)%nat ->
  exists g', steps (mk_system b p (CLoop h t) s g o) (mk_system b p (CTop t) s g' o) /\
    t = index_of g' /\ (length g <= length g')%nat.
Proof.
  revert g h. induction n as [n IH] using lt_wf_ind. intros g h Hi Ho Hn.
  pose proof (inv_cons _ Hi) as Hc. cbn in Hc. destruct Hc as [Hh (k & Hk & Ht)].
  simpl in Hk. destruct (decide (h = t)) as [->|Hne].
  - exists g. split; [eauto|]. split; [by rewrite Hh|lia].
  - assert (step (mk_system b p (CLoop h t) s g o)
              (mk_system b p (CLoop (next_index h) t) s (g ++ [rd (rb_buffer b) h]) o))
      as Hst by eauto.
    pose proof (step_inv _ _ Hst Ho Hi) as Hi'.
    pose proof (inv_le _ Hi') as Hle. simpl in Hle. rewrite length_app in Hle. simpl in Hle.
    destruct (IH (n - 1)%nat ltac:(lia) _ _ Hi' Ho) as (g' & Hsteps & Hg' & Hlen).
    { rewrite length_app; simpl. lia. }
    exists g'. split_and!; [|done|].
    + eapply steps_trans; [by apply steps_one|done].
    + rewrite length_app in Hlen. lia.
Qed.

(** whatever state the two loops are in, if the receiver has not lapped
    the consumer then the consumer's own steps alone bring it to the point
    where it has handled every published byte. *)
Theorem consumer_catches_up s :
  reachable s -> overrun s = false ->
  exists s', steps s s' /\ got s' = sent s /\ sent s' = sent s /\ prod s' = prod s /\ overrun s' = false.
Proof.
  intros Hr Ho. pose proof (reachable_inv s Hr Ho) as Hi.
  destruct s as [b p k s g o]; simpl in *.
  assert (exists g0, steps (mk_system b p k s g o)
            (mk_system b p (CTop (index_of g0)) s g0 o)) as (g0 & H0).
  { destruct k as [h|h t].
    - pose proof (inv_cons _ Hi) as Hc. cbn in Hc. subst h. eauto.
    - destruct (consumer_drains (length s) b p s g o h t Hi Ho) as (g' & Hs & -> & _);
        [lia|]. eauto. }
  assert (reachable (mk_system b p (CLoop (index_of g0) (rb_tail b)) s g0 o)) as Hr1.
  { destruct Hr as (s0 & Hi0 & Hs0). exists s0. split; [done|].
    eapply steps_trans; [exact Hs0|]. eapply steps_step; [exact H0|]. constructor. }
  pose proof (reachable_inv _ Hr1 Ho) as Hi1.
  destruct (consumer_drains (length s) _ _ _ _ _ _ _ Hi1 Ho) as (g' & Hs & Ht & _); [lia|].
  assert (inv (mk_system b p (CTop (rb_tail b)) s g' o)) as Hi2.
  { apply (steps_inv _ _ Hs Ho Hi1). }
  exists (mk_system b p (CTop (rb_tail b)) s g' o). simpl. split_and!; try done.
  - eapply steps_trans; [exact H0|]. eapply steps_trans; [|exact Hs].
    apply steps_one. constructor.
  - pose proof (inv_tail _ Hi2) as Htl. pose proof (inv_room _ Hi2) as Hroom.
    pose proof (inv_le _ Hi2) as Hle. pose proof (inv_got _ Hi2) as Hg. simpl in *.
    rewrite Hg, take_ge; [done|]. rewrite Ht in Htl.
    apply slot_inj in Htl; lia.
Qed.

(** The producer alone can publish any bytes. *)
Lemma producer_runs l b h s g o :
  Forall is_u8 l -> rb_tail b = index_of s ->
  exists b' o', rb_tail b' = index_of (s ++ l) /\
    steps (mk_system b PWait (CTop h) s g o) (mk_system b' PWait (CTop h) (s ++ l) g o') /\
    (Z.of_nat (length s) - Z.of_nat (length g) + Z.of_nat (length l) < RING_BUFFER_SIZE -> o' = o).
Proof.
  intros Hl. revert b s o. induction Hl as [|c l Hc Hl IH]; intros b s o Ht.
  { exists b, o. rewrite app_nil_r. auto. }
  set (b1 := set_buffer b (wr (rb_buffer b) (rb_tail b) (u8 c))).
  destruct (IH (set_tail b1 (next_index (rb_tail b))) (s ++ [c])
     (o || bool_decide (RING_BUFFER_SIZE <= Z.of_nat (length s) - Z.of_nat (length g) + 1)))
    as (b' & o' & Ht' & Hs' & Ho').
  { simpl. rewrite Ht. apply index_of_snoc. }
  exists b', o'. rewrite <- app_assoc in Ht', Hs'. simpl in Ht', Hs'. split; [done|]. split.
  2:{ rewrite length_app in Ho'. cbn [length] in *. intros Hlim. rewrite Ho' by lia.
      rewrite bool_decide_eq_false_2 by lia. apply orb_false_r. }
  eapply steps_trans; [|exact Hs'].
  eapply steps_step; [|constructor].
  eapply steps_step; [|constructor].
  eapply steps_step; [|constructor].
  by apply steps_one; constructor.
Qed.

(** A zeroed dataport. *)
Definition blank_rb : ring_buffer_t :=
  {| rb_buffer := replicate (Z.to_nat RING_BUFFER_SIZE) 0; rb_head := 0; rb_tail := 0 |}.

Lemma blank_rb_wf : rb_wf blank_rb.
Proof.
  unfold rb_wf, blank_rb. cbn [rb_buffer rb_head rb_tail]. rewrite length_replicate.
  split_and!; try done. by apply bytes_replicate.
Qed.

(** Nothing stops the receiver from lapping the consumer.  Any 2048
    bytes can be published in a row, after which the indices agree again, so
    the polling consumer sees an empty buffer: all 2048 bytes are lost. *)
Theorem receiver_laps_silently l :
  Forall is_u8 l -> Z.of_nat (length l) = RING_BUFFER_SIZE ->
  exists s, reachable s /\ sent s = l /\ got s = [] /\
    cons s = CTop (rb_tail (rb s)).
Proof.
  intros Hl Hlen.
  destruct (producer_runs l blank_rb 0 [] [] false Hl) as (b' & o' & Ht & Hs & _); [done|].
  exists (mk_system b' PWait (CTop 0) l [] o'). split_and!; try done.
  - exists (mk_system blank_rb PWait (CTop 0) [] [] false). split; [|done].
    exists blank_rb. split; [apply blank_rb_wf|done].
  - cbn. f_equal. rewrite Ht. cbn [app]. unfold index_of. rewrite Hlen. by rewrite Z.mod_same.
Qed.

(** As many bytes as fit can be published and then taken. *)
Lemma published_and_taken l :
  Forall is_u8 l -> Z.of_nat (length l) < RING_BUFFER_SIZE ->
  exists s, reachable s /\ overrun s = false /\ sent s = l /\ got s = l.
Proof.
  intros Hl Hlen. destruct (producer_runs l blank_rb 0 [] [] false Hl) as (b' & o' & Ht & Hs & Ho); [done|].
  rewrite (Ho Hlen) in Hs.
  assert (reachable (mk_system b' PWait (CTop 0) l [] false)) as Hr.
  { exists (mk_system blank_rb PWait (CTop 0) [] [] false). split; [|exact Hs].
    exists blank_rb. split; [apply blank_rb_wf|done]. }
  destruct (consumer_catches_up _ Hr eq_refl) as (s' & Hs' & Hg & He & _ & Hov). exists s'.
  destruct Hr as (s0 & Hi & H0). split; [|split_and!; done || auto].
  exists s0. split; [exact Hi|]. by eapply steps_trans.
Qed.

(** The receiver alone has published the byte 65. *)
Definition one_published : system :=
  mk_system (set_tail (set_buffer blank_rb (wr (rb_buffer blank_rb) 0 65)) 1) PWait (CTop 0) [65] [] false.

Lemma one_published_reachable : reachable one_published.
Proof.
  exists (mk_system blank_rb PWait (CTop 0) [] [] false).
  split; [exists blank_rb; split; [apply blank_rb_wf|done]|].
  assert (is_u8 65) as H by done.
  exact (steps_step _ _ _ (steps_step _ _ _ (steps_step _ _ _ (steps_one _ _
    (step_getchar blank_rb (CTop 0) [] [] false 65 H)) (step_load_tail _ _ _ _ _ _)) (step_store _ _ _ _ _ _ _))
    (step_publish _ _ _ _ _ _ _)).
Qed.

Lemma spsc_fifo_witness :
  got one_published = take (length (got one_published)) (sent one_published) /\
  Z.of_nat (length (sent one_published)) - Z.of_nat (length (got one_published)) < RING_BUFFER_SIZE.
Proof. exact (spsc_fifo one_published one_published_reachable eq_refl). Defined.

Lemma consumer_catches_up_witness :
  exists s', steps one_published s' /\ got s' = [65] /\ sent s' = [65] /\ prod s' = PWait /\ overrun s' = false.
Proof. exact (consumer_catches_up one_published one_published_reachable eq_refl). Defined.

Lemma receiver_laps_silently_witness :
  exists s, reachable s /\ sent s = replicate 2048 7 /\ got s = [] /\ cons s = CTop (rb_tail (rb s)).
Proof.
  refine (receiver_laps_silently (replicate 2048 7) _ eq_refl).
  apply Forall_replicate. decide_true.
Defined.
