(* ===== verification/Checksum.v ===== *)
(** * The MAVLink checksum

    mavlink/include/mavlink/v2.0/checksum.h: the CRC-16/MCRF4XX that ends
    every frame.  The byte-at-a-time code is proved equal to the bitwise
    definition of the CRC (reflected polynomial 0x8408), and to detect every
    corruption that is confined to one byte of a frame. *)

From S2P Require Import Prelude.

Local Open Scope Z_scope.

Definition X25_INIT_CRC : Z := 0xffff.

(** [tmp = data ^ (uint8_t)( *crcAccum & 0xff); tmp ^= (tmp<<4); ...] *)
Definition crc_accumulate (data crcAccum : Z) : Z :=
  let tmp := Z.lxor data (u8 (Z.land crcAccum 0xff)) in
  let tmp := u8 (Z.lxor tmp (Z.shiftl tmp 4)) in
  u16 (Z.lxor (Z.lxor (Z.lxor (Z.shiftr crcAccum 8) (Z.shiftl tmp 8))
                 (Z.shiftl tmp 3)) (Z.shiftr tmp 4)).

Definition crc_init (_ : Z) : Z := X25_INIT_CRC.

Fixpoint crc_accumulate_buffer (crcAccum : Z) (pBuffer : list Z) : Z :=
  match pBuffer with
  | [] => crcAccum
  | b :: pBuffer => crc_accumulate_buffer (crc_accumulate b crcAccum) pBuffer
  end.

(** The loop [while (length--)] over the buffer. *)
Definition crc_calculate (pBuffer : list Z) : Z :=
  (fix go (l : list Z) (crcTmp : Z) : Z :=
     match l with
     | [] => crcTmp
     | b :: l => go l (crc_accumulate b crcTmp)
     end) pBuffer (crc_init 0).

(** ** Reference: one bit at a time *)

Definition crc_bit (c : Z) : Z :=
  if Z.odd c then Z.lxor (Z.shiftr c 1) 0x8408 else Z.shiftr c 1.

Definition crc_byte_ref (data c : Z) : Z := Nat.iter 8 crc_bit (Z.lxor c data).

Definition crc_ref (l : list Z) : Z := foldl (fun c b => crc_byte_ref b c) X25_INIT_CRC l.

(** ** The step as a table of the low byte *)

Definition crc_table (t : Z) : Z :=
  let t := u8 (Z.lxor t (Z.shiftl t 4)) in
  Z.lxor (Z.lxor (Z.shiftl t 8) (Z.shiftl t 3)) (Z.shiftr t 4).

Lemma crc_table_u16 t : is_u8 t -> is_u16 (crc_table t).
Proof.
  intros Ht. check_bytes t (fun t => bool_decide (is_u16 (crc_table t))).
  by intros ?%bool_decide_eq_true.
Qed.

Lemma low_byte_u8 c : is_u8 (u8 (Z.land c 0xff)).
Proof. by apply wrap_range. Qed.

Lemma crc_accumulate_table d c :
  is_u8 d -> is_u16 c ->
  crc_accumulate d c = Z.lxor (Z.shiftr c 8) (crc_table (Z.lxor d (u8 (Z.land c 0xff)))).
Proof.
  intros Hd Hc. unfold crc_accumulate.
  set (t := Z.lxor d _).
  assert (is_u8 t) as Ht by (apply in_range_lxor; auto using low_byte_u8; lia).
  rewrite !Z.lxor_assoc. rewrite wrap_id; [unfold crc_table; by rewrite !Z.lxor_assoc|].
  apply in_range_lxor; [lia|apply in_range_shiftr; auto; lia|].
  rewrite <- Z.lxor_assoc. by apply crc_table_u16.
Qed.

Lemma crc_accumulate_u16 d c : is_u16 (crc_accumulate d c).
Proof. by apply wrap_range. Qed.

Lemma crc_bit_lxor a b : crc_bit (Z.lxor a b) = Z.lxor (crc_bit a) (crc_bit b).
Proof.
  unfold crc_bit. rewrite <- !Z.bit0_odd, Z.lxor_spec.
  bit_ext i.
  destruct (Z.testbit a 0), (Z.testbit b 0); simpl;
    rewrite ?Z.lxor_spec, ?Z.shiftr_spec, ?Z.lxor_spec by lia;
    destruct (Z.testbit a (i + 1)), (Z.testbit b (i + 1)), (Z.testbit 0x8408 i); done.
Qed.

Lemma crc_bits_lxor n a b :
  Nat.iter n crc_bit (Z.lxor a b) = Z.lxor (Nat.iter n crc_bit a) (Nat.iter n crc_bit b).
Proof. induction n as [|n IH]; simpl; [done|]. by rewrite IH, crc_bit_lxor. Qed.

Lemma crc_bits_shift n h : Nat.iter n crc_bit (Z.shiftl h (Z.of_nat n)) = h.
Proof.
  revert h. induction n as [|n IH]; intros h; [apply Z.shiftl_0_r|].
  rewrite Nat.iter_succ_r.
  replace (crc_bit (Z.shiftl h (Z.of_nat (S n)))) with (Z.shiftl h (Z.of_nat n)); [apply IH|].
  unfold crc_bit. rewrite <- Z.bit0_odd, Z.shiftl_spec_low by lia.
  rewrite Z.shiftr_shiftl_l by lia. f_equal. lia.
Qed.

Lemma split_low_byte c : is_u16 c ->
  c = Z.lxor (Z.shiftl (Z.shiftr c 8) 8) (u8 (Z.land c 0xff)).
Proof.
  intros Hc. bit_ext i.
  rewrite Z.lxor_spec, wrap_testbit, Z.land_spec by lia.
  change 0xff with (Z.ones 8). rewrite Z.testbit_ones_nonneg by lia.
  destruct (decide (i < 8)).
  - rewrite Z.shiftl_spec_low, bool_decide_eq_true_2 by lia.
    replace (i <? 8) with true by (symmetry; by apply Z.ltb_lt). by rewrite !andb_true_r.
  - rewrite Z.shiftl_spec, Z.shiftr_spec by lia.
    rewrite bool_decide_eq_false_2, andb_false_r, xorb_false_r by lia. f_equal. lia.
Qed.

Lemma crc_table_ref t : is_u8 t -> crc_table t = Nat.iter 8 crc_bit t.
Proof.
  intros Ht. check_bytes t (fun t => crc_table t =? Nat.iter 8 crc_bit t).
  by intros ?%Z.eqb_eq.
Qed.

Lemma crc_accumulate_ref d c :
  is_u8 d -> is_u16 c -> crc_accumulate d c = crc_byte_ref d c.
Proof.
  intros Hd Hc. rewrite crc_accumulate_table by done. unfold crc_byte_ref.
  rewrite (split_low_byte c) at 3 by done.
  rewrite Z.lxor_assoc, crc_bits_lxor, (crc_bits_shift 8 _), (Z.lxor_comm _ d).
  f_equal. apply crc_table_ref. apply in_range_lxor; auto using low_byte_u8; lia.
Qed.

Lemma crc_accumulate_buffer_u16 l c : is_u16 c -> is_u16 (crc_accumulate_buffer c l).
Proof. revert c. induction l; intros c Hc; simpl; [done|]. apply IHl, crc_accumulate_u16. Qed.

Lemma crc_accumulate_buffer_app c a b :
  crc_accumulate_buffer c (a ++ b) = crc_accumulate_buffer (crc_accumulate_buffer c a) b.
Proof. revert c. induction a; intros c; simpl; auto. Qed.

Lemma crc_calculate_buffer l : crc_calculate l = crc_accumulate_buffer X25_INIT_CRC l.
Proof.
  unfold crc_calculate, crc_init. generalize X25_INIT_CRC.
  induction l as [|b l IH]; intros c; simpl; [done|apply IH].
Qed.

Lemma crc_calculate_app a b :
  crc_accumulate_buffer (crc_calculate a) b = crc_calculate (a ++ b).
Proof. by rewrite !crc_calculate_buffer, crc_accumulate_buffer_app. Qed.

(** The byte-at-a-time code computes the bitwise CRC of every buffer. *)
Theorem crc_calculate_is_crc16 l : bytes l -> crc_calculate l = crc_ref l.
Proof.
  intros Hl. rewrite crc_calculate_buffer. unfold crc_ref.
  assert (is_u16 X25_INIT_CRC) as Hc by done. revert Hc. generalize X25_INIT_CRC.
  induction Hl as [|b l Hb Hl IH]; intros c Hc; simpl; [done|].
  rewrite crc_accumulate_ref by done. apply IH.
  rewrite <- crc_accumulate_ref by done. apply crc_accumulate_u16.
Qed.

(** ** Error detection *)

(** The high byte of the table entry determines the index. *)
Definition table_high_inv (h : Z) : Z :=
  default 0 (list_find (fun t => Z.shiftr (crc_table t) 8 = h) (seqZ 0 256) ≫= fun p => Some p.2).

Lemma crc_table_high t : is_u8 t -> table_high_inv (Z.shiftr (crc_table t) 8) = t.
Proof.
  intros Ht. check_bytes t (fun t => table_high_inv (Z.shiftr (crc_table t) 8) =? t).
  by intros ?%Z.eqb_eq.
Qed.

Lemma crc_accumulate_high d c :
  is_u8 d -> is_u16 c ->
  table_high_inv (Z.shiftr (crc_accumulate d c) 8) = Z.lxor d (u8 (Z.land c 0xff)).
Proof.
  intros Hd Hc. rewrite crc_accumulate_table by done.
  assert (is_u8 (Z.lxor d (u8 (Z.land c 0xff)))) by
    (apply in_range_lxor; auto using low_byte_u8; lia).
  rewrite Z.shiftr_lxor, Z.shiftr_shiftr by lia.
  replace (Z.shiftr c (8 + 8)) with 0; [rewrite Z.lxor_0_l; by apply crc_table_high|].
  symmetry. apply Z.shiftr_eq_0; [apply Hc|].
  unfold in_range in Hc. destruct (decide (c = 0)) as [->|]; [done|].
  apply Z.log2_lt_pow2; lia.
Qed.

Lemma lxor_cancel_l a b c : Z.lxor a b = Z.lxor a c -> b = c.
Proof.
  intros H%(f_equal (Z.lxor a)).
  by rewrite <- !Z.lxor_assoc, Z.lxor_nilpotent, !Z.lxor_0_l in H.
Qed.

Lemma crc_accumulate_inj_crc d c1 c2 :
  is_u8 d -> is_u16 c1 -> is_u16 c2 ->
  crc_accumulate d c1 = crc_accumulate d c2 -> c1 = c2.
Proof.
  intros Hd H1 H2 Heq.
  pose proof (crc_accumulate_high d c1 Hd H1) as Hh1.
  pose proof (crc_accumulate_high d c2 Hd H2) as Hh2.
  rewrite Heq, Hh2 in Hh1. apply lxor_cancel_l in Hh1.
  rewrite !crc_accumulate_table, Hh1, !(Z.lxor_comm (Z.shiftr _ 8)) in Heq by done.
  apply lxor_cancel_l in Heq.
  by rewrite (split_low_byte c1), (split_low_byte c2), Heq, Hh1 by done.
Qed.

Lemma crc_accumulate_inj_data d1 d2 c :
  is_u8 d1 -> is_u8 d2 -> is_u16 c ->
  crc_accumulate d1 c = crc_accumulate d2 c -> d1 = d2.
Proof.
  intros H1 H2 Hc Heq.
  pose proof (crc_accumulate_high d1 c H1 Hc) as Hh1.
  pose proof (crc_accumulate_high d2 c H2 Hc) as Hh2.
  rewrite Heq, Hh2, !(Z.lxor_comm _ (u8 _)) in Hh1. by apply lxor_cancel_l in Hh1.
Qed.

Lemma crc_accumulate_buffer_inj l c1 c2 :
  bytes l -> is_u16 c1 -> is_u16 c2 ->
  crc_accumulate_buffer c1 l = crc_accumulate_buffer c2 l -> c1 = c2.
Proof.
  intros Hl. revert c1 c2. induction Hl as [|b l Hb Hl IH]; intros c1 c2 H1 H2; simpl; [done|].
  intros ?%IH; auto using crc_accumulate_u16. by eapply crc_accumulate_inj_crc.
Qed.

(** Two buffers that differ in exactly one byte have different checksums:
    any corruption confined to one byte, of whatever bits, is detected. *)
Theorem crc_detects_byte_error a x y b :
  bytes a -> bytes b -> is_u8 x -> is_u8 y -> x <> y ->
  crc_calculate (a ++ x :: b) <> crc_calculate (a ++ y :: b).
Proof.
  intros Ha Hb Hx Hy Hne. rewrite !crc_calculate_buffer, !crc_accumulate_buffer_app. simpl.
  set (c := crc_accumulate_buffer X25_INIT_CRC a).
  assert (is_u16 c) as Hc by (by apply crc_accumulate_buffer_u16).
  intros ?%crc_accumulate_buffer_inj; auto using crc_accumulate_u16.
  apply Hne. by eapply crc_accumulate_inj_data.
Qed.

Lemma crc_detects_byte_error_witness :
  crc_calculate ([1; 2] ++ 3 :: [4]) <> crc_calculate ([1; 2] ++ 7 :: [4]).
Proof. apply crc_detects_byte_error; [decide_true|decide_true|decide_true|decide_true|lia]. Defined.

(** The CRC-16/MCRF4XX check value of "123456789". *)
Example crc_check_value : crc_calculate [49; 50; 51; 52; 53; 54; 55; 56; 57] = 0x6f91.
Proof. vm_compute. reflexivity. Qed.

Lemma crc_calculate_is_crc16_witness :
  crc_calculate [49; 50; 51] = crc_ref [49; 50; 51].
Proof. apply crc_calculate_is_crc16. decide_true. Defined.
