(* ===== verification/Blocks.v ===== *)
(** * Iterated block processing

    What the two streaming hashes of the code base promise: a state folded
    over the full blocks of the data seen so far, and the bytes of the last,
    incomplete block.  [absorb] and [rest] say what these are for a whole
    message; [absorb_app] and [rest_app] say that a message may be supplied
    in pieces. *)

From S2P Require Import Prelude.

Local Open Scope Z_scope.

Section blocks.
Context {S : Type} (f : S -> list Z -> S) (B : nat).
Hypothesis B_pos : (0 < B)%nat.

Fixpoint absorb_n (k : nat) (s : S) (d : list Z) : S :=
  match k with
  | O => s
  | Datatypes.S k => absorb_n k (f s (take B d)) (drop B d)
  end.

Definition absorb (s : S) (d : list Z) : S := absorb_n (length d / B) s d.
Definition rest (d : list Z) : list Z := drop (B * (length d / B)) d.

Lemma length_rest d : length (rest d) = (length d mod B)%nat.
Proof.
  unfold rest. rewrite length_drop.
  pose proof (Nat.div_mod_eq (length d) B). lia.
Qed.

Lemma rest_lt d : (length (rest d) < B)%nat.
Proof. rewrite length_rest. apply Nat.mod_upper_bound. lia. Qed.

Lemma absorb_n_app k s a b :
  (B * k <= length a)%nat -> absorb_n k s (a ++ b) = absorb_n k s a.
Proof.
  revert s a. induction k as [|k IH]; intros s a Ha; simpl; [done|].
  rewrite take_app_le, drop_app_le by lia. apply IH. rewrite length_drop. lia.
Qed.

Lemma absorb_n_add j k s d :
  absorb_n (j + k) s d = absorb_n k (absorb_n j s d) (drop (B * j) d).
Proof.
  revert s d. induction j as [|j IH]; intros s d; simpl.
  { by rewrite Nat.mul_0_r, drop_0. }
  rewrite IH, drop_drop. do 2 f_equal. lia.
Qed.

Lemma absorb_short s d : (length d < B)%nat -> absorb s d = s /\ rest d = d.
Proof.
  intros Hd. unfold absorb, rest. rewrite Nat.div_small by lia.
  by rewrite Nat.mul_0_r, drop_0.
Qed.

(** One full block at the front. *)
Lemma absorb_block s blk d :
  length blk = B -> absorb s (blk ++ d) = absorb (f s blk) d /\ rest (blk ++ d) = rest d.
Proof.
  intros Hb. unfold absorb, rest. rewrite length_app, Hb.
  assert ((B + length d) / B = Datatypes.S (length d / B))%nat as ->.
  { replace (B + length d)%nat with (length d + 1 * B)%nat by lia.
    rewrite Nat.div_add by lia. lia. }
  cbn [absorb_n]. rewrite take_app_length', drop_app_length' by done. split; [done|].
  rewrite drop_app_ge by lia. f_equal. lia.
Qed.

Lemma absorb_app s a b :
  absorb s (a ++ b) = absorb (absorb s a) (rest a ++ b) /\
  rest (a ++ b) = rest (rest a ++ b).
Proof.
  remember (length a) as n eqn:Hn. revert s a Hn.
  induction n as [n IH] using lt_wf_ind. intros s a ->.
  destruct (decide (length a < B)%nat) as [Hlt|Hge].
  { by destruct (absorb_short s a Hlt) as [-> ->]. }
  rewrite <- (take_drop B a).
  assert (length (take B a) = B) as Hb by (rewrite length_take; lia).
  rewrite <- app_assoc.
  destruct (absorb_block s (take B a) (drop B a ++ b) Hb) as [-> ->].
  destruct (absorb_block s (take B a) (drop B a) Hb) as [-> ->].
  apply (IH (length (drop B a))); [rewrite length_drop; lia|done].
Qed.
End blocks.
