(* ===== verification/Sha256.v ===== *)
(** * The SHA-256 of the MAVLink signing code

    mavlink/include/mavlink/v2.0/mavlink_sha256.h.  The streaming context
    ([init], [update], [final_48]) is proved to compute, for any way of
    cutting the message into pieces, the first 48 bits of SHA-256 of the
    whole message. *)

From S2P Require Import Prelude Blocks.

Local Open Scope Z_scope.

Record mavlink_sha256_ctx := mk_sha256 {
  sz0 : Z;
  sz1 : Z;
  counter : list Z;
  save_bytes : list Z;
}.

Definition Ch (x y z : Z) : Z := Z.lxor (Z.land x y) (Z.land (u32 (Z.lnot x)) z).
Definition Maj (x y z : Z) : Z := Z.lxor (Z.lxor (Z.land x y) (Z.land x z)) (Z.land y z).
Definition ROTR (x n : Z) : Z := Z.lor (Z.shiftr x n) (u32 (Z.shiftl x (32 - n))).
Definition Sigma0 (x : Z) : Z := Z.lxor (Z.lxor (ROTR x 2) (ROTR x 13)) (ROTR x 22).
Definition Sigma1 (x : Z) : Z := Z.lxor (Z.lxor (ROTR x 6) (ROTR x 11)) (ROTR x 25).
Definition sigma0 (x : Z) : Z := Z.lxor (Z.lxor (ROTR x 7) (ROTR x 18)) (Z.shiftr x 3).
Definition sigma1 (x : Z) : Z := Z.lxor (Z.lxor (ROTR x 17) (ROTR x 19)) (Z.shiftr x 10).

(** One row per line of the source. *)
Definition mavlink_sha256_constant_256 : list Z := Eval cbv [concat app] in concat [
  [0x428a2f98; 0x71374491; 0xb5c0fbcf; 0xe9b5dba5];
  [0x3956c25b; 0x59f111f1; 0x923f82a4; 0xab1c5ed5];
  [0xd807aa98; 0x12835b01; 0x243185be; 0x550c7dc3];
  [0x72be5d74; 0x80deb1fe; 0x9bdc06a7; 0xc19bf174];
  [0xe49b69c1; 0xefbe4786; 0x0fc19dc6; 0x240ca1cc];
  [0x2de92c6f; 0x4a7484aa; 0x5cb0a9dc; 0x76f988da];
  [0x983e5152; 0xa831c66d; 0xb00327c8; 0xbf597fc7];
  [0xc6e00bf3; 0xd5a79147; 0x06ca6351; 0x14292967];
  [0x27b70a85; 0x2e1b2138; 0x4d2c6dfc; 0x53380d13];
  [0x650a7354; 0x766a0abb; 0x81c2c92e; 0x92722c85];
  [0xa2bfe8a1; 0xa81a664b; 0xc24b8b70; 0xc76c51a3];
  [0xd192e819; 0xd6990624; 0xf40e3585; 0x106aa070];
  [0x19a4c116; 0x1e376c08; 0x2748774c; 0x34b0bcb5];
  [0x391c0cb3; 0x4ed8aa4a; 0x5b9cca4f; 0x682e6ff3];
  [0x748f82ee; 0x78a5636f; 0x84c87814; 0x8cc70208];
  [0x90befffa; 0xa4506ceb; 0xbef9a3f7; 0xc67178f2] ].

Definition sha256_H0 : list Z :=
  [0x6a09e667; 0xbb67ae85; 0x3c6ef372; 0xa54ff53a;
   0x510e527f; 0x9b05688c; 0x1f83d9ab; 0x5be0cd19].

(** [u.save_bytes] is not written: it keeps whatever it holds. *)
Definition mavlink_sha256_init (m : mavlink_sha256_ctx) : mavlink_sha256_ctx :=
  {| sz0 := 0; sz1 := 0; counter := sha256_H0; save_bytes := save_bytes m |}.

(** The message schedule: [data[0..15] = in], then the recurrence. *)
Fixpoint schedule (n : nat) (i : Z) (data : list Z) : list Z :=
  match n with
  | O => data
  | S n =>
      let d := u32 (u32 (u32 (sigma1 (rd data (i - 2)) + rd data (i - 7)) +
                        sigma0 (rd data (i - 15))) + rd data (i - 16)) in
      schedule n (i + 1) (data ++ [d])
  end.

(** The eight working variables [AA .. HH]. *)
Record working := mk_working {
  AA : Z; BB : Z; CC : Z; DD : Z; EE : Z; FF : Z; GG : Z; HH : Z
}.

Definition sha256_round (data : list Z) (v : working) (i : Z) : working :=
  let T1 := u32 (u32 (u32 (u32 (HH v + Sigma1 (EE v)) + Ch (EE v) (FF v) (GG v)) +
                 rd mavlink_sha256_constant_256 i) + rd data i) in
  let T2 := u32 (Sigma0 (AA v) + Maj (AA v) (BB v) (CC v)) in
  {| HH := GG v; GG := FF v; FF := EE v; EE := u32 (DD v + T1);
     DD := CC v; CC := BB v; BB := AA v; AA := u32 (T1 + T2) |}.

(** [mavlink_sha256_calc] on the chaining value. *)
Definition sha256_compress (h : list Z) (blk : list Z) : list Z :=
  let data := schedule 48 16 (take 16 blk) in
  let v0 := {| AA := rd h 0; BB := rd h 1; CC := rd h 2; DD := rd h 3;
               EE := rd h 4; FF := rd h 5; GG := rd h 6; HH := rd h 7 |} in
  let v := foldl (sha256_round data) v0 (seqZ 0 64) in
  [u32 (rd h 0 + AA v); u32 (rd h 1 + BB v); u32 (rd h 2 + CC v); u32 (rd h 3 + DD v);
   u32 (rd h 4 + EE v); u32 (rd h 5 + FF v); u32 (rd h 6 + GG v); u32 (rd h 7 + HH v)].

Definition mavlink_sha256_calc (m : mavlink_sha256_ctx) (inp : list Z) : mavlink_sha256_ctx :=
  {| sz0 := sz0 m; sz1 := sz1 m; counter := sha256_compress (counter m) inp;
     save_bytes := save_bytes m |}.

(** [current[i]]: the [i]-th word of the block with its bytes reversed. *)
Fixpoint swap_words (n : nat) (bs : list Z) : list Z :=
  match n with
  | O => []
  | S n =>
      le_word [rd bs 3; rd bs 2; rd bs 1; rd bs 0] :: swap_words n (drop 4 bs)
  end.

(** The loop [while (len > 0)]: every iteration consumes at least one byte,
    so [length v] iterations are enough. *)
Fixpoint update_loop (fuel : nat) (m : mavlink_sha256_ctx) (offset : nat) (p : list Z)
    : mavlink_sha256_ctx :=
  match fuel with
  | O => m
  | S fuel =>
      match p with
      | [] => m
      | _ =>
          let l := Nat.min (64 - offset) (length p) in
          let m := {| sz0 := sz0 m; sz1 := sz1 m; counter := counter m;
                      save_bytes := memcpy_at (save_bytes m) offset (take l p) |} in
          let offset := (offset + l)%nat in
          let p := drop l p in
          if (offset =? 64)%nat
          then update_loop fuel (mavlink_sha256_calc m (swap_words 16 (save_bytes m))) 0 p
          else update_loop fuel m offset p
      end
  end.

Definition mavlink_sha256_update (m : mavlink_sha256_ctx) (v : list Z) : mavlink_sha256_ctx :=
  let old_sz := sz0 m in
  let n := u32 (old_sz + u32 (Z.of_nat (length v) * 8)) in
  let m := {| sz0 := n;
              sz1 := if n <? old_sz then u32 (sz1 m + 1) else sz1 m;
              counter := counter m; save_bytes := save_bytes m |} in
  let offset := Z.to_nat ((old_sz / 8) mod 64) in
  update_loop (length v) m offset v.

Definition mavlink_sha256_final_48 (m : mavlink_sha256_ctx) : list Z :=
  let offset := (sz0 m / 8) mod 64 in
  let dstart := (u32 (120 - offset - 1)) mod 64 + 1 in
  let zeros := wr (replicate 72 0) 0 0x80 in
  let zeros := wr zeros (dstart + 7) (Z.land (Z.shiftr (sz0 m) 0) 0xff) in
  let zeros := wr zeros (dstart + 6) (Z.land (Z.shiftr (sz0 m) 8) 0xff) in
  let zeros := wr zeros (dstart + 5) (Z.land (Z.shiftr (sz0 m) 16) 0xff) in
  let zeros := wr zeros (dstart + 4) (Z.land (Z.shiftr (sz0 m) 24) 0xff) in
  let zeros := wr zeros (dstart + 3) (Z.land (Z.shiftr (sz1 m) 0) 0xff) in
  let zeros := wr zeros (dstart + 2) (Z.land (Z.shiftr (sz1 m) 8) 0xff) in
  let zeros := wr zeros (dstart + 1) (Z.land (Z.shiftr (sz1 m) 16) 0xff) in
  let zeros := wr zeros (dstart + 0) (Z.land (Z.shiftr (sz1 m) 24) 0xff) in
  let m := mavlink_sha256_update m (take (Z.to_nat (dstart + 8)) zeros) in
  let p0 := le_bytes 4 (rd (counter m) 0) in
  let p1 := le_bytes 4 (rd (counter m) 1) in
  [rd p0 3; rd p0 2; rd p0 1; rd p0 0; rd p1 3; rd p1 2].

(** ** The specification: pad, then fold over the blocks *)

Definition compress_block (h blk : list Z) : list Z := sha256_compress h (swap_words 16 blk).

Definition sha256_pad (d : list Z) : list Z :=
  d ++ 0x80 :: replicate ((119 - length d `mod` 64) `mod` 64)%nat 0 ++
  be_bytes 8 (8 * Z.of_nat (length d)).

Definition sha256 (d : list Z) : list Z := absorb compress_block 64 sha256_H0 (sha256_pad d).

Definition sha256_48 (d : list Z) : list Z :=
  take 6 (be_bytes 4 (rd (sha256 d) 0) ++ be_bytes 4 (rd (sha256 d) 1)).

(** The context after the data [d] has been supplied. *)
Record rep (m : mavlink_sha256_ctx) (d : list Z) : Prop := {
  rep_counter : counter m = absorb compress_block 64 sha256_H0 d;
  rep_save : take (length (rest 64 d)) (save_bytes m) = rest 64 d;
  rep_len : length (save_bytes m) = 64%nat;
  rep_sz0 : is_u32 (sz0 m);
  rep_sz1 : is_u32 (sz1 m);
  rep_sz : sz0 m + 2 ^ 32 * sz1 m = 8 * Z.of_nat (length d);
}.

Lemma rep_init e : length (save_bytes e) = 64%nat -> rep (mavlink_sha256_init e) [].
Proof. intros He. constructor; try done; try decide_true. Qed.

#[local] Opaque sha256_compress swap_words.

Lemma take_memcpy_at save off src :
  (off + length src <= length save)%nat ->
  take (off + length src) (memcpy_at save off src) = take off save ++ src.
Proof.
  intros Hl. rewrite memcpy_at_spec by done. rewrite app_assoc.
  apply take_app_length'. rewrite length_app, length_take. lia.
Qed.

Lemma update_loop_spec fuel m d p :
  (length p <= fuel)%nat ->
  counter m = absorb compress_block 64 sha256_H0 d ->
  take (length (rest 64 d)) (save_bytes m) = rest 64 d ->
  length (save_bytes m) = 64%nat ->
  let m' := update_loop fuel m (length (rest 64 d)) p in
  counter m' = absorb compress_block 64 sha256_H0 (d ++ p) /\
  take (length (rest 64 (d ++ p))) (save_bytes m') = rest 64 (d ++ p) /\
  length (save_bytes m') = 64%nat /\ sz0 m' = sz0 m /\ sz1 m' = sz1 m.
Proof.
  revert m d p. induction fuel as [|fuel IH]; intros m d p Hf Hc Hs Hl.
  { destruct p; [|simpl in Hf; lia]. simpl. by rewrite app_nil_r. }
  destruct p as [|x p]; [simpl; by rewrite app_nil_r|].
  cbn [update_loop]. set (p1 := x :: p) in *. set (off := length (rest 64 d)) in *.
  assert (off < 64)%nat as Hoff by (apply rest_lt; lia).
  set (l := Nat.min (64 - off) (length p1)). set (q := take l p1).
  assert (length q = l) as Hq by (unfold q; rewrite length_take; lia).
  set (save := memcpy_at (save_bytes m) off q).
  assert (take (off + l) save = rest 64 d ++ q) as Hsave.
  { unfold save. rewrite <- Hq, take_memcpy_at by lia. by rewrite Hs. }
  assert (length save = 64%nat) as Hlen by (unfold save; by rewrite length_memcpy_at).
  assert (0 < l)%nat by (unfold l, p1; simpl; lia).
  replace (d ++ p1) with ((d ++ q) ++ drop l p1)
    by (rewrite <- app_assoc; unfold q; by rewrite take_drop).
  assert (forall s, absorb compress_block 64 s (d ++ q) =
    absorb compress_block 64 (absorb compress_block 64 s d) (rest 64 d ++ q)) as Habs
    by (intros s; by apply absorb_app; lia).
  assert (rest 64 (d ++ q) = rest 64 (rest 64 d ++ q)) as Hrest
    by (apply (absorb_app compress_block 64 ltac:(lia) [] d q)).
  destruct (Nat.eqb_spec (off + l) 64) as [Hfull|Hpart].
  - rewrite take_ge in Hsave by lia.
    destruct (absorb_block compress_block 64 ltac:(lia)
      (absorb compress_block 64 sha256_H0 d) (rest 64 d ++ q) []) as [Hb Hr].
    { rewrite length_app. fold off. lia. }
    destruct (absorb_short compress_block 64 ltac:(lia) [] [] ltac:(simpl; lia)) as [_ Hr0].
    rewrite app_nil_r in Hb, Hr. rewrite Hr0 in Hr. rewrite Hr in Hrest.
    destruct (absorb_short compress_block 64 ltac:(lia)
      (compress_block (absorb compress_block 64 sha256_H0 d) (rest 64 d ++ q)) []
      ltac:(simpl; lia)) as [Hb0 _].
    rewrite Hb0 in Hb.
    specialize (IH (mavlink_sha256_calc (mk_sha256 (sz0 m) (sz1 m) (counter m) save)
      (swap_words 16 save)) (d ++ q) (drop l p1)). rewrite Hrest in IH. simpl in IH.
    destruct IH as (? & ? & ? & ? & ?); try done.
    + rewrite length_drop. lia.
    + rewrite Habs, Hb. unfold compress_block at 1. by rewrite Hc, Hsave.
  - destruct (absorb_short compress_block 64 ltac:(lia)
      (absorb compress_block 64 sha256_H0 d) (rest 64 d ++ q)) as [Hb Hr].
    { rewrite length_app. fold off. lia. }
    assert (length (rest 64 (d ++ q)) = off + l)%nat as Hlr.
    { rewrite Hrest, Hr, length_app. fold off. lia. }
    specialize (IH (mk_sha256 (sz0 m) (sz1 m) (counter m) save) (d ++ q) (drop l p1)).
    rewrite Hlr in IH. simpl in IH. destruct IH as (? & ? & ? & ? & ?); try done.
    + rewrite length_drop. lia.
    + rewrite Habs, Hb. done.
    + by rewrite Hrest, Hr.
Qed.

(** A piece of data that leaves the byte counts representable is absorbed. *)
Lemma update_spec m d v :
  rep m d -> 8 * Z.of_nat (length v) < 2 ^ 32 ->
  8 * (Z.of_nat (length d) + Z.of_nat (length v)) < 2 ^ 64 ->
  rep (mavlink_sha256_update m v) (d ++ v).
Proof.
  intros [Hc Hs Hl H0 H1 Hsz] Hv Ht. unfold mavlink_sha256_update.
  set (n := u32 (sz0 m + u32 (Z.of_nat (length v) * 8))).
  set (hi := if n <? sz0 m then u32 (sz1 m + 1) else sz1 m).
  assert (is_u32 n /\ is_u32 hi /\
    n + 2 ^ 32 * hi = 8 * (Z.of_nat (length d) + Z.of_nat (length v))) as (Hn & Hhi & Hnh).
  { unfold hi, n. rewrite (wrap_id 32 (_ * 8)) by (unfold in_range; lia).
    case_bool; bool_to_prop; split_and!; mod_lia. }
  assert (Z.to_nat ((sz0 m / 8) mod 64) = length (rest 64 d)) as ->.
  { rewrite length_rest by lia. apply Nat2Z.inj. rewrite Nat2Z.inj_mod, Z2Nat.id by mod_lia.
    unfold in_range in *. Z.div_mod_to_equations; lia. }
  destruct (update_loop_spec (length v) (mk_sha256 n hi (counter m) (save_bytes m)) d v)
    as (? & ? & ? & E0 & E1); try done.
  simpl in E0, E1. constructor; try done; try (by rewrite ?E0, ?E1).
  rewrite E0, E1, length_app, Hnh. lia.
Qed.

(** The padding block built on the stack. *)
Lemma final_zeros (ds : nat) a0 a1 a2 a3 a4 a5 a6 a7 :
  (1 <= ds <= 64)%nat ->
  let s := Z.of_nat ds in
  take (Z.to_nat (s + 8))
    (wr (wr (wr (wr (wr (wr (wr (wr (wr (replicate 72 0) 0 0x80)
      (s + 7) a7) (s + 6) a6) (s + 5) a5) (s + 4) a4) (s + 3) a3) (s + 2) a2) (s + 1) a1)
      (s + 0) a0) =
  0x80 :: replicate (ds - 1) 0 ++ [a0; a1; a2; a3; a4; a5; a6; a7].
Proof.
  intros Hds. do 65 (destruct ds as [|ds]; [first [lia|reflexivity]|]). lia.
Qed.

Lemma be_bytes_8 lo hi :
  is_u32 lo -> is_u32 hi ->
  be_bytes 8 (lo + 2 ^ 32 * hi) =
  [Z.land (Z.shiftr hi 24) 255; Z.land (Z.shiftr hi 16) 255;
   Z.land (Z.shiftr hi 8) 255; Z.land (Z.shiftr hi 0) 255;
   Z.land (Z.shiftr lo 24) 255; Z.land (Z.shiftr lo 16) 255;
   Z.land (Z.shiftr lo 8) 255; Z.land (Z.shiftr lo 0) 255].
Proof.
  intros Hlo Hhi. unfold be_bytes. rewrite (le_bytes_app 4 4).
  rewrite <- (le_bytes_wrap 4 (lo + _) 32) by lia.
  replace (u32 (lo + 2 ^ 32 * hi)) with lo by mod_lia.
  replace (Z.shiftr (lo + 2 ^ 32 * hi) (8 * Z.of_nat 4)) with hi
    by (rewrite Z.shiftr_div_pow2 by lia; change (8 * Z.of_nat 4) with 32; mod_lia).
  cbn [le_bytes app rev]. rewrite !Z.shiftr_shiftr by lia. rewrite !Z.shiftr_0_r. done.
Qed.

(** The message digest extracted at the end is that of everything supplied. *)
Lemma final_48_spec m d :
  rep m d -> 8 * Z.of_nat (length d) + 576 < 2 ^ 64 ->
  mavlink_sha256_final_48 m = sha256_48 d.
Proof.
  intros Hr Hd. unfold mavlink_sha256_final_48.
  destruct Hr as [Hc Hs Hl H0 H1 Hsz] eqn:Er. clear Er.
  assert (Hds : u32 (120 - (sz0 m / 8) mod 64 - 1) mod 64 + 1 =
    Z.of_nat (S ((119 - length d `mod` 64) `mod` 64))).
  { rewrite Nat2Z.inj_succ, Nat2Z.inj_mod, Nat2Z.inj_sub, Nat2Z.inj_mod.
    2: { pose proof (Nat.mod_upper_bound (length d) 64). lia. }
    rewrite (wrap_id 32) by mod_lia. unfold in_range in *. Z.div_mod_to_equations; lia. }
  rewrite Hds. cbn zeta. rewrite final_zeros.
  2: { pose proof (Nat.mod_upper_bound (119 - length d `mod` 64) 64). lia. }
  rewrite <- be_bytes_8, Hsz by done.
  rewrite Nat.sub_1_r. cbn [Nat.pred].
  set (tail := 0x80 :: _).
  assert (length tail <= 72)%nat as Ht.
  { unfold tail, be_bytes. cbn [length]. rewrite length_app, length_replicate, length_rev, length_le_bytes.
    pose proof (Nat.mod_upper_bound (119 - length d `mod` 64) 64). lia. }
  destruct (update_spec m d tail Hr) as [Hc' _ _ _ _ _]; [lia|lia|].
  unfold sha256_48, sha256, sha256_pad. fold tail. rewrite Hc'. done.
Qed.

(** Streaming correctness: however the message is cut into pieces, the
    six bytes produced are the first 48 bits of the SHA-256 of the whole
    message (with the padding of the standard). *)
Theorem sha256_stream_correct e chunks :
  length (save_bytes e) = 64%nat ->
  Forall (fun v => 8 * Z.of_nat (length v) < 2 ^ 32) chunks ->
  8 * Z.of_nat (length (concat chunks)) + 576 < 2 ^ 64 ->
  mavlink_sha256_final_48 (foldl mavlink_sha256_update (mavlink_sha256_init e) chunks) =
  sha256_48 (concat chunks).
Proof.
  intros He Hch Hlen.
  assert (forall cs m d, rep m d -> Forall (fun v => 8 * Z.of_nat (length v) < 2 ^ 32) cs ->
    8 * Z.of_nat (length (d ++ concat cs)) + 576 < 2 ^ 64 ->
    rep (foldl mavlink_sha256_update m cs) (d ++ concat cs)) as Hgen.
  { induction cs as [|c cs IH]; intros m d Hr Hcs Hb; simpl in *; [by rewrite app_nil_r|].
    rewrite app_assoc in Hb |- *. inversion Hcs as [|c' cs' Hc1 Hcs']; subst. apply IH; [|done|done].
    apply update_spec; [done|done|]. rewrite !length_app in Hb. lia. }
  apply final_48_spec; [|done].
  apply (Hgen chunks _ []); [by apply rep_init|done|done].
Qed.

(** The two-part message "a", "bc". *)
Lemma sha256_stream_correct_witness :
  mavlink_sha256_final_48 (foldl mavlink_sha256_update
    (mavlink_sha256_init (mk_sha256 0 0 [] (replicate 64 0))) [[97]; [98; 99]]) =
    sha256_48 (concat [[97]; [98; 99]]) /\
  sha256_48 [97; 98; 99] = [0xba; 0x78; 0x16; 0xbf; 0x8f; 0x01].
Proof.
  split; [|vm_compute; reflexivity].
  apply sha256_stream_correct; [reflexivity|decide_true|decide_true].
Defined.

(** The full digest of "abc" (FIPS 180-2, appendix B.1). *)
Example sha256_abc : sha256 [97; 98; 99] =
  [0xba7816bf; 0x8f01cfea; 0x414140de; 0x5dae2223;
   0xb00361a3; 0x96177a9c; 0xb410ff61; 0xf20015ad].
Proof. vm_compute. reflexivity. Qed.
