(* ===== verification/MavlinkTypes.v ===== *)
(** * MAVLink data types

    mavlink/include/mavlink/v2.0/mavlink_types.h: the message and channel
    status structures, the parser states, the signing state, and the message
    table of the two dialects the applications are compiled with.  A C
    structure is a [Record]; [set_f] is the assignment of its field [f]. *)

From S2P Require Import Prelude.

Local Open Scope Z_scope.

Definition MAVLINK_MAX_PAYLOAD_LEN : Z := 255.
Definition MAVLINK_CORE_HEADER_LEN : Z := 9.
Definition MAVLINK_CORE_HEADER_MAVLINK1_LEN : Z := 5.
Definition MAVLINK_NUM_HEADER_BYTES : Z := MAVLINK_CORE_HEADER_LEN + 1.
Definition MAVLINK_NUM_CHECKSUM_BYTES : Z := 2.
Definition MAVLINK_NUM_NON_PAYLOAD_BYTES : Z :=
  MAVLINK_NUM_HEADER_BYTES + MAVLINK_NUM_CHECKSUM_BYTES.
Definition MAVLINK_SIGNATURE_BLOCK_LEN : Z := 13.
Definition MAVLINK_MAX_PACKET_LEN : Z :=
  MAVLINK_MAX_PAYLOAD_LEN + MAVLINK_NUM_NON_PAYLOAD_BYTES + MAVLINK_SIGNATURE_BLOCK_LEN.
Definition MAVLINK_STX : Z := 253.
Definition MAVLINK_STX_MAVLINK1 : Z := 0xFE.
Definition MAVLINK_IFLAG_SIGNED : Z := 0x01.
Definition MAVLINK_IFLAG_MASK : Z := 0x01.
Definition MAVLINK_SIGNING_FLAG_SIGN_OUTGOING : Z := 1.
Definition MAVLINK_MAX_SIGNING_STREAMS : Z := 16.
Definition MAVLINK_STATUS_FLAG_IN_MAVLINK1 : Z := 1.
Definition MAVLINK_STATUS_FLAG_OUT_MAVLINK1 : Z := 2.
Definition MAVLINK_FRAMING_INCOMPLETE : Z := 0.
Definition MAVLINK_FRAMING_OK : Z := 1.
Definition MAVLINK_FRAMING_BAD_CRC : Z := 2.
Definition MAVLINK_FRAMING_BAD_SIGNATURE : Z := 3.

(** The payload array: [(255 + 2 + 7) / 8] words of eight bytes. *)
Definition PAYLOAD_BYTES : nat := 264.

(** ** The message *)

Record mavlink_message_t := mk_message {
  m_checksum : Z;
  m_magic : Z;
  m_len : Z;
  m_incompat_flags : Z;
  m_compat_flags : Z;
  m_seq : Z;
  m_sysid : Z;
  m_compid : Z;
  m_msgid : Z;
  m_payload64 : list Z;
  m_ck : list Z;
  m_signature : list Z
}.

Definition set_m_checksum (v : Z) (x : mavlink_message_t) : mavlink_message_t :=
  mk_message v (m_magic x) (m_len x) (m_incompat_flags x) (m_compat_flags x) (m_seq x)
    (m_sysid x) (m_compid x) (m_msgid x) (m_payload64 x) (m_ck x) (m_signature x).
Definition set_m_magic (v : Z) (x : mavlink_message_t) : mavlink_message_t :=
  mk_message (m_checksum x) v (m_len x) (m_incompat_flags x) (m_compat_flags x)
    (m_seq x) (m_sysid x) (m_compid x) (m_msgid x) (m_payload64 x) (m_ck x)
    (m_signature x).
Definition set_m_len (v : Z) (x : mavlink_message_t) : mavlink_message_t :=
  mk_message (m_checksum x) (m_magic x) v (m_incompat_flags x) (m_compat_flags x)
    (m_seq x) (m_sysid x) (m_compid x) (m_msgid x) (m_payload64 x) (m_ck x)
    (m_signature x).
Definition set_m_incompat_flags (v : Z) (x : mavlink_message_t) : mavlink_message_t :=
  mk_message (m_checksum x) (m_magic x) (m_len x) v (m_compat_flags x) (m_seq x)
    (m_sysid x) (m_compid x) (m_msgid x) (m_payload64 x) (m_ck x) (m_signature x).
Definition set_m_compat_flags (v : Z) (x : mavlink_message_t) : mavlink_message_t :=
  mk_message (m_checksum x) (m_magic x) (m_len x) (m_incompat_flags x) v (m_seq x)
    (m_sysid x) (m_compid x) (m_msgid x) (m_payload64 x) (m_ck x) (m_signature x).
Definition set_m_seq (v : Z) (x : mavlink_message_t) : mavlink_message_t :=
  mk_message (m_checksum x) (m_magic x) (m_len x) (m_incompat_flags x)
    (m_compat_flags x) v (m_sysid x) (m_compid x) (m_msgid x) (m_payload64 x) (m_ck x)
    (m_signature x).
Definition set_m_sysid (v : Z) (x : mavlink_message_t) : mavlink_message_t :=
  mk_message (m_checksum x) (m_magic x) (m_len x) (m_incompat_flags x)
    (m_compat_flags x) (m_seq x) v (m_compid x) (m_msgid x) (m_payload64 x) (m_ck x)
    (m_signature x).
Definition set_m_compid (v : Z) (x : mavlink_message_t) : mavlink_message_t :=
  mk_message (m_checksum x) (m_magic x) (m_len x) (m_incompat_flags x)
    (m_compat_flags x) (m_seq x) (m_sysid x) v (m_msgid x) (m_payload64 x) (m_ck x)
    (m_signature x).
Definition set_m_msgid (v : Z) (x : mavlink_message_t) : mavlink_message_t :=
  mk_message (m_checksum x) (m_magic x) (m_len x) (m_incompat_flags x)
    (m_compat_flags x) (m_seq x) (m_sysid x) (m_compid x) v (m_payload64 x) (m_ck x)
    (m_signature x).
Definition set_m_payload64 (v : list Z) (x : mavlink_message_t) : mavlink_message_t :=
  mk_message (m_checksum x) (m_magic x) (m_len x) (m_incompat_flags x)
    (m_compat_flags x) (m_seq x) (m_sysid x) (m_compid x) (m_msgid x) v (m_ck x)
    (m_signature x).
Definition set_m_ck (v : list Z) (x : mavlink_message_t) : mavlink_message_t :=
  mk_message (m_checksum x) (m_magic x) (m_len x) (m_incompat_flags x)
    (m_compat_flags x) (m_seq x) (m_sysid x) (m_compid x) (m_msgid x) (m_payload64 x) v
    (m_signature x).
Definition set_m_signature (v : list Z) (x : mavlink_message_t) : mavlink_message_t :=
  mk_message (m_checksum x) (m_magic x) (m_len x) (m_incompat_flags x)
    (m_compat_flags x) (m_seq x) (m_sysid x) (m_compid x) (m_msgid x) (m_payload64 x)
    (m_ck x) v.

(** ** The parser states *)

Inductive mavlink_parse_state_t :=
  | MAVLINK_PARSE_STATE_UNINIT
  | MAVLINK_PARSE_STATE_IDLE
  | MAVLINK_PARSE_STATE_GOT_STX
  | MAVLINK_PARSE_STATE_GOT_LENGTH
  | MAVLINK_PARSE_STATE_GOT_INCOMPAT_FLAGS
  | MAVLINK_PARSE_STATE_GOT_COMPAT_FLAGS
  | MAVLINK_PARSE_STATE_GOT_SEQ
  | MAVLINK_PARSE_STATE_GOT_SYSID
  | MAVLINK_PARSE_STATE_GOT_COMPID
  | MAVLINK_PARSE_STATE_GOT_MSGID1
  | MAVLINK_PARSE_STATE_GOT_MSGID2
  | MAVLINK_PARSE_STATE_GOT_MSGID3
  | MAVLINK_PARSE_STATE_GOT_PAYLOAD
  | MAVLINK_PARSE_STATE_GOT_CRC1
  | MAVLINK_PARSE_STATE_GOT_BAD_CRC1
  | MAVLINK_PARSE_STATE_SIGNATURE_WAIT.

#[export] Instance mavlink_parse_state_eq_dec : EqDecision mavlink_parse_state_t.
Proof. solve_decision. Defined.

(** ** Signing *)

Inductive mavlink_signing_status_t :=
  | MAVLINK_SIGNING_STATUS_NONE
  | MAVLINK_SIGNING_STATUS_OK
  | MAVLINK_SIGNING_STATUS_BAD_SIGNATURE
  | MAVLINK_SIGNING_STATUS_NO_STREAMS
  | MAVLINK_SIGNING_STATUS_TOO_MANY_STREAMS
  | MAVLINK_SIGNING_STATUS_OLD_TIMESTAMP
  | MAVLINK_SIGNING_STATUS_REPLAY.

(** The function pointer [accept_unsigned_callback] is an argument of the
    operations that call it. *)
Record mavlink_signing_t := mk_signing {
  g_flags : Z;
  g_link_id : Z;
  g_timestamp : Z;
  g_secret_key : list Z;
  g_last_status : mavlink_signing_status_t
}.

Definition set_g_flags (v : Z) (x : mavlink_signing_t) : mavlink_signing_t :=
  mk_signing v (g_link_id x) (g_timestamp x) (g_secret_key x) (g_last_status x).
Definition set_g_link_id (v : Z) (x : mavlink_signing_t) : mavlink_signing_t :=
  mk_signing (g_flags x) v (g_timestamp x) (g_secret_key x) (g_last_status x).
Definition set_g_timestamp (v : Z) (x : mavlink_signing_t) : mavlink_signing_t :=
  mk_signing (g_flags x) (g_link_id x) v (g_secret_key x) (g_last_status x).
Definition set_g_secret_key (v : list Z) (x : mavlink_signing_t) : mavlink_signing_t :=
  mk_signing (g_flags x) (g_link_id x) (g_timestamp x) v (g_last_status x).
Definition set_g_last_status (v : mavlink_signing_status_t) (x : mavlink_signing_t) : mavlink_signing_t :=
  mk_signing (g_flags x) (g_link_id x) (g_timestamp x) (g_secret_key x) v.

Record mavlink_signing_stream := mk_stream {
  t_link_id : Z;
  t_sysid : Z;
  t_compid : Z;
  t_timestamp_bytes : list Z
}.

Definition set_t_link_id (v : Z) (x : mavlink_signing_stream) : mavlink_signing_stream :=
  mk_stream v (t_sysid x) (t_compid x) (t_timestamp_bytes x).
Definition set_t_sysid (v : Z) (x : mavlink_signing_stream) : mavlink_signing_stream :=
  mk_stream (t_link_id x) v (t_compid x) (t_timestamp_bytes x).
Definition set_t_compid (v : Z) (x : mavlink_signing_stream) : mavlink_signing_stream :=
  mk_stream (t_link_id x) (t_sysid x) v (t_timestamp_bytes x).
Definition set_t_timestamp_bytes (v : list Z) (x : mavlink_signing_stream) : mavlink_signing_stream :=
  mk_stream (t_link_id x) (t_sysid x) (t_compid x) v.

Record mavlink_signing_streams_t := mk_streams {
  num_signing_streams : Z;
  stream : list mavlink_signing_stream
}.

Definition set_num_signing_streams (v : Z) (x : mavlink_signing_streams_t) : mavlink_signing_streams_t :=
  mk_streams v (stream x).
Definition set_stream (v : list mavlink_signing_stream) (x : mavlink_signing_streams_t) : mavlink_signing_streams_t :=
  mk_streams (num_signing_streams x) v.

(** ** The status of a channel

    [s_signing] and [s_signing_streams] are the structures the two pointers
    lead to, [None] for NULL. *)

Record mavlink_status_t := mk_status {
  s_msg_received : Z;
  s_buffer_overrun : Z;
  s_parse_error : Z;
  s_parse_state : mavlink_parse_state_t;
  s_packet_idx : Z;
  s_current_rx_seq : Z;
  s_current_tx_seq : Z;
  s_packet_rx_success_count : Z;
  s_packet_rx_drop_count : Z;
  s_flags : Z;
  s_signature_wait : Z;
  s_signing : option mavlink_signing_t;
  s_signing_streams : option mavlink_signing_streams_t
}.

Definition set_s_msg_received (v : Z) (x : mavlink_status_t) : mavlink_status_t :=
  mk_status v (s_buffer_overrun x) (s_parse_error x) (s_parse_state x) (s_packet_idx x)
    (s_current_rx_seq x) (s_current_tx_seq x) (s_packet_rx_success_count x)
    (s_packet_rx_drop_count x) (s_flags x) (s_signature_wait x) (s_signing x)
    (s_signing_streams x).
Definition set_s_buffer_overrun (v : Z) (x : mavlink_status_t) : mavlink_status_t :=
  mk_status (s_msg_received x) v (s_parse_error x) (s_parse_state x) (s_packet_idx x)
    (s_current_rx_seq x) (s_current_tx_seq x) (s_packet_rx_success_count x)
    (s_packet_rx_drop_count x) (s_flags x) (s_signature_wait x) (s_signing x)
    (s_signing_streams x).
Definition set_s_parse_error (v : Z) (x : mavlink_status_t) : mavlink_status_t :=
  mk_status (s_msg_received x) (s_buffer_overrun x) v (s_parse_state x) (s_packet_idx x)
    (s_current_rx_seq x) (s_current_tx_seq x) (s_packet_rx_success_count x)
    (s_packet_rx_drop_count x) (s_flags x) (s_signature_wait x) (s_signing x)
    (s_signing_streams x).
Definition set_s_parse_state (v : mavlink_parse_state_t) (x : mavlink_status_t) : mavlink_status_t :=
  mk_status (s_msg_received x) (s_buffer_overrun x) (s_parse_error x) v (s_packet_idx x)
    (s_current_rx_seq x) (s_current_tx_seq x) (s_packet_rx_success_count x)
    (s_packet_rx_drop_count x) (s_flags x) (s_signature_wait x) (s_signing x)
    (s_signing_streams x).
Definition set_s_packet_idx (v : Z) (x : mavlink_status_t) : mavlink_status_t :=
  mk_status (s_msg_received x) (s_buffer_overrun x) (s_parse_error x) (s_parse_state x)
    v (s_current_rx_seq x) (s_current_tx_seq x) (s_packet_rx_success_count x)
    (s_packet_rx_drop_count x) (s_flags x) (s_signature_wait x) (s_signing x)
    (s_signing_streams x).
Definition set_s_current_rx_seq (v : Z) (x : mavlink_status_t) : mavlink_status_t :=
  mk_status (s_msg_received x) (s_buffer_overrun x) (s_parse_error x) (s_parse_state x)
    (s_packet_idx x) v (s_current_tx_seq x) (s_packet_rx_success_count x)
    (s_packet_rx_drop_count x) (s_flags x) (s_signature_wait x) (s_signing x)
    (s_signing_streams x).
Definition set_s_current_tx_seq (v : Z) (x : mavlink_status_t) : mavlink_status_t :=
  mk_status (s_msg_received x) (s_buffer_overrun x) (s_parse_error x) (s_parse_state x)
    (s_packet_idx x) (s_current_rx_seq x) v (s_packet_rx_success_count x)
    (s_packet_rx_drop_count x) (s_flags x) (s_signature_wait x) (s_signing x)
    (s_signing_streams x).
Definition set_s_packet_rx_success_count (v : Z) (x : mavlink_status_t) : mavlink_status_t :=
  mk_status (s_msg_received x) (s_buffer_overrun x) (s_parse_error x) (s_parse_state x)
    (s_packet_idx x) (s_current_rx_seq x) (s_current_tx_seq x) v
    (s_packet_rx_drop_count x) (s_flags x) (s_signature_wait x) (s_signing x)
    (s_signing_streams x).
Definition set_s_packet_rx_drop_count (v : Z) (x : mavlink_status_t) : mavlink_status_t :=
  mk_status (s_msg_received x) (s_buffer_overrun x) (s_parse_error x) (s_parse_state x)
    (s_packet_idx x) (s_current_rx_seq x) (s_current_tx_seq x)
    (s_packet_rx_success_count x) v (s_flags x) (s_signature_wait x) (s_signing x)
    (s_signing_streams x).
Definition set_s_flags (v : Z) (x : mavlink_status_t) : mavlink_status_t :=
  mk_status (s_msg_received x) (s_buffer_overrun x) (s_parse_error x) (s_parse_state x)
    (s_packet_idx x) (s_current_rx_seq x) (s_current_tx_seq x)
    (s_packet_rx_success_count x) (s_packet_rx_drop_count x) v (s_signature_wait x)
    (s_signing x) (s_signing_streams x).
Definition set_s_signature_wait (v : Z) (x : mavlink_status_t) : mavlink_status_t :=
  mk_status (s_msg_received x) (s_buffer_overrun x) (s_parse_error x) (s_parse_state x)
    (s_packet_idx x) (s_current_rx_seq x) (s_current_tx_seq x)
    (s_packet_rx_success_count x) (s_packet_rx_drop_count x) (s_flags x) v (s_signing x)
    (s_signing_streams x).
Definition set_s_signing (v : option mavlink_signing_t) (x : mavlink_status_t) : mavlink_status_t :=
  mk_status (s_msg_received x) (s_buffer_overrun x) (s_parse_error x) (s_parse_state x)
    (s_packet_idx x) (s_current_rx_seq x) (s_current_tx_seq x)
    (s_packet_rx_success_count x) (s_packet_rx_drop_count x) (s_flags x)
    (s_signature_wait x) v (s_signing_streams x).
Definition set_s_signing_streams (v : option mavlink_signing_streams_t) (x : mavlink_status_t) : mavlink_status_t :=
  mk_status (s_msg_received x) (s_buffer_overrun x) (s_parse_error x) (s_parse_state x)
    (s_packet_idx x) (s_current_rx_seq x) (s_current_tx_seq x)
    (s_packet_rx_success_count x) (s_packet_rx_drop_count x) (s_flags x)
    (s_signature_wait x) (s_signing x) v.

(** ** The table of messages *)

Record mavlink_msg_entry_t := mk_entry {
  e_msgid : Z;
  e_crc_extra : Z;
  e_min_msg_len : Z;
  e_max_msg_len : Z;
  e_flags : Z;
  e_target_system_ofs : Z;
  e_target_component_ofs : Z
}.

(** [MAVLINK_MESSAGE_CRCS] of ardupilotmega/ardupilotmega.h. *)
Definition ardupilotmega_crcs : list mavlink_msg_entry_t := [
  mk_entry 0 50 9 9 0 0 0; mk_entry 1 124 31 43 0 0 0; mk_entry 2 137 12 12 0 0 0;
  mk_entry 4 237 14 14 3 12 13; mk_entry 5 217 28 28 1 0 0; mk_entry 6 104 3 3 0 0 0;
  mk_entry 7 119 32 32 0 0 0; mk_entry 8 117 36 36 0 0 0; mk_entry 11 89 6 6 1 4 0;
  mk_entry 20 214 20 20 3 2 3; mk_entry 21 159 2 2 3 0 1; mk_entry 22 220 25 25 0 0 0;
  mk_entry 23 168 23 23 3 4 5; mk_entry 24 24 30 52 0 0 0; mk_entry 25 23 101 101 0 0 0;
  mk_entry 26 170 22 24 0 0 0; mk_entry 27 144 26 29 0 0 0; mk_entry 28 67 16 16 0 0 0;
  mk_entry 29 115 14 16 0 0 0; mk_entry 30 39 28 28 0 0 0; mk_entry 31 246 32 48 0 0 0;
  mk_entry 32 185 28 28 0 0 0; mk_entry 33 104 28 28 0 0 0; mk_entry 34 237 22 22 0 0 0;
  mk_entry 35 244 22 22 0 0 0; mk_entry 36 222 21 37 0 0 0; mk_entry 37 212 6 7 3 4 5;
  mk_entry 38 9 6 7 3 4 5; mk_entry 39 254 37 38 3 32 33; mk_entry 40 230 4 5 3 2 3;
  mk_entry 41 28 4 4 3 2 3; mk_entry 42 28 2 6 0 0 0; mk_entry 43 132 2 3 3 0 1;
  mk_entry 44 221 4 5 3 2 3; mk_entry 45 232 2 3 3 0 1; mk_entry 46 11 2 2 0 0 0;
  mk_entry 47 153 3 4 3 0 1; mk_entry 48 41 13 21 1 12 0; mk_entry 49 39 12 20 0 0 0;
  mk_entry 50 78 37 37 3 18 19; mk_entry 51 196 4 5 3 2 3; mk_entry 54 15 27 27 3 24 25;
  mk_entry 55 3 25 25 0 0 0; mk_entry 61 167 72 72 0 0 0; mk_entry 62 183 26 26 0 0 0;
  mk_entry 63 119 181 181 0 0 0; mk_entry 64 191 225 225 0 0 0; mk_entry 65 118 42 42 0 0 0;
  mk_entry 66 148 6 6 3 2 3; mk_entry 67 21 4 4 0 0 0; mk_entry 69 243 11 18 1 10 0;
  mk_entry 70 124 18 38 3 16 17; mk_entry 73 38 37 38 3 32 33; mk_entry 74 20 20 20 0 0 0;
  mk_entry 75 158 35 35 3 30 31; mk_entry 76 152 33 33 3 30 31; mk_entry 77 143 3 10 3 8 9;
  mk_entry 80 14 4 4 3 2 3; mk_entry 81 106 22 22 0 0 0; mk_entry 82 49 39 51 3 36 37;
  mk_entry 83 22 37 37 0 0 0; mk_entry 84 143 53 53 3 50 51; mk_entry 85 140 51 51 0 0 0;
  mk_entry 86 5 53 53 3 50 51; mk_entry 87 150 51 51 0 0 0; mk_entry 89 231 28 28 0 0 0;
  mk_entry 90 183 56 56 0 0 0; mk_entry 91 63 42 42 0 0 0; mk_entry 92 54 33 33 0 0 0;
  mk_entry 93 47 81 81 0 0 0; mk_entry 100 175 26 34 0 0 0; mk_entry 101 102 32 117 0 0 0;
  mk_entry 102 158 32 117 0 0 0; mk_entry 103 208 20 57 0 0 0; mk_entry 104 56 32 116 0 0 0;
  mk_entry 105 93 62 63 0 0 0; mk_entry 106 138 44 44 0 0 0; mk_entry 107 108 64 65 0 0 0;
  mk_entry 108 32 84 92 0 0 0; mk_entry 109 185 9 9 0 0 0; mk_entry 110 84 254 254 3 1 2;
  mk_entry 111 34 16 18 3 16 17; mk_entry 112 174 12 12 0 0 0; mk_entry 113 124 36 39 0 0 0;
  mk_entry 114 237 44 44 0 0 0; mk_entry 115 4 64 64 0 0 0; mk_entry 116 76 22 24 0 0 0;
  mk_entry 117 128 6 6 3 4 5; mk_entry 118 56 14 14 0 0 0; mk_entry 119 116 12 12 3 10 11;
  mk_entry 120 134 97 97 0 0 0; mk_entry 121 237 2 2 3 0 1; mk_entry 122 203 2 2 3 0 1;
  mk_entry 123 250 113 113 3 0 1; mk_entry 124 87 35 57 0 0 0; mk_entry 125 203 6 6 0 0 0;
  mk_entry 126 220 79 81 3 79 80; mk_entry 127 25 35 35 0 0 0; mk_entry 128 226 35 35 0 0 0;
  mk_entry 129 46 22 24 0 0 0; mk_entry 130 29 13 13 0 0 0; mk_entry 131 223 255 255 0 0 0;
  mk_entry 132 85 14 39 0 0 0; mk_entry 133 6 18 18 0 0 0; mk_entry 134 229 43 43 0 0 0;
  mk_entry 135 203 8 8 0 0 0; mk_entry 136 1 22 22 0 0 0; mk_entry 137 195 14 16 0 0 0;
  mk_entry 138 109 36 120 0 0 0; mk_entry 139 168 43 43 3 41 42;
  mk_entry 140 181 41 41 0 0 0; mk_entry 141 47 32 32 0 0 0; mk_entry 142 72 243 243 0 0 0;
  mk_entry 143 131 14 16 0 0 0; mk_entry 144 127 93 93 0 0 0;
  mk_entry 146 103 100 100 0 0 0; mk_entry 147 154 36 54 0 0 0;
  mk_entry 148 178 60 78 0 0 0; mk_entry 149 200 30 60 0 0 0; mk_entry 150 134 42 42 0 0 0;
  mk_entry 151 219 8 8 3 6 7; mk_entry 152 208 4 8 0 0 0; mk_entry 153 188 12 12 0 0 0;
  mk_entry 154 84 15 15 3 6 7; mk_entry 155 22 13 13 3 4 5; mk_entry 156 19 6 6 3 0 1;
  mk_entry 157 21 15 15 3 12 13; mk_entry 158 134 14 15 3 12 13;
  mk_entry 160 78 12 12 3 8 9; mk_entry 161 68 3 3 3 0 1; mk_entry 162 189 8 9 0 0 0;
  mk_entry 163 127 28 28 0 0 0; mk_entry 164 154 44 44 0 0 0; mk_entry 165 21 3 3 0 0 0;
  mk_entry 166 21 9 9 0 0 0; mk_entry 167 144 22 22 0 0 0; mk_entry 168 1 12 12 0 0 0;
  mk_entry 169 234 18 18 0 0 0; mk_entry 170 73 34 34 0 0 0; mk_entry 171 181 66 66 0 0 0;
  mk_entry 172 22 98 98 0 0 0; mk_entry 173 83 8 8 0 0 0; mk_entry 174 167 48 48 0 0 0;
  mk_entry 175 138 19 19 3 14 15; mk_entry 176 234 3 3 3 0 1; mk_entry 177 240 20 20 0 0 0;
  mk_entry 178 47 24 24 0 0 0; mk_entry 179 189 29 29 1 26 0; mk_entry 180 52 45 47 1 42 0;
  mk_entry 181 174 4 4 0 0 0; mk_entry 182 229 40 40 0 0 0; mk_entry 183 85 2 2 3 0 1;
  mk_entry 184 159 206 206 3 4 5; mk_entry 185 186 7 7 3 4 5; mk_entry 186 72 29 29 3 0 1;
  mk_entry 191 92 27 27 0 0 0; mk_entry 192 36 44 54 0 0 0; mk_entry 193 71 22 26 0 0 0;
  mk_entry 194 98 25 33 0 0 0; mk_entry 195 120 37 37 0 0 0; mk_entry 200 134 42 42 3 40 41;
  mk_entry 201 205 14 14 3 12 13; mk_entry 214 69 8 8 3 6 7; mk_entry 215 101 3 3 0 0 0;
  mk_entry 216 50 3 3 3 0 1; mk_entry 217 202 6 6 0 0 0; mk_entry 218 17 7 7 3 0 1;
  mk_entry 219 162 2 2 0 0 0; mk_entry 225 208 65 73 0 0 0; mk_entry 226 207 8 8 0 0 0;
  mk_entry 230 163 42 42 0 0 0; mk_entry 231 105 40 40 0 0 0; mk_entry 232 151 63 65 0 0 0;
  mk_entry 233 35 182 182 0 0 0; mk_entry 234 150 40 40 0 0 0; mk_entry 235 179 42 42 0 0 0;
  mk_entry 241 90 32 32 0 0 0; mk_entry 242 104 52 60 0 0 0; mk_entry 243 85 53 61 1 52 0;
  mk_entry 244 95 6 6 0 0 0; mk_entry 245 130 2 2 0 0 0; mk_entry 246 184 38 38 0 0 0;
  mk_entry 247 81 19 19 0 0 0; mk_entry 248 8 254 254 3 3 4; mk_entry 249 204 36 36 0 0 0;
  mk_entry 250 49 30 30 0 0 0; mk_entry 251 170 18 18 0 0 0; mk_entry 252 44 18 18 0 0 0;
  mk_entry 253 83 51 54 0 0 0; mk_entry 254 46 9 9 0 0 0; mk_entry 256 71 42 42 3 8 9;
  mk_entry 257 131 9 9 0 0 0; mk_entry 258 187 32 232 3 0 1; mk_entry 259 92 235 235 0 0 0;
  mk_entry 260 146 5 13 0 0 0; mk_entry 261 179 27 61 0 0 0; mk_entry 262 12 18 22 0 0 0;
  mk_entry 263 133 255 255 0 0 0; mk_entry 264 49 28 28 0 0 0; mk_entry 265 26 16 20 0 0 0;
  mk_entry 266 193 255 255 3 2 3; mk_entry 267 35 255 255 3 2 3; mk_entry 268 14 4 4 3 2 3;
  mk_entry 269 109 213 213 0 0 0; mk_entry 270 59 19 19 0 0 0; mk_entry 271 22 52 52 0 0 0;
  mk_entry 275 126 31 31 0 0 0; mk_entry 276 18 49 49 0 0 0; mk_entry 280 70 33 33 0 0 0;
  mk_entry 281 48 13 13 0 0 0; mk_entry 282 123 35 35 3 32 33;
  mk_entry 283 74 144 144 0 0 0; mk_entry 284 99 32 32 3 30 31;
  mk_entry 285 137 40 48 3 38 39; mk_entry 286 210 53 57 3 50 51;
  mk_entry 287 1 23 23 3 20 21; mk_entry 288 20 23 23 3 20 21; mk_entry 290 251 46 46 0 0 0;
  mk_entry 291 10 57 57 0 0 0; mk_entry 299 19 96 98 0 0 0; mk_entry 300 217 22 22 0 0 0;
  mk_entry 301 243 58 58 0 0 0; mk_entry 310 28 17 17 0 0 0; mk_entry 311 95 116 116 0 0 0;
  mk_entry 320 243 20 20 3 2 3; mk_entry 321 88 2 2 3 0 1; mk_entry 322 243 149 149 0 0 0;
  mk_entry 323 78 147 147 3 0 1; mk_entry 324 132 146 146 0 0 0;
  mk_entry 330 23 158 167 0 0 0; mk_entry 331 91 230 233 0 0 0;
  mk_entry 332 236 239 239 0 0 0; mk_entry 333 231 109 109 0 0 0;
  mk_entry 334 72 10 10 0 0 0; mk_entry 335 225 24 24 0 0 0; mk_entry 336 245 84 84 0 0 0;
  mk_entry 339 199 5 5 0 0 0; mk_entry 340 99 70 70 0 0 0; mk_entry 350 232 20 252 0 0 0;
  mk_entry 360 11 25 25 0 0 0; mk_entry 370 75 87 109 0 0 0; mk_entry 373 117 42 42 0 0 0;
  mk_entry 375 251 140 140 0 0 0; mk_entry 380 232 20 20 0 0 0;
  mk_entry 385 147 133 133 3 2 3; mk_entry 386 132 16 16 3 4 5; mk_entry 387 4 72 72 3 4 5;
  mk_entry 388 8 37 37 3 32 33; mk_entry 390 156 238 238 0 0 0;
  mk_entry 395 0 212 212 0 0 0; mk_entry 397 182 108 108 0 0 0;
  mk_entry 400 110 254 254 3 4 5; mk_entry 401 183 6 6 3 4 5; mk_entry 410 160 53 53 0 0 0;
  mk_entry 411 106 3 3 0 0 0; mk_entry 412 33 6 6 3 4 5; mk_entry 413 77 7 7 3 4 5;
  mk_entry 9000 113 137 137 0 0 0; mk_entry 9005 117 34 34 0 0 0;
  mk_entry 10001 209 20 20 0 0 0; mk_entry 10002 186 41 41 0 0 0;
  mk_entry 10003 4 1 1 0 0 0; mk_entry 11000 134 51 52 3 4 5;
  mk_entry 11001 15 135 136 0 0 0; mk_entry 11002 234 179 180 3 4 5;
  mk_entry 11003 64 5 5 0 0 0; mk_entry 11010 46 49 49 0 0 0;
  mk_entry 11011 106 44 44 0 0 0; mk_entry 11020 205 16 16 0 0 0;
  mk_entry 11030 144 44 44 0 0 0; mk_entry 11031 133 44 44 0 0 0;
  mk_entry 11032 85 44 44 0 0 0; mk_entry 11033 195 37 37 3 16 17;
  mk_entry 11034 79 5 5 0 0 0; mk_entry 11035 128 8 8 3 4 5; mk_entry 11036 177 34 34 0 0 0;
  mk_entry 11037 130 28 28 0 0 0; mk_entry 11038 47 38 38 0 0 0;
  mk_entry 11039 142 9 9 0 0 0; mk_entry 12900 114 44 44 3 0 1;
  mk_entry 12901 254 59 59 3 30 31; mk_entry 12902 140 53 53 3 4 5;
  mk_entry 12903 249 46 46 3 0 1; mk_entry 12904 77 54 54 3 28 29;
  mk_entry 12905 49 43 43 3 0 1; mk_entry 12915 94 249 249 3 0 1;
  mk_entry 12918 139 51 51 0 0 0; mk_entry 12919 7 18 18 3 16 17;
  mk_entry 12920 20 5 5 0 0 0; mk_entry 42000 227 1 1 0 0 0; mk_entry 42001 239 46 46 0 0 0;
  mk_entry 50001 246 32 32 0 0 0; mk_entry 50002 181 246 246 0 0 0;
  mk_entry 50003 62 19 19 0 0 0; mk_entry 50004 240 10 10 3 8 9;
  mk_entry 50005 152 6 6 3 4 5].

(** [MAVLINK_MESSAGE_CRCS] of common/common.h. *)
Definition common_crcs : list mavlink_msg_entry_t := [
  mk_entry 0 50 9 9 0 0 0; mk_entry 1 124 31 43 0 0 0; mk_entry 2 137 12 12 0 0 0;
  mk_entry 4 237 14 14 3 12 13; mk_entry 5 217 28 28 1 0 0; mk_entry 6 104 3 3 0 0 0;
  mk_entry 7 119 32 32 0 0 0; mk_entry 8 117 36 36 0 0 0; mk_entry 11 89 6 6 1 4 0;
  mk_entry 20 214 20 20 3 2 3; mk_entry 21 159 2 2 3 0 1; mk_entry 22 220 25 25 0 0 0;
  mk_entry 23 168 23 23 3 4 5; mk_entry 24 24 30 52 0 0 0; mk_entry 25 23 101 101 0 0 0;
  mk_entry 26 170 22 24 0 0 0; mk_entry 27 144 26 29 0 0 0; mk_entry 28 67 16 16 0 0 0;
  mk_entry 29 115 14 16 0 0 0; mk_entry 30 39 28 28 0 0 0; mk_entry 31 246 32 48 0 0 0;
  mk_entry 32 185 28 28 0 0 0; mk_entry 33 104 28 28 0 0 0; mk_entry 34 237 22 22 0 0 0;
  mk_entry 35 244 22 22 0 0 0; mk_entry 36 222 21 37 0 0 0; mk_entry 37 212 6 7 3 4 5;
  mk_entry 38 9 6 7 3 4 5; mk_entry 39 254 37 38 3 32 33; mk_entry 40 230 4 5 3 2 3;
  mk_entry 41 28 4 4 3 2 3; mk_entry 42 28 2 6 0 0 0; mk_entry 43 132 2 3 3 0 1;
  mk_entry 44 221 4 5 3 2 3; mk_entry 45 232 2 3 3 0 1; mk_entry 46 11 2 2 0 0 0;
  mk_entry 47 153 3 4 3 0 1; mk_entry 48 41 13 21 1 12 0; mk_entry 49 39 12 20 0 0 0;
  mk_entry 50 78 37 37 3 18 19; mk_entry 51 196 4 5 3 2 3; mk_entry 54 15 27 27 3 24 25;
  mk_entry 55 3 25 25 0 0 0; mk_entry 61 167 72 72 0 0 0; mk_entry 62 183 26 26 0 0 0;
  mk_entry 63 119 181 181 0 0 0; mk_entry 64 191 225 225 0 0 0; mk_entry 65 118 42 42 0 0 0;
  mk_entry 66 148 6 6 3 2 3; mk_entry 67 21 4 4 0 0 0; mk_entry 69 243 11 18 1 10 0;
  mk_entry 70 124 18 38 3 16 17; mk_entry 73 38 37 38 3 32 33; mk_entry 74 20 20 20 0 0 0;
  mk_entry 75 158 35 35 3 30 31; mk_entry 76 152 33 33 3 30 31; mk_entry 77 143 3 10 3 8 9;
  mk_entry 80 14 4 4 3 2 3; mk_entry 81 106 22 22 0 0 0; mk_entry 82 49 39 51 3 36 37;
  mk_entry 83 22 37 37 0 0 0; mk_entry 84 143 53 53 3 50 51; mk_entry 85 140 51 51 0 0 0;
  mk_entry 86 5 53 53 3 50 51; mk_entry 87 150 51 51 0 0 0; mk_entry 89 231 28 28 0 0 0;
  mk_entry 90 183 56 56 0 0 0; mk_entry 91 63 42 42 0 0 0; mk_entry 92 54 33 33 0 0 0;
  mk_entry 93 47 81 81 0 0 0; mk_entry 100 175 26 34 0 0 0; mk_entry 101 102 32 117 0 0 0;
  mk_entry 102 158 32 117 0 0 0; mk_entry 103 208 20 57 0 0 0; mk_entry 104 56 32 116 0 0 0;
  mk_entry 105 93 62 63 0 0 0; mk_entry 106 138 44 44 0 0 0; mk_entry 107 108 64 65 0 0 0;
  mk_entry 108 32 84 92 0 0 0; mk_entry 109 185 9 9 0 0 0; mk_entry 110 84 254 254 3 1 2;
  mk_entry 111 34 16 18 3 16 17; mk_entry 112 174 12 12 0 0 0; mk_entry 113 124 36 39 0 0 0;
  mk_entry 114 237 44 44 0 0 0; mk_entry 115 4 64 64 0 0 0; mk_entry 116 76 22 24 0 0 0;
  mk_entry 117 128 6 6 3 4 5; mk_entry 118 56 14 14 0 0 0; mk_entry 119 116 12 12 3 10 11;
  mk_entry 120 134 97 97 0 0 0; mk_entry 121 237 2 2 3 0 1; mk_entry 122 203 2 2 3 0 1;
  mk_entry 123 250 113 113 3 0 1; mk_entry 124 87 35 57 0 0 0; mk_entry 125 203 6 6 0 0 0;
  mk_entry 126 220 79 81 3 79 80; mk_entry 127 25 35 35 0 0 0; mk_entry 128 226 35 35 0 0 0;
  mk_entry 129 46 22 24 0 0 0; mk_entry 130 29 13 13 0 0 0; mk_entry 131 223 255 255 0 0 0;
  mk_entry 132 85 14 39 0 0 0; mk_entry 133 6 18 18 0 0 0; mk_entry 134 229 43 43 0 0 0;
  mk_entry 135 203 8 8 0 0 0; mk_entry 136 1 22 22 0 0 0; mk_entry 137 195 14 16 0 0 0;
  mk_entry 138 109 36 120 0 0 0; mk_entry 139 168 43 43 3 41 42;
  mk_entry 140 181 41 41 0 0 0; mk_entry 141 47 32 32 0 0 0; mk_entry 142 72 243 243 0 0 0;
  mk_entry 143 131 14 16 0 0 0; mk_entry 144 127 93 93 0 0 0;
  mk_entry 146 103 100 100 0 0 0; mk_entry 147 154 36 54 0 0 0;
  mk_entry 148 178 60 78 0 0 0; mk_entry 149 200 30 60 0 0 0; mk_entry 162 189 8 9 0 0 0;
  mk_entry 192 36 44 54 0 0 0; mk_entry 225 208 65 73 0 0 0; mk_entry 230 163 42 42 0 0 0;
  mk_entry 231 105 40 40 0 0 0; mk_entry 232 151 63 65 0 0 0; mk_entry 233 35 182 182 0 0 0;
  mk_entry 234 150 40 40 0 0 0; mk_entry 235 179 42 42 0 0 0; mk_entry 241 90 32 32 0 0 0;
  mk_entry 242 104 52 60 0 0 0; mk_entry 243 85 53 61 1 52 0; mk_entry 244 95 6 6 0 0 0;
  mk_entry 245 130 2 2 0 0 0; mk_entry 246 184 38 38 0 0 0; mk_entry 247 81 19 19 0 0 0;
  mk_entry 248 8 254 254 3 3 4; mk_entry 249 204 36 36 0 0 0; mk_entry 250 49 30 30 0 0 0;
  mk_entry 251 170 18 18 0 0 0; mk_entry 252 44 18 18 0 0 0; mk_entry 253 83 51 54 0 0 0;
  mk_entry 254 46 9 9 0 0 0; mk_entry 256 71 42 42 3 8 9; mk_entry 257 131 9 9 0 0 0;
  mk_entry 258 187 32 232 3 0 1; mk_entry 259 92 235 235 0 0 0; mk_entry 260 146 5 13 0 0 0;
  mk_entry 261 179 27 61 0 0 0; mk_entry 262 12 18 22 0 0 0; mk_entry 263 133 255 255 0 0 0;
  mk_entry 264 49 28 28 0 0 0; mk_entry 265 26 16 20 0 0 0; mk_entry 266 193 255 255 3 2 3;
  mk_entry 267 35 255 255 3 2 3; mk_entry 268 14 4 4 3 2 3; mk_entry 269 109 213 213 0 0 0;
  mk_entry 270 59 19 19 0 0 0; mk_entry 271 22 52 52 0 0 0; mk_entry 275 126 31 31 0 0 0;
  mk_entry 276 18 49 49 0 0 0; mk_entry 280 70 33 33 0 0 0; mk_entry 281 48 13 13 0 0 0;
  mk_entry 282 123 35 35 3 32 33; mk_entry 283 74 144 144 0 0 0;
  mk_entry 284 99 32 32 3 30 31; mk_entry 285 137 40 48 3 38 39;
  mk_entry 286 210 53 57 3 50 51; mk_entry 287 1 23 23 3 20 21;
  mk_entry 288 20 23 23 3 20 21; mk_entry 290 251 46 46 0 0 0; mk_entry 291 10 57 57 0 0 0;
  mk_entry 299 19 96 98 0 0 0; mk_entry 300 217 22 22 0 0 0; mk_entry 301 243 58 58 0 0 0;
  mk_entry 310 28 17 17 0 0 0; mk_entry 311 95 116 116 0 0 0; mk_entry 320 243 20 20 3 2 3;
  mk_entry 321 88 2 2 3 0 1; mk_entry 322 243 149 149 0 0 0; mk_entry 323 78 147 147 3 0 1;
  mk_entry 324 132 146 146 0 0 0; mk_entry 330 23 158 167 0 0 0;
  mk_entry 331 91 230 233 0 0 0; mk_entry 332 236 239 239 0 0 0;
  mk_entry 333 231 109 109 0 0 0; mk_entry 334 72 10 10 0 0 0; mk_entry 335 225 24 24 0 0 0;
  mk_entry 336 245 84 84 0 0 0; mk_entry 339 199 5 5 0 0 0; mk_entry 340 99 70 70 0 0 0;
  mk_entry 350 232 20 252 0 0 0; mk_entry 360 11 25 25 0 0 0; mk_entry 370 75 87 109 0 0 0;
  mk_entry 373 117 42 42 0 0 0; mk_entry 375 251 140 140 0 0 0;
  mk_entry 380 232 20 20 0 0 0; mk_entry 385 147 133 133 3 2 3;
  mk_entry 386 132 16 16 3 4 5; mk_entry 387 4 72 72 3 4 5; mk_entry 388 8 37 37 3 32 33;
  mk_entry 390 156 238 238 0 0 0; mk_entry 395 0 212 212 0 0 0;
  mk_entry 397 182 108 108 0 0 0; mk_entry 400 110 254 254 3 4 5;
  mk_entry 401 183 6 6 3 4 5; mk_entry 410 160 53 53 0 0 0; mk_entry 411 106 3 3 0 0 0;
  mk_entry 412 33 6 6 3 4 5; mk_entry 413 77 7 7 3 4 5; mk_entry 9000 113 137 137 0 0 0;
  mk_entry 9005 117 34 34 0 0 0; mk_entry 12900 114 44 44 3 0 1;
  mk_entry 12901 254 59 59 3 30 31; mk_entry 12902 140 53 53 3 4 5;
  mk_entry 12903 249 46 46 3 0 1; mk_entry 12904 77 54 54 3 28 29;
  mk_entry 12905 49 43 43 3 0 1; mk_entry 12915 94 249 249 3 0 1;
  mk_entry 12918 139 51 51 0 0 0; mk_entry 12919 7 18 18 3 16 17;
  mk_entry 12920 20 5 5 0 0 0].

(** What a dialect's table satisfies: strictly increasing identifiers that fit
    the 24-bit field, and lengths and checksum seeds that are bytes. *)
Definition entry_ok (e : mavlink_msg_entry_t) : Prop :=
  in_range 24 (e_msgid e) /\ is_u8 (e_crc_extra e) /\ is_u8 (e_min_msg_len e) /\
  is_u8 (e_max_msg_len e).

#[export] Instance entry_ok_dec e : Decision (entry_ok e).
Proof. unfold entry_ok; apply _. Defined.

Fixpoint increasing (l : list Z) : bool :=
  match l with
  | x :: (y :: _) as l' => (x <? y) && increasing l'
  | _ => true
  end.

Record dialect_ok (crcs : list mavlink_msg_entry_t) : Prop := {
  dialect_nonempty : crcs <> [];
  dialect_short : Z.of_nat (length crcs) < 2 ^ 31;
  dialect_entries : Forall entry_ok crcs;
  dialect_sorted : increasing (map e_msgid crcs) = true;
}.

Lemma ardupilotmega_ok : dialect_ok ardupilotmega_crcs.
Proof. split; [done|decide_true|decide_true|vm_compute; reflexivity]. Qed.

Lemma common_ok : dialect_ok common_crcs.
Proof. split; [done|decide_true|decide_true|vm_compute; reflexivity]. Qed.

#[export] Hint Resolve ardupilotmega_ok common_ok : words.
