(* ===== verification/Mavlink.v ===== *)
(** * MAVLink message operations

    mavlink/include/mavlink/v2.0/mavlink_helpers.h, without the parser (see
    MavlinkParser): the message table lookup, packet signing and signature
    checking, finalisation of an outgoing message and serialisation. *)

From S2P Require Import Prelude Checksum Sha256 MavlinkTypes.

Local Open Scope Z_scope.

(** A hashing context on the stack; its contents do not matter
    ([Sha256.sha256_stream_correct]). *)
Definition ctx_uninit : mavlink_sha256_ctx := mk_sha256 0 0 [] (replicate 64 0).

Definition NUM_SECRET_KEY : nat := 32.

(** ** Signing *)

Definition mavlink_sign_packet (signing : option mavlink_signing_t)
    (signature header packet crc : list Z) : option mavlink_signing_t * list Z * Z :=
  match signing with
  | None => (signing, signature, 0)
  | Some g =>
      if Z.land (g_flags g) MAVLINK_SIGNING_FLAG_SIGN_OUTGOING =? 0
      then (signing, signature, 0)
      else
        let signature := wr signature 0 (g_link_id g) in
        let t8 := le_bytes 8 (g_timestamp g) in
        let signature := memcpy_at signature 1 (take 6 t8) in
        let g := set_g_timestamp (u64 (g_timestamp g + 1)) g in
        let ctx := mavlink_sha256_init ctx_uninit in
        let ctx := mavlink_sha256_update ctx (g_secret_key g) in
        let ctx := mavlink_sha256_update ctx header in
        let ctx := mavlink_sha256_update ctx packet in
        let ctx := mavlink_sha256_update ctx crc in
        let ctx := mavlink_sha256_update ctx (take 7 signature) in
        let signature := memcpy_at signature 7 (mavlink_sha256_final_48 ctx) in
        (Some g, signature, MAVLINK_SIGNATURE_BLOCK_LEN)
  end.

(** [for (i=0; i<num_signing_streams; i++) ... break;] *)
Fixpoint find_stream (n : nat) (streams : list mavlink_signing_stream)
    (sysid compid link_id : Z) (i : nat) : nat :=
  match n with
  | O => i
  | S n =>
      match streams !! i with
      | Some t =>
          if (sysid =? t_sysid t) && (compid =? t_compid t) && (link_id =? t_link_id t)
          then i
          else find_stream n streams sysid compid link_id (S i)
      | None => i
      end
  end.

(** The ten bytes at [&msg->magic] of the packed structure. *)
Definition header_bytes (msg : mavlink_message_t) : list Z :=
  [m_magic msg; m_len msg; m_incompat_flags msg; m_compat_flags msg; m_seq msg;
   m_sysid msg; m_compid msg] ++ le_bytes 3 (m_msgid msg).

Definition signature_digest (g : mavlink_signing_t) (msg : mavlink_message_t) : list Z :=
  let ctx := mavlink_sha256_init ctx_uninit in
  let ctx := mavlink_sha256_update ctx (g_secret_key g) in
  let ctx := mavlink_sha256_update ctx (header_bytes msg) in
  let ctx := mavlink_sha256_update ctx (take (Z.to_nat (m_len msg)) (m_payload64 msg)) in
  let ctx := mavlink_sha256_update ctx (m_ck msg) in
  let ctx := mavlink_sha256_update ctx (take 7 (m_signature msg)) in
  mavlink_sha256_final_48 ctx.

(** The timestamp test and the update of the stream table, once the signature
    itself has been found good. *)
Definition check_timestamp (g : mavlink_signing_t) (ss : mavlink_signing_streams_t)
    (msg : mavlink_message_t)
    : mavlink_signing_t * mavlink_signing_streams_t * bool :=
  let psig := m_signature msg in
  let link_id := rd psig 0 in
  let tstamp := le_word (slice 1 6 psig) in
  let n := Z.to_nat (num_signing_streams ss) in
  let i := find_stream n (stream ss) (m_sysid msg) (m_compid msg) link_id 0 in
  let accept (ss : mavlink_signing_streams_t) :=
    let ss := set_stream (alter (set_t_timestamp_bytes (slice 1 6 psig)) i (stream ss)) ss in
    let g := if g_timestamp g <? tstamp then set_g_timestamp tstamp g else g in
    (set_g_last_status MAVLINK_SIGNING_STATUS_OK g, ss, true) in
  if (i =? n)%nat then
    if MAVLINK_MAX_SIGNING_STREAMS <=? num_signing_streams ss then
      (set_g_last_status MAVLINK_SIGNING_STATUS_TOO_MANY_STREAMS g, ss, false)
    else if u64 (tstamp + 6000 * 1000) <? g_timestamp g then
      (set_g_last_status MAVLINK_SIGNING_STATUS_OLD_TIMESTAMP g, ss, false)
    else
      let add t := set_t_link_id link_id (set_t_compid (m_compid msg)
                     (set_t_sysid (m_sysid msg) t)) in
      accept (set_num_signing_streams (u16 (num_signing_streams ss + 1))
                (set_stream (alter add i (stream ss)) ss))
  else
    let last_tstamp :=
      match stream ss !! i with
      | Some t => le_word (t_timestamp_bytes t)
      | None => 0
      end in
    if tstamp <=? last_tstamp then
      (set_g_last_status MAVLINK_SIGNING_STATUS_REPLAY g, ss, false)
    else accept ss.

Definition mavlink_signature_check (signing : option mavlink_signing_t)
    (signing_streams : option mavlink_signing_streams_t) (msg : mavlink_message_t)
    : option mavlink_signing_t * option mavlink_signing_streams_t * bool :=
  match signing with
  | None => (signing, signing_streams, true)
  | Some g =>
      if negb (bool_decide (signature_digest g msg = drop 7 (m_signature msg))) then
        (Some (set_g_last_status MAVLINK_SIGNING_STATUS_BAD_SIGNATURE g),
         signing_streams, false)
      else
        match signing_streams with
        | None =>
            (Some (set_g_last_status MAVLINK_SIGNING_STATUS_NO_STREAMS g), None, false)
        | Some ss =>
            let '(g, ss, ok) := check_timestamp g ss msg in (Some g, Some ss, ok)
        end
  end.

(** ** Trimming *)

Fixpoint trim_loop (fuel : nat) (payload : list Z) (length : Z) : Z :=
  match fuel with
  | O => length
  | S fuel =>
      if (1 <? length) && (rd payload (length - 1) =? 0)
      then trim_loop fuel payload (length - 1)
      else length
  end.

(** Every iteration decreases [length], so [length] iterations are enough. *)
Definition _mav_trim_payload (payload : list Z) (length : Z) : Z :=
  trim_loop (Z.to_nat length) payload length.

(** ** Finalising and serialising *)

Definition mavlink_reset_channel_status (status : mavlink_status_t) : mavlink_status_t :=
  set_s_parse_state MAVLINK_PARSE_STATE_IDLE status.

Definition _mav_parse_error (status : mavlink_status_t) : mavlink_status_t :=
  set_s_parse_error (u8 (s_parse_error status + 1)) status.

Definition out_mavlink1 (status : mavlink_status_t) : bool :=
  negb (Z.land (s_flags status) MAVLINK_STATUS_FLAG_OUT_MAVLINK1 =? 0).

Definition signs_outgoing (status : mavlink_status_t) : bool :=
  match s_signing status with
  | Some g => negb (Z.land (g_flags g) MAVLINK_SIGNING_FLAG_SIGN_OUTGOING =? 0)
  | None => false
  end.

Definition mavlink_finalize_message_buffer (msg : mavlink_message_t)
    (system_id component_id : Z) (status : mavlink_status_t)
    (min_length length crc_extra : Z) : mavlink_message_t * mavlink_status_t * Z :=
  let mavlink1 := out_mavlink1 status in
  let signing := negb mavlink1 && signs_outgoing status in
  let signature_len := if signing then MAVLINK_SIGNATURE_BLOCK_LEN else 0 in
  let header_len :=
    if mavlink1 then MAVLINK_CORE_HEADER_MAVLINK1_LEN + 1 else MAVLINK_CORE_HEADER_LEN + 1 in
  let msg := set_m_magic (if mavlink1 then MAVLINK_STX_MAVLINK1 else MAVLINK_STX) msg in
  let msg := set_m_len (if mavlink1 then min_length
                        else _mav_trim_payload (m_payload64 msg) length) msg in
  let msg := set_m_sysid system_id msg in
  let msg := set_m_compid component_id msg in
  let msg := set_m_incompat_flags 0 msg in
  let msg := if signing
             then set_m_incompat_flags (Z.lor (m_incompat_flags msg) MAVLINK_IFLAG_SIGNED) msg
             else msg in
  let msg := set_m_compat_flags 0 msg in
  let msg := set_m_seq (s_current_tx_seq status) msg in
  let status := set_s_current_tx_seq (u8 (s_current_tx_seq status + 1)) status in
  let buf :=
    if mavlink1 then
      [m_magic msg; m_len msg; m_seq msg; m_sysid msg; m_compid msg;
       Z.land (m_msgid msg) 0xFF]
    else
      [m_magic msg; m_len msg; m_incompat_flags msg; m_compat_flags msg; m_seq msg;
       m_sysid msg; m_compid msg; Z.land (m_msgid msg) 0xFF;
       Z.land (Z.shiftr (m_msgid msg) 8) 0xFF; Z.land (Z.shiftr (m_msgid msg) 16) 0xFF] in
  let payload := take (Z.to_nat (m_len msg)) (m_payload64 msg) in
  let checksum := crc_calculate (drop 1 buf) in
  let checksum := crc_accumulate_buffer checksum payload in
  let checksum := crc_accumulate crc_extra checksum in
  let msg := set_m_payload64 (wr (m_payload64 msg) (m_len msg) (Z.land checksum 0xFF)) msg in
  let msg := set_m_payload64
    (wr (m_payload64 msg) (m_len msg + 1) (u8 (Z.shiftr checksum 8))) msg in
  let msg := set_m_checksum checksum msg in
  let '(msg, status) :=
    if signing then
      let '(g, signature, _) :=
        mavlink_sign_packet (s_signing status) (m_signature msg) buf payload
          (slice (Z.to_nat (m_len msg)) 2 (m_payload64 msg)) in
      (set_m_signature signature msg, set_s_signing g status)
    else (msg, status) in
  (msg, status, u16 (m_len msg + header_len + 2 + signature_len)).

(** The bytes handed to [_mavlink_send_uart], in order. *)
Definition _mav_finalize_message_chan_send (status : mavlink_status_t) (sysid compid : Z)
    (msgid : Z) (packet : list Z) (min_length length crc_extra : Z)
    : mavlink_status_t * list Z :=
  let mavlink1 := out_mavlink1 status in
  let signing := negb mavlink1 && signs_outgoing status in
  if mavlink1 && (255 <? msgid) then (_mav_parse_error status, [])
  else
    let length := if mavlink1 then min_length else _mav_trim_payload packet length in
    let buf :=
      if mavlink1 then
        [MAVLINK_STX_MAVLINK1; length; s_current_tx_seq status; sysid; compid;
         Z.land msgid 0xFF]
      else
        [MAVLINK_STX; length; if signing then Z.lor 0 MAVLINK_IFLAG_SIGNED else 0; 0;
         s_current_tx_seq status; sysid; compid; Z.land msgid 0xFF;
         Z.land (Z.shiftr msgid 8) 0xFF; Z.land (Z.shiftr msgid 16) 0xFF] in
    let status := set_s_current_tx_seq (u8 (s_current_tx_seq status + 1)) status in
    let payload := take (Z.to_nat length) packet in
    let checksum := crc_calculate (drop 1 buf) in
    let checksum := crc_accumulate_buffer checksum payload in
    let checksum := crc_accumulate crc_extra checksum in
    let ck := [Z.land checksum 0xFF; u8 (Z.shiftr checksum 8)] in
    if signing then
      let '(g, signature, signature_len) :=
        mavlink_sign_packet (s_signing status) (replicate 13 0) buf payload ck in
      (set_s_signing g status,
       buf ++ payload ++ ck ++ (if signature_len =? 0 then [] else signature))
    else (status, buf ++ payload ++ ck).

Definition header_v1 (msg : mavlink_message_t) (length : Z) : list Z :=
  [m_magic msg; length; m_seq msg; m_sysid msg; m_compid msg; Z.land (m_msgid msg) 0xFF].

Definition header_v2 (msg : mavlink_message_t) (length : Z) : list Z :=
  [m_magic msg; length; m_incompat_flags msg; m_compat_flags msg; m_seq msg; m_sysid msg;
   m_compid msg; Z.land (m_msgid msg) 0xFF; Z.land (Z.shiftr (m_msgid msg) 8) 0xFF;
   Z.land (Z.shiftr (m_msgid msg) 16) 0xFF].

Definition ck_bytes (msg : mavlink_message_t) : list Z :=
  [Z.land (m_checksum msg) 0xFF; u8 (Z.shiftr (m_checksum msg) 8)].

(** The bytes sent on the channel, in order. *)
Definition _mavlink_resend_uart (msg : mavlink_message_t) : list Z :=
  let payload := take (Z.to_nat (m_len msg)) (m_payload64 msg) in
  if m_magic msg =? MAVLINK_STX_MAVLINK1 then
    header_v1 msg (m_len msg) ++ payload ++ ck_bytes msg
  else
    header_v2 msg (m_len msg) ++ payload ++ ck_bytes msg ++
    (if Z.land (m_incompat_flags msg) MAVLINK_IFLAG_SIGNED =? 0 then [] else m_signature msg).

(** The new contents of [buf] and the length returned. *)
Definition mavlink_msg_to_send_buffer (buf : list Z) (msg : mavlink_message_t)
    : list Z * Z :=
  if m_magic msg =? MAVLINK_STX_MAVLINK1 then
    let length := m_len msg in
    let signature_len := 0 in
    let header_len := MAVLINK_CORE_HEADER_MAVLINK1_LEN in
    let buf := memcpy_at buf 0 (header_v1 msg length) in
    let buf := memcpy_at buf 6 (take (Z.to_nat (m_len msg)) (m_payload64 msg)) in
    let ck := header_len + 1 + m_len msg in
    let buf := wr buf ck (Z.land (m_checksum msg) 0xFF) in
    let buf := wr buf (ck + 1) (u8 (Z.shiftr (m_checksum msg) 8)) in
    (buf, u16 (header_len + 1 + 2 + length + signature_len))
  else
    let length := _mav_trim_payload (m_payload64 msg) (m_len msg) in
    let header_len := MAVLINK_CORE_HEADER_LEN in
    let buf := memcpy_at buf 0 (header_v2 msg length) in
    let buf := memcpy_at buf 10 (take (Z.to_nat length) (m_payload64 msg)) in
    let ck := header_len + 1 + length in
    let signature_len :=
      if Z.land (m_incompat_flags msg) MAVLINK_IFLAG_SIGNED =? 0 then 0
      else MAVLINK_SIGNATURE_BLOCK_LEN in
    let buf := wr buf ck (Z.land (m_checksum msg) 0xFF) in
    let buf := wr buf (ck + 1) (u8 (Z.shiftr (m_checksum msg) 8)) in
    let buf := if 0 <? signature_len
               then memcpy_at buf (Z.to_nat (ck + 2)) (m_signature msg) else buf in
    (buf, u16 (header_len + 1 + 2 + length + signature_len)).

Definition mavlink_msg_get_send_buffer_length (msg : mavlink_message_t) : Z :=
  if m_magic msg =? MAVLINK_STX_MAVLINK1
  then u16 (m_len msg + MAVLINK_CORE_HEADER_MAVLINK1_LEN + 1 + 2)
  else
    let signature_len :=
      if Z.land (m_incompat_flags msg) MAVLINK_IFLAG_SIGNED =? 0 then 0
      else MAVLINK_SIGNATURE_BLOCK_LEN in
    u16 (m_len msg + MAVLINK_NUM_NON_PAYLOAD_BYTES + signature_len).

Definition mavlink_start_checksum (msg : mavlink_message_t) : mavlink_message_t :=
  set_m_checksum (crc_init 0) msg.

Definition mavlink_update_checksum (msg : mavlink_message_t) (c : Z) : mavlink_message_t :=
  set_m_checksum (crc_accumulate c (m_checksum msg)) msg.

Definition mavlink_set_proto_version (status : mavlink_status_t) (version : Z)
    : mavlink_status_t :=
  if 1 <? version
  then set_s_flags (Z.land (s_flags status)
         (u8 (Z.lnot MAVLINK_STATUS_FLAG_OUT_MAVLINK1))) status
  else set_s_flags (Z.lor (s_flags status) MAVLINK_STATUS_FLAG_OUT_MAVLINK1) status.

Definition mavlink_get_proto_version (status : mavlink_status_t) : Z :=
  if 0 <? Z.land (s_flags status) MAVLINK_STATUS_FLAG_OUT_MAVLINK1 then 1 else 2.

(** ** The message table *)

Section dialect.
Context (crcs : list mavlink_msg_entry_t).

Definition entry_at (i : Z) : mavlink_msg_entry_t :=
  default (mk_entry 0 0 0 0 0 0 0) (crcs !! Z.to_nat i).

(** The loop [while (low < high)]; it returns [low].  Each iteration
    shrinks the interval, so the size of the table is enough fuel. *)
Fixpoint bisect (fuel : nat) (msgid low high : Z) : Z :=
  match fuel with
  | O => low
  | S fuel =>
      if low <? high then
        let mid := u32 (low + 1 + high) / 2 in
        if msgid <? e_msgid (entry_at mid) then bisect fuel msgid low (u32 (mid - 1))
        else if e_msgid (entry_at mid) <? msgid then bisect fuel msgid mid high
        else mid
      else low
  end.

Definition mavlink_get_msg_entry (msgid : Z) : option mavlink_msg_entry_t :=
  let low := bisect (length crcs) msgid 0 (u32 (Z.of_nat (length crcs) - 1)) in
  if negb (e_msgid (entry_at low) =? msgid) then None else Some (entry_at low).

Definition mavlink_get_crc_extra (msg : mavlink_message_t) : Z :=
  match mavlink_get_msg_entry (m_msgid msg) with Some e => e_crc_extra e | None => 0 end.

Definition mavlink_min_message_length (msg : mavlink_message_t) : Z :=
  match mavlink_get_msg_entry (m_msgid msg) with Some e => e_min_msg_len e | None => 0 end.

Definition mavlink_max_message_length (msg : mavlink_message_t) : Z :=
  match mavlink_get_msg_entry (m_msgid msg) with Some e => e_max_msg_len e | None => 0 end.

(** The specification: the first entry with that identifier. *)
Definition msg_entry_spec (msgid : Z) : option mavlink_msg_entry_t :=
  List.find (fun e => e_msgid e =? msgid) crcs.
End dialect.

(** ** Lemmas: the table *)

Lemma increasing_lookup l i j x y :
  increasing l = true -> l !! i = Some x -> l !! j = Some y -> (i < j)%nat -> x < y.
Proof.
  revert i j x y. induction l as [|a l IH]; intros i j x y Hinc Hi Hj Hij; [done|].
  destruct l as [|b l]; [destruct j as [|[|j]]; simpl in *; try lia; done|].
  cbn [increasing] in Hinc. apply andb_true_iff in Hinc as [Hab Hinc]. apply Z.ltb_lt in Hab.
  destruct j as [|j]; [lia|]. destruct i as [|i].
  - simpl in Hi. injection Hi as <-. destruct j as [|j].
    + simpl in Hj. injection Hj as <-. done.
    + apply Z.lt_trans with b; [done|]. apply (IH 0%nat (S j)); [done..|lia].
  - apply (IH i j); [done..|lia].
Qed.

Section lookup.
Context (crcs : list mavlink_msg_entry_t) (Hok : dialect_ok crcs).
Let n := Z.of_nat (length crcs).

Lemma entry_at_lookup i :
  0 <= i < n -> crcs !! Z.to_nat i = Some (entry_at crcs i).
Proof.
  intros Hi. unfold entry_at.
  destruct (lookup_lt_is_Some_2 crcs (Z.to_nat i)) as [e ->]; [unfold n in Hi; lia|done].
Qed.

Lemma entry_at_mono i j :
  0 <= i < n -> 0 <= j < n -> i < j -> e_msgid (entry_at crcs i) < e_msgid (entry_at crcs j).
Proof.
  intros Hi Hj Hij. apply (increasing_lookup (map e_msgid crcs) (Z.to_nat i) (Z.to_nat j)).
  - apply Hok.
  - change (map e_msgid crcs) with (e_msgid <$> crcs). by rewrite list_lookup_fmap, entry_at_lookup.
  - change (map e_msgid crcs) with (e_msgid <$> crcs). by rewrite list_lookup_fmap, entry_at_lookup.
  - lia.
Qed.

(** If the identifier occurs between [low] and [high], the result is its index. *)
Lemma bisect_spec fuel msgid low high :
  0 <= low <= high -> high < n -> high - low <= Z.of_nat fuel ->
  let r := bisect crcs fuel msgid low high in
  low <= r <= high /\
  (forall i, low <= i <= high -> e_msgid (entry_at crcs i) = msgid -> r = i).
Proof.
  pose proof (dialect_short _ Hok) as Hn. fold n in Hn.
  revert low high. induction fuel as [|fuel IH]; intros low high Hlh Hhi Hf; cbn [bisect].
  { split; [lia|]. intros i Hi _. lia. }
  destruct (Z.ltb_spec low high) as [Hlt|Hge]; [|split; [lia|]; intros; lia].
  assert (low < u32 (low + 1 + high) / 2 <= high) as Hmid by mod_lia.
  set (mid := u32 (low + 1 + high) / 2) in *.
  assert (u32 (mid - 1) = mid - 1) as -> by (apply wrap_id; unfold in_range; lia).
  destruct (Z.ltb_spec msgid (e_msgid (entry_at crcs mid))) as [Hl|Hl];
    [|destruct (Z.ltb_spec (e_msgid (entry_at crcs mid)) msgid) as [Hg|Hg]].
  - destruct (IH low (mid - 1)) as [Hr Hi]; [lia..|]. split; [lia|].
    intros i Hil Hie. apply Hi; [|done].
    destruct (decide (i < mid)); [lia|]. exfalso.
    destruct (decide (i = mid)) as [->|]; [lia|].
    pose proof (entry_at_mono mid i). lia.
  - destruct (IH mid high) as [Hr Hi]; [lia..|]. split; [lia|].
    intros i Hil Hie. apply Hi; [|done].
    destruct (decide (mid <= i)); [lia|]. exfalso.
    pose proof (entry_at_mono i mid). lia.
  - split; [lia|]. intros i Hil Hie.
    destruct (Z.lt_trichotomy i mid) as [H|[H|H]]; [|done|];
      [pose proof (entry_at_mono i mid)|pose proof (entry_at_mono mid i)]; lia.
Qed.

Lemma msg_entry_found msgid :
  mavlink_get_msg_entry crcs msgid = msg_entry_spec crcs msgid.
Proof.
  pose proof (dialect_short _ Hok) as Hn. pose proof (dialect_nonempty _ Hok) as Hne.
  assert (0 < n) as Hpos by (unfold n; destruct crcs; [done|simpl; lia]).
  fold n in Hn. unfold mavlink_get_msg_entry. fold n.
  rewrite (wrap_id 32 (n - 1)) by (unfold in_range; lia).
  destruct (bisect_spec (length crcs) msgid 0 (n - 1)) as [Hr Hi]; [lia|lia|unfold n; lia|].
  set (r := bisect crcs (length crcs) msgid 0 (n - 1)) in *.
  unfold msg_entry_spec. destruct (List.find _ crcs) as [e|] eqn:Hf.
  - apply List.find_some in Hf as [Hin He]. apply Z.eqb_eq in He.
    apply list_elem_of_In, list_elem_of_lookup in Hin as [i Hlk].
    pose proof (lookup_lt_Some _ _ _ Hlk) as Hlen.
    assert (entry_at crcs (Z.of_nat i) = e) as Hent.
    { unfold entry_at. rewrite Nat2Z.id, Hlk. done. }
    rewrite (Hi (Z.of_nat i)); [|unfold n; lia|by rewrite Hent].
    rewrite Hent, He, Z.eqb_refl. done.
  - destruct (Z.eqb_spec (e_msgid (entry_at crcs r)) msgid) as [He|]; [|done].
    eapply List.find_none with (x := entry_at crcs r) in Hf.
    { by rewrite He, Z.eqb_refl in Hf. }
    apply list_elem_of_In, list_elem_of_lookup. eexists. apply entry_at_lookup. lia.
Qed.

Lemma get_msg_entry_ok msgid e :
  mavlink_get_msg_entry crcs msgid = Some e -> entry_ok e /\ e_msgid e = msgid.
Proof.
  rewrite msg_entry_found. intros Hf. apply List.find_some in Hf as [Hin He].
  split; [|by apply Z.eqb_eq].
  pose proof (dialect_entries _ Hok) as HF.
  exact (proj1 (List.Forall_forall _ _) HF e Hin).
Qed.
End lookup.

(** Whatever the message table of the dialect, so long as its identifiers
    increase, the bisection finds the entry that a linear search finds, or
    nothing when there is none. *)
Theorem get_msg_entry_spec crcs msgid :
  dialect_ok crcs -> mavlink_get_msg_entry crcs msgid = msg_entry_spec crcs msgid.
Proof. intros Hok. by apply msg_entry_found. Qed.

Lemma get_msg_entry_spec_witness :
  mavlink_get_msg_entry ardupilotmega_crcs 147 = msg_entry_spec ardupilotmega_crcs 147 /\
  mavlink_get_msg_entry ardupilotmega_crcs 3 = msg_entry_spec ardupilotmega_crcs 3.
Proof. split; apply get_msg_entry_spec; exact ardupilotmega_ok. Defined.

(** ** Lemmas: trimming *)

Lemma trim_loop_spec fuel p len :
  0 <= len <= Z.of_nat fuel ->
  let r := trim_loop fuel p len in
  0 <= r <= len /\ (1 <= len -> 1 <= r) /\
  (forall i, r <= i < len -> rd p i = 0) /\ (r <= 1 \/ rd p (r - 1) <> 0).
Proof.
  revert len. induction fuel as [|fuel IH]; intros len Hl; cbn [trim_loop].
  { split_and!; intros; lia. }
  case_bool.
  - apply andb_true_iff in E as [E1 E2]. apply Z.ltb_lt in E1. apply Z.eqb_eq in E2.
    destruct (IH (len - 1)) as (? & ? & Hz & ?); [lia|].
    split_and!; [lia|lia|lia| |done].
    intros i Hi. destruct (decide (i = len - 1)) as [->|]; [done|]. apply Hz. lia.
  - apply andb_false_iff in E as [E|E]; [apply Z.ltb_ge in E|apply Z.eqb_neq in E];
      split_and!; try lia; try done; intros; lia.
Qed.

(** Trimming keeps at least one byte of a non-empty payload, drops only
    zeros, and drops as many as it can. *)
Lemma trim_spec p len :
  0 <= len ->
  let r := _mav_trim_payload p len in
  0 <= r <= len /\ (1 <= len -> 1 <= r) /\
  (forall i, r <= i < len -> rd p i = 0) /\ (r <= 1 \/ rd p (r - 1) <> 0).
Proof. intros. apply trim_loop_spec. lia. Qed.

Lemma trim_idemp p len :
  0 <= len -> _mav_trim_payload p (_mav_trim_payload p len) = _mav_trim_payload p len.
Proof.
  intros Hl. destruct (trim_spec p len Hl) as (H1 & H2 & H3 & H4).
  set (r := _mav_trim_payload p len) in *. unfold _mav_trim_payload at 1.
  destruct (Z.to_nat r) as [|k]; [done|]. cbn [trim_loop].
  case_bool; [|done]. bool_to_prop. lia.
Qed.

(** ** Lemmas: the wire format *)

Record wf_message (m : mavlink_message_t) : Prop := {
  wf_checksum : is_u16 (m_checksum m);
  wf_magic : is_u8 (m_magic m);
  wf_len : is_u8 (m_len m);
  wf_incompat : is_u8 (m_incompat_flags m);
  wf_compat : is_u8 (m_compat_flags m);
  wf_seq : is_u8 (m_seq m);
  wf_sysid : is_u8 (m_sysid m);
  wf_compid : is_u8 (m_compid m);
  wf_msgid : in_range 24 (m_msgid m);
  wf_payload : bytes (m_payload64 m);
  wf_payload_len : length (m_payload64 m) = PAYLOAD_BYTES;
  wf_ck : bytes (m_ck m);
  wf_ck_len : length (m_ck m) = 2%nat;
  wf_signature : bytes (m_signature m);
  wf_signature_len : length (m_signature m) = 13%nat;
}.

(** The message a serialised buffer carries: MAVLink 2 trims the payload. *)
Definition trimmed (m : mavlink_message_t) : mavlink_message_t :=
  if m_magic m =? MAVLINK_STX_MAVLINK1 then m
  else set_m_len (_mav_trim_payload (m_payload64 m) (m_len m)) m.

Lemma wire_length m :
  wf_message m ->
  Z.of_nat (length (_mavlink_resend_uart m)) = mavlink_msg_get_send_buffer_length m.
Proof.
  intros Hm. pose proof (wf_len _ Hm) as Hl. pose proof (wf_payload_len _ Hm) as Hp.
  pose proof (wf_signature_len _ Hm) as Hs.
  unfold PAYLOAD_BYTES in Hp. unfold in_range in Hl.
  unfold _mavlink_resend_uart, mavlink_msg_get_send_buffer_length.
  case_bool.
  - rewrite !length_app, length_take. unfold header_v1, ck_bytes. cbn [length].
    rewrite wrap_id; [|unfold in_range]; unfold MAVLINK_CORE_HEADER_MAVLINK1_LEN; lia.
  - rewrite !length_app, length_take. unfold header_v2, ck_bytes. cbn [length].
    case_bool; cbn [length]; rewrite ?Hs, wrap_id; unfold in_range;
      unfold MAVLINK_NUM_NON_PAYLOAD_BYTES, MAVLINK_NUM_HEADER_BYTES, MAVLINK_CORE_HEADER_LEN,
        MAVLINK_NUM_CHECKSUM_BYTES, MAVLINK_SIGNATURE_BLOCK_LEN; lia.
Qed.

(** Serialisation writes the wire image of the trimmed message, and nothing
    else. *)
Lemma to_send_buffer_memcpy buf m :
  wf_message m ->
  mavlink_msg_to_send_buffer buf m =
  (memcpy_at buf 0 (_mavlink_resend_uart (trimmed m)),
   Z.of_nat (length (_mavlink_resend_uart (trimmed m)))).
Proof.
  intros Hm. pose proof (wf_len _ Hm) as Hl. pose proof (wf_payload_len _ Hm) as Hp.
  pose proof (wf_signature_len _ Hm) as Hs.
  unfold PAYLOAD_BYTES in Hp. unfold in_range in Hl.
  unfold mavlink_msg_to_send_buffer, trimmed, _mavlink_resend_uart.
  destruct (m_magic m =? MAVLINK_STX_MAVLINK1) eqn:Ev1.
  - rewrite Ev1, !length_app, length_take. cbn zeta. rewrite !wr_memcpy_at. f_equal.
    + rewrite !memcpy_at_join; rewrite ?length_app, ?length_take;
        unfold header_v1, ck_bytes, MAVLINK_CORE_HEADER_MAVLINK1_LEN; cbn [length]; try lia.
      by rewrite <- ?app_assoc.
    + rewrite wrap_id; unfold in_range, header_v1, ck_bytes, MAVLINK_CORE_HEADER_MAVLINK1_LEN;
        cbn [length]; lia.
  - destruct (trim_spec (m_payload64 m) (m_len m)) as (Hr & _); [lia|].
    cbn [set_m_len m_magic m_len m_payload64 m_incompat_flags m_signature].
    rewrite Ev1. set (r := _mav_trim_payload (m_payload64 m) (m_len m)) in *.
    rewrite !length_app, length_take. cbn zeta. rewrite !wr_memcpy_at.
    unfold header_v2 at 2 4, ck_bytes at 1 2.
    cbn [m_magic m_len m_payload64 m_incompat_flags m_signature m_compat_flags m_seq
         m_sysid m_compid m_msgid m_checksum length].
    destruct (Z.land (m_incompat_flags m) MAVLINK_IFLAG_SIGNED =? 0); cbn [Z.ltb Z.compare MAVLINK_SIGNATURE_BLOCK_LEN length]; f_equal.
    + rewrite !memcpy_at_join; rewrite ?length_app, ?length_take;
        unfold header_v2, ck_bytes, MAVLINK_CORE_HEADER_LEN; cbn [length]; try lia.
      rewrite <- ?app_assoc, ?app_nil_r.  done.
    + rewrite wrap_id; unfold in_range, MAVLINK_CORE_HEADER_LEN; lia.
    + rewrite !memcpy_at_join; rewrite ?length_app, ?length_take;
        unfold header_v2, ck_bytes, MAVLINK_CORE_HEADER_LEN; cbn [length]; try lia.
      by rewrite <- ?app_assoc, ?app_nil_r.
    + rewrite Hs, wrap_id; unfold in_range, MAVLINK_CORE_HEADER_LEN, MAVLINK_SIGNATURE_BLOCK_LEN; lia.
Qed.

Lemma trimmed_wf m : wf_message m -> wf_message (trimmed m).
Proof.
  intros Hm. unfold trimmed. case_bool; [done|].
  destruct Hm as [? ? Hl ? ? ? ? ? ? ? ? ? ? ? ?]. constructor; try done.
  cbn [set_m_len m_len m_payload64]. unfold in_range in *.
  destruct (trim_spec m.(m_payload64) m.(m_len)) as (Hr & _); lia.
Qed.

Lemma send_buffer_bounds buf m :
  wf_message m -> MAVLINK_MAX_PACKET_LEN <= Z.of_nat (length buf) ->
  let '(buf', n) := mavlink_msg_to_send_buffer buf m in
  0 <= n <= MAVLINK_MAX_PACKET_LEN /\
  buf' = _mavlink_resend_uart (trimmed m) ++ drop (Z.to_nat n) buf /\
  n = mavlink_msg_get_send_buffer_length (trimmed m).
Proof.
  intros Hm Hb. rewrite to_send_buffer_memcpy by done.
  pose proof (trimmed_wf _ Hm) as Ht. pose proof (wire_length _ Ht) as Hw.
  assert (Z.of_nat (length (_mavlink_resend_uart (trimmed m))) <= 280) as Hle.
  { rewrite Hw. pose proof (wf_len _ Ht) as Hl.
    unfold mavlink_msg_get_send_buffer_length, in_range in *.
    unfold MAVLINK_CORE_HEADER_MAVLINK1_LEN, MAVLINK_NUM_NON_PAYLOAD_BYTES,
      MAVLINK_NUM_HEADER_BYTES, MAVLINK_CORE_HEADER_LEN, MAVLINK_NUM_CHECKSUM_BYTES,
      MAVLINK_SIGNATURE_BLOCK_LEN.
    repeat case_bool; rewrite wrap_id; unfold in_range; lia. }
  change MAVLINK_MAX_PACKET_LEN with 280 in *. split_and!; [lia|done| |done].
  rewrite memcpy_at_spec by lia. rewrite take_0, Nat2Z.id. done.
Qed.

(** No buffer of [MAVLINK_MAX_PACKET_LEN] bytes is overrun by the
    serialisation of any message; what it does not write is unchanged. *)
Theorem to_send_buffer_spec buf m :
  wf_message m -> MAVLINK_MAX_PACKET_LEN <= Z.of_nat (length buf) ->
  let '(buf', n) := mavlink_msg_to_send_buffer buf m in
  0 <= n <= MAVLINK_MAX_PACKET_LEN /\
  buf' = _mavlink_resend_uart (trimmed m) ++ drop (Z.to_nat n) buf /\
  n = mavlink_msg_get_send_buffer_length (trimmed m).
Proof. apply send_buffer_bounds. Qed.

(** A message whose fields are all zero, and one that was made from it. *)
Definition blank_message : mavlink_message_t :=
  mk_message 0 0 0 0 0 0 0 0 0 (replicate PAYLOAD_BYTES 0) [0; 0] (replicate 13 0).

Lemma blank_message_ok : wf_message blank_message.
Proof. split; decide_true. Qed.

Lemma to_send_buffer_spec_witness :
  let '(buf', n) := mavlink_msg_to_send_buffer (replicate 300 7) blank_message in
  0 <= n <= MAVLINK_MAX_PACKET_LEN /\
  buf' = _mavlink_resend_uart (trimmed blank_message) ++ drop (Z.to_nat n) (replicate 300 7) /\
  n = mavlink_msg_get_send_buffer_length (trimmed blank_message).
Proof. apply (to_send_buffer_spec (replicate 300 7) blank_message blank_message_ok). decide_true. Defined.
