(* ===== verification/MavlinkParser.v ===== *)
(** * The MAVLink parser

    [mavlink_frame_char_buffer] of
    mavlink/include/mavlink/v2.0/mavlink_helpers.h: one handler per parser
    state, the common epilogue, and the channel-based entry points. *)

From S2P Require Import Prelude Checksum Sha256 MavlinkTypes Mavlink.

Local Open Scope Z_scope.

Section parser.
(** The message table of the dialect, and the channel's
    [accept_unsigned_callback] ([None] for NULL). *)
Context (crcs : list mavlink_msg_entry_t).
Context (accept_unsigned : option (mavlink_status_t -> Z -> bool)).

Definition in_mavlink1 (st : mavlink_status_t) : bool :=
  negb (Z.land (s_flags st) MAVLINK_STATUS_FLAG_IN_MAVLINK1 =? 0).

Definition accepts_unsigned (st : mavlink_status_t) (msgid : Z) : bool :=
  match accept_unsigned with Some f => f st msgid | None => false end.

(** A handler takes the message under construction, the status and the
    byte. *)
Definition handler : Type :=
  mavlink_message_t -> mavlink_status_t -> Z -> mavlink_message_t * mavlink_status_t.

Definition goto (s : mavlink_parse_state_t) (st : mavlink_status_t) : mavlink_status_t :=
  set_s_parse_state s st.

Definition on_idle : handler := fun rx st c =>
  if c =? MAVLINK_STX then
    (mavlink_start_checksum (set_m_magic c (set_m_len 0 rx)),
     set_s_flags (Z.land (s_flags st) (u8 (Z.lnot MAVLINK_STATUS_FLAG_IN_MAVLINK1)))
       (goto MAVLINK_PARSE_STATE_GOT_STX st))
  else if c =? MAVLINK_STX_MAVLINK1 then
    (mavlink_start_checksum (set_m_magic c (set_m_len 0 rx)),
     set_s_flags (Z.lor (s_flags st) MAVLINK_STATUS_FLAG_IN_MAVLINK1)
       (goto MAVLINK_PARSE_STATE_GOT_STX st))
  else (rx, st).

Definition on_stx : handler := fun rx st c =>
  if negb (s_msg_received st =? 0) then
    (rx, goto MAVLINK_PARSE_STATE_IDLE (set_s_msg_received 0
           (_mav_parse_error (set_s_buffer_overrun (u8 (s_buffer_overrun st + 1)) st))))
  else
    let rx := set_m_len c rx in
    let st := set_s_packet_idx 0 st in
    let rx := mavlink_update_checksum rx c in
    if in_mavlink1 st then
      (set_m_compat_flags 0 (set_m_incompat_flags 0 rx),
       goto MAVLINK_PARSE_STATE_GOT_COMPAT_FLAGS st)
    else (rx, goto MAVLINK_PARSE_STATE_GOT_LENGTH st).

Definition on_length : handler := fun rx st c =>
  let rx := set_m_incompat_flags c rx in
  if negb (Z.land (m_incompat_flags rx) (Z.lnot MAVLINK_IFLAG_MASK) =? 0) then
    (rx, goto MAVLINK_PARSE_STATE_IDLE (set_s_msg_received 0 (_mav_parse_error st)))
  else (mavlink_update_checksum rx c, goto MAVLINK_PARSE_STATE_GOT_INCOMPAT_FLAGS st).

Definition on_incompat_flags : handler := fun rx st c =>
  (mavlink_update_checksum (set_m_compat_flags c rx) c,
   goto MAVLINK_PARSE_STATE_GOT_COMPAT_FLAGS st).

Definition on_compat_flags : handler := fun rx st c =>
  (mavlink_update_checksum (set_m_seq c rx) c, goto MAVLINK_PARSE_STATE_GOT_SEQ st).

Definition on_seq : handler := fun rx st c =>
  (mavlink_update_checksum (set_m_sysid c rx) c, goto MAVLINK_PARSE_STATE_GOT_SYSID st).

Definition on_sysid : handler := fun rx st c =>
  (mavlink_update_checksum (set_m_compid c rx) c, goto MAVLINK_PARSE_STATE_GOT_COMPID st).

Definition after_msgid (rx : mavlink_message_t) : mavlink_parse_state_t :=
  if 0 <? m_len rx then MAVLINK_PARSE_STATE_GOT_MSGID3 else MAVLINK_PARSE_STATE_GOT_PAYLOAD.

Definition on_compid : handler := fun rx st c =>
  let rx := mavlink_update_checksum (set_m_msgid c rx) c in
  if in_mavlink1 st then (rx, goto (after_msgid rx) st)
  else (rx, goto MAVLINK_PARSE_STATE_GOT_MSGID1 st).

Definition on_msgid1 : handler := fun rx st c =>
  (mavlink_update_checksum
     (set_m_msgid (wrap 24 (Z.lor (m_msgid rx) (Z.shiftl c 8))) rx) c,
   goto MAVLINK_PARSE_STATE_GOT_MSGID2 st).

Definition on_msgid2 : handler := fun rx st c =>
  let rx := mavlink_update_checksum
              (set_m_msgid (wrap 24 (Z.lor (m_msgid rx) (u32 (Z.shiftl c 16)))) rx) c in
  (rx, goto (after_msgid rx) st).

Definition on_msgid3 : handler := fun rx st c =>
  let rx := set_m_payload64 (wr (m_payload64 rx) (s_packet_idx st) c) rx in
  let st := set_s_packet_idx (u8 (s_packet_idx st + 1)) st in
  let rx := mavlink_update_checksum rx c in
  if s_packet_idx st =? m_len rx
  then (rx, goto MAVLINK_PARSE_STATE_GOT_PAYLOAD st)
  else (rx, st).

Definition on_payload : handler := fun rx st c =>
  let e := mavlink_get_msg_entry crcs (m_msgid rx) in
  let crc_extra := match e with Some e => e_crc_extra e | None => 0 end in
  let rx := mavlink_update_checksum rx crc_extra in
  let st := if negb (c =? Z.land (m_checksum rx) 0xFF)
            then goto MAVLINK_PARSE_STATE_GOT_BAD_CRC1 st
            else goto MAVLINK_PARSE_STATE_GOT_CRC1 st in
  let rx := set_m_ck (wr (m_ck rx) 0 c) rx in
  match e with
  | Some e =>
      if s_packet_idx st <? e_max_msg_len e then
        (set_m_payload64 (memset_at (m_payload64 rx) (Z.to_nat (s_packet_idx st))
           (Z.to_nat (e_max_msg_len e - s_packet_idx st)) 0) rx, st)
      else (rx, st)
  | None => (rx, st)
  end.

(** In the last two handlers a complete message is also copied to
    [*r_message]; the third component says whether it is. *)
Definition on_crc1 (rx : mavlink_message_t) (st : mavlink_status_t) (c : Z)
    : mavlink_message_t * mavlink_status_t * bool :=
  let st :=
    if bool_decide (s_parse_state st = MAVLINK_PARSE_STATE_GOT_BAD_CRC1) ||
       negb (c =? Z.shiftr (m_checksum rx) 8)
    then set_s_msg_received MAVLINK_FRAMING_BAD_CRC st
    else set_s_msg_received MAVLINK_FRAMING_OK st in
  let rx := set_m_ck (wr (m_ck rx) 1 c) rx in
  if negb (Z.land (m_incompat_flags rx) MAVLINK_IFLAG_SIGNED =? 0) then
    let st := set_s_signature_wait MAVLINK_SIGNATURE_BLOCK_LEN
                (goto MAVLINK_PARSE_STATE_SIGNATURE_WAIT st) in
    let st := if negb (s_msg_received st =? MAVLINK_FRAMING_BAD_CRC)
              then set_s_msg_received MAVLINK_FRAMING_INCOMPLETE st else st in
    (rx, st, false)
  else
    let st :=
      if match s_signing st with
         | Some _ => negb (accepts_unsigned st (m_msgid rx))
         | None => false
         end
      then if negb (s_msg_received st =? MAVLINK_FRAMING_BAD_CRC)
           then set_s_msg_received MAVLINK_FRAMING_BAD_SIGNATURE st else st
      else st in
    (rx, goto MAVLINK_PARSE_STATE_IDLE st, true).

Definition on_signature_wait (rx : mavlink_message_t) (st : mavlink_status_t) (c : Z)
    : mavlink_message_t * mavlink_status_t * bool :=
  let rx := set_m_signature
    (wr (m_signature rx) (MAVLINK_SIGNATURE_BLOCK_LEN - s_signature_wait st) c) rx in
  let st := set_s_signature_wait (u8 (s_signature_wait st - 1)) st in
  if s_signature_wait st =? 0 then
    let '(g, ss, sig_ok) :=
      mavlink_signature_check (s_signing st) (s_signing_streams st) rx in
    let st := set_s_signing_streams ss (set_s_signing g st) in
    let sig_ok := if negb sig_ok && accepts_unsigned st (m_msgid rx) then true else sig_ok in
    let st := if sig_ok then set_s_msg_received MAVLINK_FRAMING_OK st
              else set_s_msg_received MAVLINK_FRAMING_BAD_SIGNATURE st in
    (rx, goto MAVLINK_PARSE_STATE_IDLE st, true)
  else (rx, st, false).

(** The [switch]. *)
Definition parse_switch (rx : mavlink_message_t) (st : mavlink_status_t) (c : Z)
    : mavlink_message_t * mavlink_status_t * bool :=
  match s_parse_state st with
  | MAVLINK_PARSE_STATE_UNINIT | MAVLINK_PARSE_STATE_IDLE => (on_idle rx st c, false)
  | MAVLINK_PARSE_STATE_GOT_STX => (on_stx rx st c, false)
  | MAVLINK_PARSE_STATE_GOT_LENGTH => (on_length rx st c, false)
  | MAVLINK_PARSE_STATE_GOT_INCOMPAT_FLAGS => (on_incompat_flags rx st c, false)
  | MAVLINK_PARSE_STATE_GOT_COMPAT_FLAGS => (on_compat_flags rx st c, false)
  | MAVLINK_PARSE_STATE_GOT_SEQ => (on_seq rx st c, false)
  | MAVLINK_PARSE_STATE_GOT_SYSID => (on_sysid rx st c, false)
  | MAVLINK_PARSE_STATE_GOT_COMPID => (on_compid rx st c, false)
  | MAVLINK_PARSE_STATE_GOT_MSGID1 => (on_msgid1 rx st c, false)
  | MAVLINK_PARSE_STATE_GOT_MSGID2 => (on_msgid2 rx st c, false)
  | MAVLINK_PARSE_STATE_GOT_MSGID3 => (on_msgid3 rx st c, false)
  | MAVLINK_PARSE_STATE_GOT_PAYLOAD => (on_payload rx st c, false)
  | MAVLINK_PARSE_STATE_GOT_CRC1 | MAVLINK_PARSE_STATE_GOT_BAD_CRC1 => on_crc1 rx st c
  | MAVLINK_PARSE_STATE_SIGNATURE_WAIT => on_signature_wait rx st c
  end.

(** What one call leaves behind. *)
Record frame_out := mk_frame_out {
  fo_rxmsg : mavlink_message_t;
  fo_status : mavlink_status_t;
  fo_r_message : option mavlink_message_t;
  fo_r_mavlink_status : option mavlink_status_t;
  fo_result : Z
}.

Definition count_received (rx : mavlink_message_t) (st : mavlink_status_t)
    : mavlink_status_t :=
  if s_msg_received st =? MAVLINK_FRAMING_OK then
    let st := set_s_current_rx_seq (m_seq rx) st in
    let st := if s_packet_rx_success_count st =? 0 then set_s_packet_rx_drop_count 0 st
              else st in
    set_s_packet_rx_success_count (u16 (s_packet_rx_success_count st + 1)) st
  else st.

Definition report_status (st r : mavlink_status_t) : mavlink_status_t :=
  set_s_flags (s_flags st)
    (set_s_packet_rx_drop_count (s_parse_error st)
    (set_s_packet_rx_success_count (s_packet_rx_success_count st)
    (set_s_current_rx_seq (u8 (s_current_rx_seq st + 1))
    (set_s_packet_idx (s_packet_idx st)
    (set_s_parse_state (s_parse_state st) r))))).

(** [r_message] and [r_mavlink_status] are [None] for NULL. *)
Definition mavlink_frame_char_buffer (rxmsg : mavlink_message_t) (status : mavlink_status_t)
    (c : Z) (r_message : option mavlink_message_t)
    (r_mavlink_status : option mavlink_status_t) : frame_out :=
  let status := set_s_msg_received MAVLINK_FRAMING_INCOMPLETE status in
  let '(rxmsg, status, copied) := parse_switch rxmsg status c in
  let r_message :=
    match r_message with
    | Some _ => if copied then Some rxmsg else r_message
    | None => None
    end in
  let status := count_received rxmsg status in
  let r_message := option_map (set_m_len (m_len rxmsg)) r_message in
  let r_mavlink_status := option_map (report_status status) r_mavlink_status in
  let status := set_s_parse_error 0 status in
  let r_message :=
    if s_msg_received status =? MAVLINK_FRAMING_BAD_CRC
    then option_map (set_m_checksum
           (Z.lor (rd (m_ck rxmsg) 0) (Z.shiftl (rd (m_ck rxmsg) 1) 8))) r_message
    else r_message in
  mk_frame_out rxmsg status r_message r_mavlink_status (s_msg_received status).

(** The statically allocated parser state of a channel. *)
Record channel := mk_channel { ch_buffer : mavlink_message_t; ch_status : mavlink_status_t }.

(** [mavlink_parse_char] and, inside it, [mavlink_frame_char], on the state
    of the channel [chan]. *)
Definition mavlink_parse_char (ch : channel) (c : Z) (r_message : option mavlink_message_t)
    (r_mavlink_status : option mavlink_status_t)
    : channel * option mavlink_message_t * option mavlink_status_t * Z :=
  let o := mavlink_frame_char_buffer (ch_buffer ch) (ch_status ch) c r_message
             r_mavlink_status in
  let rxmsg := fo_rxmsg o in
  let status := fo_status o in
  if (fo_result o =? MAVLINK_FRAMING_BAD_CRC) || (fo_result o =? MAVLINK_FRAMING_BAD_SIGNATURE)
  then
    let status := goto MAVLINK_PARSE_STATE_IDLE
                    (set_s_msg_received MAVLINK_FRAMING_INCOMPLETE (_mav_parse_error status)) in
    if c =? MAVLINK_STX then
      (mk_channel (mavlink_start_checksum (set_m_len 0 rxmsg))
         (goto MAVLINK_PARSE_STATE_GOT_STX status),
       fo_r_message o, fo_r_mavlink_status o, 0)
    else (mk_channel rxmsg status, fo_r_message o, fo_r_mavlink_status o, 0)
  else (mk_channel rxmsg status, fo_r_message o, fo_r_mavlink_status o, fo_result o).
End parser.

(** ** Feeding a stream of bytes *)

Section feed.
Context (crcs : list mavlink_msg_entry_t).
Context (accept_unsigned : option (mavlink_status_t -> Z -> bool)).

(** The parser's own state and the value returned, for one byte. *)
Definition feed1 (s : mavlink_message_t * mavlink_status_t) (c : Z)
    : mavlink_message_t * mavlink_status_t * Z :=
  let o := mavlink_frame_char_buffer crcs accept_unsigned s.1 s.2 c None None in
  (fo_rxmsg o, fo_status o, fo_result o).

Fixpoint feed (s : mavlink_message_t * mavlink_status_t) (bs : list Z)
    : mavlink_message_t * mavlink_status_t * list Z :=
  match bs with
  | [] => (s, [])
  | c :: bs =>
      let '(s, r) := feed1 s c in
      let '(s, rs) := feed s bs in
      (s, r :: rs)
  end.

Lemma feed_app s a b :
  feed s (a ++ b) =
  let '(s1, rs1) := feed s a in let '(s2, rs2) := feed s1 b in (s2, rs1 ++ rs2).
Proof.
  revert s. induction a as [|c a IH]; intros s; cbn [app feed].
  { by destruct (feed s b). }
  destruct (feed1 s c) as [s1 r]. rewrite IH.
  destruct (feed s1 a) as [s2 rs]. by destruct (feed s2 b).
Qed.

(** The output arguments do not influence the parser. *)
Lemma frame_char_feed1 rx st c rm rs :
  let o := mavlink_frame_char_buffer crcs accept_unsigned rx st c rm rs in
  feed1 (rx, st) c = (fo_rxmsg o, fo_status o, fo_result o).
Proof.
  unfold feed1, mavlink_frame_char_buffer. cbn [fst snd].
  by destruct (parse_switch _ _ _ _ _) as [[rx' st'] cp].
Qed.

(** ** The invariant of the parser

    Every array index the parser uses is inside its array, and every field
    inside its width. *)
Definition wf_stream (t : mavlink_signing_stream) : Prop :=
  length (t_timestamp_bytes t) = 6%nat.

Definition state_inv (s : mavlink_parse_state_t) (rx : mavlink_message_t)
    (st : mavlink_status_t) : Prop :=
  match s with
  | MAVLINK_PARSE_STATE_UNINIT | MAVLINK_PARSE_STATE_IDLE
  | MAVLINK_PARSE_STATE_GOT_STX => True
  | MAVLINK_PARSE_STATE_GOT_MSGID3 => s_packet_idx st < m_len rx
  | MAVLINK_PARSE_STATE_GOT_PAYLOAD | MAVLINK_PARSE_STATE_GOT_CRC1
  | MAVLINK_PARSE_STATE_GOT_BAD_CRC1 => s_packet_idx st = m_len rx
  | MAVLINK_PARSE_STATE_SIGNATURE_WAIT => 1 <= s_signature_wait st <= 13
  | _ => s_packet_idx st = 0
  end.

Record parser_inv (rx : mavlink_message_t) (st : mavlink_status_t) : Prop := {
  inv_msg : wf_message rx;
  inv_idx : is_u8 (s_packet_idx st);
  inv_flags : is_u8 (s_flags st);
  inv_state : state_inv (s_parse_state st) rx st;
}.

(** How many bytes can still be consumed before the parser is idle. *)
Definition remaining (rx : mavlink_message_t) (st : mavlink_status_t) : Z :=
  match s_parse_state st with
  | MAVLINK_PARSE_STATE_UNINIT | MAVLINK_PARSE_STATE_IDLE => 0
  | MAVLINK_PARSE_STATE_GOT_STX => 279
  | MAVLINK_PARSE_STATE_GOT_LENGTH => 23 + m_len rx
  | MAVLINK_PARSE_STATE_GOT_INCOMPAT_FLAGS => 22 + m_len rx
  | MAVLINK_PARSE_STATE_GOT_COMPAT_FLAGS => 21 + m_len rx
  | MAVLINK_PARSE_STATE_GOT_SEQ => 20 + m_len rx
  | MAVLINK_PARSE_STATE_GOT_SYSID => 19 + m_len rx
  | MAVLINK_PARSE_STATE_GOT_COMPID => 18 + m_len rx
  | MAVLINK_PARSE_STATE_GOT_MSGID1 => 17 + m_len rx
  | MAVLINK_PARSE_STATE_GOT_MSGID2 => 16 + m_len rx
  | MAVLINK_PARSE_STATE_GOT_MSGID3 => 15 + m_len rx - s_packet_idx st
  | MAVLINK_PARSE_STATE_GOT_PAYLOAD => 15
  | MAVLINK_PARSE_STATE_GOT_CRC1 | MAVLINK_PARSE_STATE_GOT_BAD_CRC1 => 14
  | MAVLINK_PARSE_STATE_SIGNATURE_WAIT => s_signature_wait st
  end.

Definition idle (st : mavlink_status_t) : Prop :=
  s_parse_state st = MAVLINK_PARSE_STATE_IDLE \/
  s_parse_state st = MAVLINK_PARSE_STATE_UNINIT.
End feed.

(** What the setters of the structures leave alone. *)
Ltac fields :=
  cbn [mavlink_start_checksum mavlink_update_checksum goto _mav_parse_error crc_init
    set_m_checksum set_m_magic set_m_len set_m_incompat_flags set_m_compat_flags set_m_seq
    set_m_sysid set_m_compid set_m_msgid set_m_payload64 set_m_ck set_m_signature
    m_checksum m_magic m_len m_incompat_flags m_compat_flags m_seq m_sysid m_compid m_msgid
    m_payload64 m_ck m_signature
    set_s_msg_received set_s_buffer_overrun set_s_parse_error set_s_parse_state
    set_s_packet_idx set_s_current_rx_seq set_s_current_tx_seq set_s_packet_rx_success_count
    set_s_packet_rx_drop_count set_s_flags set_s_signature_wait set_s_signing
    set_s_signing_streams
    s_msg_received s_buffer_overrun s_parse_error s_parse_state s_packet_idx s_current_rx_seq
    s_current_tx_seq s_packet_rx_success_count s_packet_rx_drop_count s_flags s_signature_wait
    s_signing s_signing_streams].
Tactic Notation "fields" "in" "*" :=
  cbn [mavlink_start_checksum mavlink_update_checksum goto _mav_parse_error crc_init
    set_m_checksum set_m_magic set_m_len set_m_incompat_flags set_m_compat_flags set_m_seq
    set_m_sysid set_m_compid set_m_msgid set_m_payload64 set_m_ck set_m_signature
    m_checksum m_magic m_len m_incompat_flags m_compat_flags m_seq m_sysid m_compid m_msgid
    m_payload64 m_ck m_signature
    set_s_msg_received set_s_buffer_overrun set_s_parse_error set_s_parse_state
    set_s_packet_idx set_s_current_rx_seq set_s_current_tx_seq set_s_packet_rx_success_count
    set_s_packet_rx_drop_count set_s_flags set_s_signature_wait set_s_signing
    set_s_signing_streams
    s_msg_received s_buffer_overrun s_parse_error s_parse_state s_packet_idx s_current_rx_seq
    s_current_tx_seq s_packet_rx_success_count s_packet_rx_drop_count s_flags s_signature_wait
    s_signing s_signing_streams] in *.

Section invariant.
Context (crcs : list mavlink_msg_entry_t) (Hok : dialect_ok crcs).
Context (accept_unsigned : option (mavlink_status_t -> Z -> bool)).

Lemma length_memset_at l o n v : length (memset_at l o n v) = length l.
Proof. apply length_inserts. Qed.

Lemma land_u8_r a b : is_u8 b -> is_u8 (Z.land a b).
Proof. rewrite Z.land_comm. by apply in_range_land_l. Qed.

(** Every clause of [wf_message] after assignments to the fields. *)
Ltac wf_solve :=
  match goal with
  | H : wf_message _ |- wf_message _ => destruct H; constructor; fields
  end;
  rewrite ?length_wr, ?length_memset_at;
  auto using crc_accumulate_u16, wrap_range with words.

Ltac inv_solve :=
  split; [|split]; [constructor; fields; [wf_solve|..] | |];
  rewrite ?length_wr, ?length_memset_at;
  auto using crc_accumulate_u16, land_u8_r with words;
  unfold state_inv, remaining; fields.

Definition step_ok (rx : mavlink_message_t) (st : mavlink_status_t)
    (rx' : mavlink_message_t) (st' : mavlink_status_t) : Prop :=
  parser_inv rx' st' /\
  (idle st \/ idle st' \/ remaining rx' st' < remaining rx st) /\
  remaining rx' st' <= 279.

Lemma u8_of_lits : is_u8 0 /\ is_u8 1 /\ is_u8 (u8 (Z.lnot 1)) /\ is_u16 X25_INIT_CRC.
Proof. split_and!; decide_true. Qed.

Lemma on_idle_ok rx st c :
  parser_inv rx st -> is_u8 c -> idle st ->
  let '(rx', st') := on_idle rx st c in step_ok rx st rx' st'.
Proof.
  intros [Hm Hi Hf Hs] Hc Hidle. pose proof u8_of_lits as (? & ? & ? & ?).
  unfold on_idle, step_ok. repeat case_bool.
  - inv_solve; try lia.
  - inv_solve; try lia.
  - split_and!; [done|by left|]. destruct Hidle as [E1|E1]; unfold remaining; rewrite E1; lia.
Qed.

(** The handlers of the states inside a frame: [S] is the state they serve. *)
Definition serves (S : mavlink_parse_state_t) (h : handler) : Prop :=
  forall rx st c, parser_inv rx st -> is_u8 c -> s_parse_state st = S ->
    let '(rx', st') := h rx st c in step_ok rx st rx' st'.

Ltac serve :=
  intros rx st c [Hm Hi Hf Hs] Hc Hst; pose proof u8_of_lits as (? & ? & ? & ?);
  pose proof (wf_len _ Hm) as Hl;
  rewrite Hst in Hs; cbn [state_inv] in Hs; unfold step_ok.
Ltac served :=
  inv_solve; try match goal with H : s_parse_state _ = _ |- _ => rewrite H end;
  unfold idle, after_msgid in *; fields; try case_bool; bool_to_prop;
  unfold in_range in *; auto; try (right; right); try lia.

Lemma on_stx_ok : serves MAVLINK_PARSE_STATE_GOT_STX on_stx.
Proof. serve. unfold on_stx. repeat case_bool; served. Qed.

Lemma on_length_ok : serves MAVLINK_PARSE_STATE_GOT_LENGTH on_length.
Proof. serve. unfold on_length. case_bool; served. Qed.

Lemma on_incompat_flags_ok : serves MAVLINK_PARSE_STATE_GOT_INCOMPAT_FLAGS on_incompat_flags.
Proof. serve. unfold on_incompat_flags. served. Qed.

Lemma on_compat_flags_ok : serves MAVLINK_PARSE_STATE_GOT_COMPAT_FLAGS on_compat_flags.
Proof. serve. unfold on_compat_flags. served. Qed.

Lemma on_seq_ok : serves MAVLINK_PARSE_STATE_GOT_SEQ on_seq.
Proof. serve. unfold on_seq. served. Qed.

Lemma on_sysid_ok : serves MAVLINK_PARSE_STATE_GOT_SYSID on_sysid.
Proof. serve. unfold on_sysid. served. Qed.

Lemma on_compid_ok : serves MAVLINK_PARSE_STATE_GOT_COMPID on_compid.
Proof.
  serve. unfold on_compid. assert (in_range 24 c) by (eapply in_range_mono; [|done]; lia).
  case_bool; served.
Qed.

Lemma on_msgid1_ok : serves MAVLINK_PARSE_STATE_GOT_MSGID1 on_msgid1.
Proof. serve. unfold on_msgid1. served. Qed.

Lemma on_msgid2_ok : serves MAVLINK_PARSE_STATE_GOT_MSGID2 on_msgid2.
Proof. serve. unfold on_msgid2. served. Qed.

Lemma on_msgid3_ok : serves MAVLINK_PARSE_STATE_GOT_MSGID3 on_msgid3.
Proof.
  serve. unfold on_msgid3.
  assert (u8 (s_packet_idx st + 1) = s_packet_idx st + 1) as Hw
    by (apply wrap_id; unfold in_range in *; lia).
  fields. rewrite Hw. case_bool; served.
Qed.

Lemma on_payload_ok : serves MAVLINK_PARSE_STATE_GOT_PAYLOAD (on_payload crcs).
Proof.
  serve. unfold on_payload.
  destruct (mavlink_get_msg_entry crcs (m_msgid rx)) as [e|]; repeat case_bool;
    served; apply bytes_memcpy_at; auto with words; served.
Qed.

Lemma wr_len_inv l i v n : length l = n -> length (wr l i v) = n.
Proof. by rewrite length_wr. Qed.

Lemma on_crc1_ok rx st c :
  parser_inv rx st -> is_u8 c ->
  (s_parse_state st = MAVLINK_PARSE_STATE_GOT_CRC1 \/
   s_parse_state st = MAVLINK_PARSE_STATE_GOT_BAD_CRC1) ->
  let '(rx', st', _) := on_crc1 accept_unsigned rx st c in step_ok rx st rx' st'.
Proof.
  intros [Hm Hi Hf Hs] Hc Hst. unfold step_ok, on_crc1.
  assert (remaining rx st = 14) as Hr by (unfold remaining; by destruct Hst as [-> | ->]).
  rewrite Hr. fields. repeat case_bool; inv_solve;
    unfold idle, MAVLINK_SIGNATURE_BLOCK_LEN in *; fields; auto; try lia.
Qed.

Lemma on_signature_wait_ok rx st c :
  parser_inv rx st -> is_u8 c -> s_parse_state st = MAVLINK_PARSE_STATE_SIGNATURE_WAIT ->
  let '(rx', st', _) := on_signature_wait accept_unsigned rx st c in step_ok rx st rx' st'.
Proof.
  intros [Hm Hi Hf Hs] Hc Hst. rewrite Hst in Hs. cbn [state_inv] in Hs.
  unfold step_ok, on_signature_wait.
  assert (u8 (s_signature_wait st - 1) = s_signature_wait st - 1) as Hw
    by (apply wrap_id; unfold in_range in *; lia).
  fields. rewrite Hw. case_bool.
  - destruct (mavlink_signature_check _ _ _) as [[g ss] ok].
    destruct (_ && _), ok; inv_solve; unfold idle; fields; auto; lia.
  - bool_to_prop. inv_solve; unfold remaining; rewrite ?Hst; fields; try lia.
Qed.

Lemma switch_ok rx st c :
  parser_inv rx st -> is_u8 c ->
  let '(rx', st', _) := parse_switch crcs accept_unsigned rx st c in step_ok rx st rx' st'.
Proof.
  intros Hinv Hc. unfold parse_switch. destruct (s_parse_state st) eqn:E.
  - apply on_idle_ok; [done..|by right].
  - apply on_idle_ok; [done..|by left].
  - by apply on_stx_ok.
  - by apply on_length_ok.
  - by apply on_incompat_flags_ok.
  - by apply on_compat_flags_ok.
  - by apply on_seq_ok.
  - by apply on_sysid_ok.
  - by apply on_compid_ok.
  - by apply on_msgid1_ok.
  - by apply on_msgid2_ok.
  - by apply on_msgid3_ok.
  - by apply on_payload_ok.
  - apply on_crc1_ok; [done..|by left].
  - apply on_crc1_ok; [done..|by right].
  - by apply on_signature_wait_ok.
Qed.

(** The prologue and the epilogue touch nothing of the invariant. *)
Lemma step_ok_status rx st rx' st' st'' :
  s_parse_state st'' = s_parse_state st' -> s_packet_idx st'' = s_packet_idx st' ->
  s_flags st'' = s_flags st' -> s_signature_wait st'' = s_signature_wait st' ->
  step_ok rx st rx' st' -> step_ok rx st rx' st''.
Proof.
  intros E1 E2 E3 E4 ([Hm Hi Hf Hs] & Hd & Hr). unfold step_ok, idle, remaining in *.
  rewrite E1, E2, E4. split_and!; [|done|done].
  constructor; rewrite ?E2, ?E3; try done. unfold state_inv in *. by rewrite E1, E2, E4.
Qed.

Lemma feed1_ok rx st c :
  parser_inv rx st -> is_u8 c ->
  let '(rx', st', _) := feed1 crcs accept_unsigned (rx, st) c in step_ok rx st rx' st'.
Proof.
  intros [Hm Hi Hf Hs] Hc. unfold feed1, mavlink_frame_char_buffer. cbn [fst snd].
  pose proof (switch_ok rx (set_s_msg_received MAVLINK_FRAMING_INCOMPLETE st) c) as Hsw.
  destruct (parse_switch _ _ _ _ _) as [[rx' st'] cp]. cbn [fo_rxmsg fo_status].
  apply (step_ok_status _ _ _ st'); [..|by apply Hsw];
    unfold count_received; repeat case_bool; done.
Qed.

Lemma feed_inv s bs :
  parser_inv s.1 s.2 -> bytes bs ->
  let '(s', _) := feed crcs accept_unsigned s bs in parser_inv s'.1 s'.2.
Proof.
  intros Hinv Hbs. revert s Hinv.
  induction Hbs as [|c bs Hc Hbs IH]; intros [rx st] Hinv; cbn [feed]; [done|].
  pose proof (feed1_ok rx st c Hinv Hc) as H1.
  destruct (feed1 _ _ _ _) as [[rx1 st1] r]. destruct H1 as (Hi1 & _ & _).
  specialize (IH (rx1, st1) Hi1). by destruct (feed _ _ (rx1, st1) bs) as [s2 rs].
Qed.

Lemma feed_progress n : forall rx st bs,
  parser_inv rx st -> bytes bs -> Z.of_nat (length bs) = n -> remaining rx st <= n ->
  exists k, (k <= length bs)%nat /\
    idle (feed crcs accept_unsigned (rx, st) (take k bs)).1.2.
Proof.
  intros rx st bs Hinv Hbs. revert n rx st Hinv.
  induction Hbs as [|c bs Hc Hbs IH]; intros n rx st Hinv Hn Hr.
  { exists 0%nat. split; [done|]. cbn. simpl in Hn. subst n.
    destruct Hinv as [Hm Hi _ Hs]. pose proof (wf_len _ Hm) as Hl.
    unfold remaining, state_inv, idle, in_range in *.
    destruct (s_parse_state st); auto; lia. }
  pose proof (feed1_ok rx st c Hinv Hc) as H1. cbn [length] in Hn.
  destruct (feed1 crcs accept_unsigned (rx, st) c) as [[rx1 st1] r] eqn:E1.
  destruct H1 as (Hi1 & Hd & _). destruct Hd as [Hd|[Hd|Hd]].
  - exists 0%nat. by split; [lia|].
  - exists 1%nat. split; [simpl; lia|]. cbn [take feed]. by rewrite E1.
  - destruct (IH (n - 1) rx1 st1) as (k & Hk & Hid); [done|lia|lia|].
    exists (S k). split; [simpl; lia|]. cbn [take feed]. rewrite E1.
    by destruct (feed crcs accept_unsigned (rx1, st1) (take k bs)) as [s2 rs].
Qed.

(** C6. Memory safety: on any stream of bytes, the parser keeps its
    indices inside the payload and signature arrays, every field inside
    its width, and its state consistent with what has been received. *)
Theorem parser_memory_safe s bs :
  parser_inv s.1 s.2 -> bytes bs ->
  parser_inv (feed crcs accept_unsigned s bs).1.1 (feed crcs accept_unsigned s bs).1.2.
Proof.
  intros Hs Hbs. pose proof (feed_inv s bs Hs Hbs) as H. by destruct (feed _ _ s bs).
Qed.

(** C36. Liveness: whatever the bytes, the parser is back in its idle state
    within [MAVLINK_MAX_PACKET_LEN - 1] of them. *)
Theorem parser_returns_to_idle rx st bs :
  parser_inv rx st -> bytes bs -> Z.of_nat (length bs) = MAVLINK_MAX_PACKET_LEN - 1 ->
  exists k, (k <= length bs)%nat /\
    idle (feed crcs accept_unsigned (rx, st) (take k bs)).1.2.
Proof.
  intros Hinv Hbs Hn. apply (feed_progress (MAVLINK_MAX_PACKET_LEN - 1)); [done..|].
  change (MAVLINK_MAX_PACKET_LEN - 1) with 279. destruct Hinv as [Hm Hi _ Hs].
  pose proof (wf_len _ Hm) as Hl. unfold remaining, state_inv, in_range in *.
  destruct (s_parse_state st); lia.
Qed.
End invariant.

(** A parser that has seen nothing. *)
Definition blank_status : mavlink_status_t :=
  mk_status 0 0 0 MAVLINK_PARSE_STATE_UNINIT 0 0 0 0 0 0 0 None None.

Lemma blank_parser_ok : parser_inv blank_message blank_status.
Proof. split; [exact blank_message_ok|done|done|exact I]. Qed.

Lemma parser_memory_safe_witness :
  let s := (feed ardupilotmega_crcs None (blank_message, blank_status) (replicate 20 0xfd)).1 in
  parser_inv s.1 s.2.
Proof.
  refine (parser_memory_safe ardupilotmega_crcs None (blank_message, blank_status) (replicate 20 0xfd)
    blank_parser_ok _).
  decide_true.
Defined.

Lemma parser_returns_to_idle_witness :
  exists k, (k <= 279)%nat /\
    idle (feed ardupilotmega_crcs None (blank_message, blank_status) (take k (replicate 279 0xfd))).1.2.
Proof.
  refine (parser_returns_to_idle ardupilotmega_crcs None blank_message blank_status (replicate 279 0xfd)
    blank_parser_ok _ eq_refl).
  decide_true.
Defined.
