(* ===== verification/MavlinkRoundTrip.v ===== *)
(** * Parsing what the library serialises

    What the parser of MavlinkParser does on one whole frame, in both
    protocol versions, and the round trip with the serialisation of Mavlink.
    [reception] is the state in which a frame leaves the parser. *)

From S2P Require Import Prelude Checksum MavlinkTypes Mavlink MavlinkParser.

Local Open Scope Z_scope.

#[local] Opaque crc_accumulate wrap Z.land Z.lor Z.shiftl.

Section frame.
Context (crcs : list mavlink_msg_entry_t).
Context (accept_unsigned : option (mavlink_status_t -> Z -> bool)).
Let feed := feed crcs accept_unsigned.
Let feed1 := feed1 crcs accept_unsigned.

Lemma feed_cons s c bs :
  feed s (c :: bs) =
  let '(s1, r) := feed1 s c in let '(s2, rs) := feed s1 bs in (s2, r :: rs).
Proof. done. Qed.

(** A step that completes nothing. *)
Lemma feed1_incomplete rx st c rx' st' :
  parse_switch crcs accept_unsigned rx (set_s_msg_received 0 st) c = (rx', st', false) ->
  s_msg_received st' = 0 ->
  feed1 (rx, st) c = (rx', set_s_parse_error 0 st', 0).
Proof.
  intros Hsw Hm. unfold feed1, MavlinkParser.feed1, mavlink_frame_char_buffer. cbn [fst snd].
  change MAVLINK_FRAMING_INCOMPLETE with 0. rewrite Hsw.
  unfold count_received. rewrite Hm. cbn [Z.eqb MAVLINK_FRAMING_OK]. fields.
  rewrite Hm. reflexivity.
Qed.

(** The identifier as the three bytes of the header assemble it. *)
Definition msgid_of (i0 i1 i2 : Z) : Z :=
  wrap 24 (Z.lor (wrap 24 (Z.lor i0 (Z.shiftl i1 8))) (u32 (Z.shiftl i2 16))).

Lemma msgid_of_bytes id :
  in_range 24 id ->
  msgid_of (Z.land id 255) (Z.land (Z.shiftr id 8) 255) (Z.land (Z.shiftr id 16) 255) = id.
Proof.
  intros Hid. bit_ext i. unfold msgid_of. change 255 with (Z.ones 8).
  rewrite wrap_testbit, Z.lor_spec, !wrap_testbit, Z.lor_spec by lia.
  rewrite !Z.shiftl_spec, !Z.land_spec by lia.
  destruct (decide (24 <= i)).
  { rewrite (in_range_testbit_high 24 id) by (done || lia).
    by rewrite (bool_decide_eq_false_2 (i < 24)), andb_false_r by lia. }
  rewrite !(bool_decide_eq_true_2 (i < _)) by lia. rewrite !andb_true_r.
  destruct (decide (i < 8)).
  { rewrite !Z.ones_spec_low by lia. rewrite !(Z.testbit_neg_r _ (i - _)) by lia.
    rewrite andb_true_r. by rewrite !orb_false_r. }
  rewrite (Z.ones_spec_high 8 i), andb_false_r by lia. rewrite !Z.shiftr_spec by lia.
  destruct (decide (i < 16)).
  { rewrite Z.ones_spec_low by lia. rewrite !(Z.testbit_neg_r _ (i - 16)) by lia.
    simpl. rewrite andb_true_r, orb_false_r. f_equal. lia. }
  rewrite (Z.ones_spec_high 8 (i - 8)), andb_false_r by lia.
  rewrite Z.ones_spec_low by lia. rewrite Z.shiftr_spec by lia. simpl.
  rewrite andb_true_r. f_equal. lia.
Qed.

Lemma flags_v2 f : Z.land (Z.land f (u8 (Z.lnot 1))) 1 = 0.
Proof. by rewrite <- Z.land_assoc, Z.land_0_r. Qed.

Lemma flags_v1 f : Z.land (Z.lor f 1) 1 = 1.
Proof. rewrite Z.land_comm. apply Z.bits_inj'. intros i ?.
  rewrite Z.land_spec, Z.lor_spec. destruct (Z.testbit 1 i); [by rewrite orb_true_r|done].
Qed.

(** The message and the status while a frame is received. *)
Definition rx_at (rx : mavlink_message_t) (crc magic len inc compat seq sys comp id : Z)
    : mavlink_message_t :=
  mk_message crc magic len inc compat seq sys comp id (m_payload64 rx) (m_ck rx)
    (m_signature rx).

Definition st_at (st : mavlink_status_t) (s : mavlink_parse_state_t) (idx flags : Z)
    : mavlink_status_t :=
  set_s_flags flags (set_s_packet_idx idx (set_s_parse_state s
    (set_s_parse_error 0 (set_s_msg_received 0 st)))).

Ltac advance :=
  rewrite feed_cons; erewrite feed1_incomplete;
  [ | unfold parse_switch; fields;
      unfold on_idle, on_stx, on_length, on_incompat_flags, on_compat_flags, on_seq,
        on_sysid, on_compid, on_msgid1, on_msgid2, in_mavlink1, after_msgid; fields;
      change MAVLINK_STATUS_FLAG_IN_MAVLINK1 with 1; rewrite ?flags_v1, ?flags_v2;
      cbn [Z.eqb Z.compare negb Pos.compare Pos.compare_cont Pos.eqb
           MAVLINK_STX MAVLINK_STX_MAVLINK1];
      fields; reflexivity
    | fields; reflexivity ];
  fields.

Ltac advance_length Hinc :=
  rewrite feed_cons; erewrite feed1_incomplete;
  [ | unfold parse_switch, on_length; fields; change MAVLINK_IFLAG_MASK with 1;
      rewrite Hinc; reflexivity
    | fields; reflexivity ];
  fields.

Lemma feed_header_v2 rx st len inc compat seq sys comp i0 i1 i2 :
  idle st -> Z.land inc (Z.lnot 1) = 0 ->
  let hdr := [len; inc; compat; seq; sys; comp; i0; i1; i2] in
  let rx' := rx_at rx (crc_calculate hdr) MAVLINK_STX len inc compat seq sys comp
               (msgid_of i0 i1 i2) in
  feed (rx, st) (MAVLINK_STX :: hdr) =
  (rx', st_at st (after_msgid rx') 0 (Z.land (s_flags st) (u8 (Z.lnot 1))),
   replicate 10 0).
Proof.
  intros Hidle Hinc. destruct rx, st. cbn zeta.
  unfold idle in Hidle. fields in *.
  destruct Hidle as [-> | ->]; do 2 advance; advance_length Hinc; do 7 advance; reflexivity.
Qed.

Lemma feed_header_v1 rx st len seq sys comp id :
  idle st ->
  let hdr := [len; seq; sys; comp; id] in
  let rx' := rx_at rx (crc_calculate hdr) MAVLINK_STX_MAVLINK1 len 0 0 seq sys comp id in
  feed (rx, st) (MAVLINK_STX_MAVLINK1 :: hdr) =
  (rx', st_at st (after_msgid rx') 0 (Z.lor (s_flags st) 1), replicate 6 0).
Proof.
  intros Hidle. destruct rx, st. cbn zeta. unfold idle in Hidle. fields in *.
  destruct Hidle as [-> | ->]; do 6 advance; reflexivity.
Qed.

(** The payload bytes. *)
Lemma feed1_payload rx st idx flags c :
  0 <= idx < 255 ->
  feed1 (rx, st_at st MAVLINK_PARSE_STATE_GOT_MSGID3 idx flags) c =
  (set_m_checksum (crc_accumulate c (m_checksum rx))
     (set_m_payload64 (memcpy_at (m_payload64 rx) (Z.to_nat idx) [c]) rx),
   st_at st (if idx + 1 =? m_len rx then MAVLINK_PARSE_STATE_GOT_PAYLOAD
             else MAVLINK_PARSE_STATE_GOT_MSGID3) (idx + 1) flags, 0).
Proof.
  intros Hidx.
  assert (u8 (idx + 1) = idx + 1) as Hw by (apply wrap_id; unfold in_range; lia).
  destruct (idx + 1 =? m_len rx) eqn:E;
    (erewrite feed1_incomplete;
     [ | unfold parse_switch, on_msgid3, st_at; fields; rewrite Hw, E; reflexivity
       | reflexivity ]);
    destruct rx, st; reflexivity.
Qed.

Lemma feed_payload p rx st idx flags :
  p <> [] -> 0 <= idx -> m_len rx = idx + Z.of_nat (length p) -> m_len rx < 256 ->
  feed (rx, st_at st MAVLINK_PARSE_STATE_GOT_MSGID3 idx flags) p =
  (set_m_checksum (crc_accumulate_buffer (m_checksum rx) p)
     (set_m_payload64 (memcpy_at (m_payload64 rx) (Z.to_nat idx) p) rx),
   st_at st MAVLINK_PARSE_STATE_GOT_PAYLOAD (m_len rx) flags, replicate (length p) 0).
Proof.
  revert rx idx. induction p as [|c p IH]; intros rx idx Hp Hidx Hlen Hmax; [done|].
  cbn [length] in Hlen. rewrite feed_cons, feed1_payload by lia.
  destruct (Z.eqb_spec (idx + 1) (m_len rx)) as [He|He].
  { destruct p; [|simpl in Hlen; lia]. by rewrite He. }
  assert (p <> []) as Hpne by (intros ->; simpl in Hlen; lia).
  rewrite IH; fields; [|done|lia..]. cbn [length replicate crc_accumulate_buffer].
  rewrite (memcpy_at_join _ _ _ [c] p) by (simpl; lia). destruct rx; reflexivity.
Qed.

(** The payload array once the bytes after the payload are zero-filled up to
    the longest form of the message. *)
Definition zero_fill (id idx : Z) (payload : list Z) : list Z :=
  match mavlink_get_msg_entry crcs id with
  | Some e =>
      if idx <? e_max_msg_len e
      then memset_at payload (Z.to_nat idx) (Z.to_nat (e_max_msg_len e - idx)) 0
      else payload
  | None => payload
  end.

Definition crc_extra_of (id : Z) : Z :=
  match mavlink_get_msg_entry crcs id with Some e => e_crc_extra e | None => 0 end.

(** The first checksum byte. *)
Lemma feed1_ck0 rx st idx flags c :
  let crc := crc_accumulate (crc_extra_of (m_msgid rx)) (m_checksum rx) in
  feed1 (rx, st_at st MAVLINK_PARSE_STATE_GOT_PAYLOAD idx flags) c =
  (set_m_ck (wr (m_ck rx) 0 c)
     (set_m_payload64 (zero_fill (m_msgid rx) idx (m_payload64 rx)) (set_m_checksum crc rx)),
   st_at st (if c =? Z.land crc 0xFF then MAVLINK_PARSE_STATE_GOT_CRC1
             else MAVLINK_PARSE_STATE_GOT_BAD_CRC1) idx flags, 0).
Proof.
  cbn zeta.
  match goal with |- _ = (?rx', ?st', _) => rewrite (feed1_incomplete _ _ _ rx' st') end;
    [by destruct st| |by destruct st].
  unfold parse_switch, on_payload, zero_fill, crc_extra_of, st_at. destruct rx, st. fields.
  destruct (mavlink_get_msg_entry crcs _) as [e|]; fields;
    match goal with |- context [c =? ?x] => destruct (c =? x) end; cbn [negb]; fields;
    try (destruct (idx <? e_max_msg_len e)); reflexivity.
Qed.

(** The last byte of an unsigned frame: the verdict and the message handed
    out, whose checksum field is the one on the wire in either case. *)
Lemma frame_ck1 rx st s idx flags ck0 ck1 rm rs :
  (s = MAVLINK_PARSE_STATE_GOT_CRC1 \/ s = MAVLINK_PARSE_STATE_GOT_BAD_CRC1) ->
  s_signing st = None -> Z.land (m_incompat_flags rx) 1 = 0 ->
  rd (m_ck rx) 0 = ck0 -> length (m_ck rx) = 2%nat ->
  let o := mavlink_frame_char_buffer crcs accept_unsigned rx (st_at st s idx flags) ck1
             (Some rm) rs in
  let ok := bool_decide (s = MAVLINK_PARSE_STATE_GOT_CRC1) &&
            (ck1 =? Z.shiftr (m_checksum rx) 8) in
  fo_result o = (if ok then MAVLINK_FRAMING_OK else MAVLINK_FRAMING_BAD_CRC) /\
  fo_r_message o = Some (set_m_ck [ck0; ck1]
    (set_m_checksum (if ok then m_checksum rx else Z.lor ck0 (Z.shiftl ck1 8)) rx)) /\
  s_parse_state (fo_status o) = MAVLINK_PARSE_STATE_IDLE.
Proof.
  intros Hs Hsig Hinc Hck Hlen.
  assert (wr (m_ck rx) 1 ck1 = [ck0; ck1]) as Hwr.
  { destruct (m_ck rx) as [|a [|b [|? ?]]]; try done. unfold rd in Hck. simpl in Hck. by subst. }
  unfold mavlink_frame_char_buffer, parse_switch, st_at. fields.
  destruct Hs as [-> | ->]; unfold on_crc1; fields; change MAVLINK_IFLAG_SIGNED with 1;
    rewrite Hwr, Hinc.
  - rewrite bool_decide_eq_false_2, bool_decide_eq_true_2 by done. cbn [orb andb].
    destruct (ck1 =? Z.shiftr (m_checksum rx) 8); cbn [negb Z.eqb]; fields; rewrite Hsig;
      unfold count_received; cbn; destruct rx; fields; try (case_bool; done); done.
  - rewrite bool_decide_eq_true_2, bool_decide_eq_false_2 by done. cbn [orb andb negb Z.eqb].
    fields. rewrite Hsig. by destruct rx.
Qed.

Lemma le_word_2 a b : le_word [a; b] = Z.lor a (Z.shiftl b 8).
Proof. cbn [le_word]. by rewrite Z.shiftl_0_l, Z.lor_0_r. Qed.

(** Comparing a checksum byte by byte is comparing it. *)
Lemma ck_compare crc ck0 ck1 :
  is_u16 crc -> is_u8 ck0 -> is_u8 ck1 ->
  (ck0 =? Z.land crc 255) && (ck1 =? Z.shiftr crc 8) =
  bool_decide (Z.lor ck0 (Z.shiftl ck1 8) = crc).
Proof.
  intros Hc H0 H1. rewrite <- le_word_2.
  assert (Z.shiftr crc 8 = Z.land (Z.shiftr crc 8) 255) as Hhi.
  { change 255 with (Z.ones 8). rewrite Z.land_ones, Z.shiftr_div_pow2 by lia.
    unfold in_range in *. symmetry. apply Z.mod_small. Z.div_mod_to_equations; lia. }
  rewrite Hhi. apply eq_bool_prop_intro.
  rewrite andb_True, !Is_true_true, bool_decide_eq_true, !Z.eqb_eq. split.
  - intros [-> ->]. change (le_word (le_bytes 2 crc) = crc).
    rewrite le_word_le_bytes. by apply wrap_id.
  - intros <-. assert (le_bytes 2 (le_word [ck0; ck1]) = [ck0; ck1]) as Hb.
    { apply (le_bytes_le_word [ck0; ck1]). constructor; [done|constructor; [done|constructor]]. }
    injection Hb as E0 E1. by split; symmetry.
Qed.

(** The payload and the first checksum byte, from the state the header
    leaves. *)
Lemma feed_body rx st flags p ck0 :
  m_len rx = Z.of_nat (length p) -> m_len rx < 256 ->
  let crc := crc_accumulate (crc_extra_of (m_msgid rx))
               (crc_accumulate_buffer (m_checksum rx) p) in
  feed (rx, st_at st (after_msgid rx) 0 flags) (p ++ [ck0]) =
  (set_m_ck (wr (m_ck rx) 0 ck0) (set_m_checksum crc
     (set_m_payload64 (zero_fill (m_msgid rx) (m_len rx) (memcpy_at (m_payload64 rx) 0 p)) rx)),
   st_at st (if ck0 =? Z.land crc 0xFF then MAVLINK_PARSE_STATE_GOT_CRC1
             else MAVLINK_PARSE_STATE_GOT_BAD_CRC1) (m_len rx) flags,
   replicate (S (length p)) 0).
Proof.
  intros Hlen Hmax. cbn zeta.
  assert (feed (rx, st_at st (after_msgid rx) 0 flags) p =
    (set_m_checksum (crc_accumulate_buffer (m_checksum rx) p)
       (set_m_payload64 (memcpy_at (m_payload64 rx) 0 p) rx),
     st_at st MAVLINK_PARSE_STATE_GOT_PAYLOAD (m_len rx) flags, replicate (length p) 0)) as Hp.
  { unfold after_msgid. destruct p as [|c p].
    - rewrite Hlen. by destruct rx.
    - destruct (Z.ltb_spec 0 (m_len rx)) as [|Hn]; [|simpl in *; lia].
      apply feed_payload; [done|lia..]. }
  unfold feed. rewrite feed_app. fold feed. rewrite Hp, feed_cons, feed1_ck0. fields.
  cbn [feed MavlinkParser.feed]. rewrite replicate_S_end. by destruct rx.
Qed.

(** Payload and checksum of an unsigned frame. *)
Lemma receive_body rx st flags p ck0 ck1 rm rs :
  m_len rx = Z.of_nat (length p) -> m_len rx < 256 -> s_signing st = None ->
  Z.land (m_incompat_flags rx) 1 = 0 -> length (m_ck rx) = 2%nat ->
  is_u8 ck0 -> is_u8 ck1 ->
  let crc := crc_accumulate (crc_extra_of (m_msgid rx))
               (crc_accumulate_buffer (m_checksum rx) p) in
  let '(rx2, st2, rets) :=
    feed (rx, st_at st (after_msgid rx) 0 flags) (p ++ [ck0]) in
  let o := mavlink_frame_char_buffer crcs accept_unsigned rx2 st2 ck1 (Some rm) rs in
  let wire := Z.lor ck0 (Z.shiftl ck1 8) in
  rets = replicate (S (length p)) 0 /\
  fo_result o = (if bool_decide (wire = crc) then MAVLINK_FRAMING_OK
                 else MAVLINK_FRAMING_BAD_CRC) /\
  fo_r_message o = Some (set_m_ck [ck0; ck1] (set_m_checksum wire
    (set_m_payload64 (zero_fill (m_msgid rx) (m_len rx) (memcpy_at (m_payload64 rx) 0 p)) rx))) /\
  s_parse_state (fo_status o) = MAVLINK_PARSE_STATE_IDLE.
Proof.
  intros Hlen Hmax Hsig Hinc Hck H0 H1. cbn zeta. rewrite feed_body by done.
  set (crc := crc_accumulate _ _). set (s2 := if ck0 =? _ then _ else _).
  match goal with |- context [mavlink_frame_char_buffer _ _ ?r (st_at st s2 ?i ?f) _ _ _] =>
    destruct (frame_ck1 r st s2 i f ck0 ck1 rm rs) as (Hr & Hm & Hi) end; fields.
  - unfold s2. case_bool; auto.
  - done.
  - done.
  - apply rd_wr_eq. rewrite Hck. simpl. lia.
  - by rewrite length_wr.
  - rewrite Hr, Hm. fields in *.
    assert (bool_decide (s2 = MAVLINK_PARSE_STATE_GOT_CRC1) && (ck1 =? Z.shiftr crc 8) =
      bool_decide (Z.lor ck0 (Z.shiftl ck1 8) = crc)) as ->.
    { rewrite <- ck_compare by (done || apply crc_accumulate_u16). f_equal. unfold s2.
      by destruct (ck0 =? _). }
    split_and!; [done|done| |done].
    clear Hr Hm. case_bool_decide as Hw; [rewrite <- Hw|]; by destruct rx.
Qed.

(** ** Frames that carry a signature, on a channel without signing *)

Definition awaiting_signature (st : mavlink_status_t) (idx flags wait result : Z)
    : mavlink_status_t :=
  set_s_signature_wait wait
    (set_s_msg_received result (st_at st MAVLINK_PARSE_STATE_SIGNATURE_WAIT idx flags)).

Lemma feed1_ck1_signed rx st s idx flags c :
  (s = MAVLINK_PARSE_STATE_GOT_CRC1 \/ s = MAVLINK_PARSE_STATE_GOT_BAD_CRC1) ->
  m_incompat_flags rx = 1 ->
  let res := if bool_decide (s = MAVLINK_PARSE_STATE_GOT_CRC1) &&
                (c =? Z.shiftr (m_checksum rx) 8)
             then MAVLINK_FRAMING_INCOMPLETE else MAVLINK_FRAMING_BAD_CRC in
  feed1 (rx, st_at st s idx flags) c =
  (set_m_ck (wr (m_ck rx) 1 c) rx, awaiting_signature st idx flags 13 res, res).
Proof.
  intros Hs Hinc. unfold feed1, MavlinkParser.feed1, mavlink_frame_char_buffer, parse_switch,
    st_at, awaiting_signature. fields.
  destruct Hs as [-> | ->]; unfold on_crc1; fields; cbn [fst snd]; fields; rewrite Hinc;
    change (Z.land 1 MAVLINK_IFLAG_SIGNED) with 1; cbn [Z.eqb negb].
  - rewrite bool_decide_eq_false_2, bool_decide_eq_true_2 by done. cbn [orb andb].
    destruct (c =? Z.shiftr (m_checksum rx) 8); cbn [negb]; by destruct rx, st.
  - rewrite bool_decide_eq_true_2, bool_decide_eq_false_2 by done. by destruct rx, st.
Qed.

Lemma feed_signature k sig : forall rx st idx flags result,
  s_signing st = None -> length sig = S k -> (k < 13)%nat ->
  (feed (rx, awaiting_signature st idx flags (Z.of_nat (S k)) result) sig).2 =
  replicate k 0 ++ [MAVLINK_FRAMING_OK].
Proof.
  revert k. induction sig as [|c sig IH]; intros k rx st idx flags result Hs Hlen Hk; [done|].
  cbn [length] in Hlen. rewrite feed_cons.
  assert (u8 (Z.of_nat (S k) - 1) = Z.of_nat k) as Hw
    by (rewrite wrap_id; unfold in_range; lia).
  destruct k as [|k].
  - destruct sig; [|simpl in Hlen; lia].
    unfold feed1, MavlinkParser.feed1, mavlink_frame_char_buffer, parse_switch,
      on_signature_wait, awaiting_signature, st_at. cbn [fst snd]. fields.
    rewrite Hw, Hs. change (Z.of_nat 0) with 0. cbn [Z.eqb mavlink_signature_check negb andb].
    unfold count_received. cbn [feed MavlinkParser.feed]. fields.
    cbn [Z.eqb Pos.eqb MAVLINK_FRAMING_OK MAVLINK_FRAMING_BAD_CRC]. fields. case_bool; done.
  - erewrite (feed1_incomplete _ _ c _ (awaiting_signature st idx flags (Z.of_nat (S k)) 0)).
    + assert (set_s_parse_error 0 (awaiting_signature st idx flags (Z.of_nat (S k)) 0) =
        awaiting_signature st idx flags (Z.of_nat (S k)) 0) as -> by (by destruct st).
      match goal with |- context [feed (?r, _) sig] =>
        pose proof (IH k r st idx flags 0 Hs ltac:(lia) ltac:(lia)) as H end.
      destruct (feed (_, awaiting_signature _ _ _ _ _) sig) as [s2 rs]. cbn [snd] in H |- *.
      by rewrite H.
    + unfold parse_switch, on_signature_wait, awaiting_signature, st_at. fields.
      rewrite Hw. destruct (Z.eqb_spec (Z.of_nat (S k)) 0); [lia|]. reflexivity.
    + done.
Qed.

(** ** Whole messages *)

Definition payload_of (m : mavlink_message_t) : list Z :=
  take (Z.to_nat (m_len m)) (m_payload64 m).

(** The checksum a message should carry. *)
Definition frame_crc (m : mavlink_message_t) : Z :=
  crc_accumulate (crc_extra_of (m_msgid m))
    (crc_accumulate_buffer
      (crc_calculate (drop 1 (if m_magic m =? MAVLINK_STX_MAVLINK1
                              then header_v1 m (m_len m) else header_v2 m (m_len m))))
      (payload_of m)).

(** An unsigned message of either protocol version. *)
Definition unsigned_message (m : mavlink_message_t) : Prop :=
  wf_message m /\ m_incompat_flags m = 0 /\
  (m_magic m = MAVLINK_STX \/
   m_magic m = MAVLINK_STX_MAVLINK1 /\ m_compat_flags m = 0 /\ m_msgid m < 256).

(** What the receiver is handed: the message, its payload laid over the old
    contents of the parser's buffer and zero-filled to its full length. *)
Definition received (rx m : mavlink_message_t) : mavlink_message_t :=
  mk_message (m_checksum m) (m_magic m) (m_len m) (m_incompat_flags m) (m_compat_flags m)
    (m_seq m) (m_sysid m) (m_compid m) (m_msgid m)
    (zero_fill (m_msgid m) (m_len m) (memcpy_at (m_payload64 rx) 0 (payload_of m)))
    (ck_bytes m) (m_signature rx).

Lemma wire_split m front c :
  m_incompat_flags m = 0 -> _mavlink_resend_uart m = front ++ [c] ->
  exists hdr, hdr = (if m_magic m =? MAVLINK_STX_MAVLINK1 then header_v1 m (m_len m)
                     else header_v2 m (m_len m)) /\
  front = hdr ++ payload_of m ++ [Z.land (m_checksum m) 0xFF] /\
  c = u8 (Z.shiftr (m_checksum m) 8).
Proof.
  intros Hinc Hw. eexists. split; [done|]. unfold _mavlink_resend_uart in Hw.
  rewrite Hinc, Z.land_0_l in Hw. cbn [Z.eqb] in Hw. rewrite app_nil_r in Hw.
  unfold payload_of.
  assert (forall h : list Z,
    h ++ take (Z.to_nat (m_len m)) (m_payload64 m) ++ ck_bytes m =
    (h ++ take (Z.to_nat (m_len m)) (m_payload64 m) ++ [Z.land (m_checksum m) 0xFF]) ++
    [u8 (Z.shiftr (m_checksum m) 8)]) as Hsplit
    by (intros h; unfold ck_bytes; by rewrite <- !app_assoc).
  destruct (m_magic m =? MAVLINK_STX_MAVLINK1); rewrite Hsplit in Hw;
    by apply app_inj_2 in Hw as [-> [= ->]].
Qed.

Lemma ck_wire crc :
  is_u16 crc -> Z.lor (Z.land crc 255) (Z.shiftl (u8 (Z.shiftr crc 8)) 8) = crc.
Proof.
  intros Hc. rewrite <- le_word_2. rewrite wrap_land by lia.
  change (Z.ones 8) with 255. change (le_word (le_bytes 2 crc) = crc).
  rewrite le_word_le_bytes. by apply wrap_id.
Qed.

Lemma frame_received rx st m rm rs front c :
  parser_inv rx st -> idle st -> s_signing st = None -> unsigned_message m ->
  _mavlink_resend_uart m = front ++ [c] ->
  let '(rx2, st2, rets) := feed (rx, st) front in
  let o := mavlink_frame_char_buffer crcs accept_unsigned rx2 st2 c (Some rm) rs in
  rets = replicate (length front) 0 /\
  fo_result o = (if bool_decide (m_checksum m = frame_crc m) then MAVLINK_FRAMING_OK
                 else MAVLINK_FRAMING_BAD_CRC) /\
  fo_r_message o = Some (received rx m) /\
  s_parse_state (fo_status o) = MAVLINK_PARSE_STATE_IDLE.
Proof.
  intros [Hrx _ _ _] Hidle Hsig (Hm & Hinc & Hmagic) Hw.
  apply wire_split in Hw as (hdr & Hh & -> & ->); [|done].
  pose proof (wf_len _ Hm) as Hl. pose proof (wf_payload_len _ Hm) as Hpl.
  pose proof (wf_msgid _ Hm) as Hid. unfold PAYLOAD_BYTES in Hpl. unfold in_range in Hl.
  assert (Z.of_nat (length (payload_of m)) = m_len m) as Hlp
    by (unfold payload_of; rewrite length_take; lia).
  assert (exists fl magic hd, hdr = magic :: hd /\ magic = m_magic m /\
    let rx1 := rx_at rx (crc_calculate hd) magic (m_len m) 0 (m_compat_flags m) (m_seq m)
                 (m_sysid m) (m_compid m) (m_msgid m) in
    feed (rx, st) hdr = (rx1, st_at st (after_msgid rx1) 0 fl, replicate (length hdr) 0))
    as (fl & magic & hd & Hhd & -> & Hf).
  { destruct Hmagic as [E|(E & Hcompat & Hlt)].
    - rewrite E in Hh. cbn [Z.eqb Pos.eqb MAVLINK_STX MAVLINK_STX_MAVLINK1] in Hh.
      unfold header_v2 in Hh. rewrite E, Hinc in Hh. subst hdr.
      do 3 eexists. split_and!; [done|done|]. cbn zeta.
      rewrite feed_header_v2 by done. rewrite msgid_of_bytes by done. done.
    - rewrite E in Hh. cbn [Z.eqb Pos.eqb MAVLINK_STX_MAVLINK1] in Hh.
      unfold header_v1 in Hh. rewrite E in Hh.
      assert (Z.land (m_msgid m) 255 = m_msgid m) as Hland.
      { change 255 with (Z.ones 8). rewrite Z.land_ones by lia. unfold in_range in Hid.
        apply Z.mod_small. lia. }
      rewrite Hland in Hh. subst hdr.
      do 3 eexists. split_and!; [done|done|]. cbn zeta.
      rewrite feed_header_v1 by done. rewrite Hcompat. done. }
  unfold feed. rewrite feed_app. fold feed. rewrite Hf.
  match goal with |- context [st_at st (after_msgid ?r) 0 fl] =>
    pose proof (receive_body r st fl (payload_of m) (Z.land (m_checksum m) 255)
      (u8 (Z.shiftr (m_checksum m) 8)) rm rs) as Hb end.
  cbn [rx_at m_len m_incompat_flags m_ck m_checksum m_msgid m_payload64] in Hb.
  specialize (Hb (eq_sym Hlp) ltac:(lia) Hsig eq_refl (wf_ck_len _ Hrx)
    (land_255_u8 _) (wrap_range 8 _ ltac:(lia))).
  rewrite ck_wire in Hb by apply Hm.
  destruct (feed _ (_ ++ _)) as [[rx2 st2] rets]. destruct Hb as (-> & Hr & Hmsg & Hi).
  split_and!; [|rewrite Hr| |done].
  - rewrite length_app, length_app, replicate_add. cbn [length].
    by rewrite Nat.add_1_r.
  - unfold frame_crc. by rewrite <- Hh, Hhd.
  - rewrite Hmsg. unfold received, rx_at. by rewrite Hinc.
Qed.

(** C40. On a channel without a signing key, a frame with the signature flag is
    reported as good after its signature, even when its checksum is wrong:
    the verdict on the checksum is returned one byte too early and then
    forgotten. *)
Theorem signed_frame_accepted rx st m :
  parser_inv rx st -> idle st -> s_signing st = None -> wf_message m ->
  m_magic m = MAVLINK_STX -> m_incompat_flags m = MAVLINK_IFLAG_SIGNED ->
  (feed (rx, st) (_mavlink_resend_uart m)).2 =
  replicate (11 + Z.to_nat (m_len m)) MAVLINK_FRAMING_INCOMPLETE ++
  [if bool_decide (m_checksum m = frame_crc m) then MAVLINK_FRAMING_INCOMPLETE
   else MAVLINK_FRAMING_BAD_CRC] ++
  replicate 12 MAVLINK_FRAMING_INCOMPLETE ++ [MAVLINK_FRAMING_OK].
Proof.
  intros [Hrx _ _ _] Hidle Hs Hm Hmagic Hinc.
  pose proof (wf_len _ Hm) as Hl. pose proof (wf_payload_len _ Hm) as Hpl.
  pose proof (wf_msgid _ Hm) as Hid. unfold PAYLOAD_BYTES in Hpl. unfold in_range in Hl.
  assert (Z.of_nat (length (payload_of m)) = m_len m) as Hlp
    by (unfold payload_of; rewrite length_take; lia).
  unfold _mavlink_resend_uart. rewrite Hmagic, Hinc. fold (payload_of m).
  change (MAVLINK_STX =? MAVLINK_STX_MAVLINK1) with false.
  change (Z.land MAVLINK_IFLAG_SIGNED MAVLINK_IFLAG_SIGNED =? 0) with false. cbn iota.
  change (ck_bytes m ++ m_signature m) with
    ([Z.land (m_checksum m) 255] ++ ([u8 (Z.shiftr (m_checksum m) 8)] ++ m_signature m)).
  unfold feed. rewrite feed_app. fold feed.
  unfold header_v2. rewrite Hmagic, Hinc, feed_header_v2, msgid_of_bytes by done.
  cbn zeta. unfold feed at 1. rewrite app_assoc, feed_app. fold feed.
  rewrite feed_body by (unfold rx_at; cbn [m_len]; lia).
  unfold rx_at. fields. set (crc := crc_accumulate _ _).
  set (s2 := if Z.land _ 255 =? _ then _ else _).
  cbn [app]. rewrite feed_cons, feed1_ck1_signed by first [done|unfold s2; case_bool; auto].
  fields. set (res := if _ && _ then _ else _).
  match goal with |- context [feed (?r, awaiting_signature ?s ?i ?f _ ?x) (m_signature m)] =>
    pose proof (feed_signature 12 (m_signature m) r s i f x Hs (wf_signature_len _ Hm)
      ltac:(lia)) as Hsig;
    change (Z.of_nat 13) with 13 in Hsig;
    destruct (feed (r, awaiting_signature s i f 13 x) (m_signature m)) as [s3 rs] end.
  simpl in Hsig. subst rs. cbn [snd].
  assert (res = if bool_decide (m_checksum m = frame_crc m) then MAVLINK_FRAMING_INCOMPLETE
                else MAVLINK_FRAMING_BAD_CRC) as ->.
  { unfold res. f_equal.
    assert (frame_crc m = crc) as ->.
    { unfold frame_crc, crc, header_v2. rewrite Hmagic, Hinc. reflexivity. }
    pose proof (ck_compare crc (Z.land (m_checksum m) 255) (u8 (Z.shiftr (m_checksum m) 8))
      (crc_accumulate_u16 _ _) (land_255_u8 _) (wrap_range 8 _ ltac:(lia))) as Hck.
    rewrite ck_wire in Hck by apply Hm. rewrite <- Hck.
    f_equal. unfold s2. by destruct (_ =? _). }
  replace (11 + Z.to_nat (m_len m))%nat with (10 + S (length (payload_of m)))%nat by lia.
  rewrite replicate_add, <- app_assoc. reflexivity.
Qed.
End frame.

(** A frame without the signature flag, of either version, received byte by
    byte by an idle parser: nothing is reported before its last byte, where
    the verdict is on its checksum, good or bad; the receiver is handed the
    frame's message and the parser is idle again. *)
Theorem receive_frame crcs accept_unsigned rx st m rm rs front c :
  parser_inv rx st -> idle st -> s_signing st = None -> unsigned_message m ->
  _mavlink_resend_uart m = front ++ [c] ->
  let '(rx2, st2, rets) := feed crcs accept_unsigned (rx, st) front in
  let o := mavlink_frame_char_buffer crcs accept_unsigned rx2 st2 c (Some rm) rs in
  rets = replicate (length front) 0 /\
  fo_result o = (if bool_decide (m_checksum m = frame_crc crcs m) then MAVLINK_FRAMING_OK
                 else MAVLINK_FRAMING_BAD_CRC) /\
  fo_r_message o = Some (received crcs rx m) /\
  s_parse_state (fo_status o) = MAVLINK_PARSE_STATE_IDLE.
Proof. apply frame_received. Qed.

(** A heartbeat without a payload and with the checksum 0x0807. *)
Definition sample_frame : mavlink_message_t :=
  mk_message 0x0807 MAVLINK_STX 0 0 0 3 1 2 0 (replicate PAYLOAD_BYTES 0) [0; 0] (replicate 13 0).

Lemma sample_frame_ok : wf_message sample_frame.
Proof. split; decide_true. Qed.

Lemma receive_frame_witness :
  let front := [0xfd; 0; 0; 0; 3; 1; 2; 0; 0; 0; 7] in
  let '(rx2, st2, rets) := feed ardupilotmega_crcs None (blank_message, blank_status) front in
  let o := mavlink_frame_char_buffer ardupilotmega_crcs None rx2 st2 8 (Some blank_message) None in
  rets = replicate 11 0 /\
  fo_result o = (if bool_decide (m_checksum sample_frame = frame_crc ardupilotmega_crcs sample_frame)
                 then MAVLINK_FRAMING_OK else MAVLINK_FRAMING_BAD_CRC) /\
  fo_r_message o = Some (received ardupilotmega_crcs blank_message sample_frame) /\
  s_parse_state (fo_status o) = MAVLINK_PARSE_STATE_IDLE.
Proof.
  refine (receive_frame ardupilotmega_crcs None blank_message blank_status sample_frame blank_message None
    [0xfd; 0; 0; 0; 3; 1; 2; 0; 0; 0; 7] 8 blank_parser_ok (or_intror eq_refl) eq_refl _ _).
  - split; [exact sample_frame_ok|]. split; [reflexivity|]. by left.
  - vm_compute. reflexivity.
Defined.

Lemma signed_frame_accepted_witness :
  let m := set_m_incompat_flags MAVLINK_IFLAG_SIGNED sample_frame in
  (feed ardupilotmega_crcs None (blank_message, blank_status) (_mavlink_resend_uart m)).2 =
  replicate 11 MAVLINK_FRAMING_INCOMPLETE ++
  [if bool_decide (m_checksum m = frame_crc ardupilotmega_crcs m) then MAVLINK_FRAMING_INCOMPLETE
   else MAVLINK_FRAMING_BAD_CRC] ++
  replicate 12 MAVLINK_FRAMING_INCOMPLETE ++ [MAVLINK_FRAMING_OK].
Proof.
  refine (signed_frame_accepted ardupilotmega_crcs None blank_message blank_status
    (set_m_incompat_flags MAVLINK_IFLAG_SIGNED sample_frame) blank_parser_ok (or_intror eq_refl) eq_refl _ eq_refl eq_refl).
  split; decide_true.
Defined.

(** ** From [mavlink_finalize_message] to the receiver *)

Lemma trim_loop_ext fuel p q len :
  (forall i, 0 <= i < len -> rd p i = rd q i) -> trim_loop fuel p len = trim_loop fuel q len.
Proof.
  revert len. induction fuel as [|fuel IH]; intros len Hext; cbn [trim_loop]; [done|].
  destruct (Z.ltb_spec 1 len); cbn [andb]; [|done]. rewrite Hext by lia.
  case_bool; [|done]. apply IH. intros. apply Hext. lia.
Qed.

Lemma set_m_len_id m len : m_len m = len -> set_m_len len m = m.
Proof. intros <-. by destruct m. Qed.

Lemma take_wr_ge l n i v : (n <= Z.to_nat i)%nat -> take n (wr l i v) = take n l.
Proof. intros. unfold wr. by apply take_insert_ge. Qed.

Section finalize.
Context (crcs : list mavlink_msg_entry_t).

(** A message without signature is well formed, carries the right checksum
    and has nothing left to trim. *)
Lemma finalize_spec m sys comp tx min_length length extra :
  wf_message m -> is_u8 sys -> is_u8 comp -> is_u8 min_length -> is_u8 length ->
  is_u8 (s_current_tx_seq tx) -> signs_outgoing tx = false ->
  extra = crc_extra_of crcs (m_msgid m) ->
  (out_mavlink1 tx = true -> m_msgid m < 256) ->
  let '(m', tx', n) :=
    mavlink_finalize_message_buffer m sys comp tx min_length length extra in
  unsigned_message m' /\ trimmed m' = m' /\ m_checksum m' = frame_crc crcs m' /\
  n = mavlink_msg_get_send_buffer_length m' /\
  m_msgid m' = m_msgid m /\ m_sysid m' = sys /\ m_compid m' = comp /\
  m_seq m' = s_current_tx_seq tx /\
  m_len m' = (if out_mavlink1 tx then min_length
              else _mav_trim_payload (m_payload64 m) length) /\
  payload_of m' = take (Z.to_nat (m_len m')) (m_payload64 m) /\
  tx' = set_s_current_tx_seq (u8 (s_current_tx_seq tx + 1)) tx.
Proof.
  intros Hm Hsys Hcomp Hmin Hlen Hseq Hsig -> Hid.
  destruct (trim_spec (m_payload64 m) length) as (Ht & _); [unfold in_range in Hlen; lia|].
  assert (is_u8 (_mav_trim_payload (m_payload64 m) length)) as Htr
    by (unfold in_range in *; lia).
  unfold mavlink_finalize_message_buffer. rewrite Hsig, andb_false_r. cbn zeta.
  set (len := if out_mavlink1 tx then min_length else _).
  assert (is_u8 len) as Hl by (unfold len; by case_bool).
  fields. set (crc := crc_accumulate _ _).
  assert (is_u16 crc) as Hcrc by apply crc_accumulate_u16.
  assert (take (Z.to_nat len) (wr (wr (m_payload64 m) len (Z.land crc 255)) (len + 1)
    (u8 (Z.shiftr crc 8))) = take (Z.to_nat len) (m_payload64 m)) as Hp.
  { unfold in_range in Hl. rewrite !take_wr_ge by lia. done. }
  assert (forall i, 0 <= i < len -> rd (wr (wr (m_payload64 m) len (Z.land crc 255)) (len + 1)
    (u8 (Z.shiftr crc 8))) i = rd (m_payload64 m) i) as Hrd.
  { intros i Hi. rewrite !rd_wr_ne by lia. done. }
  split_and!.
  - split; [|split; [destruct (out_mavlink1 tx); reflexivity|]].
    + destruct Hm; constructor; fields; rewrite ?length_wr; auto with words.
      by destruct (out_mavlink1 tx).
    + destruct (out_mavlink1 tx); [right; auto|by left].
  - unfold trimmed. fields. destruct (out_mavlink1 tx) eqn:Eo; [done|].
    cbn [Z.eqb Pos.eqb MAVLINK_STX MAVLINK_STX_MAVLINK1].
    unfold _mav_trim_payload at 1. rewrite (trim_loop_ext _ _ _ _ Hrd).
    assert (trim_loop (Z.to_nat len) (m_payload64 m) len = len) as ->; [|by apply set_m_len_id].
    unfold len. fields. apply trim_idemp. unfold in_range in *; lia.
  - unfold frame_crc, payload_of. fields. rewrite Hp. unfold crc.
    destruct (out_mavlink1 tx); reflexivity.
  - unfold mavlink_msg_get_send_buffer_length. fields.
    destruct (out_mavlink1 tx); cbn [andb negb];
      cbn [Z.eqb Pos.eqb MAVLINK_STX MAVLINK_STX_MAVLINK1]; f_equal;
      unfold MAVLINK_NUM_NON_PAYLOAD_BYTES, MAVLINK_NUM_HEADER_BYTES,
        MAVLINK_NUM_CHECKSUM_BYTES; rewrite ?Z.land_0_l; cbn [Z.eqb]; lia.
  - reflexivity.
  - reflexivity.
  - reflexivity.
  - reflexivity.
  - reflexivity.
  - unfold payload_of. fields. apply Hp.
  - reflexivity.
Qed.

(** The convenience function that sends without building a message puts the
    same bytes on the wire as finalising one and sending it. *)
Theorem chan_send_same_wire m sys comp tx min_length length extra :
  wf_message m -> is_u8 length -> is_u8 min_length -> signs_outgoing tx = false ->
  (out_mavlink1 tx = true -> m_msgid m < 256) ->
  let '(m', tx', _) :=
    mavlink_finalize_message_buffer m sys comp tx min_length length extra in
  _mav_finalize_message_chan_send tx sys comp (m_msgid m) (m_payload64 m) min_length length
    extra = (tx', _mavlink_resend_uart m').
Proof.
  intros Hm Hlen Hmin Hsig Hid.
  destruct (trim_spec (m_payload64 m) length) as (Ht & _); [unfold in_range in Hlen; lia|].
  unfold mavlink_finalize_message_buffer, _mav_finalize_message_chan_send, _mavlink_resend_uart.
  rewrite Hsig, andb_false_r. cbn zeta. fields.
  unfold in_range in *.
  destruct (out_mavlink1 tx) eqn:Eo; cbn [andb negb];
    cbn [Z.eqb Pos.eqb MAVLINK_STX MAVLINK_STX_MAVLINK1].
  - destruct (Z.ltb_spec 255 (m_msgid m)); [specialize (Hid eq_refl); lia|].
    unfold header_v1, ck_bytes. fields. rewrite !take_wr_ge by lia. reflexivity.
  - rewrite Z.land_0_l, Z.eqb_refl, app_nil_r.
    unfold header_v2, ck_bytes. fields. rewrite !take_wr_ge by lia. reflexivity.
Qed.

(** C7. What is finalised, serialised and received byte by byte is accepted, and
    the receiver is handed the same message: for channels that do not sign,
    and for the frames of MAVLink 1 with a message number below 256. *)
Theorem send_receive_roundtrip accept_unsigned m sys comp tx min_length length buf rx st rm rs
    front c :
  wf_message m -> is_u8 sys -> is_u8 comp -> is_u8 min_length -> is_u8 length ->
  is_u8 (s_current_tx_seq tx) -> signs_outgoing tx = false ->
  (out_mavlink1 tx = true -> m_msgid m < 256) ->
  MAVLINK_MAX_PACKET_LEN <= Z.of_nat (Datatypes.length buf) ->
  parser_inv rx st -> idle st -> s_signing st = None ->
  let '(m', _, _) := mavlink_finalize_message_buffer m sys comp tx min_length length
                       (mavlink_get_crc_extra crcs m) in
  let '(buf', n) := mavlink_msg_to_send_buffer buf m' in
  take (Z.to_nat n) buf' = front ++ [c] ->
  let '(rx2, st2, rets) := feed crcs accept_unsigned (rx, st) front in
  let o := mavlink_frame_char_buffer crcs accept_unsigned rx2 st2 c (Some rm) rs in
  rets = replicate (Datatypes.length front) MAVLINK_FRAMING_INCOMPLETE /\
  fo_result o = MAVLINK_FRAMING_OK /\
  fo_r_message o = Some (received crcs rx m') /\
  payload_of m' = take (Z.to_nat (m_len m')) (m_payload64 m).
Proof.
  intros Hm Hsys Hcomp Hmin Hlen Hseq Hsig Hid Hbuf Hinv Hidle Hs.
  pose proof (finalize_spec m sys comp tx min_length length (mavlink_get_crc_extra crcs m)
    Hm Hsys Hcomp Hmin Hlen Hseq Hsig eq_refl Hid) as Hf.
  destruct (mavlink_finalize_message_buffer _ _ _ _ _ _ _) as [[m' tx'] n'].
  destruct Hf as (Hu & Htrim & Hcrc & _ & _ & _ & _ & _ & _ & Hpay & _).
  pose proof (send_buffer_bounds buf m' (proj1 Hu) Hbuf) as Hsb.
  rewrite to_send_buffer_memcpy in * by apply Hu. rewrite Htrim in *.
  destruct Hsb as (_ & -> & _). rewrite Nat2Z.id, take_app_length. intros Hw.
  pose proof (frame_received crcs accept_unsigned rx st m' rm rs front c Hinv Hidle Hs Hu Hw)
    as Hr.
  destruct (feed _ _ _ _) as [[rx2 st2] rets]. destruct Hr as (-> & Hr & Hmsg & _).
  cbn zeta. rewrite Hr, bool_decide_eq_true_2 by done. done.
Qed.
End finalize.

Lemma chan_send_same_wire_witness :
  let '(m', tx', _) := mavlink_finalize_message_buffer sample_frame 1 2 blank_status 9 9 50 in
  _mav_finalize_message_chan_send blank_status 1 2 0 (replicate PAYLOAD_BYTES 0) 9 9 50 = (tx', _mavlink_resend_uart m').
Proof.
  refine (chan_send_same_wire sample_frame 1 2 blank_status 9 9 50 sample_frame_ok _ _ eq_refl _); [done|done|].
  discriminate.
Defined.

(** The heartbeat of the sample, sent and received. *)
Lemma send_receive_roundtrip_witness :
  let '(m', _, _) := mavlink_finalize_message_buffer sample_frame 1 2 blank_status 9 9
                       (mavlink_get_crc_extra ardupilotmega_crcs sample_frame) in
  let front := [253; 1; 0; 0; 0; 1; 2; 0; 0; 0; 0; 168] in
  let '(rx2, st2, rets) := feed ardupilotmega_crcs None (blank_message, blank_status) front in
  let o := mavlink_frame_char_buffer ardupilotmega_crcs None rx2 st2 32 (Some blank_message) None in
  rets = replicate 12 MAVLINK_FRAMING_INCOMPLETE /\
  fo_result o = MAVLINK_FRAMING_OK /\
  fo_r_message o = Some (received ardupilotmega_crcs blank_message m') /\
  payload_of m' = take (Z.to_nat (m_len m')) (replicate PAYLOAD_BYTES 0).
Proof.
  pose proof (send_receive_roundtrip ardupilotmega_crcs None sample_frame 1 2 blank_status 9 9 (replicate 300 0)
    blank_message blank_status blank_message None [253; 1; 0; 0; 0; 1; 2; 0; 0; 0; 0; 168] 32
    sample_frame_ok ltac:(done) ltac:(done) ltac:(done) ltac:(done) ltac:(done) eq_refl ltac:(discriminate)
    ltac:(decide_true) blank_parser_ok (or_intror eq_refl) eq_refl) as H.
  assert (let '(m', _, _) := mavlink_finalize_message_buffer sample_frame 1 2 blank_status 9 9
                       (mavlink_get_crc_extra ardupilotmega_crcs sample_frame) in
    let '(buf', n) := mavlink_msg_to_send_buffer (replicate 300 0) m' in
    take (Z.to_nat n) buf' = [253; 1; 0; 0; 0; 1; 2; 0; 0; 0; 0; 168; 32]) as Hw by (vm_compute; reflexivity).
  destruct (mavlink_finalize_message_buffer _ _ _ _ _ _ _) as [[m' tx'] n'].
  destruct (mavlink_msg_to_send_buffer _ m') as [buf' n]. exact (H Hw).
Defined.
