(* ===== verification/Aes.v ===== *)
(** * AES-128: tables, key schedule and encryption

    GEC-block/src/aestab.c, aeskey.c and aescrypt.c with the macros of
    aesopt.h, in the configuration the headers select: fixed tables, four
    tables per round, full unrolling, byte-wise input and output, and
    128-bit keys.  The table-driven code is proved to compute the cipher of
    FIPS 197, specified on bytes in [Module Fips]. *)

From S2P Require Import Prelude.

Local Open Scope Z_scope.

(** ** aestab.c *)

Definition sb_data : list Z := [
  0x63; 0x7c; 0x77; 0x7b; 0xf2; 0x6b; 0x6f; 0xc5; 0x30; 0x01; 0x67; 0x2b;
  0xfe; 0xd7; 0xab; 0x76; 0xca; 0x82; 0xc9; 0x7d; 0xfa; 0x59; 0x47; 0xf0;
  0xad; 0xd4; 0xa2; 0xaf; 0x9c; 0xa4; 0x72; 0xc0; 0xb7; 0xfd; 0x93; 0x26;
  0x36; 0x3f; 0xf7; 0xcc; 0x34; 0xa5; 0xe5; 0xf1; 0x71; 0xd8; 0x31; 0x15;
  0x04; 0xc7; 0x23; 0xc3; 0x18; 0x96; 0x05; 0x9a; 0x07; 0x12; 0x80; 0xe2;
  0xeb; 0x27; 0xb2; 0x75; 0x09; 0x83; 0x2c; 0x1a; 0x1b; 0x6e; 0x5a; 0xa0;
  0x52; 0x3b; 0xd6; 0xb3; 0x29; 0xe3; 0x2f; 0x84; 0x53; 0xd1; 0x00; 0xed;
  0x20; 0xfc; 0xb1; 0x5b; 0x6a; 0xcb; 0xbe; 0x39; 0x4a; 0x4c; 0x58; 0xcf;
  0xd0; 0xef; 0xaa; 0xfb; 0x43; 0x4d; 0x33; 0x85; 0x45; 0xf9; 0x02; 0x7f;
  0x50; 0x3c; 0x9f; 0xa8; 0x51; 0xa3; 0x40; 0x8f; 0x92; 0x9d; 0x38; 0xf5;
  0xbc; 0xb6; 0xda; 0x21; 0x10; 0xff; 0xf3; 0xd2; 0xcd; 0x0c; 0x13; 0xec;
  0x5f; 0x97; 0x44; 0x17; 0xc4; 0xa7; 0x7e; 0x3d; 0x64; 0x5d; 0x19; 0x73;
  0x60; 0x81; 0x4f; 0xdc; 0x22; 0x2a; 0x90; 0x88; 0x46; 0xee; 0xb8; 0x14;
  0xde; 0x5e; 0x0b; 0xdb; 0xe0; 0x32; 0x3a; 0x0a; 0x49; 0x06; 0x24; 0x5c;
  0xc2; 0xd3; 0xac; 0x62; 0x91; 0x95; 0xe4; 0x79; 0xe7; 0xc8; 0x37; 0x6d;
  0x8d; 0xd5; 0x4e; 0xa9; 0x6c; 0x56; 0xf4; 0xea; 0x65; 0x7a; 0xae; 0x08;
  0xba; 0x78; 0x25; 0x2e; 0x1c; 0xa6; 0xb4; 0xc6; 0xe8; 0xdd; 0x74; 0x1f;
  0x4b; 0xbd; 0x8b; 0x8a; 0x70; 0x3e; 0xb5; 0x66; 0x48; 0x03; 0xf6; 0x0e;
  0x61; 0x35; 0x57; 0xb9; 0x86; 0xc1; 0x1d; 0x9e; 0xe1; 0xf8; 0x98; 0x11;
  0x69; 0xd9; 0x8e; 0x94; 0x9b; 0x1e; 0x87; 0xe9; 0xce; 0x55; 0x28; 0xdf;
  0x8c; 0xa1; 0x89; 0x0d; 0xbf; 0xe6; 0x42; 0x68; 0x41; 0x99; 0x2d; 0x0f;
  0xb0; 0x54; 0xbb; 0x16].

Definition rc_data : list Z := [
  0x01; 0x02; 0x04; 0x08; 0x10; 0x20; 0x40; 0x80; 0x1b; 0x36].

Definition WPOLY : Z := 0x011b.

Definition bytes2word (b0 b1 b2 b3 : Z) : Z :=
  Z.lor (Z.lor (Z.lor (Z.shiftl b3 24) (Z.shiftl b2 16)) (Z.shiftl b1 8)) b0.

Definition f2 (x : Z) : Z := Z.lxor (Z.shiftl x 1) (Z.land (Z.shiftr x 7) 1 * WPOLY).
Definition f3 (x : Z) : Z := Z.lxor (f2 x) x.

Definition w0 (p : Z) : Z := bytes2word p 0 0 0.
Definition w1 (p : Z) : Z := bytes2word 0 p 0 0.
Definition w2 (p : Z) : Z := bytes2word 0 0 p 0.
Definition w3 (p : Z) : Z := bytes2word 0 0 0 p.

Definition u0 (p : Z) : Z := bytes2word (f2 p) p p (f3 p).
Definition u1 (p : Z) : Z := bytes2word (f3 p) (f2 p) p p.
Definition u2 (p : Z) : Z := bytes2word p (f3 p) (f2 p) p.
Definition u3 (p : Z) : Z := bytes2word p p (f3 p) (f2 p).

(** [t_use(f,n)], [t_use(f,l)] and [t_use(r,c)]. *)
Definition t_fn : list (list Z) := [map u0 sb_data; map u1 sb_data; map u2 sb_data; map u3 sb_data].
Definition t_fl : list (list Z) := [map w0 sb_data; map w1 sb_data; map w2 sb_data; map w3 sb_data].
Definition t_rc : list Z := map w0 rc_data.

(** ** aesopt.h *)

Definition bval (x n : Z) : Z := Z.land (Z.shiftr x (8 * n)) 0xff.

Definition table (tab : list (list Z)) (r i : Z) : Z :=
  rd (default [] (tab !! Z.to_nat r)) i.

Definition four_tables (tab : list (list Z)) (vf : Z -> Z) (rf : Z -> Z) : Z :=
  Z.lxor (Z.lxor (Z.lxor (table tab 0 (bval (vf 0) (rf 0))) (table tab 1 (bval (vf 1) (rf 1))))
    (table tab 2 (bval (vf 2) (rf 2)))) (table tab 3 (bval (vf 3) (rf 3))).

Definition rf1 (r : Z) : Z := r.
Definition rf2 (c r : Z) : Z := Z.land (8 + r - c) 3.

Definition ls_box (x c : Z) : Z := four_tables t_fl (fun _ => x) (rf2 c).

Definition word_in (x : list Z) (c : Z) : Z :=
  bytes2word (rd x (4 * c)) (rd x (4 * c + 1)) (rd x (4 * c + 2)) (rd x (4 * c + 3)).

Definition word_out (v : Z) : list Z := [bval v 0; bval v 1; bval v 2; bval v 3].

(** ** aes.h *)

Definition AES_BLOCK_SIZE : nat := 16.
Definition KS_LENGTH : nat := 44.

(** [inf_b] is the array [inf.b]. *)
Record aes_encrypt_ctx := mk_aes_ctx { ks : list Z; inf_b : list Z }.

(** ** aeskey.c *)

(** One [ke4(k,i)]: the schedule and the four words [ss]. *)
Definition ke4 (kss : list Z * list Z) (i : Z) : list Z * list Z :=
  let '(k, ss) := kss in
  let ss := wr ss 0 (Z.lxor (rd ss 0) (Z.lxor (ls_box (rd ss 3) 3) (rd t_rc i))) in
  let k := wr k (4 * i + 4) (rd ss 0) in
  let ss := wr ss 1 (Z.lxor (rd ss 1) (rd ss 0)) in
  let k := wr k (4 * i + 5) (rd ss 1) in
  let ss := wr ss 2 (Z.lxor (rd ss 2) (rd ss 1)) in
  let k := wr k (4 * i + 6) (rd ss 2) in
  let ss := wr ss 3 (Z.lxor (rd ss 3) (rd ss 2)) in
  let k := wr k (4 * i + 7) (rd ss 3) in
  (k, ss).

Definition aes_encrypt_key128 (key : list Z) (cx : aes_encrypt_ctx) : aes_encrypt_ctx :=
  let ss := [word_in key 0; word_in key 1; word_in key 2; word_in key 3] in
  let k := wr (wr (wr (wr (ks cx) 0 (rd ss 0)) 1 (rd ss 1)) 2 (rd ss 2)) 3 (rd ss 3) in
  let '(k, _) := foldl ke4 (k, ss) [0; 1; 2; 3; 4; 5; 6; 7; 8; 9] in
  {| ks := k; inf_b := [10 * 16; 0; 0; 0] |}.

(** ** aescrypt.c *)

Definition state_in (x : list Z) (k : list Z) : list Z :=
  [Z.lxor (word_in x 0) (rd k 0); Z.lxor (word_in x 1) (rd k 1);
   Z.lxor (word_in x 2) (rd k 2); Z.lxor (word_in x 3) (rd k 3)].

Definition state_out (x : list Z) : list Z :=
  word_out (rd x 0) ++ word_out (rd x 1) ++ word_out (rd x 2) ++ word_out (rd x 3).

(** The column that supplies row [r] of column [c]. *)
Definition fwd_var (x : list Z) (c r : Z) : Z :=
  if r =? 0 then (if c =? 0 then rd x 0 else if c =? 1 then rd x 1 else if c =? 2 then rd x 2 else rd x 3)
  else if r =? 1 then (if c =? 0 then rd x 1 else if c =? 1 then rd x 2 else if c =? 2 then rd x 3 else rd x 0)
  else if r =? 2 then (if c =? 0 then rd x 2 else if c =? 1 then rd x 3 else if c =? 2 then rd x 0 else rd x 1)
  else (if c =? 0 then rd x 3 else if c =? 1 then rd x 0 else if c =? 2 then rd x 1 else rd x 2).

Definition fwd_rnd (x k : list Z) (c : Z) : Z :=
  Z.lxor (rd k c) (four_tables t_fn (fwd_var x c) rf1).

Definition fwd_lrnd (x k : list Z) (c : Z) : Z :=
  Z.lxor (rd k c) (four_tables t_fl (fwd_var x c) rf1).

Definition round (rm : list Z -> list Z -> Z -> Z) (x k : list Z) : list Z :=
  [rm x k 0; rm x k 1; rm x k 2; rm x k 3].

(** [kp + n * N_COLS]. *)
Definition round_key (kp : list Z) (n : nat) : list Z := drop (n * 4) kp.

(** The cases of the [switch], which fall through; [None] is the return
    value -1, with the output buffer untouched. *)
Definition aes_encrypt (inp : list Z) (cx : aes_encrypt_ctx) : option (list Z) :=
  let b := rd (inf_b cx) 0 in
  if negb (b =? 10 * 16) && negb (b =? 12 * 16) && negb (b =? 14 * 16) then None
  else
    let kp := ks cx in
    let b0 := state_in inp kp in
    let two_rounds (b0 kp : list Z) : list Z * list Z :=
      (round fwd_rnd (round fwd_rnd b0 (round_key kp 1)) (round_key kp 2), round_key kp 2) in
    let '(b0, kp) := if b =? 14 * 16 then two_rounds b0 kp else (b0, kp) in
    let '(b0, kp) := if (b =? 14 * 16) || (b =? 12 * 16) then two_rounds b0 kp else (b0, kp) in
    let b0 := foldl (fun b0 n => round fwd_rnd b0 (round_key kp n)) b0
                [1; 2; 3; 4; 5; 6; 7; 8; 9]%nat in
    let b0 := round fwd_lrnd b0 (round_key kp 10) in
    Some (state_out b0).

(** ** FIPS 197 *)

Module Fips.
(** Multiplication by [x] and by a constant in GF(2^8). *)
Definition xtime (b : Z) : Z :=
  Z.lxor (Z.land (Z.shiftl b 1) 255) (if Z.testbit b 7 then 0x1b else 0).

Fixpoint gmul_loop (n : nat) (a b : Z) : Z :=
  match n with
  | O => 0
  | S n => Z.lxor (if Z.odd b then a else 0) (gmul_loop n (xtime a) (Z.shiftr b 1))
  end.
Definition gmul (a b : Z) : Z := gmul_loop 8 a b.

(** The inverse is the 254-th power; the affine map is bitwise. *)
Definition inverse (x : Z) : Z := Nat.iter 253 (gmul x) x.

Definition rotl8 (x n : Z) : Z := Z.land (Z.lor (Z.shiftl x n) (Z.shiftr x (8 - n))) 255.

Definition affine (x : Z) : Z :=
  Z.lxor (Z.lxor (Z.lxor (Z.lxor (Z.lxor x (rotl8 x 1)) (rotl8 x 2)) (rotl8 x 3)) (rotl8 x 4)) 0x63.

Definition sbox (x : Z) : Z := affine (inverse x).

(** A state is sixteen bytes, column by column. *)
Definition sub_bytes (sb : Z -> Z) (s : list Z) : list Z := map sb s.

Definition shift_rows (s : list Z) : list Z :=
  map (rd s) [0; 5; 10; 15; 4; 9; 14; 3; 8; 13; 2; 7; 12; 1; 6; 11].

Definition mix_column (a b c d : Z) : list Z :=
  [Z.lxor (Z.lxor (Z.lxor (gmul a 2) (gmul b 3)) c) d;
   Z.lxor (Z.lxor (Z.lxor a (gmul b 2)) (gmul c 3)) d;
   Z.lxor (Z.lxor (Z.lxor a b) (gmul c 2)) (gmul d 3);
   Z.lxor (Z.lxor (Z.lxor (gmul a 3) b) c) (gmul d 2)].

Fixpoint mix_columns (n : nat) (s : list Z) : list Z :=
  match n, s with
  | S n, a :: b :: c :: d :: s => mix_column a b c d ++ mix_columns n s
  | _, _ => []
  end.

Definition add_round_key (k s : list Z) : list Z := xor_bytes k s.

Definition full_round (sb : Z -> Z) (k s : list Z) : list Z :=
  add_round_key k (mix_columns 4 (shift_rows (sub_bytes sb s))).

Definition last_round (sb : Z -> Z) (k s : list Z) : list Z :=
  add_round_key k (shift_rows (sub_bytes sb s)).

(** The next round key from the previous one. *)
Definition next_key (sb : Z -> Z) (rcon : Z) (k : list Z) : list Z :=
  let t := [Z.lxor (sb (rd k 13)) rcon; sb (rd k 14); sb (rd k 15); sb (rd k 12)] in
  let c0 := xor_bytes (slice 0 4 k) t in
  let c1 := xor_bytes (slice 4 4 k) c0 in
  let c2 := xor_bytes (slice 8 4 k) c1 in
  let c3 := xor_bytes (slice 12 4 k) c2 in
  c0 ++ c1 ++ c2 ++ c3.

Fixpoint rcons (n : nat) (r : Z) : list Z :=
  match n with O => [] | S n => r :: rcons n (xtime r) end.

Fixpoint rounds (sb : Z -> Z) (rc : list Z) (k s : list Z) : list Z :=
  match rc with
  | [] => s
  | [r] => last_round sb (next_key sb r k) s
  | r :: rc => rounds sb rc (next_key sb r k) (full_round sb (next_key sb r k) s)
  end.

Definition cipher (key pt : list Z) : list Z :=
  rounds sbox (rcons 10 1) key (add_round_key key pt).
End Fips.

Example sb_data_is_sbox : sb_data = map Fips.sbox (seqZ 0 256).
Proof. vm_compute. reflexivity. Qed.

(** ** Words and bytes *)

Definition SB (x : Z) : Z := rd sb_data x.

Lemma bytes2word_le a b c d : bytes2word a b c d = le_word [a; b; c; d].
Proof.
  unfold bytes2word. cbn [le_word].
  rewrite Z.shiftl_0_l, Z.lor_0_r, !Z.shiftl_lor, !Z.shiftl_shiftl by lia.
  rewrite !(Z.lor_comm _ a), (Z.lor_comm _ (Z.shiftl b 8)).
  rewrite (Z.lor_comm (Z.shiftl d 24)). done.
Qed.

Lemma le_word_lxor a b :
  bytes a -> bytes b -> length a = length b ->
  Z.lxor (le_word a) (le_word b) = le_word (xor_bytes a b).
Proof.
  intros Ha. revert b. induction Ha as [|x a Hx Ha IH]; intros b Hb Hl.
  { by destruct b. }
  destruct Hb as [|y b Hy Hb]; [done|]. cbn [length] in Hl.
  unfold xor_bytes. cbn [le_word zip_with]. fold (xor_bytes a b).
  rewrite <- IH by (done || lia). bit_ext i.
  rewrite Z.lxor_spec, !Z.lor_spec. destruct (decide (i < 8)).
  - rewrite !Z.shiftl_spec_low by lia. by rewrite !orb_false_r, Z.lxor_spec.
  - rewrite !Z.shiftl_spec, Z.lxor_spec by lia.
    rewrite Z.lxor_spec, (in_range_testbit_high 8 x), (in_range_testbit_high 8 y)
      by (done || lia). by rewrite !orb_false_l.
Qed.

Lemma bytes2word_lxor a b c d a' b' c' d' :
  is_u8 a -> is_u8 b -> is_u8 c -> is_u8 d -> is_u8 a' -> is_u8 b' -> is_u8 c' -> is_u8 d' ->
  Z.lxor (bytes2word a b c d) (bytes2word a' b' c' d') =
  bytes2word (Z.lxor a a') (Z.lxor b b') (Z.lxor c c') (Z.lxor d d').
Proof.
  intros. rewrite !bytes2word_le, le_word_lxor; [done|..|done]; unfold bytes; auto.
Qed.

Lemma bval_bytes2word a b c d :
  is_u8 a -> is_u8 b -> is_u8 c -> is_u8 d ->
  let w := bytes2word a b c d in bval w 0 = a /\ bval w 1 = b /\ bval w 2 = c /\ bval w 3 = d.
Proof.
  intros Ha Hb Hc Hd. cbn zeta.
  assert (le_bytes 4 (bytes2word a b c d) = [a; b; c; d]) as H.
  { rewrite bytes2word_le. apply (le_bytes_le_word [a; b; c; d]). unfold bytes. auto. }
  cbn [le_bytes] in H. rewrite !Z.shiftr_shiftr in H by lia. unfold bval.
  change (8 * 0) with 0. rewrite Z.shiftr_0_r.
  injection H as H0 H1 H2 H3. by split_and!.
Qed.

Lemma rd_map {f : Z -> Z} l i : 0 <= i < Z.of_nat (length l) -> rd (map f l) i = f (rd l i).
Proof.
  intros Hi. unfold rd. change (map f l) with (f <$> l). rewrite list_lookup_fmap.
  destruct (lookup_lt_is_Some_2 l (Z.to_nat i)) as [x ->]; [lia|done].
Qed.

Lemma rd_map_sb {f : Z -> Z} i : is_u8 i -> rd (map f sb_data) i = f (SB i).
Proof. intros Hi. apply rd_map. exact Hi. Qed.

Lemma SB_u8 x : is_u8 (SB x).
Proof. apply rd_u8. decide_true. Qed.

Lemma SB_sbox x : is_u8 x -> SB x = Fips.sbox x.
Proof.
  intros Hx. unfold SB. rewrite sb_data_is_sbox. unfold in_range in Hx. change (2 ^ 8) with 256 in Hx.
  rewrite rd_map by (rewrite length_seqZ; lia). f_equal. unfold rd.
  rewrite lookup_seqZ_lt by lia. simpl. lia.
Qed.

(** The multiples by 2 and 3 of the tables. *)
Lemma f2_gmul x : is_u8 x -> f2 x = Fips.gmul x 2 /\ is_u8 (f2 x).
Proof.
  intros Hx. check_bytes x (fun x => (f2 x =? Fips.gmul x 2) && bool_decide (is_u8 (f2 x))).
  intros H. apply andb_true_iff in H as [? ?].
  split; [by apply Z.eqb_eq|by eapply bool_decide_eq_true_1].
Qed.

Lemma f3_gmul x : is_u8 x -> f3 x = Fips.gmul x 3 /\ is_u8 (f3 x).
Proof.
  intros Hx. check_bytes x (fun x => (f3 x =? Fips.gmul x 3) && bool_decide (is_u8 (f3 x))).
  intros H. apply andb_true_iff in H as [? ?].
  split; [by apply Z.eqb_eq|by eapply bool_decide_eq_true_1].
Qed.

(** The four words of a sixteen-byte block. *)
Definition words (s : list Z) : list Z := [word_in s 0; word_in s 1; word_in s 2; word_in s 3].

Lemma table_rows a b c d :
  (forall i, table [a; b; c; d] 0 i = rd a i) /\ (forall i, table [a; b; c; d] 1 i = rd b i) /\
  (forall i, table [a; b; c; d] 2 i = rd c i) /\ (forall i, table [a; b; c; d] 3 i = rd d i).
Proof. done. Qed.

(** Four look-ups are one column of the FIPS round. *)
Lemma four_tables_fn vf a b c d :
  is_u8 (bval (vf 0) 0) -> is_u8 (bval (vf 1) 1) -> is_u8 (bval (vf 2) 2) ->
  is_u8 (bval (vf 3) 3) ->
  SB (bval (vf 0) 0) = a -> SB (bval (vf 1) 1) = b -> SB (bval (vf 2) 2) = c ->
  SB (bval (vf 3) 3) = d ->
  four_tables t_fn vf rf1 = le_word (Fips.mix_column a b c d).
Proof.
  intros H0 H1 H2 H3 <- <- <- <-. unfold four_tables, rf1, t_fn.
  destruct (table_rows (map u0 sb_data) (map u1 sb_data) (map u2 sb_data) (map u3 sb_data)) as (E0 & E1 & E2 & E3).
  rewrite E0, E1, E2, E3, !rd_map_sb by done.
  set (a := SB (bval (vf 0) 0)). set (b := SB (bval (vf 1) 1)).
  set (c := SB (bval (vf 2) 2)). set (d := SB (bval (vf 3) 3)).
  assert (is_u8 a /\ is_u8 b /\ is_u8 c /\ is_u8 d) as (Ha & Hb & Hc & Hd)
    by (split_and!; apply SB_u8).
  destruct (f2_gmul a Ha) as [Ea2 ?], (f2_gmul b Hb) as [Eb2 ?], (f2_gmul c Hc) as [Ec2 ?],
    (f2_gmul d Hd) as [Ed2 ?], (f3_gmul a Ha) as [Ea3 ?], (f3_gmul b Hb) as [Eb3 ?],
    (f3_gmul c Hc) as [Ec3 ?], (f3_gmul d Hd) as [Ed3 ?].
  unfold u0, u1, u2, u3. rewrite !bytes2word_lxor by auto with words.
  rewrite bytes2word_le. unfold Fips.mix_column.
  by rewrite <- Ea2, <- Eb2, <- Ec2, <- Ed2, <- Ea3, <- Eb3, <- Ec3, <- Ed3.
Qed.

Lemma four_tables_fl vf rf a b c d :
  is_u8 (bval (vf 0) (rf 0)) -> is_u8 (bval (vf 1) (rf 1)) -> is_u8 (bval (vf 2) (rf 2)) ->
  is_u8 (bval (vf 3) (rf 3)) ->
  SB (bval (vf 0) (rf 0)) = a -> SB (bval (vf 1) (rf 1)) = b -> SB (bval (vf 2) (rf 2)) = c ->
  SB (bval (vf 3) (rf 3)) = d ->
  four_tables t_fl vf rf = le_word [a; b; c; d].
Proof.
  intros H0 H1 H2 H3 <- <- <- <-. unfold four_tables, t_fl.
  destruct (table_rows (map w0 sb_data) (map w1 sb_data) (map w2 sb_data) (map w3 sb_data)) as (E0 & E1 & E2 & E3).
  rewrite E0, E1, E2, E3, !rd_map_sb by done.
  assert (is_u8 0) by done. pose proof SB_u8.
  unfold w0, w1, w2, w3. rewrite !bytes2word_lxor by auto with words.
  rewrite bytes2word_le, !Z.lxor_0_r, !Z.lxor_0_l. done.
Qed.

(** ** The rounds *)

Definition block (s : list Z) : Prop := bytes s /\ length s = 16%nat.

(** [explode s] names the sixteen bytes of a block. *)
Ltac explode s :=
  let Hb := fresh "Hb" in let Hl := fresh "Hl" in
  match goal with H : block s |- _ => destruct H as [Hb Hl] end;
  do 16 (destruct s as [|? s]; [discriminate Hl|]);
  destruct s; [|discriminate Hl]; clear Hl;
  unfold bytes in Hb; rewrite !List.Forall_cons_iff in Hb;
  destruct Hb as (? & ? & ? & ? & ? & ? & ? & ? & ? & ? & ? & ? & ? & ? & ? & ? & _).

Lemma mix_column_bytes a b c d :
  is_u8 a -> is_u8 b -> is_u8 c -> is_u8 d -> bytes (Fips.mix_column a b c d).
Proof.
  intros Ha Hb Hc Hd. unfold Fips.mix_column.
  destruct (f2_gmul a Ha) as [<- ?], (f2_gmul b Hb) as [<- ?], (f2_gmul c Hc) as [<- ?],
    (f2_gmul d Hd) as [<- ?], (f3_gmul a Ha) as [<- ?], (f3_gmul b Hb) as [<- ?],
    (f3_gmul c Hc) as [<- ?], (f3_gmul d Hd) as [<- ?].
  unfold bytes. rewrite !List.Forall_cons_iff. split_and!; [..|constructor]; auto 6 with words.
Qed.

(** A column of the round, the four source columns being given. *)
Lemma fwd_col vf k0 k1 k2 k3 a0 a1 a2 a3 b0 b1 b2 b3 c0 c1 c2 c3 d0 d1 d2 d3 :
  vf 0 = bytes2word a0 a1 a2 a3 -> vf 1 = bytes2word b0 b1 b2 b3 ->
  vf 2 = bytes2word c0 c1 c2 c3 -> vf 3 = bytes2word d0 d1 d2 d3 ->
  bytes [k0; k1; k2; k3] -> bytes [a0; a1; a2; a3] -> bytes [b0; b1; b2; b3] ->
  bytes [c0; c1; c2; c3] -> bytes [d0; d1; d2; d3] ->
  let key := bytes2word k0 k1 k2 k3 in
  Z.lxor key (four_tables t_fn vf rf1) =
    le_word (xor_bytes [k0; k1; k2; k3] (Fips.mix_column (SB a0) (SB b1) (SB c2) (SB d3))) /\
  Z.lxor key (four_tables t_fl vf rf1) =
    le_word (xor_bytes [k0; k1; k2; k3] [SB a0; SB b1; SB c2; SB d3]).
Proof.
  intros E0 E1 E2 E3 Hk Ha Hb Hc Hd. cbn zeta. pose proof SB_u8 as Hs.
  unfold bytes in Ha, Hb, Hc, Hd. rewrite !List.Forall_cons_iff in Ha, Hb, Hc, Hd.
  destruct Ha as (? & ? & ? & ? & _), Hb as (? & ? & ? & ? & _),
    Hc as (? & ? & ? & ? & _), Hd as (? & ? & ? & ? & _).
  destruct (bval_bytes2word a0 a1 a2 a3) as (Ba & _); [done..|].
  destruct (bval_bytes2word b0 b1 b2 b3) as (_ & Bb & _); [done..|].
  destruct (bval_bytes2word c0 c1 c2 c3) as (_ & _ & Bc & _); [done..|].
  destruct (bval_bytes2word d0 d1 d2 d3) as (_ & _ & _ & Bd); [done..|].
  rewrite bytes2word_le.
  rewrite (four_tables_fn vf (SB a0) (SB b1) (SB c2) (SB d3));
    [|by rewrite ?E0, ?E1, ?E2, ?E3, ?Ba, ?Bb, ?Bc, ?Bd..].
  rewrite (four_tables_fl vf rf1 (SB a0) (SB b1) (SB c2) (SB d3)); unfold rf1;
    [|by rewrite ?E0, ?E1, ?E2, ?E3, ?Ba, ?Bb, ?Bc, ?Bd..].
  rewrite !le_word_lxor; auto using mix_column_bytes.
  unfold bytes. rewrite !List.Forall_cons_iff. auto 6.
Qed.

Lemma word_in_le s c :
  0 <= c -> (Z.to_nat (4 * c) + 4 <= length s)%nat ->
  word_in s c = le_word (slice (Z.to_nat (4 * c)) 4 s).
Proof.
  intros Hc Hl. unfold word_in. rewrite bytes2word_le. f_equal. unfold slice, rd.
  apply list_eq. intros i. destruct (decide (i < 4)%nat).
  - rewrite lookup_take_lt, lookup_drop by done.
    destruct i as [|[|[|[|i]]]]; try lia; cbn [lookup list_lookup];
      match goal with |- context [?s !! ?j] =>
        destruct (lookup_lt_is_Some_2 s j) as [x Hx]; [lia|] end;
      rewrite Hx; simpl; symmetry; rewrite <- Hx; f_equal; lia.
  - rewrite !lookup_ge_None_2; [done|rewrite length_take; lia|simpl; lia].
Qed.

Ltac byte_lists :=
  unfold bytes; rewrite !List.Forall_cons_iff; split_and!;
  first [assumption | apply SB_u8 | apply List.Forall_nil | auto using SB_u8 with words].

Ltac column proj :=
  etransitivity;
  [ eapply proj; eapply fwd_col; [reflexivity..|byte_lists|byte_lists|byte_lists|byte_lists|byte_lists]
  | symmetry; etransitivity; [apply word_in_le; [done|cbn; lia]|reflexivity] ].

Lemma fwd_round_spec s k :
  block s -> block k ->
  round fwd_rnd (words s) (words k) = words (Fips.full_round SB k s) /\
  round fwd_lrnd (words s) (words k) = words (Fips.last_round SB k s).
Proof.
  intros Hs Hk. explode s. explode k. unfold round, fwd_rnd, fwd_lrnd. split.
  - unfold words at 9.
    apply f_equal2; [column proj1|]. apply f_equal2; [column proj1|].
    apply f_equal2; [column proj1|]. apply f_equal2; [column proj1|done].
  - unfold words at 9.
    apply f_equal2; [column proj2|]. apply f_equal2; [column proj2|].
    apply f_equal2; [column proj2|]. apply f_equal2; [column proj2|done].
Qed.

Lemma shift_rows_block s : block s -> block (Fips.shift_rows s).
Proof.
  intros Hs. explode s. split; [|done]. unfold Fips.shift_rows. cbn [map]. byte_lists.
Qed.

Lemma sub_bytes_block s : block s -> block (Fips.sub_bytes SB s).
Proof.
  intros [Hb Hl]. unfold Fips.sub_bytes. split; [|by rewrite length_map].
  apply List.Forall_map, Forall_forall. intros. apply SB_u8.
Qed.

Lemma xor_block a b : block a -> block b -> block (xor_bytes a b).
Proof.
  intros [Ha Hla] [Hb Hlb]. split; [auto with words|]. rewrite length_xor_bytes. lia.
Qed.

Lemma mix_columns_block s : block s -> block (Fips.mix_columns 4 s).
Proof.
  intros Hs. explode s. split; [|done]. cbn [Fips.mix_columns].
  repeat apply bytes_app; auto using mix_column_bytes. constructor.
Qed.

Lemma full_round_block k s : block k -> block s -> block (Fips.full_round SB k s).
Proof. intros. apply xor_block; auto using mix_columns_block, shift_rows_block, sub_bytes_block. Qed.

Lemma last_round_block k s : block k -> block s -> block (Fips.last_round SB k s).
Proof. intros. apply xor_block; auto using shift_rows_block, sub_bytes_block. Qed.

(** ** The key schedule *)

Lemma next_key_block r k : is_u8 r -> block k -> block (Fips.next_key SB r k).
Proof.
  intros Hr Hk. explode k. pose proof SB_u8. unfold Fips.next_key, slice, xor_bytes.
  cbn [rd lookup list_lookup]. split; [|done]. cbn.
  unfold bytes; rewrite !List.Forall_cons_iff; split_and!; auto 8 with words.
Qed.

Lemma ls_box_3 a b c d :
  is_u8 a -> is_u8 b -> is_u8 c -> is_u8 d ->
  ls_box (bytes2word a b c d) 3 = le_word [SB b; SB c; SB d; SB a].
Proof.
  intros Ha Hb Hc Hd. unfold ls_box.
  destruct (bval_bytes2word a b c d) as (Ba & Bb & Bc & Bd); [done..|].
  assert (rf2 3 0 = 1 /\ rf2 3 1 = 2 /\ rf2 3 2 = 3 /\ rf2 3 3 = 0) as (E0 & E1 & E2 & E3) by done.
  apply four_tables_fl; rewrite ?E0, ?E1, ?E2, ?E3, ?Ba, ?Bb, ?Bc, ?Bd; done.
Qed.

(** The words a [ke4] step computes from the words of the previous key. *)
Definition next_words (r : Z) (ss : list Z) : list Z :=
  let s0 := Z.lxor (rd ss 0) (Z.lxor (ls_box (rd ss 3) 3) r) in
  let s1 := Z.lxor (rd ss 1) s0 in
  let s2 := Z.lxor (rd ss 2) s1 in
  [s0; s1; s2; Z.lxor (rd ss 3) s2].

Lemma ls_box_rcon a b c d r :
  is_u8 a -> is_u8 b -> is_u8 c -> is_u8 d -> is_u8 r ->
  Z.lxor (ls_box (le_word [a; b; c; d]) 3) (w0 r) = le_word [Z.lxor (SB b) r; SB c; SB d; SB a].
Proof.
  intros. pose proof SB_u8. rewrite <- bytes2word_le, ls_box_3 by done.
  unfold w0. rewrite bytes2word_le. assert (is_u8 0) by done.
  rewrite le_word_lxor by first [done | byte_lists].
  unfold xor_bytes. cbn [zip_with]. by rewrite !Z.lxor_0_r.
Qed.

Lemma words_slices s :
  length s = 16%nat ->
  words s = [le_word (slice 0 4 s); le_word (slice 4 4 s); le_word (slice 8 4 s);
             le_word (slice 12 4 s)].
Proof. intros Hl. unfold words. rewrite !word_in_le by (done || (rewrite Hl; cbn; lia)). done. Qed.

Lemma next_words_spec r k :
  is_u8 r -> block k -> next_words (w0 r) (words k) = words (Fips.next_key SB r k).
Proof.
  intros Hr Hk. pose proof SB_u8 as Hsb.
  destruct (next_key_block r k Hr Hk) as [_ Hnl].
  rewrite (words_slices (Fips.next_key SB r k)), (words_slices k) by (done || apply Hk).
  explode k.
  match goal with |- next_words _ ?l = _ => let l' := eval cbv [slice take drop] in l in
    change l with l' end.
  unfold next_words.
  repeat match goal with |- context [rd (?x :: ?l) ?i] =>
    let v := eval cbv [rd lookup list_lookup default option_rect Z.to_nat Pos.to_nat Pos.iter_op Init.Nat.add from_option id] in (rd (x :: l) i) in
    change (rd (x :: l) i) with v end.
  rewrite ls_box_rcon by assumption.
  rewrite !le_word_lxor by first [reflexivity | repeat apply bytes_xor; byte_lists].
  reflexivity.
Qed.

Lemma wr_app_r pre l j v :
  (length pre <= Z.to_nat j)%nat ->
  wr (pre ++ l) j v = pre ++ wr l (j - Z.of_nat (length pre)) v.
Proof.
  intros Hj. unfold wr.
  replace (Z.to_nat j) with (length pre + Z.to_nat (j - Z.of_nat (length pre)))%nat by lia.
  by rewrite insert_app_r.
Qed.

Lemma ke4_spec pre old post ss i :
  0 <= i -> Z.of_nat (length pre) = 4 * i + 4 -> length old = 4%nat -> length ss = 4%nat ->
  ke4 (pre ++ old ++ post, ss) i =
  (pre ++ next_words (rd t_rc i) ss ++ post, next_words (rd t_rc i) ss).
Proof.
  intros Hi Hpre Hold Hss.
  destruct old as [|p [|q [|r [|t [|? ?]]]]]; try discriminate Hold.
  destruct ss as [|a [|b [|c [|d [|? ?]]]]]; try discriminate Hss.
  unfold ke4. rewrite !wr_app_r by lia. rewrite Hpre.
  replace (4 * i + 4 - (4 * i + 4)) with 0 by lia.
  replace (4 * i + 5 - (4 * i + 4)) with 1 by lia.
  replace (4 * i + 6 - (4 * i + 4)) with 2 by lia.
  replace (4 * i + 7 - (4 * i + 4)) with 3 by lia.
  reflexivity.
Qed.

(** The round keys [k] is followed by. *)
Fixpoint round_keys (rc : list Z) (k : list Z) : list (list Z) :=
  match rc with
  | [] => []
  | r :: rc => Fips.next_key SB r k :: round_keys rc (Fips.next_key SB r k)
  end.

Lemma length_words s : length (words s) = 4%nat.
Proof. done. Qed.

Lemma key_schedule_spec n : forall pre rest k i,
  0 <= i -> Z.of_nat (length pre) = 4 * i + 4 -> (length rest = 4 * n)%nat -> block k ->
  (forall j, i <= j < i + Z.of_nat n -> is_u8 (rd rc_data j)) -> i + Z.of_nat n <= 10 ->
  (foldl ke4 (pre ++ rest, words k) (seqZ i (Z.of_nat n))).1 =
  pre ++ concat (map words (round_keys (map (rd rc_data) (seqZ i (Z.of_nat n))) k)).
Proof.
  induction n as [|n IH]; intros pre rest k i Hi Hpre Hrest Hk Hrc Hmax.
  { destruct rest; [|discriminate Hrest]. done. }
  rewrite seqZ_cons by lia. cbn [foldl map round_keys concat].
  replace (Z.pred (Z.of_nat (S n))) with (Z.of_nat n) by lia.
  assert (rd t_rc i = w0 (rd rc_data i)) as Ht.
  { apply rd_map. change (length rc_data) with 10%nat. lia. }
  assert (is_u8 (rd rc_data i)) as Hri by (apply Hrc; lia).
  rewrite <- (take_drop 4 rest), ke4_spec, Ht, next_words_spec;
    [|done|done|done|done|rewrite length_take; lia|done].
  rewrite app_assoc, IH.
  - by rewrite <- app_assoc.
  - lia.
  - rewrite length_app, length_words. lia.
  - rewrite length_drop. lia.
  - by apply next_key_block.
  - intros. apply Hrc. lia.
  - lia.
Qed.

(** The expanded key: the words of the key and of its ten round keys. *)
Lemma key_schedule key cx :
  block key -> length (ks cx) = KS_LENGTH ->
  ks (aes_encrypt_key128 key cx) =
    words key ++ concat (map words (round_keys (Fips.rcons 10 1) key)) /\
  inf_b (aes_encrypt_key128 key cx) = [160; 0; 0; 0].
Proof.
  intros Hk Hl. unfold aes_encrypt_key128.
  change [0; 1; 2; 3; 4; 5; 6; 7; 8; 9] with (seqZ 0 (Z.of_nat 10)).
  change [word_in key 0; word_in key 1; word_in key 2; word_in key 3] with (words key).
  assert (wr (wr (wr (wr (ks cx) 0 (rd (words key) 0)) 1 (rd (words key) 1)) 2
    (rd (words key) 2)) 3 (rd (words key) 3) = words key ++ drop 4 (ks cx)) as ->.
  { destruct (ks cx) as [|? [|? [|? [|? l]]]]; try discriminate Hl. done. }
  pose proof (key_schedule_spec 10 (words key) (drop 4 (ks cx)) key 0) as H.
  destruct (foldl ke4 _ _) as [k ss]. cbn [fst] in H. cbn [ks inf_b]. split; [|done].
  rewrite H; [done|done|done|rewrite length_drop, Hl; done|done| |done].
  intros j Hj. apply rd_u8. decide_true.
Qed.

(** ** Encryption *)

Lemma state_in_spec inp key post :
  block inp -> block key -> state_in inp (words key ++ post) = words (xor_bytes key inp).
Proof.
  intros Hi Hk. pose proof (xor_block key inp Hk Hi) as [_ Hl].
  rewrite (words_slices (xor_bytes key inp)) by done.
  assert (words inp = words inp) as Hw by done. rewrite (words_slices inp) in Hw at 2 by apply Hi.
  pose proof (words_slices key (proj2 Hk)) as Hw'.
  unfold state_in. unfold words in Hw. injection Hw as E0 E1 E2 E3. rewrite E0, E1, E2, E3, Hw'.
  clear E0 E1 E2 E3 Hw'. rewrite !(Z.lxor_comm (le_word _)). explode inp. explode key.
  repeat match goal with |- context [rd ?l ?i] =>
    let v := eval cbv [app rd lookup list_lookup default option_rect Z.to_nat Pos.to_nat
      Pos.iter_op Init.Nat.add from_option id] in (rd l i) in change (rd l i) with v end.
  cbv [slice take drop].
  rewrite !le_word_lxor by first [reflexivity | byte_lists]. reflexivity.
Qed.

Lemma state_out_spec s : block s -> state_out (words s) = s.
Proof.
  intros Hs. explode s. unfold state_out, word_out, words.
  change (rd [?a; ?b; ?c; ?d] 0) with a.
  repeat match goal with |- context [word_in ?l ?i] =>
    let v := eval cbv [word_in rd lookup list_lookup default option_rect Z.to_nat Pos.to_nat
      Pos.iter_op Init.Nat.add from_option id Z.mul Z.add Pos.mul Pos.add Pos.succ] in (word_in l i) in
    change (word_in l i) with v end.
  repeat match goal with |- context [rd (?x :: ?l) ?i] =>
    let v := eval cbv [rd lookup list_lookup default option_rect Z.to_nat Pos.to_nat
      Pos.iter_op Init.Nat.add from_option id] in (rd (x :: l) i) in
    change (rd (x :: l) i) with v end.
  repeat match goal with |- context [bval (bytes2word ?a ?b ?c ?d) 0] =>
    let H0 := fresh in let H1 := fresh in let H2 := fresh in let H3 := fresh in
    destruct (bval_bytes2word a b c d) as (H0 & H1 & H2 & H3); [assumption..|];
    rewrite H0, H1, H2, H3; clear H0 H1 H2 H3 end.
  reflexivity.
Qed.

Lemma round_ext rm x k post :
  (rm = fwd_rnd \/ rm = fwd_lrnd) -> round rm x (words k ++ post) = round rm x (words k).
Proof. by intros [-> | ->]. Qed.

(** The rounds of the unrolled code, [ks] being the round keys still to use. *)
Lemma rounds_spec rc : forall key s post pre n,
  rc <> [] -> bytes rc -> block key -> block s -> length pre = (4 * n)%nat ->
  let kp := pre ++ concat (map words (round_keys rc key)) ++ post in
  let m := (length rc - 1)%nat in
  round fwd_lrnd
    (foldl (fun b0 j => round fwd_rnd b0 (round_key kp j)) (words s) (seq n m))
    (round_key kp (n + m)) = words (Fips.rounds SB rc key s) /\
  block (Fips.rounds SB rc key s).
Proof.
  induction rc as [|r rc IH]; intros key s post pre n Hne Hrc Hk Hs Hpre; [done|].
  apply List.Forall_cons_iff in Hrc as [Hr Hrc]. cbn [round_keys map concat length].
  pose proof (next_key_block r key Hr Hk) as Hk1. set (k1 := Fips.next_key SB r key) in *.
  cbn zeta. assert (forall post, round_key (pre ++ post) n = post) as Hdrop.
  { intros q. unfold round_key. apply drop_app_length'. lia. }
  destruct rc as [|r' rc].
  - cbn [length seq foldl Fips.rounds round_keys map concat]. fold k1.
    rewrite Nat.sub_diag, Nat.add_0_r, <- app_assoc, Hdrop, round_ext by auto.
    split; [by apply fwd_round_spec|by apply last_round_block].
  - cbn [length]. rewrite Nat.sub_succ, Nat.sub_0_r. cbn [seq foldl].
    rewrite <- app_assoc, Hdrop, round_ext by auto.
    rewrite (proj1 (fwd_round_spec s k1 Hs Hk1)).
    destruct (IH k1 (Fips.full_round SB k1 s) post (pre ++ words k1) (S n)) as [IH1 IH2];
      [done|done|done|by apply full_round_block|rewrite length_app, length_words; lia|].
    cbn zeta in IH1. rewrite <- app_assoc in IH1. cbn [length] in IH1.
    rewrite Nat.sub_succ, Nat.sub_0_r in IH1.
    replace (n + S (length rc))%nat with (S n + length rc)%nat by lia. done.
Qed.

Lemma rounds_sbox rc : forall key s,
  bytes rc -> block key -> block s -> Fips.rounds Fips.sbox rc key s = Fips.rounds SB rc key s.
Proof.
  assert (forall s, bytes s -> map Fips.sbox s = map SB s) as Hmap.
  { intros s Hs. apply map_ext_Forall. eapply List.Forall_impl; [|exact Hs].
    intros x Hx. symmetry. by apply SB_sbox. }
  assert (forall r k, block k -> Fips.next_key Fips.sbox r k = Fips.next_key SB r k) as Hnext.
  { intros r k [Hk _]. unfold Fips.next_key.
    by rewrite <- !SB_sbox by (by apply rd_u8). }
  induction rc as [|r rc IH]; intros key s Hrc Hk Hs; [done|].
  apply List.Forall_cons_iff in Hrc as [Hr Hrc]. cbn [Fips.rounds].
  rewrite Hnext by done. pose proof (next_key_block r key Hr Hk) as Hk1.
  unfold Fips.full_round, Fips.last_round, Fips.sub_bytes. rewrite Hmap by apply Hs.
  destruct rc as [|r' rc]; [done|]. apply IH; [done|done|by apply full_round_block].
Qed.

Lemma key_encrypts key cx pt :
  block key -> block pt -> length (ks cx) = KS_LENGTH ->
  aes_encrypt pt (aes_encrypt_key128 key cx) = Some (Fips.cipher key pt) /\
  block (Fips.cipher key pt).
Proof.
  intros Hk Hp Hl. destruct (key_schedule key cx Hk Hl) as [Eks Einf].
  unfold aes_encrypt. rewrite Einf, Eks.
  change (rd [160; 0; 0; 0] 0) with (10 * 16). rewrite Z.eqb_refl.
  change (10 * 16 =? 14 * 16) with false. change (10 * 16 =? 12 * 16) with false. cbn [negb andb orb].
  pose proof (xor_block key pt Hk Hp) as Hx.
  assert (bytes (Fips.rcons 10 1)) as Hrc by decide_true.
  destruct (rounds_spec (Fips.rcons 10 1) key (xor_bytes key pt) [] (words key) 1)
    as [Hr Hb]; [done|done|done|done|done|].
  rewrite app_nil_r in Hr. change (length (Fips.rcons 10 1) - 1)%nat with 9%nat in Hr.
  rewrite state_in_spec by done. change [1; 2; 3; 4; 5; 6; 7; 8; 9]%nat with (seq 1 9).
  cbn zeta in Hr. change (1 + 9)%nat with 10%nat in Hr. cbn zeta iota beta. rewrite Hr.
  rewrite state_out_spec by done. unfold Fips.cipher, Fips.add_round_key.
  rewrite rounds_sbox by assumption. split; [reflexivity|exact Hb].
Qed.

(** C14. With a schedule made from a key, [aes_encrypt] is the cipher of FIPS 197. *)
Theorem aes_encrypt_is_fips197 key cx pt :
  block key -> block pt -> length (ks cx) = KS_LENGTH ->
  aes_encrypt pt (aes_encrypt_key128 key cx) = Some (Fips.cipher key pt) /\
  block (Fips.cipher key pt).
Proof. apply key_encrypts. Qed.

(** FIPS 197, appendix C.1. *)
Example fips197_vector :
  aes_encrypt [0x00; 0x11; 0x22; 0x33; 0x44; 0x55; 0x66; 0x77; 0x88; 0x99; 0xaa; 0xbb; 0xcc; 0xdd;
               0xee; 0xff] (aes_encrypt_key128 (seqZ 0 16) (mk_aes_ctx (replicate 44 0) [])) =
  Some [0x69; 0xc4; 0xe0; 0xd8; 0x6a; 0x7b; 0x04; 0x30; 0xd8; 0xcd; 0xb7; 0x80; 0x70; 0xb4;
        0xc5; 0x5a].
Proof. vm_compute. reflexivity. Qed.

Lemma aes_encrypt_is_fips197_witness :
  let key := map Z.of_nat (seq 0 16) in
  let pt := map (fun i => 17 * Z.of_nat i) (seq 0 16) in
  let cx := mk_aes_ctx (replicate 44 0) [0; 0; 0; 0] in
  aes_encrypt pt (aes_encrypt_key128 key cx) = Some (Fips.cipher key pt) /\
  block (Fips.cipher key pt).
Proof. apply aes_encrypt_is_fips197; decide_true. Defined.
