(* ===== verification/AesDecrypt.v ===== *)
(** * AES-128 decryption

    The decrypting half of GEC-block/src/aestab.c, aeskey.c and aescrypt.c, in
    the configuration of Aes: four tables per round, full unrolling, and the
    decryption schedule in reverse order (AES_REV_DKS), computed by the
    unrolled [kdf4], [kd4] and [kdl4].  It is proved to be the inverse cipher of
    FIPS 197 and to undo [aes_encrypt]. *)

From Stdlib Require Import Btauto.
From S2P Require Import Prelude Aes.

Local Open Scope Z_scope.

(** ** aestab.c *)

Definition isb_data : list Z := [
  0x52; 0x09; 0x6a; 0xd5; 0x30; 0x36; 0xa5; 0x38; 0xbf; 0x40; 0xa3; 0x9e;
  0x81; 0xf3; 0xd7; 0xfb; 0x7c; 0xe3; 0x39; 0x82; 0x9b; 0x2f; 0xff; 0x87;
  0x34; 0x8e; 0x43; 0x44; 0xc4; 0xde; 0xe9; 0xcb; 0x54; 0x7b; 0x94; 0x32;
  0xa6; 0xc2; 0x23; 0x3d; 0xee; 0x4c; 0x95; 0x0b; 0x42; 0xfa; 0xc3; 0x4e;
  0x08; 0x2e; 0xa1; 0x66; 0x28; 0xd9; 0x24; 0xb2; 0x76; 0x5b; 0xa2; 0x49;
  0x6d; 0x8b; 0xd1; 0x25; 0x72; 0xf8; 0xf6; 0x64; 0x86; 0x68; 0x98; 0x16;
  0xd4; 0xa4; 0x5c; 0xcc; 0x5d; 0x65; 0xb6; 0x92; 0x6c; 0x70; 0x48; 0x50;
  0xfd; 0xed; 0xb9; 0xda; 0x5e; 0x15; 0x46; 0x57; 0xa7; 0x8d; 0x9d; 0x84;
  0x90; 0xd8; 0xab; 0x00; 0x8c; 0xbc; 0xd3; 0x0a; 0xf7; 0xe4; 0x58; 0x05;
  0xb8; 0xb3; 0x45; 0x06; 0xd0; 0x2c; 0x1e; 0x8f; 0xca; 0x3f; 0x0f; 0x02;
  0xc1; 0xaf; 0xbd; 0x03; 0x01; 0x13; 0x8a; 0x6b; 0x3a; 0x91; 0x11; 0x41;
  0x4f; 0x67; 0xdc; 0xea; 0x97; 0xf2; 0xcf; 0xce; 0xf0; 0xb4; 0xe6; 0x73;
  0x96; 0xac; 0x74; 0x22; 0xe7; 0xad; 0x35; 0x85; 0xe2; 0xf9; 0x37; 0xe8;
  0x1c; 0x75; 0xdf; 0x6e; 0x47; 0xf1; 0x1a; 0x71; 0x1d; 0x29; 0xc5; 0x89;
  0x6f; 0xb7; 0x62; 0x0e; 0xaa; 0x18; 0xbe; 0x1b; 0xfc; 0x56; 0x3e; 0x4b;
  0xc6; 0xd2; 0x79; 0x20; 0x9a; 0xdb; 0xc0; 0xfe; 0x78; 0xcd; 0x5a; 0xf4;
  0x1f; 0xdd; 0xa8; 0x33; 0x88; 0x07; 0xc7; 0x31; 0xb1; 0x12; 0x10; 0x59;
  0x27; 0x80; 0xec; 0x5f; 0x60; 0x51; 0x7f; 0xa9; 0x19; 0xb5; 0x4a; 0x0d;
  0x2d; 0xe5; 0x7a; 0x9f; 0x93; 0xc9; 0x9c; 0xef; 0xa0; 0xe0; 0x3b; 0x4d;
  0xae; 0x2a; 0xf5; 0xb0; 0xc8; 0xeb; 0xbb; 0x3c; 0x83; 0x53; 0x99; 0x61;
  0x17; 0x2b; 0x04; 0x7e; 0xba; 0x77; 0xd6; 0x26; 0xe1; 0x69; 0x14; 0x63;
  0x55; 0x21; 0x0c; 0x7d].

Definition mm_data : list Z := [
  0x00; 0x01; 0x02; 0x03; 0x04; 0x05; 0x06; 0x07; 0x08; 0x09; 0x0a; 0x0b;
  0x0c; 0x0d; 0x0e; 0x0f; 0x10; 0x11; 0x12; 0x13; 0x14; 0x15; 0x16; 0x17;
  0x18; 0x19; 0x1a; 0x1b; 0x1c; 0x1d; 0x1e; 0x1f; 0x20; 0x21; 0x22; 0x23;
  0x24; 0x25; 0x26; 0x27; 0x28; 0x29; 0x2a; 0x2b; 0x2c; 0x2d; 0x2e; 0x2f;
  0x30; 0x31; 0x32; 0x33; 0x34; 0x35; 0x36; 0x37; 0x38; 0x39; 0x3a; 0x3b;
  0x3c; 0x3d; 0x3e; 0x3f; 0x40; 0x41; 0x42; 0x43; 0x44; 0x45; 0x46; 0x47;
  0x48; 0x49; 0x4a; 0x4b; 0x4c; 0x4d; 0x4e; 0x4f; 0x50; 0x51; 0x52; 0x53;
  0x54; 0x55; 0x56; 0x57; 0x58; 0x59; 0x5a; 0x5b; 0x5c; 0x5d; 0x5e; 0x5f;
  0x60; 0x61; 0x62; 0x63; 0x64; 0x65; 0x66; 0x67; 0x68; 0x69; 0x6a; 0x6b;
  0x6c; 0x6d; 0x6e; 0x6f; 0x70; 0x71; 0x72; 0x73; 0x74; 0x75; 0x76; 0x77;
  0x78; 0x79; 0x7a; 0x7b; 0x7c; 0x7d; 0x7e; 0x7f; 0x80; 0x81; 0x82; 0x83;
  0x84; 0x85; 0x86; 0x87; 0x88; 0x89; 0x8a; 0x8b; 0x8c; 0x8d; 0x8e; 0x8f;
  0x90; 0x91; 0x92; 0x93; 0x94; 0x95; 0x96; 0x97; 0x98; 0x99; 0x9a; 0x9b;
  0x9c; 0x9d; 0x9e; 0x9f; 0xa0; 0xa1; 0xa2; 0xa3; 0xa4; 0xa5; 0xa6; 0xa7;
  0xa8; 0xa9; 0xaa; 0xab; 0xac; 0xad; 0xae; 0xaf; 0xb0; 0xb1; 0xb2; 0xb3;
  0xb4; 0xb5; 0xb6; 0xb7; 0xb8; 0xb9; 0xba; 0xbb; 0xbc; 0xbd; 0xbe; 0xbf;
  0xc0; 0xc1; 0xc2; 0xc3; 0xc4; 0xc5; 0xc6; 0xc7; 0xc8; 0xc9; 0xca; 0xcb;
  0xcc; 0xcd; 0xce; 0xcf; 0xd0; 0xd1; 0xd2; 0xd3; 0xd4; 0xd5; 0xd6; 0xd7;
  0xd8; 0xd9; 0xda; 0xdb; 0xdc; 0xdd; 0xde; 0xdf; 0xe0; 0xe1; 0xe2; 0xe3;
  0xe4; 0xe5; 0xe6; 0xe7; 0xe8; 0xe9; 0xea; 0xeb; 0xec; 0xed; 0xee; 0xef;
  0xf0; 0xf1; 0xf2; 0xf3; 0xf4; 0xf5; 0xf6; 0xf7; 0xf8; 0xf9; 0xfa; 0xfb;
  0xfc; 0xfd; 0xfe; 0xff].

Definition f4 (x : Z) : Z :=
  Z.lxor (Z.lxor (Z.shiftl x 2) (Z.land (Z.shiftr x 6) 1 * WPOLY)) (Z.land (Z.shiftr x 6) 2 * WPOLY).
Definition f8 (x : Z) : Z :=
  Z.lxor (Z.lxor (Z.lxor (Z.shiftl x 3) (Z.land (Z.shiftr x 5) 1 * WPOLY)) (Z.land (Z.shiftr x 5) 2 * WPOLY))
    (Z.land (Z.shiftr x 5) 4 * WPOLY).
Definition f9 (x : Z) : Z := Z.lxor (f8 x) x.
Definition fb (x : Z) : Z := Z.lxor (Z.lxor (f8 x) (f2 x)) x.
Definition fd (x : Z) : Z := Z.lxor (Z.lxor (f8 x) (f4 x)) x.
Definition fe (x : Z) : Z := Z.lxor (Z.lxor (f8 x) (f4 x)) (f2 x).

Definition v0 (p : Z) : Z := bytes2word (fe p) (f9 p) (fd p) (fb p).
Definition v1 (p : Z) : Z := bytes2word (fb p) (fe p) (f9 p) (fd p).
Definition v2 (p : Z) : Z := bytes2word (fd p) (fb p) (fe p) (f9 p).
Definition v3 (p : Z) : Z := bytes2word (f9 p) (fd p) (fb p) (fe p).

(** [t_use(i,n)], [t_use(i,l)] and [t_use(i,m)]. *)
Definition t_in : list (list Z) := [map v0 isb_data; map v1 isb_data; map v2 isb_data; map v3 isb_data].
Definition t_il : list (list Z) := [map w0 isb_data; map w1 isb_data; map w2 isb_data; map w3 isb_data].
Definition t_im : list (list Z) := [map v0 mm_data; map v1 mm_data; map v2 mm_data; map v3 mm_data].

(** ** aesopt.h *)

Definition inv_mcol (x : Z) : Z := four_tables t_im (fun _ => x) rf1.

(** ** aeskey.c *)

(** [aes_decrypt_ctx] has the fields of [aes_encrypt_ctx]. *)
Definition aes_decrypt_ctx : Type := aes_encrypt_ctx.

(** [v(n,i)]: the round keys in reverse order. *)
Definition v (n i : Z) : Z := n - i + 2 * Z.land i 3.

Definition ls_rc (ss : list Z) (i : Z) : Z := Z.lxor (ls_box (rd ss ((i + 3) mod 4)) 3) (rd t_rc i).

Definition xor_at (ss : list Z) (i x : Z) : list Z := wr ss i (Z.lxor (rd ss i) x).

Definition kdf4 (kss : list Z * list Z) (i : Z) : list Z * list Z :=
  let '(k, ss) := kss in
  let ss := wr ss 0 (Z.lxor (Z.lxor (Z.lxor (rd ss 0) (rd ss 2)) (rd ss 1)) (rd ss 3)) in
  let ss := wr ss 1 (Z.lxor (rd ss 1) (rd ss 3)) in
  let ss := wr ss 2 (Z.lxor (rd ss 2) (rd ss 3)) in
  let ss := wr ss 4 (ls_rc ss i) in
  let ss := xor_at ss (i mod 4) (rd ss 4) in
  let ss := xor_at ss 4 (rd k (v 40 (4 * i))) in
  let k := wr k (v 40 (4 * i + 4)) (inv_mcol (rd ss 4)) in
  let ss := xor_at ss 4 (rd k (v 40 (4 * i + 1))) in
  let k := wr k (v 40 (4 * i + 5)) (inv_mcol (rd ss 4)) in
  let ss := xor_at ss 4 (rd k (v 40 (4 * i + 2))) in
  let k := wr k (v 40 (4 * i + 6)) (inv_mcol (rd ss 4)) in
  let ss := xor_at ss 4 (rd k (v 40 (4 * i + 3))) in
  let k := wr k (v 40 (4 * i + 7)) (inv_mcol (rd ss 4)) in
  (k, ss).

Definition kd4 (kss : list Z * list Z) (i : Z) : list Z * list Z :=
  let '(k, ss) := kss in
  let ss := wr ss 4 (ls_rc ss i) in
  let ss := xor_at ss (i mod 4) (rd ss 4) in
  let ss := wr ss 4 (inv_mcol (rd ss 4)) in
  let ss := xor_at ss 4 (rd k (v 40 (4 * i))) in
  let k := wr k (v 40 (4 * i + 4)) (rd ss 4) in
  let ss := xor_at ss 4 (rd k (v 40 (4 * i + 1))) in
  let k := wr k (v 40 (4 * i + 5)) (rd ss 4) in
  let ss := xor_at ss 4 (rd k (v 40 (4 * i + 2))) in
  let k := wr k (v 40 (4 * i + 6)) (rd ss 4) in
  let ss := xor_at ss 4 (rd k (v 40 (4 * i + 3))) in
  let k := wr k (v 40 (4 * i + 7)) (rd ss 4) in
  (k, ss).

Definition kdl4 (kss : list Z * list Z) (i : Z) : list Z * list Z :=
  let '(k, ss) := kss in
  let ss := wr ss 4 (ls_rc ss i) in
  let ss := xor_at ss (i mod 4) (rd ss 4) in
  let ss := xor_at ss 0 (rd ss 1) in
  let k := wr k (v 40 (4 * i + 4)) (Z.lxor (Z.lxor (rd ss 0) (rd ss 2)) (rd ss 3)) in
  let k := wr k (v 40 (4 * i + 5)) (Z.lxor (rd ss 1) (rd ss 3)) in
  let k := wr k (v 40 (4 * i + 6)) (rd ss 0) in
  let k := wr k (v 40 (4 * i + 7)) (rd ss 1) in
  (k, ss).

(** [u] is what the fifth word of [ss] holds before. *)
Definition aes_decrypt_key128 (u : Z) (key : list Z) (cx : aes_decrypt_ctx) : aes_decrypt_ctx :=
  let ss := [word_in key 0; word_in key 1; word_in key 2; word_in key 3; u] in
  let k := wr (wr (wr (wr (ks cx) (v 40 0) (rd ss 0)) (v 40 1) (rd ss 1)) (v 40 2) (rd ss 2)) (v 40 3) (rd ss 3) in
  let kss := kdf4 (k, ss) 0 in
  let kss := foldl kd4 kss [1; 2; 3; 4; 5; 6; 7; 8] in
  let '(k, _) := kdl4 kss 9 in
  {| ks := k; inf_b := [10 * 16; 0; 0; 0] |}.

(** ** aescrypt.c *)

Definition inv_var (x : list Z) (c r : Z) : Z :=
  if r =? 0 then (if c =? 0 then rd x 0 else if c =? 1 then rd x 1 else if c =? 2 then rd x 2 else rd x 3)
  else if r =? 1 then (if c =? 0 then rd x 3 else if c =? 1 then rd x 0 else if c =? 2 then rd x 1 else rd x 2)
  else if r =? 2 then (if c =? 0 then rd x 2 else if c =? 1 then rd x 3 else if c =? 2 then rd x 0 else rd x 1)
  else (if c =? 0 then rd x 1 else if c =? 1 then rd x 2 else if c =? 2 then rd x 3 else rd x 0).

Definition inv_rnd (x k : list Z) (c : Z) : Z :=
  Z.lxor (rd k c) (four_tables t_in (inv_var x c) rf1).

Definition inv_lrnd (x k : list Z) (c : Z) : Z :=
  Z.lxor (rd k c) (four_tables t_il (inv_var x c) rf1).

(** [rnd_key(n)], [kp] being the index [inf.b[0] >> 2] of the schedule. *)
Definition rnd_key (ks : list Z) (kp n : Z) : list Z := drop (Z.to_nat (kp + n * 4)) ks.

Definition aes_decrypt (inp : list Z) (cx : aes_decrypt_ctx) : option (list Z) :=
  let b := rd (inf_b cx) 0 in
  if negb (b =? 10 * 16) && negb (b =? 12 * 16) && negb (b =? 14 * 16) then None
  else
    let b0 := state_in inp (ks cx) in
    let kp := Z.shiftr b 2 in
    let rounds := foldl (fun b0 n => round inv_rnd b0 (rnd_key (ks cx) kp n)) in
    let b0 := if b =? 14 * 16 then rounds b0 [-13; -12] else b0 in
    let b0 := if (b =? 14 * 16) || (b =? 12 * 16) then rounds b0 [-11; -10] else b0 in
    let b0 := rounds b0 [-9; -8; -7; -6; -5; -4; -3; -2; -1] in
    let b0 := round inv_lrnd b0 (rnd_key (ks cx) kp 0) in
    Some (state_out b0).

(** FIPS 197, appendix C.1, backwards. *)
Example fips197_inverse_vector :
  aes_decrypt [0x69; 0xc4; 0xe0; 0xd8; 0x6a; 0x7b; 0x04; 0x30; 0xd8; 0xcd; 0xb7; 0x80; 0x70; 0xb4; 0xc5; 0x5a]
    (aes_decrypt_key128 5 (seqZ 0 16) (mk_aes_ctx (replicate 44 0) [])) =
  Some [0x00; 0x11; 0x22; 0x33; 0x44; 0x55; 0x66; 0x77; 0x88; 0x99; 0xaa; 0xbb; 0xcc; 0xdd; 0xee; 0xff].
Proof. vm_compute. reflexivity. Qed.

(** ** FIPS 197: the inverse cipher *)

Module FipsInverse.
Import Fips.

Definition inv_affine (x : Z) : Z := Z.lxor (Z.lxor (Z.lxor (rotl8 x 1) (rotl8 x 3)) (rotl8 x 6)) 0x05.

Definition inv_sbox (x : Z) : Z := inverse (inv_affine x).

Definition inv_shift_rows (s : list Z) : list Z :=
  map (rd s) [0; 13; 10; 7; 4; 1; 14; 11; 8; 5; 2; 15; 12; 9; 6; 3].

Definition dot4 (x y z w a b c d : Z) : Z :=
  Z.lxor (Z.lxor (Z.lxor (gmul a x) (gmul b y)) (gmul c z)) (gmul d w).

Definition inv_mix_column (a b c d : Z) : list Z :=
  [dot4 14 11 13 9 a b c d; dot4 9 14 11 13 a b c d; dot4 13 9 14 11 a b c d; dot4 11 13 9 14 a b c d].

Fixpoint inv_mix_columns (n : nat) (s : list Z) : list Z :=
  match n, s with
  | S n, a :: b :: c :: d :: s => inv_mix_column a b c d ++ inv_mix_columns n s
  | _, _ => []
  end.

Definition inv_last_round (isb : Z -> Z) (k s : list Z) : list Z :=
  add_round_key k (sub_bytes isb (inv_shift_rows s)).

Definition inv_full_round (isb : Z -> Z) (k s : list Z) : list Z :=
  inv_mix_columns 4 (inv_last_round isb k s).

(** The round keys in the order of their use, the key itself last. *)
Fixpoint inv_rounds (isb : Z -> Z) (keys : list (list Z)) (s : list Z) : list Z :=
  match keys with
  | [] => s
  | [k] => inv_last_round isb k s
  | k :: keys => inv_rounds isb keys (inv_full_round isb k s)
  end.

Fixpoint expand (sb : Z -> Z) (rc : list Z) (k : list Z) : list (list Z) :=
  match rc with
  | [] => [k]
  | r :: rc => k :: expand sb rc (next_key sb r k)
  end.

Definition inv_cipher (key ct : list Z) : list Z :=
  match rev (expand sbox (rcons 10 1) key) with
  | [] => ct
  | k :: keys => inv_rounds inv_sbox keys (add_round_key k ct)
  end.
End FipsInverse.
Import FipsInverse.

Example isb_data_is_inv_sbox : isb_data = map inv_sbox (seqZ 0 256).
Proof. vm_compute. reflexivity. Qed.

Example mm_data_is_identity : mm_data = seqZ 0 256.
Proof. vm_compute. reflexivity. Qed.

(** ** Tables *)

Definition SBI (x : Z) : Z := rd isb_data x.

Lemma SBI_u8 x : is_u8 (SBI x).
Proof. apply rd_u8. decide_true. Qed.

Lemma SBI_SB x : is_u8 x -> SBI (SB x) = x.
Proof. intros Hx. check_bytes x (fun x => SBI (SB x) =? x). apply Z.eqb_eq. Qed.

Lemma SBI_inv_sbox x : is_u8 x -> SBI x = inv_sbox x.
Proof. intros Hx. check_bytes x (fun x => SBI x =? inv_sbox x). apply Z.eqb_eq. Qed.

Lemma rd_mm x : is_u8 x -> rd mm_data x = x.
Proof. intros Hx. check_bytes x (fun x => rd mm_data x =? x). apply Z.eqb_eq. Qed.

(** The multiples of the inverse tables. *)
Lemma inverse_multiples x :
  is_u8 x ->
  (f9 x = Fips.gmul x 9 /\ fb x = Fips.gmul x 11 /\ fd x = Fips.gmul x 13 /\ fe x = Fips.gmul x 14) /\
  (is_u8 (f9 x) /\ is_u8 (fb x) /\ is_u8 (fd x) /\ is_u8 (fe x)).
Proof.
  intros Hx. check_bytes x (fun x => bool_decide ((f9 x = Fips.gmul x 9 /\ fb x = Fips.gmul x 11 /\
    fd x = Fips.gmul x 13 /\ fe x = Fips.gmul x 14) /\
    (is_u8 (f9 x) /\ is_u8 (fb x) /\ is_u8 (fd x) /\ is_u8 (fe x)))).
  apply bool_decide_eq_true_1.
Qed.

(** Four look-ups in the tables made of [data] are one column of the inverse
    round. *)
Lemma four_tables_inv data vf :
  length data = 256%nat -> bytes data ->
  is_u8 (bval (vf 0) 0) -> is_u8 (bval (vf 1) 1) -> is_u8 (bval (vf 2) 2) -> is_u8 (bval (vf 3) 3) ->
  four_tables [map v0 data; map v1 data; map v2 data; map v3 data] vf rf1 =
    le_word (inv_mix_column (rd data (bval (vf 0) 0)) (rd data (bval (vf 1) 1))
      (rd data (bval (vf 2) 2)) (rd data (bval (vf 3) 3))) /\
  four_tables [map w0 data; map w1 data; map w2 data; map w3 data] vf rf1 =
    le_word [rd data (bval (vf 0) 0); rd data (bval (vf 1) 1); rd data (bval (vf 2) 2); rd data (bval (vf 3) 3)].
Proof.
  intros Hl Hd H0 H1 H2 H3. assert (forall f i, is_u8 i -> rd (map f data) i = f (rd data i)) as Hm.
  { intros f i Hi. apply rd_map. rewrite Hl. exact Hi. }
  assert (forall i, is_u8 (rd data i)) as Hu by (intros; by apply rd_u8).
  unfold four_tables, rf1.
  destruct (table_rows (map v0 data) (map v1 data) (map v2 data) (map v3 data)) as (-> & -> & -> & ->).
  destruct (table_rows (map w0 data) (map w1 data) (map w2 data) (map w3 data)) as (-> & -> & -> & ->).
  rewrite !Hm by done.
  pose proof (Hu (bval (vf 0) 0)). pose proof (Hu (bval (vf 1) 1)). pose proof (Hu (bval (vf 2) 2)). pose proof (Hu (bval (vf 3) 3)).
  set (a := rd data (bval (vf 0) 0)) in *. set (b := rd data (bval (vf 1) 1)) in *.
  set (c := rd data (bval (vf 2) 2)) in *. set (d := rd data (bval (vf 3) 3)) in *. clearbody a b c d.
  split.
  - destruct (inverse_multiples a) as [(A9 & Ab & Ad & Ae) (? & ? & ? & ?)]; [done|].
    destruct (inverse_multiples b) as [(B9 & Bb & Bd & Be) (? & ? & ? & ?)]; [done|].
    destruct (inverse_multiples c) as [(C9 & Cb & Cd & Ce) (? & ? & ? & ?)]; [done|].
    destruct (inverse_multiples d) as [(D9 & Db & Dd & De) (? & ? & ? & ?)]; [done|].
    unfold v0, v1, v2, v3. rewrite !bytes2word_lxor by auto with words. rewrite bytes2word_le.
    unfold inv_mix_column, dot4. rewrite <- A9, <- Ab, <- Ad, <- Ae, <- B9, <- Bb, <- Bd, <- Be,
      <- C9, <- Cb, <- Cd, <- Ce, <- D9, <- Db, <- Dd, <- De. reflexivity.
  - assert (is_u8 0) by done. unfold w0, w1, w2, w3. rewrite !bytes2word_lxor by auto with words.
    rewrite bytes2word_le, !Z.lxor_0_r, !Z.lxor_0_l. done.
Qed.

Lemma inv_mix_column_bytes a b c d :
  is_u8 a -> is_u8 b -> is_u8 c -> is_u8 d -> bytes (inv_mix_column a b c d).
Proof.
  intros Ha Hb Hc Hd. unfold inv_mix_column, dot4.
  destruct (inverse_multiples a Ha) as [(<- & <- & <- & <-) (? & ? & ? & ?)],
    (inverse_multiples b Hb) as [(<- & <- & <- & <-) (? & ? & ? & ?)],
    (inverse_multiples c Hc) as [(<- & <- & <- & <-) (? & ? & ? & ?)],
    (inverse_multiples d Hd) as [(<- & <- & <- & <-) (? & ? & ? & ?)].
  unfold bytes. rewrite !List.Forall_cons_iff. split_and!; [..|constructor]; auto 6 with words.
Qed.

(** ** Multiplication is linear *)

(** Equalities of exclusive ors of words. *)
Ltac xor_words :=
  apply Z.bits_inj'; intros ? ?; rewrite ?Z.lxor_spec, ?Z.bits_0; btauto.

Lemma xtime_lxor a b : Fips.xtime (Z.lxor a b) = Z.lxor (Fips.xtime a) (Fips.xtime b).
Proof.
  unfold Fips.xtime. rewrite Z.shiftl_lxor, Z.lxor_spec.
  assert (forall x y, Z.land (Z.lxor x y) 255 = Z.lxor (Z.land x 255) (Z.land y 255)) as ->.
  { intros x y. bit_ext i. rewrite Z.lxor_spec, !Z.land_spec, Z.lxor_spec. destruct (Z.testbit x i), (Z.testbit y i), (Z.testbit 255 i); done. }
  generalize (Z.land (Z.shiftl a 1) 255), (Z.land (Z.shiftl b 1) 255). intros x y.
  destruct (Z.testbit a 7), (Z.testbit b 7); cbn [xorb]; rewrite ?Z.lxor_0_r; try xor_words;
    generalize 27; intros; xor_words.
Qed.

Lemma gmul_loop_lxor n : forall a b c,
  Fips.gmul_loop n (Z.lxor a b) c = Z.lxor (Fips.gmul_loop n a c) (Fips.gmul_loop n b c).
Proof.
  induction n as [|n IH]; intros a b c; [done|]. cbn [Fips.gmul_loop]. rewrite xtime_lxor, IH.
  generalize (Fips.gmul_loop n (Fips.xtime a) (Z.shiftr c 1)), (Fips.gmul_loop n (Fips.xtime b) (Z.shiftr c 1)).
  intros x y. destruct (Z.odd c); [|rewrite ?Z.lxor_0_l]; xor_words.
Qed.

Lemma gmul_lxor a b c : Fips.gmul (Z.lxor a b) c = Z.lxor (Fips.gmul a c) (Fips.gmul b c).
Proof. apply gmul_loop_lxor. Qed.

Lemma dot4_lxor x y z w a b c d a' b' c' d' :
  dot4 x y z w (Z.lxor a a') (Z.lxor b b') (Z.lxor c c') (Z.lxor d d') =
  Z.lxor (dot4 x y z w a b c d) (dot4 x y z w a' b' c' d').
Proof.
  unfold dot4. rewrite !gmul_lxor. generalize (Fips.gmul a x), (Fips.gmul a' x), (Fips.gmul b y), (Fips.gmul b' y),
    (Fips.gmul c z), (Fips.gmul c' z), (Fips.gmul d w), (Fips.gmul d' w). intros. xor_words.
Qed.

Lemma inv_mix_columns_lxor k s :
  block k -> block s ->
  inv_mix_columns 4 (xor_bytes k s) = xor_bytes (inv_mix_columns 4 k) (inv_mix_columns 4 s).
Proof.
  intros Hk Hs. explode k. explode s. unfold xor_bytes.
  cbn [zip_with inv_mix_columns app inv_mix_column]. unfold inv_mix_column. rewrite !dot4_lxor. reflexivity.
Qed.

Lemma inv_mix_columns_block s : block s -> block (inv_mix_columns 4 s).
Proof.
  intros Hs. explode s. split; [|done]. cbn [inv_mix_columns].
  repeat apply bytes_app; auto using inv_mix_column_bytes. constructor.
Qed.

(** Sixteen multiples of one byte that cancel: on the diagonal they are the
    byte, elsewhere nothing. *)
Lemma inverse_matrix x :
  is_u8 x ->
  let g a b := Fips.gmul (Fips.gmul x a) b in let m b := Fips.gmul x b in
  Z.lxor (Z.lxor (Z.lxor (g 2 14) (m 11)) (m 13)) (g 3 9) = x /\
  Z.lxor (Z.lxor (Z.lxor (g 3 14) (g 2 11)) (m 13)) (m 9) = 0 /\
  Z.lxor (Z.lxor (Z.lxor (m 14) (g 3 11)) (g 2 13)) (m 9) = 0 /\
  Z.lxor (Z.lxor (Z.lxor (m 14) (m 11)) (g 3 13)) (g 2 9) = 0.
Proof.
  intros Hx. check_bytes x (fun x => let g a b := Fips.gmul (Fips.gmul x a) b in let m b := Fips.gmul x b in
    bool_decide (Z.lxor (Z.lxor (Z.lxor (g 2 14) (m 11)) (m 13)) (g 3 9) = x /\
      Z.lxor (Z.lxor (Z.lxor (g 3 14) (g 2 11)) (m 13)) (m 9) = 0 /\
      Z.lxor (Z.lxor (Z.lxor (m 14) (g 3 11)) (g 2 13)) (m 9) = 0 /\
      Z.lxor (Z.lxor (Z.lxor (m 14) (m 11)) (g 3 13)) (g 2 9) = 0)).
  cbv zeta. apply bool_decide_eq_true_1.
Qed.

(** The row [dot4 14 11 13 9] of the inverse matrix against a column. *)
Lemma dot4_mix a b c d :
  is_u8 a -> is_u8 b -> is_u8 c -> is_u8 d ->
  dot4 14 11 13 9 (Z.lxor (Z.lxor (Z.lxor (Fips.gmul a 2) (Fips.gmul b 3)) c) d)
    (Z.lxor (Z.lxor (Z.lxor a (Fips.gmul b 2)) (Fips.gmul c 3)) d)
    (Z.lxor (Z.lxor (Z.lxor a b) (Fips.gmul c 2)) (Fips.gmul d 3))
    (Z.lxor (Z.lxor (Z.lxor (Fips.gmul a 3) b) c) (Fips.gmul d 2)) = a.
Proof.
  intros Ha Hb Hc Hd. unfold dot4. rewrite !gmul_lxor.
  destruct (inverse_matrix a Ha) as (Ea & _), (inverse_matrix b Hb) as (_ & Eb & _),
    (inverse_matrix c Hc) as (_ & _ & Ec & _), (inverse_matrix d Hd) as (_ & _ & _ & Ed). cbv zeta in *.
  match type of Ea with ?A = _ => match type of Eb with ?B = _ => match type of Ec with ?C = _ => match type of Ed with ?D = _ =>
    transitivity (Z.lxor (Z.lxor (Z.lxor A B) C) D); [xor_words|rewrite Ea, Eb, Ec, Ed, !Z.lxor_0_r; reflexivity]
  end end end end.
Qed.

(** The other rows are the same up to a rotation of the column. *)
Lemma dot4_rotate x y z w a b c d : dot4 x y z w a b c d = dot4 y z w x b c d a.
Proof. unfold dot4. generalize (Fips.gmul a x), (Fips.gmul b y), (Fips.gmul c z), (Fips.gmul d w). intros. xor_words. Qed.

Lemma inv_mix_column_mix a b c d x y z w :
  is_u8 a -> is_u8 b -> is_u8 c -> is_u8 d ->
  Fips.mix_column a b c d = [x; y; z; w] -> inv_mix_column x y z w = [a; b; c; d].
Proof.
  intros Ha Hb Hc Hd [= <- <- <- <-]. unfold inv_mix_column. f_equal; [by apply dot4_mix|].
  f_equal; [|f_equal; [|f_equal]].
  - rewrite dot4_rotate. etransitivity; [|by apply (dot4_mix b c d a)]. f_equal; xor_words.
  - rewrite !(dot4_rotate 13), !(dot4_rotate 9). etransitivity; [|by apply (dot4_mix c d a b)]. f_equal; xor_words.
  - rewrite !(dot4_rotate 11), !(dot4_rotate 13), !(dot4_rotate 9).
    etransitivity; [|by apply (dot4_mix d a b c)]. f_equal; xor_words.
Qed.

Lemma inv_mix_step n a b c d l :
  is_u8 a -> is_u8 b -> is_u8 c -> is_u8 d ->
  inv_mix_columns (S n) (Fips.mix_column a b c d ++ l) = a :: b :: c :: d :: inv_mix_columns n l.
Proof.
  intros Ha Hb Hc Hd. unfold Fips.mix_column at 1. cbn [app inv_mix_columns].
  by rewrite (inv_mix_column_mix a b c d).
Qed.

Lemma inv_mix_columns_mix s : block s -> inv_mix_columns 4 (Fips.mix_columns 4 s) = s.
Proof. intros Hs. explode s. cbn [Fips.mix_columns]. by rewrite !inv_mix_step. Qed.

Lemma inv_shift_rows_shift s : block s -> inv_shift_rows (Fips.shift_rows s) = s.
Proof. intros Hs. explode s. reflexivity. Qed.

Lemma inv_sub_bytes_sub s : bytes s -> Fips.sub_bytes SBI (Fips.sub_bytes SB s) = s.
Proof.
  unfold Fips.sub_bytes. induction 1 as [|x s Hx Hs IH]; [done|]. cbn [map]. by rewrite SBI_SB, IH.
Qed.

Lemma inv_shift_rows_block s : block s -> block (inv_shift_rows s).
Proof. intros Hs. explode s. split; [|done]. unfold inv_shift_rows. cbn [map]. byte_lists. Qed.

Lemma inv_sub_bytes_block s : block s -> block (Fips.sub_bytes SBI s).
Proof.
  intros [Hb Hl]. unfold Fips.sub_bytes. split; [|by rewrite length_map].
  apply List.Forall_map, Forall_forall. intros. apply SBI_u8.
Qed.

Lemma inv_last_round_block k s : block k -> block s -> block (inv_last_round SBI k s).
Proof. intros. apply xor_block; auto using inv_shift_rows_block, inv_sub_bytes_block. Qed.

Lemma inv_full_round_block k s : block k -> block s -> block (inv_full_round SBI k s).
Proof. intros. by apply inv_mix_columns_block, inv_last_round_block. Qed.

(** ** One round *)

Lemma inv_col vf k0 k1 k2 k3 a0 a1 a2 a3 b0 b1 b2 b3 c0 c1 c2 c3 d0 d1 d2 d3 :
  vf 0 = bytes2word a0 a1 a2 a3 -> vf 1 = bytes2word b0 b1 b2 b3 ->
  vf 2 = bytes2word c0 c1 c2 c3 -> vf 3 = bytes2word d0 d1 d2 d3 ->
  bytes [k0; k1; k2; k3] -> bytes [a0; a1; a2; a3] -> bytes [b0; b1; b2; b3] ->
  bytes [c0; c1; c2; c3] -> bytes [d0; d1; d2; d3] ->
  let key := bytes2word k0 k1 k2 k3 in
  Z.lxor key (four_tables t_in vf rf1) =
    le_word (xor_bytes [k0; k1; k2; k3] (inv_mix_column (SBI a0) (SBI b1) (SBI c2) (SBI d3))) /\
  Z.lxor key (four_tables t_il vf rf1) =
    le_word (xor_bytes [k0; k1; k2; k3] [SBI a0; SBI b1; SBI c2; SBI d3]).
Proof.
  intros E0 E1 E2 E3 Hk Ha Hb Hc Hd. cbn zeta. pose proof SBI_u8 as Hs.
  unfold bytes in Ha, Hb, Hc, Hd. rewrite !List.Forall_cons_iff in Ha, Hb, Hc, Hd.
  destruct Ha as (? & ? & ? & ? & _), Hb as (? & ? & ? & ? & _),
    Hc as (? & ? & ? & ? & _), Hd as (? & ? & ? & ? & _).
  destruct (bval_bytes2word a0 a1 a2 a3) as (Ba & _); [done..|].
  destruct (bval_bytes2word b0 b1 b2 b3) as (_ & Bb & _); [done..|].
  destruct (bval_bytes2word c0 c1 c2 c3) as (_ & _ & Bc & _); [done..|].
  destruct (bval_bytes2word d0 d1 d2 d3) as (_ & _ & _ & Bd); [done..|].
  assert (bytes isb_data) as Hisb by decide_true.
  destruct (four_tables_inv isb_data vf eq_refl Hisb) as [T1 T2]; rewrite ?E0, ?E1, ?E2, ?E3, ?Ba, ?Bb, ?Bc, ?Bd; [done..|].
  rewrite E0, E1, E2, E3, Ba, Bb, Bc, Bd in T1, T2. fold (SBI a0) (SBI b1) (SBI c2) (SBI d3) in T1, T2.
  rewrite bytes2word_le. unfold t_in, t_il. rewrite T1, T2.
  rewrite !le_word_lxor; auto using inv_mix_column_bytes.
  unfold bytes. rewrite !List.Forall_cons_iff. auto 6.
Qed.

Ltac inv_column proj :=
  etransitivity;
  [ eapply proj; eapply inv_col; [reflexivity..|byte_lists|byte_lists|byte_lists|byte_lists|byte_lists]
  | symmetry; etransitivity; [apply word_in_le; [done|cbn; lia]|reflexivity] ].

Lemma inv_round_spec s k :
  block s -> block k ->
  round inv_rnd (words s) (words k) =
    words (xor_bytes k (inv_mix_columns 4 (Fips.sub_bytes SBI (inv_shift_rows s)))) /\
  round inv_lrnd (words s) (words k) = words (inv_last_round SBI k s).
Proof.
  intros Hs Hk. explode s. explode k. unfold round, inv_rnd, inv_lrnd. split.
  - unfold words at 9.
    apply f_equal2; [inv_column proj1|]. apply f_equal2; [inv_column proj1|].
    apply f_equal2; [inv_column proj1|]. apply f_equal2; [inv_column proj1|done].
  - unfold words at 9.
    apply f_equal2; [inv_column proj2|]. apply f_equal2; [inv_column proj2|].
    apply f_equal2; [inv_column proj2|]. apply f_equal2; [inv_column proj2|done].
Qed.

(** With the transformed key, the round of FIPS 197. *)
Lemma inv_full_round_spec s k :
  block s -> block k ->
  round inv_rnd (words s) (words (inv_mix_columns 4 k)) = words (inv_full_round SBI k s).
Proof.
  intros Hs Hk. rewrite (proj1 (inv_round_spec s _ Hs (inv_mix_columns_block k Hk))).
  unfold inv_full_round, inv_last_round, Fips.add_round_key.
  by rewrite inv_mix_columns_lxor by auto using inv_sub_bytes_block, inv_shift_rows_block.
Qed.

(** ** The decryption schedule *)

Lemma bval_u8 x n : is_u8 (bval x n).
Proof. apply land_255_u8. Qed.

Lemma bval_lxor x y n : bval (Z.lxor x y) n = Z.lxor (bval x n) (bval y n).
Proof.
  unfold bval. bit_ext i. rewrite Z.lxor_spec, !Z.land_spec, !Z.shiftr_spec, Z.lxor_spec by done.
  destruct (Z.testbit x _), (Z.testbit y _), (Z.testbit 255 i); done.
Qed.

Lemma inv_mcol_spec x :
  inv_mcol x = le_word (inv_mix_column (bval x 0) (bval x 1) (bval x 2) (bval x 3)).
Proof.
  assert (bytes mm_data) as Hmm by decide_true. unfold inv_mcol, t_im.
  destruct (four_tables_inv mm_data (fun _ => x) eq_refl Hmm) as [-> _]; [apply bval_u8..|].
  by rewrite !rd_mm by apply bval_u8.
Qed.

Lemma inv_mcol_lxor x y : inv_mcol (Z.lxor x y) = Z.lxor (inv_mcol x) (inv_mcol y).
Proof.
  rewrite !inv_mcol_spec, le_word_lxor; [|apply inv_mix_column_bytes; apply bval_u8..|done].
  rewrite !bval_lxor. unfold inv_mix_column. by rewrite !dot4_lxor.
Qed.

Lemma inv_mcol_words k : block k -> map inv_mcol (words k) = words (inv_mix_columns 4 k).
Proof.
  intros Hk. rewrite (words_slices (inv_mix_columns 4 k)) by (apply inv_mix_columns_block; done).
  explode k. unfold words. cbn [map]. rewrite !inv_mcol_spec.
  repeat match goal with |- context [word_in ?l ?i] =>
    let w := eval cbv [word_in rd lookup list_lookup default option_rect Z.to_nat Pos.to_nat
      Pos.iter_op Init.Nat.add from_option id Z.mul Z.add Pos.mul Pos.add Pos.succ] in (word_in l i) in
    change (word_in l i) with w end.
  repeat match goal with |- context [bval (bytes2word ?a ?b ?c ?d) 0] =>
    let H0 := fresh in let H1 := fresh in let H2 := fresh in let H3 := fresh in
    destruct (bval_bytes2word a b c d) as (H0 & H1 & H2 & H3); [assumption..|];
    rewrite H0, H1, H2, H3; clear H0 H1 H2 H3 end.
  reflexivity.
Qed.

(** The first four words of [ss] before step [i], [r] being [i mod 4] and
    [n0] to [n3] the words of the round key. *)
Definition perm (r : Z) (n0 n1 n2 n3 : Z) : list Z :=
  let t := Z.lxor (Z.lxor (Z.lxor n0 n1) n2) n3 in let a := Z.lxor n1 n3 in let b := Z.lxor n2 n3 in
  if r =? 0 then [t; a; b; n3] else if r =? 1 then [n3; t; a; b] else if r =? 2 then [b; n3; t; a] else [a; b; n3; t].

Lemma v_spec i j : 0 <= j < 4 -> v 40 (4 * i + j) = 40 - 4 * i + j.
Proof.
  intros Hj. unfold v. change 3 with (Z.ones 2). rewrite Z.land_ones by lia. change (2 ^ 2) with 4.
  replace ((4 * i + j) mod 4) with j; [lia|]. rewrite Z.add_comm, Z.mul_comm, Z.mod_add by lia. by rewrite Z.mod_small.
Qed.

Lemma rd_app_r pre l j :
  (length pre <= Z.to_nat j)%nat -> rd (pre ++ l) j = rd l (j - Z.of_nat (length pre)).
Proof.
  intros Hj. unfold rd. rewrite lookup_app_r by done. do 2 f_equal. lia.
Qed.

(** A write to the next round key does not touch the last one. *)
Lemma schedule_apart i l j w x :
  0 <= i <= 9 -> 0 <= j < 4 -> 4 <= w < 8 -> rd (wr l (v 40 (4 * i + w)) x) (v 40 (4 * i + j)) = rd l (v 40 (4 * i + j)).
Proof.
  intros Hi Hj Hw. replace (4 * i + w) with (4 * (i + 1) + (w - 4)) by lia. rewrite !v_spec by lia.
  apply rd_wr_ne; lia.
Qed.
(** The schedule while it is filled from its end: [old] is next, [m0] to [m3]
    is what was written last. *)
Section fill.
Context (i : Z) (pre old post : list Z) (m0 m1 m2 m3 : Z).
Hypothesis (Hpre : Z.of_nat (length pre) = 4 * (9 - i)) (Hold : length old = 4%nat).
Let k := pre ++ old ++ [m0; m1; m2; m3] ++ post.

Lemma schedule_reads :
  rd k (v 40 (4 * i)) = m0 /\ rd k (v 40 (4 * i + 1)) = m1 /\
  rd k (v 40 (4 * i + 2)) = m2 /\ rd k (v 40 (4 * i + 3)) = m3.
Proof.
  rewrite <- (Z.add_0_r (4 * i)) at 1. rewrite !v_spec by lia. unfold k.
  rewrite !(rd_app_r pre), !(rd_app_r old) by lia. rewrite Hpre, Hold.
  replace (40 - 4 * i + 0 - 4 * (9 - i) - Z.of_nat 4) with 0 by lia.
  replace (40 - 4 * i + 1 - 4 * (9 - i) - Z.of_nat 4) with 1 by lia.
  replace (40 - 4 * i + 2 - 4 * (9 - i) - Z.of_nat 4) with 2 by lia.
  replace (40 - 4 * i + 3 - 4 * (9 - i) - Z.of_nat 4) with 3 by lia. done.
Qed.

Lemma schedule_writes x0 x1 x2 x3 :
  wr (wr (wr (wr k (v 40 (4 * i + 4)) x0) (v 40 (4 * i + 5)) x1) (v 40 (4 * i + 6)) x2) (v 40 (4 * i + 7)) x3 =
  pre ++ [x0; x1; x2; x3] ++ [m0; m1; m2; m3] ++ post.
Proof.
  replace (4 * i + 4) with (4 * (i + 1) + 0) by lia. replace (4 * i + 5) with (4 * (i + 1) + 1) by lia.
  replace (4 * i + 6) with (4 * (i + 1) + 2) by lia. replace (4 * i + 7) with (4 * (i + 1) + 3) by lia.
  rewrite !v_spec by lia. unfold k. rewrite !wr_app_r by lia. rewrite Hpre.
  replace (40 - 4 * (i + 1) + 0 - 4 * (9 - i)) with 0 by lia.
  replace (40 - 4 * (i + 1) + 1 - 4 * (9 - i)) with 1 by lia.
  replace (40 - 4 * (i + 1) + 2 - 4 * (9 - i)) with 2 by lia.
  replace (40 - 4 * (i + 1) + 3 - 4 * (9 - i)) with 3 by lia.
  destruct old as [|p [|q [|r [|t [|? ?]]]]]; try discriminate Hold. done.
Qed.

End fill.

(** Reading and writing the five words. *)
Lemma five a b c d e x :
  (rd [a; b; c; d; e] 0 = a /\ rd [a; b; c; d; e] 1 = b /\ rd [a; b; c; d; e] 2 = c /\
   rd [a; b; c; d; e] 3 = d /\ rd [a; b; c; d; e] 4 = e) /\
  (wr [a; b; c; d; e] 0 x = [x; b; c; d; e] /\ wr [a; b; c; d; e] 1 x = [a; x; c; d; e] /\
   wr [a; b; c; d; e] 2 x = [a; b; x; d; e] /\ wr [a; b; c; d; e] 3 x = [a; b; c; x; e] /\
   wr [a; b; c; d; e] 4 x = [a; b; c; d; x]).
Proof. done. Qed.

Ltac five_access :=
  repeat match goal with
    | |- context [rd [?a; ?b; ?c; ?d; ?e] ?i] =>
        let w := eval cbv in (nth (Z.to_nat i) [1; 2; 3; 4; 5]%nat 0%nat) in
        let x := match w with 1%nat => a | 2%nat => b | 3%nat => c | 4%nat => d | 5%nat => e end in
        change (rd [a; b; c; d; e] i) with x
    | |- context [wr [?a; ?b; ?c; ?d; ?e] ?i ?x] =>
        let w := eval cbv in (nth (Z.to_nat i) [1; 2; 3; 4; 5]%nat 0%nat) in
        let l := match w with
          | 1%nat => constr:([x; b; c; d; e]) | 2%nat => constr:([a; x; c; d; e])
          | 3%nat => constr:([a; b; x; d; e]) | 4%nat => constr:([a; b; c; x; e]) | 5%nat => constr:([a; b; c; d; x]) end in
        change (wr [a; b; c; d; e] i x) with l
    end.

Ltac five_words := cbv beta iota zeta delta [kd4 kdf4 kdl4 ls_rc xor_at]; five_access.

Definition next4 (t n0 n1 n2 n3 : Z) : list Z :=
  let x0 := Z.lxor n0 t in let x1 := Z.lxor n1 x0 in let x2 := Z.lxor n2 x1 in [x0; x1; x2; Z.lxor n3 x2].

Lemma mod4_cases i :
  (i mod 4 = 0 /\ (i + 3) mod 4 = 3 /\ (i + 1) mod 4 = 1) \/ (i mod 4 = 1 /\ (i + 3) mod 4 = 0 /\ (i + 1) mod 4 = 2) \/
  (i mod 4 = 2 /\ (i + 3) mod 4 = 1 /\ (i + 1) mod 4 = 3) \/ (i mod 4 = 3 /\ (i + 3) mod 4 = 2 /\ (i + 1) mod 4 = 0).
Proof. Z.div_mod_to_equations. lia. Qed.

(** What is left of a step, once the five words are computed. *)
Ltac schedule_step R0 R1 R2 R3 Hw :=
  rewrite ?schedule_apart by lia; rewrite ?R0, ?R1, ?R2, ?R3, Hw; cbn [map app];
  rewrite ?inv_mcol_lxor;
  repeat match goal with
    | |- (_, _) = (_, _) => apply f_equal2
    | |- _ ++ _ = _ ++ _ => apply f_equal2
    | |- _ :: _ = _ :: _ => apply f_equal2
    end; first [reflexivity | xor_words].

Section steps.
Context (i : Z) (pre old post : list Z) (n0 n1 n2 n3 e x0 x1 x2 x3 : Z).
Hypothesis (Hi : 0 <= i <= 9) (Hpre : Z.of_nat (length pre) = 4 * (9 - i)) (Hold : length old = 4%nat).
Hypothesis (Hx : next4 (Z.lxor (ls_box n3 3) (rd t_rc i)) n0 n1 n2 n3 = [x0; x1; x2; x3]).

Lemma kd4_spec :
  exists e', kd4 (pre ++ old ++ map inv_mcol [n0; n1; n2; n3] ++ post, perm (i mod 4) n0 n1 n2 n3 ++ [e]) i =
    (pre ++ map inv_mcol [x0; x1; x2; x3] ++ map inv_mcol [n0; n1; n2; n3] ++ post,
     perm ((i + 1) mod 4) x0 x1 x2 x3 ++ [e']).
Proof.
  injection Hx as <- <- <- <-. cbn [map].
  destruct (schedule_reads i pre old post (inv_mcol n0) (inv_mcol n1) (inv_mcol n2) (inv_mcol n3) Hpre Hold) as (R0 & R1 & R2 & R3).
  pose proof (schedule_writes i pre old post (inv_mcol n0) (inv_mcol n1) (inv_mcol n2) (inv_mcol n3) Hpre Hold) as Hw.
  set (k := pre ++ old ++ _) in *. clearbody k. eexists.
  destruct (mod4_cases i) as [(E1 & E2 & E3)|[(E1 & E2 & E3)|[(E1 & E2 & E3)|(E1 & E2 & E3)]]];
    unfold kd4, ls_rc; rewrite E1, E2, E3; unfold perm; cbn [Z.eqb Pos.eqb app]; five_words;
    schedule_step R0 R1 R2 R3 Hw.
Qed.

(** The first step finds the words of the key as they are. *)
Lemma kdf4_spec :
  i = 0 ->
  exists e', kdf4 (pre ++ old ++ [n0; n1; n2; n3] ++ post, [n0; n1; n2; n3; e]) i =
    (pre ++ map inv_mcol [x0; x1; x2; x3] ++ [n0; n1; n2; n3] ++ post, perm 1 x0 x1 x2 x3 ++ [e']).
Proof.
  intros E. injection Hx as <- <- <- <-. cbn [map].
  destruct (schedule_reads i pre old post n0 n1 n2 n3 Hpre Hold) as (R0 & R1 & R2 & R3).
  pose proof (schedule_writes i pre old post n0 n1 n2 n3 Hpre Hold) as Hw.
  set (k := pre ++ old ++ _) in *. clearbody k. eexists.
  assert (i mod 4 = 0 /\ (i + 3) mod 4 = 3) as [E1 E2] by (by rewrite E).
  unfold kdf4, ls_rc. rewrite E1, E2. unfold perm. cbn [Z.eqb Pos.eqb app]. five_words.
  schedule_step R0 R1 R2 R3 Hw.
Qed.

(** The last step leaves its words as they are. *)
Lemma kdl4_spec :
  i = 9 ->
  (kdl4 (pre ++ old ++ map inv_mcol [n0; n1; n2; n3] ++ post, perm (i mod 4) n0 n1 n2 n3 ++ [e]) i).1 =
    pre ++ [x0; x1; x2; x3] ++ map inv_mcol [n0; n1; n2; n3] ++ post.
Proof.
  intros E. injection Hx as <- <- <- <-. cbn [map].
  pose proof (schedule_writes i pre old post (inv_mcol n0) (inv_mcol n1) (inv_mcol n2) (inv_mcol n3) Hpre Hold) as Hw.
  set (k := pre ++ old ++ _) in *. clearbody k.
  assert (i mod 4 = 1 /\ (i + 3) mod 4 = 0) as [E1 E2] by (by rewrite E).
  unfold kdl4, ls_rc. rewrite E1, E2. unfold perm. cbn [Z.eqb Pos.eqb app fst]. five_words.
  schedule_step Hi Hi Hi Hi Hw.
Qed.
End steps.

(** The words of a transformed round key, and the five words of [ss]. *)
Definition imw (k : list Z) : list Z := map inv_mcol (words k).

Definition perm_words (r : Z) (k : list Z) : list Z := perm r (word_in k 0) (word_in k 1) (word_in k 2) (word_in k 3).

Lemma next4_words i k :
  0 <= i < 10 -> block k ->
  next4 (Z.lxor (ls_box (word_in k 3) 3) (rd t_rc i)) (word_in k 0) (word_in k 1) (word_in k 2) (word_in k 3) =
    words (Fips.next_key SB (rd rc_data i) k) /\
  block (Fips.next_key SB (rd rc_data i) k).
Proof.
  intros Hi Hk. assert (is_u8 (rd rc_data i)) as Hr by (apply rd_u8; decide_true). split; [|by apply next_key_block].
  rewrite <- next_words_spec by done. assert (rd t_rc i = w0 (rd rc_data i)) as ->; [|reflexivity].
  apply rd_map. change (length rc_data) with 10%nat. lia.
Qed.

Lemma split_pre (pre : list Z) n : (4 * S n = length pre)%nat ->
  exists pre' old, pre = pre' ++ old /\ length pre' = (4 * n)%nat /\ length old = 4%nat.
Proof.
  intros Hl. exists (take (4 * n) pre), (drop (4 * n) pre). rewrite take_drop, length_take, length_drop. split_and!; [done|lia..].
Qed.

(** The round key after those of [rc]. *)
Definition last_key (rks : list (list Z)) (key : list Z) : list Z := foldl (fun _ k => k) key rks.

(** The middle steps, [rks] being the round keys so far, the last one first. *)
Lemma kd4_loop n : forall i pre key post e,
  1 <= i -> i + Z.of_nat n <= 9 -> Z.of_nat (length pre) = 4 * (10 - i) -> block key ->
  let rks := round_keys (map (rd rc_data) (seqZ i (Z.of_nat n))) key in
  let lk := last_key rks key in
  exists pre' e',
    foldl kd4 (pre ++ imw key ++ post, perm_words (i mod 4) key ++ [e]) (seqZ i (Z.of_nat n)) =
      (pre' ++ concat (map imw (rev rks)) ++ imw key ++ post, perm_words ((i + Z.of_nat n) mod 4) lk ++ [e']) /\
    Z.of_nat (length pre') = 4 * (10 - i - Z.of_nat n) /\ block lk /\ Forall block rks.
Proof.
  induction n as [|n IH]; intros i pre key post e Hi Hn Hpre Hk rks lk.
  { exists pre, e. rewrite !Z.add_0_r. split; [done|]. split; [lia|]. split; [done|constructor]. }
  subst lk rks. rewrite seqZ_cons by lia. cbn [foldl map round_keys].
  replace (Z.pred (Z.of_nat (S n))) with (Z.of_nat n) by lia.
  destruct (split_pre pre (Z.to_nat (9 - i))) as (pre1 & old & -> & Hp1 & Hold); [lia|].
  destruct (next4_words i key) as [Hx Hkb]; [lia|done|]. set (k1 := Fips.next_key SB _ key) in *.
  assert (Z.of_nat (length pre1) = 4 * (9 - i)) as Hp1' by lia.
  destruct (kd4_spec i pre1 old post _ _ _ _ e _ _ _ _ ltac:(lia) Hp1' Hold Hx) as (e1 & E1).
  rewrite <- app_assoc. unfold imw at 1, perm_words at 1. unfold words at 1. rewrite E1.
  destruct (IH (Z.succ i) pre1 k1 (imw key ++ post) e1) as (pre2 & e2 & E2 & Hl2 & Hb2 & Hf2); [lia|lia|lia|done|].
  exists pre2, e2. split; [|split; [lia|split]].
  - etransitivity; [exact E2|]. cbn [rev]. rewrite map_app, concat_app. cbn [map concat]. rewrite app_nil_r.
    rewrite <- app_assoc. cbn [last_key foldl]. by replace (i + Z.of_nat (S n)) with (Z.succ i + Z.of_nat n) by lia.
  - exact Hb2.
  - by apply Forall_cons_2.
Qed.

#[local] Opaque kdf4 kd4 kdl4 inv_mcol ls_box Fips.next_key.

Lemma rev_last rks : forall k, exists l, rev (k :: rks) = last_key rks k :: l.
Proof.
  induction rks as [|r rks IH]; intros k; [by exists []|]. destruct (IH r) as [l E].
  exists (l ++ [k]). cbn [rev] in E |- *. by rewrite E.
Qed.

(** The decryption schedule: the last round key, the transformed middle ones
    backwards, and the key. *)
Lemma decrypt_schedule u key cx :
  block key -> length (ks cx) = KS_LENGTH ->
  let rks := round_keys (map (rd rc_data) (seqZ 0 9)) key in
  let k10 := Fips.next_key SB (rd rc_data 9) (last_key rks key) in
  ks (aes_decrypt_key128 u key cx) = words k10 ++ concat (map imw (rev rks)) ++ words key /\
  inf_b (aes_decrypt_key128 u key cx) = [160; 0; 0; 0] /\ Forall block rks /\ block k10.
Proof.
  intros Hk Hl rks k10. unfold aes_decrypt_key128.
  assert (exists pre old, length pre = 36%nat /\ length old = 4%nat /\
    wr (wr (wr (wr (ks cx) (v 40 0) (word_in key 0)) (v 40 1) (word_in key 1)) (v 40 2) (word_in key 2)) (v 40 3) (word_in key 3) =
    pre ++ old ++ words key ++ []) as (pre & old & Hp & Ho & Hk0).
  { exists (take 36 (ks cx)), (take 4 (drop 36 (ks cx))). unfold KS_LENGTH in Hl. rewrite !length_take, length_drop, Hl.
    split; [done|]. split; [done|]. rewrite app_nil_r.
    rewrite <- (take_drop 36 (ks cx)) at 1. assert (length (take 36 (ks cx)) = 36%nat) as H36 by (rewrite length_take, Hl; done).
    rewrite !wr_app_r, H36 by (rewrite H36; vm_compute; lia). f_equal.
    assert (length (drop 36 (ks cx)) = 8%nat) as H8 by (rewrite length_drop, Hl; done).
    generalize dependent (drop 36 (ks cx)). intros l H8.
    do 8 (destruct l as [|? l]; [discriminate H8|]). destruct l; [|discriminate H8]. reflexivity. }
  cbv zeta. five_access. rewrite Hk0.
  destruct (next4_words 0 key) as [Hx Hb1]; [lia|done|]. set (k1 := Fips.next_key SB _ key) in *.
  destruct (kdf4_spec 0 pre old [] _ _ _ _ u _ _ _ _ ltac:(lia) ltac:(lia) Ho Hx eq_refl) as (e1 & E1).
  change (kdf4 (pre ++ old ++ words key ++ [], words key ++ [u]) 0 =
    (pre ++ imw k1 ++ words key ++ [], perm_words 1 k1 ++ [e1])) in E1.
  change [word_in key 0; word_in key 1; word_in key 2; word_in key 3; u] with (words key ++ [u]). rewrite E1.
  change [1; 2; 3; 4; 5; 6; 7; 8] with (seqZ 1 (Z.of_nat 8)).
  destruct (kd4_loop 8 1 pre k1 (words key ++ []) e1) as (pre2 & e2 & E2 & Hl2 & Hb2 & Hf2); [lia|lia|lia|done|].
  change (1 mod 4) with 1 in E2. rewrite E2. change ((1 + Z.of_nat 8) mod 4) with (9 mod 4).
  assert (rks = k1 :: round_keys (map (rd rc_data) (seqZ 1 (Z.of_nat 8))) k1) as Er.
  { unfold rks. by rewrite (seqZ_cons 0 9) by lia. }
  set (rks1 := round_keys (map (rd rc_data) (seqZ 1 (Z.of_nat 8))) k1) in *. clearbody rks1. unfold k10. rewrite Er.
  change (last_key (k1 :: rks1) key) with (last_key rks1 k1). clear E1 E2 Er Hx k10 rks. set (lk := last_key rks1 k1) in *.
  destruct (split_pre pre2 0) as (pre3 & old3 & -> & Hp3 & Ho3); [lia|]. apply nil_length_inv in Hp3 as ->.
  destruct (next4_words 9 lk) as [Hx Hb]; [lia|done|].
  destruct (rev_last rks1 k1) as [l El]. fold lk in El.
  assert (concat (map imw (rev rks1)) ++ imw k1 ++ words key ++ [] = imw lk ++ concat (map imw l) ++ words key) as Eq.
  { rewrite app_nil_r, !app_assoc. f_equal. change (imw lk ++ concat (map imw l)) with (concat (map imw (lk :: l))).
    rewrite <- El. cbn [rev]. rewrite map_app, concat_app. cbn [map concat]. by rewrite app_nil_r. }
  rewrite <- app_assoc, Eq.
  pose proof (kdl4_spec 9 [] old3 (concat (map imw l) ++ words key) _ _ _ _ e2 _ _ _ _ eq_refl Ho3 Hx eq_refl) as E3.
  unfold imw at 1 2, perm_words, words at 1. unfold imw in E3. cbn [app].
  destruct (kdl4 _ 9) as [k ss]. cbn [fst] in E3. cbn [ks inf_b]. split_and!; [|done|by apply Forall_cons_2|done].
  rewrite E3, El. reflexivity.
Qed.

#[local] Transparent kdf4 kd4 kdl4 inv_mcol ls_box Fips.next_key.


(** ** The inverse cipher *)

Lemma inv_round_ext rm x k post :
  (rm = inv_rnd \/ rm = inv_lrnd) -> length k = 4%nat -> round rm x (k ++ post) = round rm x k.
Proof.
  intros Hrm Hk. destruct k as [|a [|b [|c [|d [|? ?]]]]]; try discriminate Hk. by destruct Hrm as [-> | ->].
Qed.

Lemma inv_rounds_app isb keys key : forall s,
  inv_rounds isb (keys ++ [key]) s = inv_last_round isb key (foldl (fun s k => inv_full_round isb k s) s keys).
Proof.
  induction keys as [|k keys IH]; intros s; [done|]. cbn [app foldl]. rewrite <- IH. by destruct keys.
Qed.

(** The rounds of the unrolled code, [keys] being the round keys still to use
    before the last. *)
Lemma inv_rounds_spec keys : forall key s post pre n,
  Forall block keys -> block key -> block s -> length pre = (4 * n)%nat ->
  let kp := pre ++ concat (map imw keys) ++ words key ++ post in
  let m := length keys in
  round inv_lrnd (foldl (fun b0 j => round inv_rnd b0 (round_key kp j)) (words s) (seq n m)) (round_key kp (n + m)) =
    words (inv_rounds SBI (keys ++ [key]) s) /\
  block (inv_rounds SBI (keys ++ [key]) s).
Proof.
  induction keys as [|k keys IH]; intros key s post pre n Hks Hk Hs Hpre; cbn zeta;
    (assert (forall post, round_key (pre ++ post) n = post) as Hdrop
      by (intros q; unfold round_key; apply drop_app_length'; lia)).
  - cbn [length seq foldl map concat app inv_rounds]. rewrite Nat.add_0_r, Hdrop, inv_round_ext by auto.
    split; [by apply inv_round_spec|by apply inv_last_round_block].
  - apply List.Forall_cons_iff in Hks as [Hk1 Hks]. cbn [length seq foldl map concat app].
    rewrite <- app_assoc, Hdrop, inv_round_ext by auto.
    change (round inv_rnd (words s) (imw k)) with (round inv_rnd (words s) (map inv_mcol (words k))).
    rewrite inv_mcol_words, inv_full_round_spec by done.
    destruct (IH key (inv_full_round SBI k s) post (pre ++ imw k) (S n)) as [IH1 IH2];
      [done|done|by apply inv_full_round_block|rewrite length_app; cbn [length imw words map]; lia|].
    cbn zeta in IH1. rewrite <- app_assoc in IH1. replace (n + S (length keys))%nat with (S n + length keys)%nat by lia.
    rewrite IH1. by destruct keys.
Qed.

Lemma round_keys_app r rc : forall key,
  round_keys (rc ++ [r]) key = round_keys rc key ++ [Fips.next_key SB r (last_key (round_keys rc key) key)].
Proof. induction rc as [|r1 rc IH]; intros key; [done|]. cbn [app round_keys]. by rewrite IH. Qed.

Lemma xor_block_cancel k s : block k -> block s -> xor_bytes k (xor_bytes k s) = s.
Proof.
  intros [_ Hk] [_ Hs]. rewrite xor_bytes_comm, (xor_bytes_comm k s). apply xor_bytes_cancel. lia.
Qed.

Lemma inv_last_round_last k s : block k -> block s -> inv_last_round SBI k (Fips.shift_rows (Fips.sub_bytes SB s)) = xor_bytes k s.
Proof.
  intros Hk Hs. unfold inv_last_round. rewrite inv_shift_rows_shift by by apply sub_bytes_block.
  by rewrite inv_sub_bytes_sub by apply Hs.
Qed.

(** Undoing the rounds leaves the state the first one shifted. *)
Lemma inv_rounds_undo rc : forall key s,
  rc <> [] -> bytes rc -> block key -> block s ->
  exists k keys, rev (round_keys rc key) = k :: keys /\
    foldl (fun s k => inv_full_round SBI k s) (xor_bytes k (Fips.rounds SB rc key s)) keys =
      Fips.shift_rows (Fips.sub_bytes SB s).
Proof.
  induction rc as [|r rc IH]; intros key s Hne Hrc Hk Hs; [done|].
  apply List.Forall_cons_iff in Hrc as [Hr Hrc]. cbn [round_keys rev].
  pose proof (next_key_block r key Hr Hk) as Hk1. set (k1 := Fips.next_key SB r key) in *.
  assert (block (Fips.shift_rows (Fips.sub_bytes SB s))) as Hss by by apply shift_rows_block, sub_bytes_block.
  destruct rc as [|r' rc].
  - exists k1, []. split; [done|]. cbn [foldl Fips.rounds]. fold k1. by apply xor_block_cancel.
  - destruct (IH k1 (Fips.full_round SB k1 s)) as (k & keys & -> & E); [done|done|done|by apply full_round_block|].
    exists k, (keys ++ [k1]). split; [done|]. rewrite foldl_app.
    change (Fips.rounds SB (r :: r' :: rc) key s) with (Fips.rounds SB (r' :: rc) k1 (Fips.full_round SB k1 s)).
    rewrite E. cbn [foldl]. unfold inv_full_round. rewrite inv_last_round_last by auto using full_round_block.
    unfold Fips.full_round, Fips.add_round_key. rewrite xor_block_cancel by auto using mix_columns_block.
    by apply inv_mix_columns_mix.
Qed.

Lemma round_keys_block rc : forall key, bytes rc -> block key -> Forall block (round_keys rc key).
Proof.
  induction rc as [|r rc IH]; intros key Hrc Hk; [constructor|]. apply List.Forall_cons_iff in Hrc as [Hr Hrc].
  constructor; [|apply IH; [done|]]; by apply next_key_block.
Qed.

Lemma inv_rounds_sbox keys : forall s,
  Forall block keys -> block s -> inv_rounds inv_sbox keys s = inv_rounds SBI keys s.
Proof.
  assert (forall s, bytes s -> map inv_sbox s = map SBI s) as Hmap.
  { intros s Hs. apply map_ext_Forall. eapply List.Forall_impl; [|exact Hs].
    intros x Hx. symmetry. by apply SBI_inv_sbox. }
  induction keys as [|k keys IH]; intros s Hks Hs; [done|]. apply List.Forall_cons_iff in Hks as [Hk Hks].
  assert (inv_last_round inv_sbox k s = inv_last_round SBI k s) as El.
  { unfold inv_last_round, Fips.sub_bytes. rewrite Hmap; [done|]. by apply inv_shift_rows_block. }
  destruct keys as [|k' keys]; [done|]. cbn [inv_rounds]. unfold inv_full_round. rewrite El.
  apply IH; [done|]. by apply inv_full_round_block.
Qed.

Lemma expand_round_keys rc : forall key,
  bytes rc -> block key -> expand Fips.sbox rc key = key :: round_keys rc key.
Proof.
  induction rc as [|r rc IH]; intros key Hrc Hk; [done|]. apply List.Forall_cons_iff in Hrc as [Hr Hrc].
  cbn [expand round_keys]. assert (Fips.next_key Fips.sbox r key = Fips.next_key SB r key) as ->.
  { unfold Fips.next_key. by rewrite <- !SB_sbox by (apply rd_u8, Hk). }
  f_equal. apply IH; [done|]. by apply next_key_block.
Qed.

(** The round keys in the order of decryption. *)
Lemma expanded_keys key :
  block key ->
  let rks := round_keys (map (rd rc_data) (seqZ 0 9)) key in
  let k10 := Fips.next_key SB (rd rc_data 9) (last_key rks key) in
  rev (round_keys (Fips.rcons 10 1) key) = k10 :: rev rks /\
  rev (expand Fips.sbox (Fips.rcons 10 1) key) = k10 :: rev rks ++ [key].
Proof.
  intros Hk. assert (Fips.rcons 10 1 = map (rd rc_data) (seqZ 0 9) ++ [rd rc_data 9]) as -> by done.
  assert (bytes (map (rd rc_data) (seqZ 0 9) ++ [rd rc_data 9])) as Hrc by decide_true.
  rewrite expand_round_keys, round_keys_app by done. cbn [rev]. by rewrite rev_app_distr.
Qed.

Lemma key_decrypts u key cx ct :
  block key -> block ct -> length (ks cx) = KS_LENGTH ->
  aes_decrypt ct (aes_decrypt_key128 u key cx) = Some (inv_cipher key ct) /\ block (inv_cipher key ct).
Proof.
  intros Hk Hc Hl. destruct (decrypt_schedule u key cx Hk Hl) as (Eks & Einf & Hf & Hb).
  destruct (expanded_keys key Hk) as [_ Ee]. unfold inv_cipher. rewrite Ee.
  set (rks := round_keys _ key) in *. set (k10 := Fips.next_key SB _ _) in *. cbn zeta iota in *.
  pose proof (xor_block k10 ct Hb Hc) as Hx.
  assert (Forall block (rev rks)) as Hfr by by apply Forall_rev.
  assert (length (rev rks) = 9%nat) as Hlr by (rewrite length_rev; done).
  assert (Forall block (rev rks ++ [key])) as Hfa by (apply Forall_app; auto).
  rewrite inv_rounds_sbox by done. change (Fips.add_round_key k10 ct) with (xor_bytes k10 ct).
  destruct (inv_rounds_spec (rev rks) key (xor_bytes k10 ct) [] (words k10) 1) as [Hr Hbl]; [done..|].
  split; [|done]. rewrite Hlr, app_nil_r in Hr. cbn zeta in Hr. unfold aes_decrypt. rewrite Einf.
  change (rd [160; 0; 0; 0] 0) with (10 * 16). rewrite Z.eqb_refl.
  change (10 * 16 =? 14 * 16) with false. change (10 * 16 =? 12 * 16) with false. cbn [negb andb orb].
  rewrite Eks, state_in_spec by done. cbn zeta.
  set (kl := words k10 ++ _) in *. clearbody kl.
  rewrite <- (state_out_spec (inv_rounds _ _ _) Hbl), <- Hr. reflexivity.
Qed.

(** C15. With the schedule of [aes_decrypt_key128], whatever the fifth word of
    [ss] held, [aes_decrypt] is the inverse cipher of FIPS 197. *)
Theorem aes_decrypt_is_inverse_cipher u key cx ct :
  block key -> block ct -> length (ks cx) = KS_LENGTH ->
  aes_decrypt ct (aes_decrypt_key128 u key cx) = Some (inv_cipher key ct).
Proof. intros. by apply key_decrypts. Qed.

Lemma aes_decrypt_is_inverse_cipher_witness :
  let key := map Z.of_nat (seq 0 16) in
  let ct := map (fun i => 17 * Z.of_nat i) (seq 0 16) in
  let cx := mk_aes_ctx (replicate 44 0) [0; 0; 0; 0] in
  aes_decrypt ct (aes_decrypt_key128 7 key cx) = Some (inv_cipher key ct).
Proof. apply aes_decrypt_is_inverse_cipher; decide_true. Defined.

Lemma inv_cipher_undo key pt :
  block key -> block pt -> inv_cipher key (Fips.cipher key pt) = pt.
Proof.
  intros Hk Hp. assert (bytes (Fips.rcons 10 1)) as Hrc by decide_true.
  pose proof (xor_block key pt Hk Hp) as Hx.
  destruct (inv_rounds_undo (Fips.rcons 10 1) key (xor_bytes key pt)) as (k & keys & Er & Eu); [done..|].
  unfold Fips.cipher, inv_cipher. rewrite expand_round_keys by done. cbn [rev]. rewrite Er. cbn [app].
  destruct (rounds_spec (Fips.rcons 10 1) key (xor_bytes key pt) [] (words key) 1) as [_ Hb]; [done..|].
  assert (Forall block (k :: keys)) as Hf by (rewrite <- Er; by apply Forall_rev, round_keys_block).
  apply List.Forall_cons_iff in Hf as [Hkk Hf]. unfold Fips.add_round_key. rewrite rounds_sbox by done.
  rewrite inv_rounds_sbox by (by apply xor_block || (apply Forall_app; auto)).
  rewrite inv_rounds_app, Eu, inv_last_round_last by done. by apply xor_block_cancel.
Qed.

(** Decryption undoes encryption: with schedules made from the same key,
    [aes_decrypt] gives back every block that [aes_encrypt] encrypted. *)
Theorem aes_decrypt_encrypt u key cx cx' pt :
  block key -> block pt -> length (ks cx) = KS_LENGTH -> length (ks cx') = KS_LENGTH ->
  exists ct, aes_encrypt pt (aes_encrypt_key128 key cx) = Some ct /\
    aes_decrypt ct (aes_decrypt_key128 u key cx') = Some pt.
Proof.
  intros Hk Hp Hl Hl'. destruct (key_encrypts key cx pt Hk Hp Hl) as [Ee Hc].
  exists (Fips.cipher key pt). split; [done|].
  rewrite (proj1 (key_decrypts u key cx' _ Hk Hc Hl')). by rewrite inv_cipher_undo.
Qed.

Lemma aes_decrypt_encrypt_witness :
  let key := map Z.of_nat (seq 0 16) in
  let pt := map (fun i => 17 * Z.of_nat i) (seq 0 16) in
  let cx := mk_aes_ctx (replicate 44 0) [0; 0; 0; 0] in
  exists ct, aes_encrypt pt (aes_encrypt_key128 key cx) = Some ct /\
    aes_decrypt ct (aes_decrypt_key128 7 key cx) = Some pt.
Proof. apply aes_decrypt_encrypt; decide_true. Defined.
