(* ===== verification/Gf128.v ===== *)
(** * Multiplication in GF(2^128)

    GEC-block/src/gf128mul.c and gf_mul_lo.h with the block operations of
    mode_hdr.h, in the configuration the headers select: GCM's LB
    representation, 32-bit units on a little-endian machine, 4K tables.  A
    field element is the sixteen bytes of memory that hold it; the 32-bit
    accesses of the code are [unit_rd] and [unit_wr].  The table-driven
    product is proved to be the product of NIST SP 800-38D, section 6.3. *)

From S2P Require Import Prelude Aes.

Local Open Scope Z_scope.

(** ** mode_hdr.h: blocks as memory *)

Definition BUF_INC : nat := 4.

(** [UNIT_PTR(x)[n]]. *)
Definition unit_rd (x : list Z) (n : nat) : Z := le_word (slice (4 * n) 4 x).
Definition unit_wr (x : list Z) (n : nat) (v : Z) : list Z := memcpy_at x (4 * n) (le_bytes 4 v).

Definition zero_block : list Z := replicate 16 0.

Definition xor_block (p q : list Z) : list Z := xor_bytes p q.

(** [rep3_u4(f_xor, r, p, q, c)]. *)
Definition xor_block_aligned (p q : list Z) : list Z :=
  foldl (fun r n => unit_wr r n (Z.lxor (unit_rd p n) (unit_rd q n))) zero_block [0; 1; 2; 3]%nat.

Definition copy_block_aligned (q : list Z) : list Z :=
  foldl (fun p n => unit_wr p n (unit_rd q n)) zero_block [0; 1; 2; 3]%nat.

(** ** gf_mul_lo.h *)

(** [MASK(x)]: the byte [x] in every byte of a unit. *)
Definition MASK (x : Z) : Z := u32 (x * (0xffffffff / 0xff)).

Definition gf_uint16_xor (i : Z) : Z :=
  Z.lxor (Z.lxor (Z.lxor (Z.lxor (Z.lxor (Z.lxor (Z.lxor
    (if Z.land i 0x80 =? 0 then 0 else 0x00e1) (if Z.land i 0x40 =? 0 then 0 else 0x8070))
    (if Z.land i 0x20 =? 0 then 0 else 0x4038)) (if Z.land i 0x10 =? 0 then 0 else 0x201c))
    (if Z.land i 0x08 =? 0 then 0 else 0x100e)) (if Z.land i 0x04 =? 0 then 0 else 0x0807))
    (if Z.land i 0x02 =? 0 then 0 else 0x8403)) (if Z.land i 0x01 =? 0 then 0 else 0xc201).

Definition gf_tab : list Z := map gf_uint16_xor (seqZ 0 256).

Definition f1_lb (n : nat) (x : list Z) : Z :=
  Z.lor (Z.land (Z.shiftr (unit_rd x n) 1) (u32 (Z.lnot (MASK 0x80))))
    (Z.land (Z.lor (u32 (Z.shiftl (unit_rd x n) 15))
               (match n with O => 0 | S m => Z.shiftr (unit_rd x m) 17 end)) (MASK 0x80)).

Definition f8_lb (n : nat) (x : list Z) : Z :=
  Z.lor (u32 (Z.shiftl (unit_rd x n) 8))
    (match n with O => 0 | S m => Z.shiftr (unit_rd x m) 24 end).

(** [r] and [x] are different blocks. *)
Definition gf_mulx1_lb (x : list Z) : list Z :=
  let tt := rd gf_tab (Z.land (Z.shiftr (unit_rd x 3) 17) (MASK 0x80)) in
  let r := foldl (fun r n => unit_wr r n (f1_lb n x)) zero_block [3; 2; 1; 0]%nat in
  unit_wr r 0 (Z.lxor (unit_rd r 0) tt).

(** In place: the units are written from the last to the first, each from
    units that still hold their old values. *)
Definition gf_mulx8_lb (x : list Z) : list Z :=
  let tt := rd gf_tab (Z.shiftr (unit_rd x 3) 24) in
  let x := foldl (fun x n => unit_wr x n (f8_lb n x)) x [3; 2; 1; 0]%nat in
  unit_wr x 0 (Z.lxor (unit_rd x 0) tt).

(** ** gf128mul.c *)

(** [X_0 .. X_7]. *)
Definition x_bits : list Z := [0x80; 0x40; 0x20; 0x10; 0x08; 0x04; 0x02; 0x01].

(** The eight conditional additions for the byte [ch]. *)
Definition add_bits (p : list (list Z)) (ch : Z) (a : list Z) : list Z :=
  foldl (fun a pb => if Z.land ch (pb : list Z * Z).2 =? 0 then a else xor_block_aligned a pb.1)
    a (combine p x_bits).

(** [p[0] = a], [p[i+1] = x * p[i]]. *)
Fixpoint powers (n : nat) (a : list Z) : list (list Z) :=
  match n with
  | O => [a]
  | S n => a :: powers n (gf_mulx1_lb a)
  end.

(** The loop over the bytes of [b] from the last; [i] is the index of the
    byte about to be used. *)
Fixpoint mulTMD_loop (i : nat) (p : list (list Z)) (q a : list Z) : list Z :=
  let a := add_bits p (rd q (Z.of_nat i)) a in
  match i with
  | O => a
  | S i => mulTMD_loop i p q (gf_mulx8_lb a)
  end.

(** When [a] and [b] are the same array, [q] is the copy [p[0]]. *)
Definition gf_mulTMD (a b : list Z) : list Z :=
  mulTMD_loop 15 (powers 7 a) b zero_block.

(** [t[j] = x * t[2j]] for [j = 64, 32, .. 1]. *)
Definition fill_powers (t : list (list Z)) : list (list Z) :=
  foldl (fun t j => <[j := gf_mulx1_lb (default [] (t !! (j + j)%nat))]> t) t
    [64; 32; 16; 8; 4; 2; 1]%nat.

(** [t[j + k] = t[j] ^ t[k]] for [k = 1 .. j - 1]. *)
Definition fill_row (t : list (list Z)) (j : nat) : list (list Z) :=
  foldl (fun t k => <[(j + k)%nat := xor_block_aligned (default [] (t !! j)) (default [] (t !! k))]> t)
    t (seq 1 (j - 1)).

(** [t] is the table's memory, whatever it holds. *)
Definition init_4k_table (g : list Z) (t : list (list Z)) : list (list Z) :=
  let t := <[0%nat := zero_block]> t in
  let t := <[128%nat := g]> t in
  foldl fill_row (fill_powers t) [2; 4; 8; 16; 32; 64; 128]%nat.

(** The bytes of [a] from the last; [i] counts the bytes left. *)
Fixpoint mul_4k_loop (i : nat) (ap : list Z) (t : list (list Z)) (r : list Z) : list Z :=
  match i with
  | O => r
  | S i =>
      mul_4k_loop i ap t
        (xor_block_aligned (gf_mulx8_lb r)
           (default [] (t !! Z.to_nat (rd ap (Z.of_nat i)))))
  end.

Definition gf_mul_4k (a : list Z) (t : list (list Z)) : list Z :=
  copy_block_aligned (mul_4k_loop 16 a t zero_block).

(** ** NIST SP 800-38D *)

Module Nist.
(** A block as the 128-bit string of the standard, first bit highest. *)
Definition of_block (b : list Z) : Z := foldl (fun v x => 256 * v + x) 0 b.

Definition R : Z := Z.shiftl 0xe1 120.

(** Multiplication by [x] (the step on [V] in section 6.3). *)
Definition mulx (v : Z) : Z :=
  Z.lxor (Z.shiftr v 1) (if Z.odd v then R else 0).

(** [X . Y]: for each bit of [X] from the first, add [V] and step it. *)
Fixpoint mul_loop (n : nat) (x z v : Z) : Z :=
  match n with
  | O => z
  | S n => mul_loop n x (if Z.testbit x (Z.of_nat n) then Z.lxor z v else z) (mulx v)
  end.
Definition mul (x y : Z) : Z := mul_loop 128 x 0 y.
End Nist.

(** ** The block operations *)

Section block_operations.
#[local] Opaque le_bytes le_word.

Lemma unit_wr_le_word r n l :
  bytes l -> length l = 4%nat -> unit_wr r n (le_word l) = memcpy_at r (4 * n) l.
Proof. intros Hb Hl. unfold unit_wr. by rewrite <- Hl, le_bytes_le_word. Qed.

Lemma unit_xor_block p q n :
  block p -> block q -> (n < 4)%nat ->
  Z.lxor (unit_rd p n) (unit_rd q n) = le_word (slice (4 * n) 4 (xor_bytes p q)).
Proof.
  intros [Hp Hlp] [Hq Hlq] Hn. unfold unit_rd.
  rewrite le_word_lxor by (auto with words; by rewrite !length_slice by lia). f_equal.
  unfold slice, xor_bytes. by rewrite zip_with_drop, zip_with_take.
Qed.

(** Writing the four units of a block writes the block. *)
Lemma unit_writes (x : nat -> Z) s :
  block s -> (forall n, (n < 4)%nat -> x n = le_word (slice (4 * n) 4 s)) ->
  foldl (fun r n => unit_wr r n (x n)) zero_block [0; 1; 2; 3]%nat = s.
Proof.
  intros Hs Hx. cbn [foldl]. rewrite !Hx by lia.
  pose proof Hs as [Hb Hl].
  rewrite !unit_wr_le_word by (rewrite ?length_slice by lia; auto with words).
  clear Hx Hb Hl x. by explode s.
Qed.

Lemma xor_block_aligned_spec p q :
  block p -> block q -> xor_block_aligned p q = xor_bytes p q.
Proof. intros. apply unit_writes; [by apply Aes.xor_block|]. intros. by apply unit_xor_block. Qed.

Lemma copy_block_aligned_spec q : block q -> copy_block_aligned q = q.
Proof. intros. by apply unit_writes. Qed.
End block_operations.

Lemma zero_block_block : block zero_block.
Proof. decide_true. Qed.

(** ** Blocks as numbers *)

Section of_block.
Import Nist.

Lemma of_block_acc l v : foldl (fun v x => 256 * v + x) v l = v * 256 ^ Z.of_nat (length l) + of_block l.
Proof.
  unfold of_block. revert v. induction l as [|x l IH]; intros v.
  { cbn [foldl length]. change (256 ^ Z.of_nat 0) with 1. lia. }
  cbn [foldl length]. rewrite IH, (IH (256 * 0 + x)), Nat2Z.inj_succ, Z.pow_succ_r by lia. lia.
Qed.

Lemma of_block_cons x l : of_block (x :: l) = x * 256 ^ Z.of_nat (length l) + of_block l.
Proof. unfold of_block at 1. cbn [foldl]. by rewrite of_block_acc. Qed.

Lemma of_block_snoc l x : of_block (l ++ [x]) = 256 * of_block l + x.
Proof. unfold of_block. by rewrite foldl_app. Qed.

Lemma of_block_range l : bytes l -> in_range (8 * Z.of_nat (length l)) (of_block l).
Proof.
  induction 1 as [|x l Hx Hl IH]; [done|]. rewrite of_block_cons. unfold in_range in *.
  cbn [length]. rewrite Nat2Z.inj_succ.
  replace (8 * Z.succ (Z.of_nat (length l))) with (8 + 8 * Z.of_nat (length l)) by lia.
  rewrite Z.pow_add_r by lia. change 256 with (2 ^ 8). rewrite <- Z.pow_mul_r by lia.
  change (2 ^ 8) with 256 in *. nia.
Qed.

Lemma add_byte_lxor v x : is_u8 x -> 256 * v + x = Z.lxor (Z.shiftl v 8) x.
Proof.
  intros Hx. rewrite Z.add_nocarry_lxor; [by rewrite Z.shiftl_mul_pow2, Z.mul_comm by lia|].
  bit_ext i. rewrite Z.land_spec, Z.bits_0. change 256 with (2 ^ 8).
  rewrite Z.mul_comm. destruct (decide (i < 8)).
  - by rewrite Z.mul_pow2_bits_low by lia.
  - rewrite (in_range_testbit_high 8 x) by (done || lia). by rewrite andb_false_r.
Qed.

Lemma of_block_inj_len a : forall b,
  bytes a -> bytes b -> length a = length b -> of_block a = of_block b -> a = b.
Proof.
  induction a as [|x a IH]; intros [|y b] Ha Hb Hl He; try done.
  apply List.Forall_cons_iff in Ha as [Hx Ha], Hb as [Hy Hb]. injection Hl as Hl.
  rewrite !of_block_cons, Hl in He. pose proof (of_block_range a Ha) as Ra. pose proof (of_block_range b Hb) as Rb.
  rewrite Hl in Ra. unfold in_range in *. rewrite Z.pow_mul_r in Ra, Rb by lia. change (2 ^ 8) with 256 in *.
  assert (x = y) as -> by nia. f_equal. apply IH; [done..|lia].
Qed.

Lemma of_block_lxor a : forall b,
  bytes a -> bytes b -> length a = length b ->
  of_block (xor_bytes a b) = Z.lxor (of_block a) (of_block b).
Proof.
  induction a as [|x a IH] using rev_ind; intros b Ha Hb Hl.
  { by destruct b. }
  destruct b as [|y b _] using rev_ind; [rewrite length_app in Hl; cbn in Hl; lia|].
  rewrite !length_app in Hl. cbn in Hl.
  apply Forall_app in Ha as [Ha Hx], Hb as [Hb Hy]. apply List.Forall_inv in Hx, Hy.
  unfold xor_bytes. rewrite zip_with_app by lia. cbn [zip_with]. fold (xor_bytes a b).
  rewrite !of_block_snoc, IH by (done || lia).
  rewrite !add_byte_lxor by auto with words. rewrite Z.shiftl_lxor.
  bit_ext i. rewrite !Z.lxor_spec. by repeat destruct (Z.testbit _ _).
Qed.

Lemma mulx_lxor a b : mulx (Z.lxor a b) = Z.lxor (mulx a) (mulx b).
Proof.
  unfold mulx. rewrite Z.shiftr_lxor, <- !Z.bit0_odd, Z.lxor_spec.
  bit_ext i. rewrite !Z.lxor_spec.
  destruct (Z.testbit a 0), (Z.testbit b 0); cbn [xorb]; rewrite ?Z.bits_0;
    by repeat destruct (Z.testbit _ _).
Qed.

Lemma mulx_double q : mulx (2 * q) = q.
Proof.
  unfold mulx. rewrite Z.odd_mul. cbn [Z.odd andb]. rewrite Z.lxor_0_r, Z.shiftr_div_pow2 by done.
  change (2 ^ 1) with 2. rewrite Z.mul_comm. by apply Z.div_mul.
Qed.

Lemma mulx_iter_lxor n a b :
  Nat.iter n mulx (Z.lxor a b) = Z.lxor (Nat.iter n mulx a) (Nat.iter n mulx b).
Proof. induction n as [|n IH]; [done|]. by rewrite !Nat.iter_succ, IH, mulx_lxor. Qed.

Lemma mulx8_byte q r :
  is_u8 r -> Nat.iter 8 mulx (256 * q + r) = Z.lxor q (Nat.iter 8 mulx r).
Proof.
  intros Hr. rewrite add_byte_lxor, mulx_iter_lxor by done. f_equal.
  rewrite Z.shiftl_mul_pow2 by done.
  replace (q * 2 ^ 8) with (2 * (2 * (2 * (2 * (2 * (2 * (2 * (2 * q)))))))) by lia.
  cbn [Nat.iter nat_rect]. by rewrite !mulx_double.
Qed.
End of_block.

(** ** Multiplication by x and x^8 *)

Lemma le_word_testbit_lo b l i : is_u8 b -> i < 8 -> Z.testbit (le_word (b :: l)) i = Z.testbit b i.
Proof.
  intros Hb Hi. cbn [le_word]. rewrite Z.lor_spec.
  rewrite (Z.shiftl_spec_low _ 8 i) by done. apply orb_false_r.
Qed.

Lemma le_word_testbit_hi b l i :
  is_u8 b -> 8 <= i -> Z.testbit (le_word (b :: l)) i = Z.testbit (le_word l) (i - 8).
Proof.
  intros Hb Hi. cbn [le_word]. rewrite Z.lor_spec, Z.shiftl_spec by lia.
  by rewrite (in_range_testbit_high 8 b) by done.
Qed.

(** The bit of a little-endian word at a literal index is a bit of a byte. *)
Ltac word_bit :=
  repeat match goal with
  | |- context [Z.testbit (le_word (?b :: ?l)) ?i] =>
      first [ rewrite (le_word_testbit_lo b l i) by (done || assumption || (cbn; lia))
            | rewrite (le_word_testbit_hi b l i) by (done || assumption || (cbn; lia)) ]
  end.

Definition half (b p : Z) : Z := Z.lor (Z.shiftr b 1) (Z.shiftl (Z.land p 1) 7).

Lemma half_u8 b p : is_u8 b -> is_u8 (half b p).
Proof.
  intros Hb. apply in_range_lor; [done|by apply in_range_shiftr|].
  change 1 with (Z.ones 1). rewrite Z.land_ones, Z.shiftl_mul_pow2 by done. mod_lia.
Qed.

Lemma half_div b p : is_u8 b -> half b p = b / 2 + 128 * (p mod 2).
Proof.
  intros Hb. unfold half. change (Z.land p 1) with (Z.land p (Z.ones 1)).
  rewrite Z.land_ones by done. change (p mod 2 ^ 1) with (p mod 2).
  assert (p mod 2 = 0 \/ p mod 2 = 1) as [-> | ->] by mod_lia.
  - check_bytes b (fun b => Z.lor (Z.shiftr b 1) (Z.shiftl 0 7) =? b / 2 + 128 * 0). by apply Z.eqb_eq.
  - check_bytes b (fun b => Z.lor (Z.shiftr b 1) (Z.shiftl 1 7) =? b / 2 + 128 * 1). by apply Z.eqb_eq.
Qed.

Lemma half_testbit b p i :
  is_u8 b -> 0 <= i < 8 ->
  Z.testbit (half b p) i = if i =? 7 then Z.testbit p 0 else Z.testbit b (i + 1).
Proof.
  intros Hb Hi. unfold half. rewrite Z.lor_spec, Z.shiftr_spec, Z.shiftl_spec by lia.
  destruct (Z.eqb_spec i 7) as [->|].
  - rewrite (in_range_testbit_high 8 b) by (done || lia). cbn [Z.sub orb].
    change (Z.land p 1) with (Z.land p (Z.ones 1)). rewrite Z.land_spec. apply andb_true_r.
  - rewrite (Z.testbit_neg_r _ (i - 7)) by lia. apply orb_false_r.
Qed.

Lemma le_word_bit l : forall q s,
  bytes l -> 0 <= q -> 0 <= s < 8 -> Z.testbit (le_word l) (8 * q + s) = Z.testbit (rd l q) s.
Proof.
  induction l as [|b l IH]; intros q s Hl Hq Hs.
  { unfold rd. rewrite lookup_nil. cbn. by rewrite !Z.bits_0. }
  apply List.Forall_cons_iff in Hl as [Hb Hl]. destruct (decide (q = 0)) as [->|].
  - rewrite le_word_testbit_lo by (done || lia). done.
  - rewrite le_word_testbit_hi by (done || lia).
    replace (8 * q + s - 8) with (8 * (q - 1) + s) by lia. rewrite IH by (done || lia).
    unfold rd. replace (Z.to_nat q) with (S (Z.to_nat (q - 1))) by lia. done.
Qed.

Lemma MASK_testbit q s : 0 <= q < 4 -> 0 <= s < 8 -> Z.testbit (MASK 0x80) (8 * q + s) = (s =? 7).
Proof.
  intros Hq Hs. change (MASK 0x80) with (le_word [0x80; 0x80; 0x80; 0x80]).
  rewrite le_word_bit by (done || lia || decide_true).
  assert (rd [0x80; 0x80; 0x80; 0x80] q = 0x80) as ->.
  { assert (q = 0 \/ q = 1 \/ q = 2 \/ q = 3) as [-> | [-> | [-> | ->]]] by lia; done. }
  change 0x80 with (2 ^ 7). rewrite Z.pow2_bits_eqb by done. apply Z.eqb_sym.
Qed.

(** Array reads at literal indices. *)
Ltac rd_lit :=
  repeat match goal with
  | |- context [rd (?x :: ?l) ?i] =>
      let v := eval cbv [rd default from_option lookup list_lookup Z.to_nat Pos.to_nat Pos.iter_op
                         Init.Nat.add id] in (rd (x :: l) i) in
      change (rd (x :: l) i) with v
  end.

(** One unit of the shift by a bit: [P] is the previous unit shifted right
    by 17, of whose last byte [p] the lowest bit is taken. *)
Lemma f1_word a b c d p P :
  bytes [a; b; c; d] -> is_u32 P ->
  (forall q, 0 <= q < 4 -> Z.testbit P (8 * q + 7) = (q =? 0) && Z.testbit p 0) ->
  let w := le_word [a; b; c; d] in
  Z.lor (Z.land (Z.shiftr w 1) (u32 (Z.lnot (MASK 0x80))))
    (Z.land (Z.lor (u32 (Z.shiftl w 15)) P) (MASK 0x80)) =
  le_word [half a p; half b a; half c b; half d c].
Proof.
  intros Hl HP HPb w.
  pose proof Hl as Hl'. unfold bytes in Hl'. rewrite !List.Forall_cons_iff in Hl'.
  destruct Hl' as (Ha & Hb & Hc & Hd & _).
  assert (bytes [half a p; half b a; half c b; half d c]) as Hh.
  { unfold bytes; rewrite !List.Forall_cons_iff; split_and!; auto using half_u8. }
  bit_ext i. destruct (decide (i < 32)) as [Hi|Hi].
  2:{ rewrite (in_range_testbit_high 32 (le_word _)) by (lia || by apply (le_word_range _ Hh)).
      rewrite Z.lor_spec, !Z.land_spec, wrap_testbit, bool_decide_eq_false_2 by lia.
      rewrite (in_range_testbit_high 32 (MASK 0x80)) by (lia || by apply wrap_range).
      by rewrite !andb_false_r. }
  rewrite Z.lor_spec, !Z.land_spec, Z.lor_spec, !wrap_testbit, Z.lnot_spec by lia.
  rewrite bool_decide_eq_true_2, !andb_true_r, Z.shiftr_spec, Z.shiftl_spec by lia.
  assert (exists q s, i = 8 * q + s /\ 0 <= q < 4 /\ 0 <= s < 8) as (q & s & -> & Hq & Hs).
  { exists (i / 8), (i mod 8). Z.div_mod_to_equations; lia. }
  rewrite MASK_testbit, le_word_bit by (done || lia).
  destruct (Z.eqb_spec s 7) as [->|Hs7]; cbn [negb]; rewrite ?andb_false_r, ?andb_true_r, ?orb_false_r.
  - cbn [orb]. rewrite HPb by done. unfold w.
    assert (q = 0 \/ q = 1 \/ q = 2 \/ q = 3) as [-> | [-> | [-> | ->]]] by lia;
      rd_lit;
      change (Z.eqb _ 0) with false || change (Z.eqb 0 0) with true;
      rewrite ?orb_false_r; cbn [andb orb].
    all: rewrite half_testbit by (done || lia); cbn [Z.eqb Pos.eqb].
    + by rewrite Z.testbit_neg_r.
    + change (8 * 1 + 7 - 15) with (8 * 0 + 0). rewrite le_word_bit by (done || lia). rd_lit.
      by rewrite ?orb_false_r.
    + change (8 * 2 + 7 - 15) with (8 * 1 + 0). rewrite le_word_bit by (done || lia). rd_lit.
      by rewrite ?orb_false_r.
    + change (8 * 3 + 7 - 15) with (8 * 2 + 0). rewrite le_word_bit by (done || lia). rd_lit.
      by rewrite ?orb_false_r.
  - unfold w. replace (8 * q + s + 1) with (8 * q + (s + 1)) by lia.
    rewrite le_word_bit by (done || lia).
    assert (q = 0 \/ q = 1 \/ q = 2 \/ q = 3) as [-> | [-> | [-> | ->]]] by lia;
      rd_lit;
      rewrite half_testbit by (done || lia); (apply Z.eqb_neq in Hs7; by rewrite Hs7).
Qed.

Lemma f8_word a b c d p :
  bytes [a; b; c; d] -> is_u8 p ->
  Z.lor (u32 (Z.shiftl (le_word [a; b; c; d]) 8)) p = le_word [p; a; b; c].
Proof.
  intros Hl Hp. pose proof Hl as Hl'. unfold bytes in Hl'. rewrite !List.Forall_cons_iff in Hl'.
  destruct Hl' as (Ha & Hb & Hc & Hd & _).
  assert (bytes [a; b; c]) as H3 by byte_lists.
  change (le_word [p; a; b; c]) with (Z.lor p (Z.shiftl (le_word [a; b; c]) 8)).
  rewrite Z.lor_comm. f_equal.
  bit_ext i. rewrite wrap_testbit by done. rewrite !Z.shiftl_spec by done.
  case_bool_decide; rewrite ?andb_true_r, ?andb_false_r.
  - destruct (decide (i < 8)) as [|]; [by rewrite !Z.testbit_neg_r by lia|].
    assert (exists q s, i - 8 = 8 * q + s /\ 0 <= q < 3 /\ 0 <= s < 8) as (q & s & -> & Hq & Hs).
    { exists ((i - 8) / 8), ((i - 8) mod 8). Z.div_mod_to_equations; lia. }
    rewrite !le_word_bit by (done || lia).
    assert (q = 0 \/ q = 1 \/ q = 2) as [-> | [-> | ->]] by lia; done.
  - symmetry. apply (in_range_testbit_high 24); [done|by apply (le_word_range _ H3)|lia].
Qed.

Lemma shiftr_24 a b c d : bytes [a; b; c; d] -> Z.shiftr (le_word [a; b; c; d]) 24 = d.
Proof.
  intros Hl. pose proof (le_bytes_le_word _ Hl) as H. cbn [length le_bytes] in H.
  injection H as _ _ _ H. rewrite !Z.shiftr_shiftr in H by done. cbn [Z.add Pos.add Pos.succ] in H.
  rewrite <- H at 2. change 255 with (Z.ones 8). rewrite Z.land_ones by done.
  symmetry. apply Z.mod_small. rewrite Z.shiftr_div_pow2 by done.
  pose proof (le_word_range _ Hl) as Hr. unfold in_range in Hr. cbn [length] in Hr.
  split; [apply Z.div_pos; [apply Hr|done]|]. apply Z.div_lt_upper_bound; [done|]. apply Hr.
Qed.

Lemma shiftr_17 a b c d q :
  bytes [a; b; c; d] -> 0 <= q ->
  Z.testbit (Z.shiftr (le_word [a; b; c; d]) 17) (8 * q + 7) = (q =? 0) && Z.testbit d 0.
Proof.
  intros Hl Hq. rewrite Z.shiftr_spec by lia.
  replace (8 * q + 7 + 17) with (8 * (q + 3) + 0) by lia. rewrite le_word_bit by (done || lia).
  destruct (Z.eqb_spec q 0) as [->|]; [done|].
  unfold rd. rewrite lookup_ge_None_2 by (cbn; lia). done.
Qed.

Lemma tab_index a b c d :
  bytes [a; b; c; d] ->
  Z.land (Z.shiftr (le_word [a; b; c; d]) 17) (MASK 0x80) = if Z.odd d then 0x80 else 0.
Proof.
  intros Hl. bit_ext i. rewrite Z.land_spec.
  assert (Z.testbit (if Z.odd d then 0x80 else 0) i = (i =? 7) && Z.testbit d 0) as ->.
  { rewrite Z.bit0_odd. destruct (Z.odd d); rewrite ?andb_false_r, ?andb_true_r, ?Z.bits_0; [|done].
    change 0x80 with (2 ^ 7). rewrite Z.pow2_bits_eqb by done. apply Z.eqb_sym. }
  destruct (decide (i < 32)).
  - assert (exists q s, i = 8 * q + s /\ 0 <= q < 4 /\ 0 <= s < 8) as (q & s & -> & Hq & Hs).
    { exists (i / 8), (i mod 8). Z.div_mod_to_equations; lia. }
    rewrite MASK_testbit by done. destruct (Z.eqb_spec s 7) as [->|].
    + rewrite andb_true_r, shiftr_17 by (done || lia). f_equal.
      destruct (Z.eqb_spec q 0) as [->|]; [done|]. symmetry. apply Z.eqb_neq. lia.
    + rewrite andb_false_r. destruct (Z.eqb_spec (8 * q + s) 7); [lia|done].
  - rewrite (in_range_testbit_high 32 (MASK 0x80)) by (lia || by apply wrap_range).
    rewrite andb_false_r. destruct (Z.eqb_spec i 7); [lia|done].
Qed.

(** The two shifts of a block, byte by byte. *)
Definition shift1 (s : list Z) : list Z := zip_with half s (0 :: s).

Lemma gf_tab_u16 i : is_u16 (rd gf_tab i).
Proof.
  unfold rd. destruct (gf_tab !! Z.to_nat i) as [v|] eqn:E; [|done]. cbn.
  assert (Forall is_u16 gf_tab) as H by decide_true.
  by apply (Forall_lookup_1 _ _ _ _ H E).
Qed.

Lemma unit_wr_xor0 (s : list Z) v :
  block s -> is_u32 v ->
  unit_wr s 0 (Z.lxor (unit_rd s 0) v) = xor_bytes s (le_bytes 4 v ++ replicate 12 0).
Proof.
  intros Hs Hv. explode s.
  unfold unit_rd, slice. cbn [Nat.mul Nat.add drop take].
  assert (v = le_word (le_bytes 4 v)) as E.
  { rewrite le_word_le_bytes. symmetry. by apply wrap_id. }
  rewrite E at 1. rewrite le_word_lxor by (byte_lists || apply bytes_le_bytes || done).
  rewrite unit_wr_le_word;
    [|apply bytes_xor; [byte_lists|apply bytes_le_bytes]|done].
  unfold xor_bytes, le_bytes, memcpy_at. cbn.
  by rewrite !Z.lxor_0_r.
Qed.

Lemma unit_writes_down (x : nat -> Z) s :
  block s -> (forall n, (n < 4)%nat -> x n = le_word (slice (4 * n) 4 s)) ->
  foldl (fun r n => unit_wr r n (x n)) zero_block [3; 2; 1; 0]%nat = s.
Proof.
  intros Hs Hx. cbn [foldl]. rewrite !Hx by lia.
  pose proof Hs as [Hb Hl].
  rewrite !unit_wr_le_word by (rewrite ?length_slice by lia; auto with words).
  clear Hx Hb Hl x. by explode s.
Qed.

Lemma shift1_block s : block s -> block (shift1 s).
Proof.
  intros Hs. explode s. split; [|done]. unfold shift1. cbn [zip_with].
  unfold bytes; rewrite !List.Forall_cons_iff; split_and!; auto using half_u8.
Qed.

Lemma le_word4_u32 a b c d : bytes [a; b; c; d] -> is_u32 (le_word [a; b; c; d]).
Proof. apply le_word_range. Qed.

Lemma f1_lb_spec s n :
  block s -> (n < 4)%nat -> f1_lb n s = le_word (slice (4 * n) 4 (shift1 s)).
Proof.
  intros Hs Hn. explode s. unfold f1_lb, unit_rd.
  destruct n as [|[|[|[|n]]]]; [..|lia]; unfold shift1, slice; cbn [Nat.mul Nat.add drop take zip_with].
  1: apply f1_word; [byte_lists|done|intros q Hq; rewrite !Z.bits_0; by rewrite andb_false_r].
  all: apply f1_word; [byte_lists| |intros q Hq; by rewrite shiftr_17 by (lia || byte_lists)].
  all: apply in_range_shiftr; [done..|].
  all: apply le_word4_u32; byte_lists.
Qed.

Lemma gf_mulx1_lb_bytes s :
  block s ->
  gf_mulx1_lb s = xor_bytes (shift1 s) ((if Z.odd (rd s 15) then 0xe1 else 0) :: replicate 15 0).
Proof.
  intros Hs. pose proof (shift1_block s Hs) as Hsh. unfold gf_mulx1_lb.
  rewrite (unit_writes_down _ (shift1 s)) by auto using f1_lb_spec.
  rewrite unit_wr_xor0; [|done|by apply (in_range_mono 16), gf_tab_u16].
  f_equal. explode s. unfold unit_rd, slice. cbn [Nat.mul Nat.add drop take].
  rewrite tab_index by byte_lists. rd_lit. by destruct (Z.odd _).
Qed.

Lemma f8_lb_spec s n :
  block s -> (n < 4)%nat -> f8_lb n s = le_word (slice (4 * n) 4 (0 :: s)).
Proof.
  intros Hs Hn. explode s. unfold f8_lb, unit_rd.
  destruct n as [|[|[|[|n]]]]; [..|lia]; unfold slice; cbn [Nat.mul Nat.add drop take].
  1: apply f8_word; [byte_lists|done].
  all: rewrite shiftr_24 by byte_lists; apply f8_word; [byte_lists|done].
Qed.

Lemma f8_step s n :
  block s -> (n < 4)%nat -> unit_wr s n (f8_lb n s) = memcpy_at s (4 * n) (slice (4 * n) 4 (0 :: s)).
Proof.
  intros Hs Hn. pose proof Hs as [Hb Hl]. rewrite f8_lb_spec by done.
  apply unit_wr_le_word; [|by rewrite length_slice by (cbn [length]; lia)].
  apply bytes_slice. by constructor.
Qed.

Lemma f8_step_block s n :
  block s -> (n < 4)%nat -> block (memcpy_at s (4 * n) (slice (4 * n) 4 (0 :: s))).
Proof.
  intros [Hb Hl] Hn. split; [|by rewrite length_memcpy_at].
  apply bytes_memcpy_at; [done|]. apply bytes_slice. by constructor.
Qed.

Lemma gf_mulx8_lb_bytes s :
  block s ->
  gf_mulx8_lb s =
  xor_bytes (0 :: take 15 s) (le_bytes 4 (rd gf_tab (rd s 15)) ++ replicate 12 0).
Proof.
  intros Hs. unfold gf_mulx8_lb. cbn [foldl].
  rewrite (f8_step _ 3), (f8_step _ 2), (f8_step _ 1), (f8_step _ 0)
    by (first [lia | repeat apply f8_step_block; solve [done | lia]]).
  rewrite unit_wr_xor0; [|by repeat apply f8_step_block; solve [done | lia]|by apply (in_range_mono 16), gf_tab_u16].
  assert (Z.shiftr (unit_rd s 3) 24 = rd s 15) as ->.
  { explode s. unfold unit_rd, slice. cbn [Nat.mul Nat.add drop take]. by rewrite shiftr_24 by byte_lists. }
  f_equal. by explode s.
Qed.

Import Nist.

Lemma of_block_shift1 s : block s -> of_block (shift1 s) = Z.shiftr (of_block s) 1.
Proof.
  intros Hs. rewrite Z.shiftr_div_pow2 by done. change (2 ^ 1) with 2. explode s.
  unfold shift1. cbn [zip_with].
  rewrite !half_div by done. unfold of_block. cbn [foldl].
  Z.div_mod_to_equations. lia.
Qed.

Lemma odd_of_block s : block s -> Z.odd (of_block s) = Z.odd (rd s 15).
Proof.
  intros Hs. explode s. rd_lit. unfold of_block. cbn [foldl].
  rewrite Z.add_comm, Z.odd_add_mul_even; [done|]. by exists 128.
Qed.

Lemma gf_mulx1_spec s :
  block s -> of_block (gf_mulx1_lb s) = mulx (of_block s) /\ block (gf_mulx1_lb s).
Proof.
  intros Hs. pose proof (shift1_block s Hs) as Hsh. rewrite gf_mulx1_lb_bytes by done.
  set (e := _ :: replicate 15 0).
  assert (block e /\ of_block e = if Z.odd (rd s 15) then R else 0) as [He Ee].
  { unfold e. destruct (Z.odd _); split; (decide_true || vm_compute; reflexivity). }
  split; [|by apply Aes.xor_block].
  rewrite of_block_lxor by (apply Hsh || apply He || (by rewrite (proj2 Hsh), (proj2 He))).
  rewrite Ee, of_block_shift1, <- odd_of_block by done. done.
Qed.

Lemma gf_mulx8_spec s :
  block s -> of_block (gf_mulx8_lb s) = Nat.iter 8 mulx (of_block s) /\ block (gf_mulx8_lb s).
Proof.
  intros Hs. rewrite gf_mulx8_lb_bytes by done.
  assert (is_u8 (rd s 15)) as H15 by apply rd_u8, Hs.
  set (e := _ ++ replicate 12 0).
  assert (block (0 :: take 15 s)) as Hsh.
  { destruct Hs as [Hb Hl]. split; [constructor; [done|by apply bytes_take]|].
    cbn [length]. rewrite length_take. lia. }
  assert (block e) as He by (split; [apply bytes_app; [apply bytes_le_bytes|decide_true]|done]).
  split; [|by apply Aes.xor_block].
  rewrite of_block_lxor by (apply Hsh || apply He || (by rewrite (proj2 Hsh), (proj2 He))).
  assert (of_block s = 256 * of_block (0 :: take 15 s) + rd s 15) as ->.
  { destruct Hs as [_ Hl]. rewrite of_block_cons, Z.mul_0_l, Z.add_0_l.
    rewrite <- (take_ge s 16) at 1 by lia. by rewrite take_snoc_lookup, of_block_snoc by lia. }
  rewrite mulx8_byte by done. f_equal. unfold e. clear e He Hsh.
  check_bytes (rd s 15) (fun b =>
    of_block (le_bytes 4 (rd gf_tab b) ++ replicate 12 0) =? Nat.iter 8 mulx b).
  apply Z.eqb_eq.
Qed.

(** ** Products of a block with a byte *)

Lemma mul_loop_acc n x : forall z v, mul_loop n x z v = Z.lxor z (mul_loop n x 0 v).
Proof.
  induction n as [|n IH]; intros z v; cbn [mul_loop]; [by rewrite Z.lxor_0_r|].
  rewrite IH, (IH (if Z.testbit x _ then Z.lxor 0 v else 0)). destruct (Z.testbit x _); [|by rewrite Z.lxor_0_l].
  by rewrite Z.lxor_0_l, Z.lxor_assoc.
Qed.

Lemma mul_loop_S n x v :
  mul_loop (S n) x 0 v =
  Z.lxor (if Z.testbit x (Z.of_nat n) then v else 0) (mul_loop n x 0 (mulx v)).
Proof. cbn [mul_loop]. rewrite mul_loop_acc. by destruct (Z.testbit _ _). Qed.

Lemma mul_loop_mulx n x : forall v, mul_loop n x 0 (mulx v) = mulx (mul_loop n x 0 v).
Proof.
  induction n as [|n IH]; intros v; [done|].
  rewrite !mul_loop_S, mulx_lxor, IH. f_equal. by destruct (Z.testbit _ _).
Qed.

Lemma mul_loop_0 n x : mul_loop n x 0 0 = 0.
Proof. induction n as [|n IH]; [done|]. rewrite mul_loop_S. change (mulx 0) with 0. rewrite IH. by destruct (Z.testbit _ _). Qed.

Lemma mul_loop_zero n v : mul_loop n 0 0 v = 0.
Proof. revert v. induction n as [|n IH]; intros v; [done|]. rewrite mul_loop_S, IH. by rewrite Z.bits_0. Qed.

(** The product is additive in the byte... *)
Lemma mul_loop_lxor n x y : forall v,
  mul_loop n (Z.lxor x y) 0 v = Z.lxor (mul_loop n x 0 v) (mul_loop n y 0 v).
Proof.
  induction n as [|n IH]; intros v; [done|]. rewrite !mul_loop_S, IH, Z.lxor_spec.
  bit_ext i. rewrite !Z.lxor_spec.
  destruct (Z.testbit x (Z.of_nat n)), (Z.testbit y (Z.of_nat n)); cbn [xorb]; rewrite ?Z.bits_0;
    by repeat destruct (Z.testbit _ _).
Qed.

(** ... and splits into its first byte and the rest. *)
Lemma mul_loop_split m n x : forall v,
  mul_loop (m + n) x 0 v =
  Z.lxor (mul_loop m (Z.shiftr x (Z.of_nat n)) 0 v) (Nat.iter m mulx (mul_loop n x 0 v)).
Proof.
  induction m as [|m IH]; intros v; [done|].
  cbn [Nat.add]. rewrite !mul_loop_S, IH, Nat.iter_succ_r.
  rewrite Z.shiftr_spec, (mul_loop_mulx n x), <- Nat2Z.inj_add by lia. by rewrite Z.lxor_assoc.
Qed.

Lemma mul_loop_low n x y v :
  (forall i, 0 <= i < Z.of_nat n -> Z.testbit x i = Z.testbit y i) -> mul_loop n x 0 v = mul_loop n y 0 v.
Proof.
  revert v. induction n as [|n IH]; intros v Hxy; [done|].
  rewrite !mul_loop_S, Hxy, IH by (lia || (intros; apply Hxy; lia)). done.
Qed.

(** The product with a block, byte by byte from the last (Horner). *)
Lemma mul_blocks l v :
  bytes l ->
  mul_loop (8 * length l) (of_block l) 0 v =
  foldr (fun b r => Z.lxor (mul_loop 8 b 0 v) (Nat.iter 8 mulx r)) 0 l.
Proof.
  induction 1 as [|b l Hb Hl IH]; [done|]. cbn [foldr]. rewrite <- IH.
  replace (8 * length (b :: l))%nat with (8 + 8 * length l)%nat by (cbn [length]; lia).
  pose proof (of_block_range l Hl) as Hr. unfold in_range in Hr.
  rewrite mul_loop_split, of_block_cons. change 256 with (2 ^ 8).
  rewrite <- Z.pow_mul_r, <- Z.shiftl_mul_pow2 by lia.
  rewrite Nat2Z.inj_mul. change (Z.of_nat 8) with 8. f_equal.
  - f_equal. rewrite Z.shiftr_div_pow2, Z.shiftl_mul_pow2 by lia.
    rewrite Z.div_add_l by lia. rewrite Z.div_small by done. lia.
  - f_equal. apply mul_loop_low. intros i Hi.
    rewrite <- (Z.mod_pow2_bits_low _ (8 * Z.of_nat (length l)) i) by lia.
    rewrite Z.shiftl_mul_pow2, Z.add_comm, Z.mod_add, Z.mod_small by (done || lia). done.
Qed.

Definition horner (v : Z) (r0 : Z) (l : list Z) : Z :=
  foldr (fun b r => Z.lxor (mul_loop 8 b 0 v) (Nat.iter 8 mulx r)) r0 l.

Lemma horner_snoc v r l b :
  horner v r (l ++ [b]) = horner v (Z.lxor (mul_loop 8 b 0 v) (Nat.iter 8 mulx r)) l.
Proof. unfold horner. by rewrite foldr_app. Qed.

Lemma horner_mul l v : block l -> horner v 0 l = mul (of_block l) v.
Proof.
  intros [Hb Hl]. unfold horner, mul. rewrite <- mul_blocks by done. by rewrite Hl.
Qed.

Lemma land_pow2_eqb x n : 0 <= n -> (Z.land x (2 ^ n) =? 0) = negb (Z.testbit x n).
Proof.
  intros Hn. destruct (Z.testbit x n) eqn:E; cbn [negb].
  - apply Z.eqb_neq. intros H. apply (f_equal (fun y => Z.testbit y n)) in H.
    by rewrite Z.land_spec, E, Z.pow2_bits_true, Z.bits_0 in H.
  - apply Z.eqb_eq. bit_ext i. rewrite Z.land_spec, Z.bits_0, Z.pow2_bits_eqb by done.
    destruct (Z.eqb_spec n i) as [<-|]; [by rewrite E|apply andb_false_r].
Qed.

(** A block that represents a field element. *)
Definition repr (s : list Z) (v : Z) : Prop := block s /\ of_block s = v.

Lemma repr_xor a b u v : repr a u -> repr b v -> repr (xor_block_aligned a b) (Z.lxor u v).
Proof.
  intros [Ha <-] [Hb <-]. rewrite xor_block_aligned_spec by done. split; [by apply Aes.xor_block|].
  apply of_block_lxor; [apply Ha|apply Hb|]. by rewrite (proj2 Ha), (proj2 Hb).
Qed.

Lemma repr_mulx1 a u : repr a u -> repr (gf_mulx1_lb a) (mulx u).
Proof. intros [Ha <-]. split; by apply gf_mulx1_spec. Qed.

Lemma repr_mulx8 a u : repr a u -> repr (gf_mulx8_lb a) (Nat.iter 8 mulx u).
Proof. intros [Ha <-]. split; by apply gf_mulx8_spec. Qed.

Lemma repr_zero : repr zero_block 0.
Proof. split; [apply zero_block_block|reflexivity]. Qed.

Lemma repr_self s : block s -> repr s (of_block s).
Proof. done. Qed.

(** *** The bit-serial product *)

Lemma add_bits_powers n ch : forall a v z u,
  repr a v -> repr z u ->
  repr (foldl (fun a pb => if Z.land ch (pb : list Z * Z).2 =? 0 then a else xor_block_aligned a pb.1) z
          (combine (powers n a) (map (fun i => 2 ^ Z.of_nat i) (rev (seq 0 (S n))))))
       (Z.lxor u (mul_loop (S n) ch 0 v)).
Proof.
  induction n as [|n IH]; intros a v z u Ha Hz.
  - cbn [powers combine map rev seq app foldl fst snd].
    rewrite land_pow2_eqb, mul_loop_S by done. cbn [mul_loop]. rewrite Z.lxor_0_r.
    destruct (Z.testbit _ _); cbn [negb]; [by apply repr_xor|by rewrite Z.lxor_0_r].
  - rewrite seq_S, rev_unit. cbn [powers map combine foldl fst snd]. rewrite land_pow2_eqb by lia.
    rewrite mul_loop_S, <- Z.lxor_assoc.
    apply IH; [by apply repr_mulx1|]. cbn [Nat.add].
    destruct (Z.testbit _ _); cbn [negb]; [by apply repr_xor|by rewrite Z.lxor_0_r].
Qed.

Lemma add_bits_spec a v ch z u :
  repr a v -> repr z u -> repr (add_bits (powers 7 a) ch z) (Z.lxor u (mul_loop 8 ch 0 v)).
Proof.
  intros Ha Hz. assert (x_bits = map (fun i => 2 ^ Z.of_nat i) (rev (seq 0 8))) as E by reflexivity.
  unfold add_bits. rewrite E. by apply add_bits_powers.
Qed.

Lemma mulTMD_loop_spec i q p v :
  (forall ch z u, repr z u -> repr (add_bits p ch z) (Z.lxor u (mul_loop 8 ch 0 v))) ->
  forall a r, (i < length q)%nat -> repr a (Nat.iter 8 mulx r) ->
  repr (mulTMD_loop i p q a) (horner v r (take (S i) q)).
Proof.
  intros Hp. induction i as [|i IH]; intros a r Hi Ha; rewrite take_snoc_lookup, horner_snoc by done;
    cbn [mulTMD_loop]; rewrite Z.lxor_comm; unfold rd; rewrite Nat2Z.id.
  - by apply Hp.
  - apply IH; [lia|]. by apply repr_mulx8, Hp.
Qed.

(** *** The table *)

(** Entry [i] of the table is the product of [i] with [v]. *)
Definition entry (v : Z) (t : list (list Z)) (i : nat) : Prop :=
  exists s, t !! i = Some s /\ repr s (mul_loop 8 (Z.of_nat i) 0 v).

Lemma fill_row_length t j : length (fill_row t j) = length t.
Proof.
  unfold fill_row. generalize (seq 1 (j - 1)) as l. intros l. revert t.
  induction l as [|k l IH]; intros t; [done|]. cbn [foldl]. by rewrite IH, length_insert.
Qed.

Lemma entry_add v m j k :
  j = (2 ^ m)%nat -> (k < j)%nat ->
  mul_loop 8 (Z.of_nat (j + k)) 0 v =
  Z.lxor (mul_loop 8 (Z.of_nat j) 0 v) (mul_loop 8 (Z.of_nat k) 0 v).
Proof.
  intros -> Hk. rewrite <- mul_loop_lxor. f_equal. rewrite Nat2Z.inj_add.
  apply Z.add_nocarry_lxor. bit_ext i.
  rewrite Z.land_spec, Z.bits_0, Nat2Z.inj_pow. change (Z.of_nat 2) with 2.
  rewrite Z.pow2_bits_eqb by lia. destruct (Z.eqb_spec (Z.of_nat m) i) as [<-|]; [|done].
  apply (in_range_testbit_high (Z.of_nat m)); [lia| |lia].
  split; [lia|]. change 2 with (Z.of_nat 2). rewrite <- Nat2Z.inj_pow. lia.
Qed.

Lemma fill_row_spec v t j m :
  j = (2 ^ m)%nat -> (j + j <= length t)%nat ->
  (forall i, (i <= j)%nat -> entry v t i) ->
  (forall i, (i < j + j)%nat -> entry v (fill_row t j) i) /\
  (forall i, (j + j <= i)%nat -> fill_row t j !! i = t !! i).
Proof.
  intros Hj Hl Ht.
  assert (forall n, (n <= j - 1)%nat ->
    let t' := foldl (fun t k => <[(j + k)%nat := xor_block_aligned (default [] (t !! j)) (default [] (t !! k))]> t)
                t (seq 1 n) in
    length t' = length t /\ (forall i, (i <= j + n)%nat -> entry v t' i) /\
    (forall i, (j + n < i)%nat -> t' !! i = t !! i)) as H.
  { induction n as [|n IH]; intros Hn t'.
    { split_and!; [done| |done]. intros i Hi. apply Ht. lia. }
    unfold t'. rewrite seq_S, foldl_app. cbn [foldl].
    destruct IH as (IHl & IHe & IHo); [lia|].
    set (u := foldl _ t (seq 1 n)) in *. rewrite length_insert. split_and!; [done|..].
    - intros i Hi. destruct (decide (i = (j + (1 + n))%nat)) as [->|].
      + destruct (IHe j) as (sj & Ej & Rj); [lia|]. destruct (IHe (1 + n)%nat) as (sk & Ek & Rk); [lia|].
        exists (xor_block_aligned sj sk). rewrite list_lookup_insert_eq, Ej, Ek by lia.
        split; [done|]. rewrite (entry_add v m j) by (done || lia). by apply repr_xor.
      + destruct (IHe i) as (s & Es & Rs); [lia|]. exists s. by rewrite list_lookup_insert_ne by lia.
    - intros i Hi. rewrite list_lookup_insert_ne by lia. apply IHo. lia. }
  destruct (H (j - 1)%nat) as (H1 & H2 & H3); [done|]. fold (fill_row t j) in *.
  assert (0 < j)%nat by (rewrite Hj; apply Nat.neq_0_lt_0, Nat.pow_nonzero; lia).
  split; intros i Hi; [apply H2|apply H3]; lia.
Qed.

(** After the rows up to [2^m], the entries below [2^m] and the powers of
    two are right. *)
Definition rows_ok (v : Z) (t : list (list Z)) (m : nat) : Prop :=
  length t = 256%nat /\ (forall i, (i < 2 ^ m)%nat -> entry v t i) /\
  (forall k, (k < 8)%nat -> entry v t (2 ^ k)%nat).

Lemma rows_ok_step v t m : (m < 8)%nat -> rows_ok v t m -> rows_ok v (fill_row t (2 ^ m)) (S m).
Proof.
  intros Hm (Hl & Hlow & Hpow).
  assert ((2 ^ m + 2 ^ m <= 256)%nat) as Hle.
  { change 256%nat with (2 ^ 8)%nat. replace (2 ^ m + 2 ^ m)%nat with (2 ^ S m)%nat by (cbn; lia).
    apply Nat.pow_le_mono_r; lia. }
  destruct (fill_row_spec v t (2 ^ m) m) as [H1 H2]; [done|lia|..].
  { intros i Hi. destruct (decide (i = (2 ^ m)%nat)) as [->|]; [by apply Hpow|apply Hlow; lia]. }
  split_and!; [by rewrite fill_row_length|..].
  - intros i Hi. apply H1. cbn in Hi. lia.
  - intros k Hk. destruct (decide (2 ^ k < 2 ^ m + 2 ^ m)%nat); [by apply H1|].
    unfold entry. rewrite H2 by lia. by apply Hpow.
Qed.

(** The powers of two from [2^m] up are right. *)
Definition powers_ok (v : Z) (t : list (list Z)) (m : nat) : Prop :=
  length t = 256%nat /\ entry v t 0 /\ (forall k, (m <= k < 8)%nat -> entry v t (2 ^ k)%nat).

Lemma entry_insert_ne v t i j s : i <> j -> entry v t i -> entry v (<[j := s]> t) i.
Proof. intros Hij (x & Ex & Rx). exists x. by rewrite list_lookup_insert_ne by done. Qed.

Lemma mul_loop_pow2 v m :
  (m < 7)%nat -> mul_loop 8 (Z.of_nat (2 ^ m)) 0 v = mulx (mul_loop 8 (Z.of_nat (2 ^ m + 2 ^ m)) 0 v).
Proof. intros Hm. rewrite <- mul_loop_mulx. do 7 (destruct m as [|m]; [reflexivity|]). lia. Qed.

Lemma powers_ok_step v t m j :
  (m < 7)%nat -> j = (2 ^ m)%nat -> powers_ok v t (S m) ->
  powers_ok v (<[j := gf_mulx1_lb (default [] (t !! (j + j)%nat))]> t) m.
Proof.
  intros Hm -> (Hl & H0 & Hp).
  destruct (Hp (S m)) as (s & Es & Rs); [lia|].
  replace (2 ^ S m)%nat with (2 ^ m + 2 ^ m)%nat in Es, Rs by (cbn; lia).
  assert (2 ^ m < 256)%nat by (apply (Nat.pow_lt_mono_r 2 m 8); lia).
  split_and!; [by rewrite length_insert|..].
  - apply entry_insert_ne; [|done]. pose proof (Nat.pow_nonzero 2 m). lia.
  - intros k Hk. destruct (decide (k = m)) as [->|].
    + exists (gf_mulx1_lb s). rewrite list_lookup_insert_eq, Es by lia. split; [done|].
      rewrite mul_loop_pow2 by done. by apply repr_mulx1.
    + apply entry_insert_ne; [|apply Hp; lia]. intros E. apply Nat.pow_inj_r in E; lia.
Qed.

Lemma fill_powers_spec v t :
  length t = 256%nat -> entry v t 0 -> entry v t 128 -> rows_ok v (fill_powers t) 1.
Proof.
  intros Hl H0 H128.
  assert (powers_ok v t 7) as H7.
  { split_and!; [done..|]. intros k Hk. by replace k with 7%nat by lia. }
  assert (powers_ok v (fill_powers t) 0) as (Hl' & H0' & Hp).
  { unfold fill_powers. cbn [foldl]. by do 7 (apply powers_ok_step; [lia|done|]). }
  split_and!; [done| |intros k Hk; apply Hp; lia].
  intros [|[|i]] Hi; [done|by apply (Hp 0%nat); lia|cbn in Hi; lia].
Qed.

Lemma init_4k_table_spec g v t i :
  repr g v -> length t = 256%nat -> (i < 256)%nat -> entry v (init_4k_table g t) i.
Proof.
  intros Hg Hl Hi. unfold init_4k_table. cbn [foldl].
  set (t0 := <[128%nat := g]> _).
  assert (rows_ok v (fill_powers t0) 1) as H1.
  { apply fill_powers_spec; unfold t0.
    - by rewrite !length_insert.
    - apply entry_insert_ne; [done|]. exists zero_block. rewrite list_lookup_insert_eq by lia.
      split; [done|]. apply repr_zero.
    - exists g. rewrite list_lookup_insert_eq by (rewrite length_insert; lia). split; [done|].
      replace (mul_loop 8 (Z.of_nat 128) 0 v) with v; [done|].
      rewrite mul_loop_S. change (Z.testbit _ _) with true.
      change (Z.of_nat 128) with (2 ^ 7).
      rewrite (mul_loop_low 7 (2 ^ 7) 0); [by rewrite mul_loop_zero, Z.lxor_0_r|].
      intros j Hj. by rewrite Z.pow2_bits_false, Z.bits_0 by lia. }
  do 7 apply rows_ok_step in H1; [|lia..].
  apply H1. done.
Qed.

Lemma mul_4k_loop_spec v t ap : forall i r u,
  (forall i, (i < 256)%nat -> entry v t i) -> bytes ap -> (i <= length ap)%nat -> repr r u ->
  repr (mul_4k_loop i ap t r) (horner v u (take i ap)).
Proof.
  induction i as [|i IH]; intros r u Ht Hap Hi Hr; [done|].
  rewrite take_snoc_lookup, horner_snoc by lia. cbn [mul_4k_loop]. unfold rd at 1. rewrite Nat2Z.id.
  pose proof (rd_u8 ap (Z.of_nat i) Hap) as Hb. unfold rd in Hb. rewrite Nat2Z.id in Hb.
  set (b := default 0 (ap !! i)) in *. unfold in_range in Hb. change (2 ^ 8) with 256 in Hb.
  destruct (Ht (Z.to_nat b)) as (s & Es & Rs); [lia|]. rewrite Es. cbn [default].
  rewrite Z2Nat.id in Rs by lia. rewrite Z.lxor_comm.
  apply IH; [done..|lia|]. apply repr_xor; [by apply repr_mulx8|done].
Qed.

(** The table multiplication is the product of NIST SP 800-38D, and so is the
    bit-serial one. *)
Lemma gf_mul_4k_nist a h t :
  block a -> block h -> length t = 256%nat ->
  let r := gf_mul_4k a (init_4k_table h t) in
  block r /\ of_block r = Nist.mul (of_block a) (of_block h).
Proof.
  intros Ha Hh Ht. pose proof Ha as [Hab Hal].
  destruct (mul_4k_loop_spec (of_block h) (init_4k_table h t) a 16 zero_block 0) as [Hb E];
    [intros; by apply init_4k_table_spec|done|lia|apply repr_zero|].
  cbn zeta. unfold gf_mul_4k. rewrite copy_block_aligned_spec by done. split; [done|].
  rewrite E, take_ge by lia. by apply horner_mul.
Qed.

Lemma gf_mulTMD_nist a b :
  block a -> block b ->
  block (gf_mulTMD a b) /\ of_block (gf_mulTMD a b) = Nist.mul (of_block b) (of_block a).
Proof.
  intros Ha Hb. pose proof Hb as [Hbb Hbl].
  destruct (mulTMD_loop_spec 15 b (powers 7 a) (of_block a)) with zero_block 0 as [Hr E];
    [intros; by apply add_bits_spec|lia|apply repr_zero|].
  split; [done|]. unfold gf_mulTMD. rewrite E, take_ge by lia. by apply horner_mul.
Qed.

(** The two multiplications agree: the one with 4K tables, given the table
    that is made from [h], and the bit-serial one both return the block of the
    product of [a] and [h] in the field of NIST SP 800-38D. *)
Theorem gf_multiplications_are_nist_product a h t :
  block a -> block h -> length t = 256%nat ->
  gf_mul_4k a (init_4k_table h t) = gf_mulTMD h a /\
  block (gf_mulTMD h a) /\ of_block (gf_mulTMD h a) = Nist.mul (of_block a) (of_block h).
Proof.
  intros Ha Hh Ht. destruct (gf_mul_4k_nist a h t Ha Hh Ht) as [B1 E1]. destruct (gf_mulTMD_nist h a Hh Ha) as [B2 E2].
  split; [|by split]. apply of_block_inj_len; [apply B1|apply B2|by rewrite (proj2 B1), (proj2 B2)|]. by rewrite E1, E2.
Qed.

Lemma gf_multiplications_are_nist_product_witness :
  gf_mul_4k (seqZ 0 16) (init_4k_table (seqZ 200 16) (replicate 256 zero_block)) = gf_mulTMD (seqZ 200 16) (seqZ 0 16) /\
  block (gf_mulTMD (seqZ 200 16) (seqZ 0 16)) /\
  of_block (gf_mulTMD (seqZ 200 16) (seqZ 0 16)) = Nist.mul (of_block (seqZ 0 16)) (of_block (seqZ 200 16)).
Proof. apply gf_multiplications_are_nist_product; decide_true. Defined.
