(* ===== verification/Gcm.v ===== *)
(** * The GCM mode

    GEC-block/src/gcm.c: the context, keying, the streaming authentication
    of header and text, the counter-mode encryption, the tag and the message
    functions, in the configuration of gcm.h and gf128mul.h (4K tables, 32-bit
    units, the native field representation, 64-bit [unsigned long]).  The
    loops that the code specialises for aligned buffers are shown to be the
    byte-at-a-time ones; GcmSpec.v relates them to the standard. *)

From S2P Require Import Prelude Aes Gf128.

Local Open Scope Z_scope.

Definition RETURN_WARN : Z := 1.
Definition RETURN_GOOD : Z := 0.
Definition RETURN_ERROR : Z := -1.

Definition BLOCK_SIZE : Z := 16.
Definition BLK_ADR_MASK : Z := BLOCK_SIZE - 1.
Definition CTR_POS : Z := 12.
Definition BUF_ADRMASK : Z := Z.of_nat BUF_INC - 1.

Record gcm_ctx := mk_gcm {
  gf_t4k : list (list Z);
  ctr_val : list Z;
  enc_ctr : list Z;
  hdr_ghv : list Z;
  txt_ghv : list Z;
  ghash_h : list Z;
  aes : aes_encrypt_ctx;
  y0_val : Z;
  hdr_cnt : Z;
  txt_ccnt : Z;
  txt_acnt : Z;
}.

Definition set_ctr_val (v : list Z) (c : gcm_ctx) : gcm_ctx :=
  mk_gcm (gf_t4k c) v (enc_ctr c) (hdr_ghv c) (txt_ghv c) (ghash_h c) (aes c) (y0_val c)
    (hdr_cnt c) (txt_ccnt c) (txt_acnt c).
Definition set_enc_ctr (v : list Z) (c : gcm_ctx) : gcm_ctx :=
  mk_gcm (gf_t4k c) (ctr_val c) v (hdr_ghv c) (txt_ghv c) (ghash_h c) (aes c) (y0_val c)
    (hdr_cnt c) (txt_ccnt c) (txt_acnt c).
Definition set_hdr (v : list Z) (n : Z) (c : gcm_ctx) : gcm_ctx :=
  mk_gcm (gf_t4k c) (ctr_val c) (enc_ctr c) v (txt_ghv c) (ghash_h c) (aes c) (y0_val c)
    n (txt_ccnt c) (txt_acnt c).
Definition set_txt (v : list Z) (n : Z) (c : gcm_ctx) : gcm_ctx :=
  mk_gcm (gf_t4k c) (ctr_val c) (enc_ctr c) (hdr_ghv c) v (ghash_h c) (aes c) (y0_val c)
    (hdr_cnt c) (txt_ccnt c) n.
Definition set_key (t : list (list Z)) (h : list Z) (k : aes_encrypt_ctx) (c : gcm_ctx) : gcm_ctx :=
  mk_gcm t (ctr_val c) (enc_ctr c) (hdr_ghv c) (txt_ghv c) h k (y0_val c)
    (hdr_cnt c) (txt_ccnt c) (txt_acnt c).
Definition set_crypt (ctr enc : list Z) (n : Z) (c : gcm_ctx) : gcm_ctx :=
  mk_gcm (gf_t4k c) ctr enc (hdr_ghv c) (txt_ghv c) (ghash_h c) (aes c) (y0_val c)
    (hdr_cnt c) n (txt_acnt c).
Definition set_message (ctr : list Z) (y0 : Z) (c : gcm_ctx) : gcm_ctx :=
  mk_gcm (gf_t4k c) ctr (enc_ctr c) zero_block zero_block (ghash_h c) (aes c) y0 0 0 0.

(** ** Pieces of memory *)

(** [aes_encrypt(in, out, ctx)]: on failure [out] keeps what it held. *)
Definition aes_into (inp out : list Z) (cx : aes_encrypt_ctx) : list Z :=
  default out (aes_encrypt inp cx).

(** [x[i] ^= v]. *)
Definition xor_byte (x : list Z) (i v : Z) : list Z := wr x i (Z.lxor (rd x i) v).

(** [*UNIT_PTR(x + i) ^= *UNIT_PTR(y + j)]. *)
Definition xor_unit (x : list Z) (i : Z) (y : list Z) (j : Z) : list Z :=
  memcpy_at x (Z.to_nat i)
    (le_bytes 4 (Z.lxor (le_word (slice (Z.to_nat i) 4 x)) (le_word (slice (Z.to_nat j) 4 y)))).

(** [while(i-- > CTR_POS && !++x[i])] with [n] bytes left to try. *)
Fixpoint inc_ctr_loop (n : nat) (x : list Z) (i : Z) : list Z :=
  match n with
  | O => x
  | S n =>
      let x := wr x i (u8 (rd x i + 1)) in
      if rd x i =? 0 then inc_ctr_loop n x (i - 1) else x
  end.
Definition inc_ctr (x : list Z) : list Z :=
  inc_ctr_loop (Z.to_nat (BLOCK_SIZE - CTR_POS)) x (BLOCK_SIZE - 1).

(** ** Keying *)

Definition gcm_init_and_key (key : list Z) (ctx : gcm_ctx) : Z * gcm_ctx :=
  let h := zero_block in
  let k := aes_encrypt_key128 key (aes ctx) in
  let h := aes_into h h k in
  (RETURN_GOOD, set_key (init_4k_table h (gf_t4k ctx)) h k ctx).

Definition gf_mul_hh (a : list Z) (ctx : gcm_ctx) : list Z := gf_mul_4k a (gf_t4k ctx).

(** ** A new message *)

(** The whole blocks of an IV that is not 12 bytes long. *)
Fixpoint iv_blocks (fuel : nat) (ctx : gcm_ctx) (ctr iv : list Z) (n_pos : Z) : list Z * list Z * Z :=
  match fuel with
  | O => (ctr, iv, n_pos)
  | S fuel =>
      if BLOCK_SIZE <=? n_pos then
        let ctr := xor_block_aligned ctr (take 16 iv) in
        iv_blocks fuel ctx (gf_mul_hh ctr ctx) (drop 16 iv) (n_pos - BLOCK_SIZE)
      else (ctr, iv, n_pos)
  end.

(** [while(n_pos-- > 0) *p++ ^= *iv++]. *)
Fixpoint xor_bytes_at (n : nat) (x : list Z) (p : Z) (iv : list Z) : list Z :=
  match n with
  | O => x
  | S n => xor_bytes_at n (xor_byte x p (rd iv 0)) (p + 1) (drop 1 iv)
  end.

(** [for(i = BLOCK_SIZE - 1; n_pos; --i, n_pos >>= 8)]. *)
Fixpoint iv_length (fuel : nat) (x : list Z) (i n_pos : Z) : list Z :=
  match fuel with
  | O => x
  | S fuel =>
      if n_pos =? 0 then x
      else iv_length fuel (xor_byte x i (u8 n_pos)) (i - 1) (Z.shiftr n_pos 8)
  end.

Definition gcm_init_message (iv : list Z) (ctx : gcm_ctx) : Z * gcm_ctx :=
  let iv_len := Z.of_nat (length iv) in
  let ctr := zero_block in
  let ctr :=
    if iv_len =? CTR_POS then wr (memcpy_at ctr 0 (take (Z.to_nat CTR_POS) iv)) 15 1
    else
      let '(ctr, iv', n_pos) := iv_blocks (S (length iv)) ctx ctr iv (u32 iv_len) in
      let ctr :=
        if n_pos =? 0 then ctr
        else gf_mul_hh (xor_bytes_at (Z.to_nat n_pos) ctr 0 iv') ctx in
      let n_pos := u32 (Z.shiftl iv_len 3) in
      gf_mul_hh (iv_length 5 ctr (BLOCK_SIZE - 1) n_pos) ctx in
  (RETURN_GOOD, set_message ctr (le_word (slice 12 4 ctr)) ctx).

(** ** Authentication

    [gcm_auth_header] and [gcm_auth_data] have the same text, on [hdr_ghv]
    and [hdr_cnt] or on [txt_ghv] and [txt_acnt]; [ghash_absorb] is that
    text.  The state of its loops is [cnt], [b_pos] and the hash block.
    [adr] is the address of the data relative to that of the hash block:
    the code tests whether the first byte of the data and the byte of the
    block it goes to have the same alignment. *)

Definition loop : Type := Z * Z * list Z.

Section absorb.
Context (mul : list Z -> list Z) (data : list Z).

Definition data_len : Z := Z.of_nat (length data).

(** [ghv[b_pos++] ^= data[cnt++]]. *)
Definition absorb_byte : loop -> loop := fun '(cnt, b_pos, g) =>
  (u32 (cnt + 1), u32 (b_pos + 1), xor_byte g b_pos (rd data cnt)).

Definition absorb_unit : loop -> loop := fun '(cnt, b_pos, g) =>
  (u32 (cnt + Z.of_nat BUF_INC), u32 (b_pos + Z.of_nat BUF_INC), xor_unit g b_pos data cnt).

Definition absorb_block_with (xorb : list Z -> list Z -> list Z) : loop -> loop :=
  fun '(cnt, b_pos, g) =>
  (u32 (cnt + BLOCK_SIZE), b_pos, xorb (mul g) (slice (Z.to_nat cnt) 16 data)).

Definition absorb_tail : loop -> loop := fun '(cnt, b_pos, g) =>
  let '(b_pos, g) := if b_pos =? BLOCK_SIZE then (0, mul g) else (b_pos, g) in
  absorb_byte (cnt, b_pos, g).

Definition whole_block : loop -> bool := fun '(cnt, _, _) => u32 (cnt + BLOCK_SIZE) <=? data_len.

Definition absorb_aligned (s : loop) : loop :=
  let n := S (length data) in
  let s := while n (fun '(cnt, b_pos, _) =>
             (cnt <? data_len) && negb (Z.land b_pos BUF_ADRMASK =? 0)) absorb_byte s in
  let s := while n (fun '(cnt, b_pos, _) =>
             (u32 (cnt + Z.of_nat BUF_INC) <=? data_len) &&
             (b_pos <=? BLOCK_SIZE - Z.of_nat BUF_INC)) absorb_unit s in
  while n whole_block (absorb_block_with xor_block_aligned) s.

Definition absorb_unaligned (s : loop) : loop :=
  let n := S (length data) in
  let s := while n (fun '(cnt, b_pos, _) => (cnt <? data_len) && (b_pos <? BLOCK_SIZE))
             absorb_byte s in
  while n whole_block (absorb_block_with xor_block) s.

(** The hash block and the number of bytes taken. *)
Definition ghash_absorb (adr seen : Z) (g : list Z) : list Z * Z :=
  let b_pos := Z.land seen BLK_ADR_MASK in
  let g := if negb (seen =? 0) && (b_pos =? 0) then mul g else g in
  let s := (0, b_pos, g) in
  let s := if Z.land (adr - b_pos) BUF_ADRMASK =? 0 then absorb_aligned s else absorb_unaligned s in
  let '(cnt, _, g) := while (S (length data)) (fun '(cnt, _, _) => cnt <? data_len) absorb_tail s in
  (g, cnt).
End absorb.

Definition gcm_auth_header (adr : Z) (hdr : list Z) (ctx : gcm_ctx) : Z * gcm_ctx :=
  if Z.of_nat (length hdr) =? 0 then (RETURN_GOOD, ctx)
  else
    let '(g, cnt) := ghash_absorb (fun a => gf_mul_hh a ctx) hdr adr (hdr_cnt ctx) (hdr_ghv ctx) in
    (RETURN_GOOD, set_hdr g (u32 (hdr_cnt ctx + cnt)) ctx).

Definition gcm_auth_data (adr : Z) (data : list Z) (ctx : gcm_ctx) : Z * gcm_ctx :=
  if Z.of_nat (length data) =? 0 then (RETURN_GOOD, ctx)
  else
    let '(g, cnt) := ghash_absorb (fun a => gf_mul_hh a ctx) data adr (txt_acnt ctx) (txt_ghv ctx) in
    (RETURN_GOOD, set_txt g (u32 (txt_acnt ctx + cnt)) ctx).

(** ** Encryption *)

(** [cnt], [b_pos], the data buffer, [ctr_val] and [enc_ctr]. *)
Definition crypt_state : Type := Z * Z * list Z * list Z * list Z.

Section crypt.
Context (k : aes_encrypt_ctx) (len : Z).

(** [data[cnt++] ^= enc_ctr[b_pos++]]. *)
Definition crypt_byte : crypt_state -> crypt_state := fun '(cnt, b_pos, data, ctr, enc) =>
  (u32 (cnt + 1), u32 (b_pos + 1), xor_byte data cnt (rd enc b_pos), ctr, enc).

Definition crypt_unit : crypt_state -> crypt_state := fun '(cnt, b_pos, data, ctr, enc) =>
  (u32 (cnt + Z.of_nat BUF_INC), u32 (b_pos + Z.of_nat BUF_INC), xor_unit data cnt enc b_pos, ctr, enc).

Definition crypt_block_with (xorb : list Z -> list Z -> list Z) : crypt_state -> crypt_state :=
  fun '(cnt, b_pos, data, ctr, enc) =>
  let ctr := inc_ctr ctr in
  let enc := aes_into ctr enc k in
  (u32 (cnt + BLOCK_SIZE), b_pos,
   memcpy_at data (Z.to_nat cnt) (xorb (slice (Z.to_nat cnt) 16 data) enc), ctr, enc).

Definition crypt_tail : crypt_state -> crypt_state := fun '(cnt, b_pos, data, ctr, enc) =>
  if (b_pos =? BLOCK_SIZE) || (b_pos =? 0) then
    let ctr := inc_ctr ctr in
    crypt_byte (cnt, 0, data, ctr, aes_into ctr enc k)
  else crypt_byte (cnt, b_pos, data, ctr, enc).

Definition crypt_whole : crypt_state -> bool := fun '(cnt, _, _, _, _) =>
  u32 (cnt + BLOCK_SIZE) <=? len.

Definition crypt_aligned (n : nat) (s : crypt_state) : crypt_state :=
  let '(_, b_pos, _, _, _) := s in
  let s :=
    if b_pos =? 0 then s
    else
      let s := while n (fun '(cnt, b_pos, _, _, _) =>
                 (cnt <? len) && negb (Z.land b_pos BUF_ADRMASK =? 0)) crypt_byte s in
      while n (fun '(cnt, b_pos, _, _, _) =>
        (u32 (cnt + Z.of_nat BUF_INC) <=? len) && (b_pos <=? BLOCK_SIZE - Z.of_nat BUF_INC))
        crypt_unit s in
  while n crypt_whole (crypt_block_with xor_block_aligned) s.

Definition crypt_unaligned (n : nat) (s : crypt_state) : crypt_state :=
  let '(_, b_pos, _, _, _) := s in
  let s :=
    if b_pos =? 0 then s
    else while n (fun '(cnt, b_pos, _, _, _) => (cnt <? len) && (b_pos <? BLOCK_SIZE)) crypt_byte s in
  while n crypt_whole (crypt_block_with xor_block) s.
End crypt.

(** The data buffer is encrypted in place; [adr] is its address relative to
    that of [enc_ctr]. *)
Definition gcm_crypt_data (adr : Z) (data : list Z) (ctx : gcm_ctx) : Z * list Z * gcm_ctx :=
  let len := Z.of_nat (length data) in
  let n := S (length data) in
  if len =? 0 then (RETURN_GOOD, data, ctx)
  else
    let b_pos := Z.land (txt_ccnt ctx) BLK_ADR_MASK in
    let s := (0, b_pos, data, ctr_val ctx, enc_ctr ctx) in
    let s := if Z.land (adr - b_pos) BUF_ADRMASK =? 0 then crypt_aligned (aes ctx) len n s
             else crypt_unaligned (aes ctx) len n s in
    let '(cnt, _, data, ctr, enc) :=
      while n (fun '(cnt, _, _, _, _) => cnt <? len) (crypt_tail (aes ctx)) s in
    (RETURN_GOOD, data, set_crypt ctr enc (u32 (txt_ccnt ctx + cnt)) ctx).

(** ** The tag *)

(** [hdr_ghv *= H^ln] by repeated squaring; [tbuf] is the current square. *)
Fixpoint hdr_power (fuel : nat) (ln : Z) (tbuf ghv : list Z) : list Z :=
  match fuel with
  | O => ghv
  | S fuel =>
      let ghv := if Z.land ln 1 =? 0 then ghv else gf_mulTMD ghv tbuf in
      let ln := Z.shiftr ln 1 in
      if ln =? 0 then ghv else hdr_power fuel ln (gf_mulTMD tbuf tbuf) ghv
  end.

(** The lengths and the text hash are added from the last byte. *)
Fixpoint add_lengths (n : nat) (i tm hdr_cnt : Z) (ghv txt : list Z) : list Z :=
  match n with
  | O => ghv
  | S n =>
      let ghv := xor_byte ghv i (Z.lxor (rd txt i) (u8 tm)) in
      let tm := if i =? 8 then u64 (Z.shiftl hdr_cnt 3) else Z.shiftr tm 8 in
      add_lengths n (i - 1) tm hdr_cnt ghv txt
  end.

(** The blocks have sixteen bytes, and the code only asks for twelve; for more
    than sixteen the C function would go on into what lies behind them. *)
Definition gcm_compute_tag (tag_len : nat) (ctx : gcm_ctx) : Z * list Z * gcm_ctx :=
  if negb (txt_acnt ctx =? txt_ccnt ctx) && (0 <? txt_ccnt ctx) then (RETURN_ERROR, [], ctx)
  else
    let ghv := gf_mul_hh (hdr_ghv ctx) ctx in
    let txt := gf_mul_hh (txt_ghv ctx) ctx in
    let ghv :=
      if hdr_cnt ctx =? 0 then ghv
      else
        let ln := u32 (txt_acnt ctx + BLOCK_SIZE - 1) / BLOCK_SIZE in
        if ln =? 0 then ghv else hdr_power 32 ln (ghash_h ctx) ghv in
    let ghv := add_lengths 16 (BLOCK_SIZE - 1) (u64 (Z.shiftl (txt_acnt ctx) 3)) (hdr_cnt ctx) ghv txt in
    let ghv := gf_mul_hh ghv ctx in
    let enc := memcpy_at (ctr_val ctx) (Z.to_nat CTR_POS) (le_bytes 4 (y0_val ctx)) in
    let enc := aes_into enc enc (aes ctx) in
    let tag := take tag_len (xor_bytes ghv enc) in
    (if txt_ccnt ctx =? txt_acnt ctx then RETURN_GOOD else RETURN_WARN, tag,
     set_enc_ctr enc (set_hdr ghv (hdr_cnt ctx) (set_txt txt (txt_acnt ctx) ctx))).

Definition gcm_end (ctx : gcm_ctx) : Z * gcm_ctx :=
  (RETURN_GOOD,
   mk_gcm (replicate 256 zero_block) zero_block zero_block zero_block zero_block zero_block
     (mk_aes_ctx (replicate KS_LENGTH 0) [0; 0; 0; 0]) 0 0 0 0).

(** ** Messages

    [adr_h], [adr_t] and [adr_e] are the addresses of the header and of the
    text relative to the three buffers of the context they are combined with. *)

Definition gcm_encrypt (adr_t adr_e : Z) (data : list Z) (ctx : gcm_ctx) : Z * list Z * gcm_ctx :=
  let '(_, data, ctx) := gcm_crypt_data adr_e data ctx in
  let '(_, ctx) := gcm_auth_data adr_t data ctx in
  (RETURN_GOOD, data, ctx).

Definition gcm_decrypt (adr_t adr_e : Z) (data : list Z) (ctx : gcm_ctx) : Z * list Z * gcm_ctx :=
  let '(_, ctx) := gcm_auth_data adr_t data ctx in
  let '(_, data, ctx) := gcm_crypt_data adr_e data ctx in
  (RETURN_GOOD, data, ctx).

(** The result, the message buffer, the tag buffer and the context. *)
Definition gcm_encrypt_message (adr_h adr_t adr_e : Z) (iv hdr msg : list Z) (tag_len : nat)
    (ctx : gcm_ctx) : Z * list Z * list Z * gcm_ctx :=
  let '(_, ctx) := gcm_init_message iv ctx in
  let '(_, ctx) := gcm_auth_header adr_h hdr ctx in
  let '(_, msg, ctx) := gcm_encrypt adr_t adr_e msg ctx in
  let '(rr, tag, ctx) := gcm_compute_tag tag_len ctx in
  (if rr =? 0 then RETURN_GOOD else RETURN_ERROR, msg, tag, ctx).

Definition gcm_decrypt_message (adr_h adr_t adr_e : Z) (iv hdr msg tag : list Z)
    (ctx : gcm_ctx) : Z * list Z * gcm_ctx :=
  let '(_, ctx) := gcm_init_message iv ctx in
  let '(_, ctx) := gcm_auth_header adr_h hdr ctx in
  let '(_, msg, ctx) := gcm_decrypt adr_t adr_e msg ctx in
  let '(rr, local_tag, ctx) := gcm_compute_tag (length tag) ctx in
  (if negb (rr =? RETURN_GOOD) || negb (bool_decide (tag = local_tag)) then RETURN_ERROR
   else RETURN_GOOD, msg, ctx).

(** Name the state after the loop that starts in [s]. *)
Ltac name_loop s t :=
  match goal with |- context [while ?n ?c ?f s] => set (t := while n c f s) in *; clearbody t end.

(** ** Runs of bytes *)

Lemma xor_byte_app p x m v :
  xor_byte (p ++ x :: m) (Z.of_nat (length p)) v = p ++ Z.lxor x v :: m.
Proof.
  unfold xor_byte, wr, rd. rewrite Nat2Z.id, insert_app_r_alt, Nat.sub_diag by lia.
  rewrite lookup_app_r, Nat.sub_diag by lia. done.
Qed.

Lemma split_at (b n : nat) (g : list Z) :
  g = take b g ++ slice b n g ++ drop (b + n) g.
Proof. unfold slice. by rewrite <- drop_drop, take_drop, take_drop. Qed.

Lemma drop_slice c n (l : list Z) : drop c l = slice c n l ++ drop (c + n) l.
Proof. unfold slice. by rewrite <- drop_drop, take_drop. Qed.

Lemma xor_unit_spec x i y j :
  bytes (slice (Z.to_nat i) 4 x) -> bytes (slice (Z.to_nat j) 4 y) -> 0 <= i -> 0 <= j ->
  i + 4 <= Z.of_nat (length x) -> j + 4 <= Z.of_nat (length y) ->
  xor_unit x i y j =
  memcpy_at x (Z.to_nat i) (xor_bytes (slice (Z.to_nat i) 4 x) (slice (Z.to_nat j) 4 y)).
Proof.
  intros. unfold xor_unit.
  rewrite le_word_lxor by (done || by rewrite !length_slice by lia).
  f_equal.
  assert (length (xor_bytes (slice (Z.to_nat i) 4 x) (slice (Z.to_nat j) 4 y)) = 4%nat) as Hl.
  { rewrite length_xor_bytes, !length_slice by lia. done. }
  rewrite <- Hl at 1. apply le_bytes_le_word. auto with words.
Qed.

Lemma xor_bytes_take l : forall y, xor_bytes l (take (length l) y) = xor_bytes l y.
Proof.
  induction l as [|c l IH]; intros [|v y]; cbn [length take]; try done.
  unfold xor_bytes. cbn [zip_with]. f_equal. apply IH.
Qed.

Lemma rd_drop data c x l : 0 <= c -> drop (Z.to_nat c) data = x :: l -> rd data c = x.
Proof. intros Hc H. unfold rd. rewrite <- (Nat.add_0_r (Z.to_nat c)), <- lookup_drop, H. done. Qed.

Lemma drop_lt data c :
  0 <= c < Z.of_nat (length data) ->
  exists x, drop (Z.to_nat c) data = x :: drop (Z.to_nat (c + 1)) data /\ rd data c = x.
Proof.
  intros Hc. destruct (drop (Z.to_nat c) data) as [|x l] eqn:E.
  { apply (f_equal length) in E. rewrite length_drop in E. cbn in E. lia. }
  exists x. split; [|by eapply rd_drop; [lia|]].
  replace (Z.to_nat (c + 1)) with (Z.to_nat c + 1)%nat by lia.
  by rewrite <- drop_drop, E.
Qed.

(** ** Authentication, byte at a time *)

Section bytewise.
Context (mul : list Z -> list Z) (data : list Z).
Hypothesis mul_block : forall g, block g -> block (mul g).
Hypothesis data_bytes : bytes data.
Hypothesis data_short : Z.of_nat (length data) + 16 < 2 ^ 32.

(** A full block is multiplied when the next byte arrives. *)
Definition ghash_byte : Z * list Z -> Z -> Z * list Z := fun '(b, g) c =>
  let '(b, g) := if b =? BLOCK_SIZE then (0, mul g) else (b, g) in
  (b + 1, xor_byte g b c).

Lemma ghash_run m : forall p q l,
  length l = length m -> length (p ++ m ++ q) = 16%nat ->
  foldl ghash_byte (Z.of_nat (length p), p ++ m ++ q) l =
  (Z.of_nat (length p) + Z.of_nat (length l), p ++ xor_bytes m l ++ q).
Proof.
  induction m as [|x m IH]; intros p q l Hl Hg.
  { destruct l; [|done]. cbn [foldl length]. f_equal. lia. }
  destruct l as [|c l]; [done|]. cbn [foldl ghash_byte app]. rewrite length_app in Hg. cbn [length app] in Hg.
  destruct (Z.eqb_spec (Z.of_nat (length p)) BLOCK_SIZE) as [E|_];
    [unfold BLOCK_SIZE in E; rewrite length_app in Hg; lia|].
  rewrite xor_byte_app.
  assert (Z.of_nat (length p) + 1 = Z.of_nat (length (p ++ [Z.lxor x c]))) as ->.
  { rewrite length_app. cbn [length]. lia. }
  replace (p ++ Z.lxor x c :: m ++ q) with ((p ++ [Z.lxor x c]) ++ m ++ q) by by rewrite <- app_assoc.
  rewrite IH; [|by injection Hl|rewrite !length_app in *; cbn [length]; lia].
  unfold xor_bytes. rewrite <- !app_assoc, length_app. cbn [length app zip_with]. f_equal. lia.
Qed.

(** [n] bytes that stay inside the block. *)
Lemma ghash_slice g b c n :
  block g -> 0 <= b -> 0 <= c -> b + Z.of_nat n <= 16 -> c + Z.of_nat n <= Z.of_nat (length data) ->
  foldl ghash_byte (b, g) (slice (Z.to_nat c) n data) =
  (b + Z.of_nat n,
   memcpy_at g (Z.to_nat b) (xor_bytes (slice (Z.to_nat b) n g) (slice (Z.to_nat c) n data))).
Proof.
  intros [Hg Hl] Hb Hc Hbn Hcn. rewrite memcpy_at_spec by (rewrite length_xor_bytes, !length_slice; lia).
  rewrite length_xor_bytes, !length_slice, Nat.min_id by lia.
  pose proof (split_at (Z.to_nat b) n g) as Hsp.
  pose proof (ghash_run (slice (Z.to_nat b) n g) (take (Z.to_nat b) g) (drop (Z.to_nat b + n) g)
    (slice (Z.to_nat c) n data)) as H.
  rewrite <- Hsp, !length_slice, length_take in H by lia.
  replace (Z.of_nat (Z.to_nat b `min` length g)) with b in H by lia. apply H; [done|lia].
Qed.

Lemma ghash_first_full g c l :
  foldl ghash_byte (BLOCK_SIZE, g) (c :: l) = foldl ghash_byte (0, mul g) (c :: l).
Proof. done. Qed.

(** What the loops preserve: the bytes still to come lead to [T]. *)
Definition absorbing (T : Z * list Z) (s : loop) : Prop :=
  let '(cnt, b, g) := s in
  0 <= cnt <= Z.of_nat (length data) /\ 0 <= b <= 16 /\ block g /\
  foldl ghash_byte (b, g) (drop (Z.to_nat cnt) data) = T.

Definition left (s : loop) : nat := let '(cnt, _, _) := s in (length data - Z.to_nat cnt)%nat.

Lemma xor_byte_block g b v : block g -> is_u8 v -> block (xor_byte g b v).
Proof.
  intros [Hg Hl] Hv. unfold xor_byte. split; [|by rewrite length_wr].
  apply bytes_wr; [done|]. auto with words.
Qed.

Lemma absorb_byte_ok T s :
  absorbing T s -> (let '(cnt, b, _) := s in cnt < Z.of_nat (length data) /\ b < 16) ->
  absorbing T (absorb_byte data s) /\ (left (absorb_byte data s) < left s)%nat.
Proof.
  destruct s as [[cnt b] g]. intros (Hc & Hb & Hg & HT) [Hlt Hb16].
  unfold absorb_byte, absorbing, left. rewrite !(wrap_id 32) by (unfold in_range; lia).
  destruct (drop_lt data cnt) as (x & Ex & <-); [lia|].
  split; [|lia]. split_and!; [lia..|by apply xor_byte_block; [|apply rd_u8]|].
  rewrite <- HT, Ex. cbn [foldl ghash_byte].
  by destruct (Z.eqb_spec b BLOCK_SIZE); [unfold BLOCK_SIZE in *; lia|].
Qed.

Lemma absorb_unit_ok T s :
  absorbing T s ->
  (let '(cnt, b, _) := s in cnt + 4 <= Z.of_nat (length data) /\ b <= 12) ->
  absorbing T (absorb_unit data s) /\ (left (absorb_unit data s) < left s)%nat.
Proof.
  destruct s as [[cnt b] g]. intros (Hc & Hb & Hg & HT) [Hlt Hb12].
  unfold absorb_unit, absorbing, left. change (Z.of_nat BUF_INC) with 4.
  rewrite !(wrap_id 32) by (unfold in_range; lia). split; [|lia].
  pose proof Hg as [Hgb Hgl]. rewrite xor_unit_spec by (lia || auto with words).
  split_and!; [lia..| |].
  - split; [apply bytes_memcpy_at; auto with words|by rewrite length_memcpy_at].
  - rewrite <- HT, (drop_slice (Z.to_nat cnt) 4 data), foldl_app, ghash_slice by (done || lia).
    do 2 f_equal. lia.
Qed.

(** A whole block, when the current one is full. *)
Definition at_boundary (s : loop) : Prop :=
  let '(cnt, b, _) := s in b = 16 \/ Z.of_nat (length data) < cnt + 16.

Lemma absorb_block_ok T xorb s :
  (forall p q, block p -> block q -> xorb p q = xor_bytes p q) ->
  absorbing T s /\ at_boundary s -> whole_block data s = true ->
  (absorbing T (absorb_block_with mul data xorb s) /\ at_boundary (absorb_block_with mul data xorb s)) /\
  (left (absorb_block_with mul data xorb s) < left s)%nat.
Proof.
  intros Hx. destruct s as [[cnt b] g]. intros [(Hc & Hb & Hg & HT) Hbd] Hw.
  unfold whole_block, data_len, BLOCK_SIZE in Hw.
  rewrite (wrap_id 32) in Hw by (unfold in_range; lia). apply Z.leb_le in Hw.
  destruct Hbd as [->|]; [|lia].
  unfold absorb_block_with, absorbing, left, at_boundary, BLOCK_SIZE.
  rewrite !(wrap_id 32) by (unfold in_range; lia). split; [|lia].
  pose proof (mul_block g Hg) as Hm.
  assert (block (slice (Z.to_nat cnt) 16 data)) as Hd.
  { split; [auto with words|]. apply length_slice. lia. }
  rewrite Hx by done. split; [|by left]. split_and!; [lia..|by apply Aes.xor_block|].
  rewrite <- HT, (drop_slice (Z.to_nat cnt) 16 data), foldl_app.
  assert (foldl ghash_byte (16, g) (slice (Z.to_nat cnt) 16 data) =
          foldl ghash_byte (0, mul g) (slice (Z.to_nat cnt) 16 data)) as ->.
  { destruct (slice (Z.to_nat cnt) 16 data) as [|c l] eqn:E; [by destruct Hd|]. apply ghash_first_full. }
  rewrite ghash_slice by (done || lia). do 2 f_equal; [|lia].
  destruct Hm as [_ Hml], Hd as [_ Hdl].
  assert (slice (Z.to_nat 0) 16 (mul g) = mul g) as ->.
  { change (Z.to_nat 0) with 0%nat. unfold slice. by rewrite drop_0, take_ge by lia. }
  assert (length (xor_bytes (mul g) (slice (Z.to_nat cnt) 16 data)) = 16%nat) as Hxl.
  { rewrite length_xor_bytes. lia. }
  rewrite memcpy_at_spec by (change (Z.to_nat 0) with 0%nat; lia).
  change (Z.to_nat 0) with 0%nat. rewrite Hxl, drop_ge, app_nil_r by lia. done.
Qed.

Lemma absorb_tail_ok T s :
  absorbing T s -> (let '(cnt, _, _) := s in cnt < Z.of_nat (length data)) ->
  absorbing T (absorb_tail mul data s) /\ (left (absorb_tail mul data s) < left s)%nat.
Proof.
  destruct s as [[cnt b] g]. intros (Hc & Hb & Hg & HT) Hlt.
  unfold absorb_tail. destruct (Z.eqb_spec b BLOCK_SIZE) as [->|].
  - apply (absorb_byte_ok T (cnt, 0, mul g)); [|done]. split_and!; [lia..|by apply mul_block|].
    rewrite <- HT. by destruct (drop_lt data cnt) as (x & -> & _); [lia|].
  - apply (absorb_byte_ok T (cnt, b, g)); [done|]. unfold BLOCK_SIZE in *. lia.
Qed.

Lemma absorb_aligned_ok T s :
  absorbing T s -> absorbing T (absorb_aligned mul data s).
Proof.
  intros Hs. unfold absorb_aligned.
  set (n := S (length data)).
  assert (forall s, (left s < n)%nat) as Hn by (intros [[? ?] ?]; unfold left, n; lia).
  edestruct (while_rule (fun '(cnt, b_pos, _) =>
    (cnt <? data_len data) && negb (Z.land b_pos BUF_ADRMASK =? 0)) (absorb_byte data)
    (absorbing T) left) as [H1 E1]; [|apply (Hn s)|exact Hs|].
  { intros [[cnt b] g] HI Hc. unfold data_len in Hc. bool_to_prop.
    apply absorb_byte_ok; [done|]. split; [done|]. destruct HI as (_ & Hb & _).
    destruct (Z.eq_dec b 16) as [->|]; [done|lia]. }
  name_loop s s1.
  edestruct (while_rule (fun '(cnt, b_pos, _) =>
    (u32 (cnt + Z.of_nat BUF_INC) <=? data_len data) && (b_pos <=? BLOCK_SIZE - Z.of_nat BUF_INC))
    (absorb_unit data) (fun s => absorbing T s /\
      (let '(cnt, b, _) := s in cnt = Z.of_nat (length data) \/ Z.land b BUF_ADRMASK = 0)) left)
    as [[H2 H2a] E2]; [|apply (Hn s1)| |].
  { intros [[cnt b] g] [HI Ha] Hc. unfold data_len in Hc. bool_to_prop.
    pose proof HI as (Hcnt & Hb & _). change (Z.of_nat BUF_INC) with 4 in *.
    rewrite (wrap_id 32) in * by (unfold in_range; lia). unfold BLOCK_SIZE in *.
    destruct (absorb_unit_ok T (cnt, b, g)) as [H3 H4]; [done|lia|]. split; [split|]; [done| |done].
    unfold absorb_unit. change (Z.of_nat BUF_INC) with 4. rewrite !(wrap_id 32) by (unfold in_range; lia).
    right. destruct Ha as [|Ha]; [lia|]. change BUF_ADRMASK with (Z.ones 2) in *.
    rewrite Z.land_ones in * by done. mod_lia. }
  { split; [done|]. destruct s1 as [[cnt b] g]. destruct H1 as (Hc & _). unfold data_len in E1.
    apply andb_false_iff in E1 as [E|E]; [left|right].
    - apply Z.ltb_ge in E. lia.
    - by apply negb_false_iff, Z.eqb_eq in E. }
  name_loop s1 s2.
  edestruct (while_rule (whole_block data) (absorb_block_with mul data xor_block_aligned)
    (fun s => absorbing T s /\ at_boundary s) left) as [[H5 _] _]; [|apply (Hn s2)| |exact H5].
  { intros s0 Hs0 Hw. apply absorb_block_ok; [apply xor_block_aligned_spec|apply Hs0|exact Hw]. }
  split; [done|]. destruct s2 as [[cnt b] g]. destruct H2 as (Hc & Hb & _). unfold data_len, BLOCK_SIZE in E2.
  change (Z.of_nat BUF_INC) with 4 in E2. rewrite (wrap_id 32) in E2 by (unfold in_range; lia).
  unfold at_boundary. apply andb_false_iff in E2 as [E|E]; [apply Z.leb_gt in E; lia|].
  apply Z.leb_gt in E. destruct H2a as [->|Ha]; [lia|].
  change BUF_ADRMASK with (Z.ones 2) in Ha. rewrite Z.land_ones in Ha by done. left. mod_lia.
Qed.

Lemma absorb_unaligned_ok T s :
  absorbing T s -> absorbing T (absorb_unaligned mul data s).
Proof.
  intros Hs. unfold absorb_unaligned. set (n := S (length data)).
  assert (forall s, (left s < n)%nat) as Hn by (intros [[? ?] ?]; unfold left, n; lia).
  edestruct (while_rule (fun '(cnt, b_pos, _) => (cnt <? data_len data) && (b_pos <? BLOCK_SIZE))
    (absorb_byte data) (absorbing T) left) as [H1 E1]; [|apply (Hn s)|exact Hs|].
  { intros [[cnt b] g] HI Hc. unfold data_len, BLOCK_SIZE in Hc. bool_to_prop.
    apply absorb_byte_ok; [done|lia]. }
  name_loop s s1.
  edestruct (while_rule (whole_block data) (absorb_block_with mul data xor_block)
    (fun s => absorbing T s /\ at_boundary s) left) as [[H5 _] _]; [|apply (Hn s1)| |exact H5].
  { intros s0 Hs0 Hw. apply absorb_block_ok; [done|apply Hs0|exact Hw]. }
  split; [done|]. destruct s1 as [[cnt b] g]. destruct H1 as (Hc & Hb & _). unfold data_len, BLOCK_SIZE in E1.
  unfold at_boundary. apply andb_false_iff in E1 as [E|E]; apply Z.ltb_ge in E; lia.
Qed.

(** Where the next byte goes after [seen] bytes. *)
Definition position (seen : Z) : Z :=
  if negb (seen =? 0) && (Z.land seen BLK_ADR_MASK =? 0) then BLOCK_SIZE else Z.land seen BLK_ADR_MASK.

(** Whatever the alignment of the buffers, the specialised loops do the
    byte-at-a-time computation. *)
Lemma ghash_absorb_bytewise adr seen g :
  data <> [] -> block g ->
  ghash_absorb mul data adr seen g =
  ((foldl ghash_byte (position seen, g) data).2, Z.of_nat (length data)).
Proof.
  intros Hne Hg. unfold ghash_absorb, position.
  assert (0 <= Z.land seen BLK_ADR_MASK < 16) as Hb.
  { change BLK_ADR_MASK with (Z.ones 4). rewrite Z.land_ones by done. by apply Z.mod_pos_bound. }
  set (b := Z.land seen BLK_ADR_MASK) in *. set (full := negb (seen =? 0) && (b =? 0)).
  set (T := foldl ghash_byte (if full then BLOCK_SIZE else b, g) data).
  assert (absorbing T (0, b, if full then mul g else g)) as H0.
  { unfold absorbing. split_and!; [lia..|by destruct full; [apply mul_block|]|].
    unfold T. destruct full eqn:E; [|done]. unfold full in E. bool_to_prop.
    change (Z.to_nat 0) with 0%nat. rewrite drop_0. replace b with 0 by lia.
    destruct data as [|c l]; [done|]. symmetry. apply ghash_first_full. }
  set (s1 := if Z.land (adr - b) BUF_ADRMASK =? 0 then _ else _).
  assert (absorbing T s1) as H1.
  { unfold s1. destruct (Z.land (adr - b) BUF_ADRMASK =? 0); [by apply absorb_aligned_ok|by apply absorb_unaligned_ok]. }
  clearbody s1.
  assert (forall s, (left s < S (length data))%nat) as Hn by (intros [[? ?] ?]; unfold left; lia).
  edestruct (while_rule (fun '(cnt, _, _) => cnt <? data_len data) (absorb_tail mul data)
    (absorbing T) left) as [H2 E2]; [|apply (Hn s1)|exact H1|].
  { intros [[cnt b'] g'] HI Hc. unfold data_len in Hc. apply Z.ltb_lt in Hc. by apply absorb_tail_ok. }
  name_loop s1 s2. destruct s2 as [[cnt b'] g']. unfold data_len in E2.
  destruct H2 as (Hc & _ & _ & HT). apply Z.ltb_ge in E2.
  rewrite drop_ge in HT by lia. cbn [foldl] in HT. rewrite <- HT. cbn [snd]. f_equal. lia.
Qed.
End bytewise.

(** ** Encryption, byte at a time *)

Section keystream.
Context (k : aes_encrypt_ctx).

(** Position in the key stream, counter block and its encryption. *)
Definition stream : Type := Z * list Z * list Z.

Definition refresh : stream -> stream := fun '(b, ctr, enc) =>
  if b =? 0 then (0, inc_ctr ctr, aes_into (inc_ctr ctr) enc k) else (b, ctr, enc).

Fixpoint crypt_bytes (s : stream) (l : list Z) : list Z * stream :=
  match l with
  | [] => ([], s)
  | c :: l =>
      let '(b, ctr, enc) := refresh s in
      let '(out, s) := crypt_bytes ((b + 1) mod BLOCK_SIZE, ctr, enc) l in
      (Z.lxor c (rd enc b) :: out, s)
  end.

Lemma crypt_bytes_app a b : forall s,
  crypt_bytes s (a ++ b) =
  let '(x, s) := crypt_bytes s a in let '(y, s) := crypt_bytes s b in (x ++ y, s).
Proof.
  induction a as [|c a IH]; intros s; cbn [crypt_bytes app].
  { by destruct (crypt_bytes s b). }
  destruct (refresh s) as [[n ctr] enc]. rewrite IH.
  destruct (crypt_bytes _ a) as [x s']. by destruct (crypt_bytes s' b).
Qed.

Lemma length_crypt_bytes l : forall s, length (crypt_bytes s l).1 = length l.
Proof.
  induction l as [|c l IH]; intros s; cbn [crypt_bytes]; [done|].
  destruct (refresh s) as [[n ctr] enc]. specialize (IH ((n + 1) mod BLOCK_SIZE, ctr, enc)).
  destruct (crypt_bytes _ l) as [x s']. cbn in *. lia.
Qed.

(** Inside a block the key stream is the rest of the encrypted counter. *)
Lemma crypt_bytes_inside l : forall b ctr enc,
  0 < b -> b + Z.of_nat (length l) <= 16 -> length enc = 16%nat ->
  crypt_bytes (b mod BLOCK_SIZE, ctr, enc) l =
  (xor_bytes l (drop (Z.to_nat b) enc), ((b + Z.of_nat (length l)) mod BLOCK_SIZE, ctr, enc)).
Proof.
  unfold BLOCK_SIZE. induction l as [|c l IH]; intros b ctr enc Hb Hl He; cbn [crypt_bytes length] in *.
  { by rewrite Z.add_0_r. }
  rewrite Z.mod_small by lia. unfold refresh. destruct (Z.eqb_spec b 0); [lia|].
  unfold BLOCK_SIZE. rewrite IH by lia. destruct (drop_lt enc b) as (x & Ex & ->); [lia|].
  rewrite Ex. unfold xor_bytes. cbn [zip_with]. f_equal. do 3 f_equal. lia.
Qed.

Lemma crypt_bytes_run l b ctr enc ctr' enc' :
  refresh (b, ctr, enc) = (b, ctr', enc') -> 0 <= b ->
  b + Z.of_nat (length l) <= 16 -> length enc' = 16%nat -> l <> [] ->
  crypt_bytes (b, ctr, enc) l =
  (xor_bytes l (drop (Z.to_nat b) enc'), ((b + Z.of_nat (length l)) mod BLOCK_SIZE, ctr', enc')).
Proof.
  intros Hr Hb Hl He Hne. destruct l as [|c l]; [done|]. cbn [length] in *. cbn [crypt_bytes].
  rewrite Hr, crypt_bytes_inside by lia.
  destruct (drop_lt enc' b) as (x & Ex & ->); [lia|]. rewrite Ex.
  unfold xor_bytes. cbn [zip_with]. f_equal. do 3 f_equal. lia.
Qed.
End keystream.

Section crypt_bytewise.
Context (k : aes_encrypt_ctx) (data : list Z).
Hypothesis enc_ok : forall ctr enc, block ctr -> block enc -> block (aes_into ctr enc k).
Hypothesis data_bytes : bytes data.
Hypothesis data_short : Z.of_nat (length data) + 16 < 2 ^ 32.

#[local] Abbreviation len := (Z.of_nat (length data)).

Lemma inc_ctr_block c : block c -> block (inc_ctr c).
Proof.
  unfold inc_ctr. generalize (BLOCK_SIZE - 1) as i. generalize (Z.to_nat (BLOCK_SIZE - CTR_POS)) as n.
  intros n. revert c. induction n as [|n IH]; intros c i Hc; cbn [inc_ctr_loop]; [done|].
  assert (block (wr c i (u8 (rd c i + 1)))) as Hw.
  { destruct Hc as [Hb Hl]. split; [|by rewrite length_wr]. apply bytes_wr; [done|]. by apply wrap_range. }
  destruct (_ =? 0); auto.
Qed.

(** [out] and [fin] are the whole output and the final stream; the buffer
    holds output up to [cnt] and input from there on. *)
Definition crypting (out : list Z) (fin : stream) (s : crypt_state) : Prop :=
  let '(cnt, b, d, ctr, enc) := s in
  0 <= cnt <= len /\ 0 <= b <= 16 /\ block ctr /\ block enc /\
  length d = length data /\ drop (Z.to_nat cnt) d = drop (Z.to_nat cnt) data /\
  let '(o, s) := crypt_bytes k (b mod BLOCK_SIZE, ctr, enc) (drop (Z.to_nat cnt) data) in
  take (Z.to_nat cnt) d ++ o = out /\ s = fin.

Definition crypt_left (s : crypt_state) : nat :=
  let '(cnt, _, _, _, _) := s in (length data - Z.to_nat cnt)%nat.

(** Encrypting the next [n] bytes keeps the invariant. *)
Lemma crypting_advance out fin cnt b d ctr enc n seg b' ctr' enc' :
  crypting out fin (cnt, b, d, ctr, enc) ->
  crypt_bytes k (b mod BLOCK_SIZE, ctr, enc) (slice (Z.to_nat cnt) n data) =
    (seg, (b' mod BLOCK_SIZE, ctr', enc')) ->
  cnt + Z.of_nat n <= len -> 0 <= b' <= 16 -> block ctr' -> block enc' ->
  crypting out fin (cnt + Z.of_nat n, b', memcpy_at d (Z.to_nat cnt) seg, ctr', enc').
Proof.
  intros (Hc & Hb & Hctr & Henc & Hl & Hd & HT) Hseg Hn Hb' Hctr' Henc'.
  assert (length seg = n) as Hsl.
  { pose proof (length_crypt_bytes k (slice (Z.to_nat cnt) n data) (b mod BLOCK_SIZE, ctr, enc)) as H.
    rewrite Hseg, length_slice in H by lia. done. }
  unfold crypting. replace (Z.to_nat (cnt + Z.of_nat n)) with (Z.to_nat cnt + n)%nat by lia.
  rewrite (drop_slice (Z.to_nat cnt) n data), crypt_bytes_app, Hseg in HT.
  assert (memcpy_at d (Z.to_nat cnt) seg = take (Z.to_nat cnt) d ++ seg ++ drop (Z.to_nat cnt + n) d) as Em.
  { rewrite memcpy_at_spec by lia. by rewrite Hsl. }
  assert (length (take (Z.to_nat cnt) d) = Z.to_nat cnt) as Htl by (rewrite length_take; lia).
  split_and!; [lia..|done|done| | |].
  - by rewrite length_memcpy_at.
  - rewrite Em, app_assoc, drop_app_length' by (rewrite length_app; lia).
    rewrite <- !(drop_drop _ n). by rewrite Hd.
  - destruct (crypt_bytes k _ (drop (Z.to_nat cnt + n) data)) as [o s].
    rewrite Em, app_assoc, take_app_length' by (rewrite length_app; lia).
    by rewrite <- app_assoc.
Qed.

Lemma slice_of_buffer out fin cnt b d ctr enc n :
  crypting out fin (cnt, b, d, ctr, enc) -> slice (Z.to_nat cnt) n d = slice (Z.to_nat cnt) n data.
Proof. intros (_ & _ & _ & _ & _ & Hd & _). unfold slice. by rewrite Hd. Qed.

Lemma xor_byte_memcpy d cnt v :
  xor_byte d cnt v = memcpy_at d (Z.to_nat cnt) [Z.lxor (rd d cnt) v].
Proof. done. Qed.

Lemma slice_1 (l : list Z) i : 0 <= i < Z.of_nat (length l) -> slice (Z.to_nat i) 1 l = [rd l i].
Proof. intros Hi. unfold slice. destruct (drop_lt l i) as (x & -> & ->); [lia|]. done. Qed.

Lemma crypt_byte_ok out fin cnt b d ctr enc ctr' enc' :
  crypting out fin (cnt, b, d, ctr, enc) -> cnt < len -> b < 16 ->
  refresh k (b, ctr, enc) = (b, ctr', enc') -> block ctr' -> block enc' ->
  let s := crypt_byte (cnt, b, d, ctr', enc') in
  crypting out fin s /\ (crypt_left s < length data - Z.to_nat cnt)%nat.
Proof.
  intros Hs Hlt Hb16 Hr Hctr Henc. pose proof Hs as (Hc & Hb & _ & _ & Hl & Hd & _).
  unfold crypt_byte, crypt_left. rewrite !(wrap_id 32) by (unfold in_range; lia).
  cbn zeta. split; [|lia]. rewrite xor_byte_memcpy. apply (crypting_advance out fin _ b d ctr enc 1); try done.
  - rewrite slice_1, (Z.mod_small b) by (unfold BLOCK_SIZE; lia).
    rewrite (crypt_bytes_run k _ b ctr enc ctr' enc') by (done || (apply Henc) || (cbn; lia)).
    destruct (drop_lt enc' b) as (x & -> & ->); [destruct Henc; lia|].
    assert (rd d cnt = rd data cnt) as ->.
    { destruct (drop_lt data cnt) as (y & Ey & ->); [lia|]. eapply rd_drop; [lia|]. by rewrite Hd, Ey. }
    done.
  - lia.
  - lia.
Qed.

Lemma refresh_inside b ctr enc : b <> 0 -> refresh k (b, ctr, enc) = (b, ctr, enc).
Proof. intros Hb. unfold refresh. by destruct (Z.eqb_spec b 0). Qed.

Lemma crypt_unit_ok out fin cnt b d ctr enc :
  crypting out fin (cnt, b, d, ctr, enc) -> cnt + 4 <= len -> 0 < b <= 12 ->
  let s := crypt_unit (cnt, b, d, ctr, enc) in
  crypting out fin s /\ (crypt_left s < length data - Z.to_nat cnt)%nat.
Proof.
  intros Hs Hlt Hb. pose proof Hs as (Hc & _ & Hctr & Henc & Hl & Hd & _). pose proof Henc as [Heb Hel].
  unfold crypt_unit, crypt_left. change (Z.of_nat BUF_INC) with 4.
  rewrite !(wrap_id 32) by (unfold in_range; lia). cbn zeta. split; [|lia].
  pose proof (slice_of_buffer _ _ _ _ _ _ _ 4 Hs) as Hsl.
  rewrite xor_unit_spec by (lia || rewrite ?Hsl; auto with words). rewrite Hsl.
  apply (crypting_advance out fin _ b d ctr enc 4); try (done || lia).
  rewrite crypt_bytes_inside by (rewrite ?length_slice by lia; done || lia).
  rewrite length_slice by lia. f_equal.
  rewrite <- xor_bytes_take, length_slice by lia. done.
Qed.

Definition crypt_boundary (s : crypt_state) : Prop :=
  let '(cnt, b, _, _, _) := s in b mod BLOCK_SIZE = 0 \/ len < cnt + 16.

Lemma crypt_block_ok out fin xorb s :
  (forall p q, block p -> block q -> xorb p q = xor_bytes p q) ->
  crypting out fin s /\ crypt_boundary s -> crypt_whole len s = true ->
  (crypting out fin (crypt_block_with k xorb s) /\ crypt_boundary (crypt_block_with k xorb s)) /\
  (crypt_left (crypt_block_with k xorb s) < crypt_left s)%nat.
Proof.
  intros Hx. destruct s as [[[[cnt b] d] ctr] enc]. intros [Hs Hbd] Hw.
  pose proof Hs as (Hc & Hb & Hctr & Henc & Hl & Hd & _).
  unfold crypt_whole, BLOCK_SIZE in Hw. rewrite (wrap_id 32) in Hw by (unfold in_range; lia).
  apply Z.leb_le in Hw. destruct Hbd as [Hb0|]; [|lia].
  unfold crypt_block_with. change (u32 (cnt + BLOCK_SIZE)) with (u32 (cnt + 16)).
  rewrite (wrap_id 32) by (unfold in_range; lia).
  pose proof (inc_ctr_block ctr Hctr) as Hctr'. pose proof (enc_ok _ _ Hctr' Henc) as Henc'.
  rewrite (slice_of_buffer _ _ _ _ _ _ _ 16 Hs).
  assert (block (slice (Z.to_nat cnt) 16 data)) as Hblk.
  { split; [auto with words|]. rewrite length_slice by lia. done. }
  rewrite Hx by done. split; [split|unfold crypt_left; lia]; [|by left].
  apply (crypting_advance out fin _ b d ctr enc 16); try (done || lia).
  rewrite Hb0. destruct Hblk as [Hbb Hbl].
  rewrite (crypt_bytes_run k _ 0 ctr enc (inc_ctr ctr) (aes_into (inc_ctr ctr) enc k));
    [|done|done|rewrite Hbl; lia|apply Henc'|by destruct (slice _ _ _)].
  by rewrite Hbl.
Qed.

Lemma crypt_tail_ok out fin s :
  crypting out fin s -> (let '(cnt, _, _, _, _) := s in cnt < len) ->
  crypting out fin (crypt_tail k s) /\ (crypt_left (crypt_tail k s) < crypt_left s)%nat.
Proof.
  destruct s as [[[[cnt b] d] ctr] enc]. intros Hs Hlt.
  pose proof Hs as (Hc & Hb & Hctr & Henc & _). unfold crypt_tail.
  pose proof (inc_ctr_block ctr Hctr) as Hctr'.
  destruct (Z.eqb_spec b BLOCK_SIZE) as [->|]; [|destruct (Z.eqb_spec b 0) as [->|]]; cbn [orb].
  - assert (crypting out fin (cnt, 0, d, ctr, enc)) as Hs0.
    { destruct Hs as (? & _ & Hrest). split; [done|]. split; [lia|exact Hrest]. }
    apply (crypt_byte_ok out fin cnt 0 d ctr enc); [done..|by apply enc_ok].
  - apply (crypt_byte_ok out fin cnt 0 d ctr enc); [done..|by apply enc_ok].
  - apply (crypt_byte_ok out fin cnt b d ctr enc); auto using refresh_inside.
    unfold BLOCK_SIZE in *. lia.
Qed.

(** The byte loop that fills up a block already begun. *)
Lemma crypt_fill_ok out fin s :
  crypting out fin s ->
  (let '(cnt, b, _, _, _) := s in cnt < len /\ 0 < b < 16) ->
  crypting out fin (crypt_byte s) /\ (crypt_left (crypt_byte s) < crypt_left s)%nat.
Proof.
  destruct s as [[[[cnt b] d] ctr] enc]. intros Hs Hlt. pose proof Hs as (Hc & Hb & Hctr & Henc & _).
  apply (crypt_byte_ok out fin cnt b d ctr enc); auto; try lia. apply refresh_inside. lia.
Qed.

Definition begun (s : crypt_state) : Prop := let '(_, b, _, _, _) := s in 0 < b.

Lemma crypt_begun_byte s : begun s -> let '(_, b, _, _, _) := s in b <= 16 -> begun (crypt_byte s).
Proof.
  destruct s as [[[[cnt b] d] ctr] enc]. unfold begun, crypt_byte. intros Hb Hb16.
  rewrite (wrap_id 32 (b + 1)) by (unfold in_range; lia). lia.
Qed.

Definition unit_aligned (s : crypt_state) : Prop :=
  let '(cnt, b, _, _, _) := s in cnt = len \/ Z.land b BUF_ADRMASK = 0.

Lemma crypt_fuel s : (crypt_left s < S (length data))%nat.
Proof. destruct s as [[[[? ?] ?] ?] ?]. unfold crypt_left. lia. Qed.

(** The loops over whole blocks, from a state where the current block is
    used up or too little data is left. *)
Lemma crypt_whole_ok out fin xorb s :
  (forall p q, block p -> block q -> xorb p q = xor_bytes p q) ->
  crypting out fin s -> crypt_boundary s ->
  crypting out fin (while (S (length data)) (crypt_whole len) (crypt_block_with k xorb) s).
Proof.
  intros Hx Hs Hb.
  apply (while_rule (crypt_whole len) (crypt_block_with k xorb)
    (fun s => crypting out fin s /\ crypt_boundary s) crypt_left); [|apply crypt_fuel|done].
  intros t Ht Hw. by apply crypt_block_ok.
Qed.

Lemma crypt_unaligned_ok out fin s :
  crypting out fin s -> crypting out fin (crypt_unaligned k len (S (length data)) s).
Proof.
  intros Hs. unfold crypt_unaligned.
  destruct s as [[[[cnt b] d] ctr] enc]. pose proof Hs as (Hc & Hb & _).
  destruct (Z.eqb_spec b 0) as [->|Hb0]; [by apply crypt_whole_ok; [|..|left]|].
  edestruct (while_rule (fun '(cnt, b_pos, _, _, _) => (cnt <? len) && (b_pos <? BLOCK_SIZE))
    crypt_byte (fun s => crypting out fin s /\ begun s) crypt_left) as [[H2 _] E2];
    [|apply crypt_fuel|split; [exact Hs|unfold begun; lia]|].
  { intros t [HI Hbg] Hcond. pose proof (crypt_begun_byte t Hbg) as Hbg'.
    destruct t as [[[[c' b'] d'] ctr'] enc']. unfold BLOCK_SIZE in Hcond. bool_to_prop.
    destruct (crypt_fill_ok out fin _ HI) as [H3 H4]; [unfold begun in Hbg; lia|].
    split; [split; [done|apply Hbg'; lia]|done]. }
  apply crypt_whole_ok; [done|exact H2|].
  match goal with |- crypt_boundary ?s => destruct s as [[[[c' b'] d'] ctr'] enc'] end.
  destruct H2 as (Hc' & Hb' & _). unfold crypt_boundary, BLOCK_SIZE in *.
  apply andb_false_iff in E2 as [E|E]; apply Z.ltb_ge in E; [lia|].
  left. by replace b' with 16 by lia.
Qed.

Lemma crypt_aligned_ok out fin s :
  crypting out fin s -> crypting out fin (crypt_aligned k len (S (length data)) s).
Proof.
  intros Hs. unfold crypt_aligned.
  destruct s as [[[[cnt b] d] ctr] enc]. pose proof Hs as (Hc & Hb & _).
  destruct (Z.eqb_spec b 0) as [->|Hb0]; [by apply crypt_whole_ok; [apply xor_block_aligned_spec|..|left]|].
  edestruct (while_rule (fun '(cnt, b_pos, _, _, _) =>
      (cnt <? len) && negb (Z.land b_pos BUF_ADRMASK =? 0))
    crypt_byte (fun s => crypting out fin s /\ begun s) crypt_left) as [[H1 Hbg1] E1];
    [|apply crypt_fuel|split; [exact Hs|unfold begun; lia]|].
  { intros t [HI Hbg] Hcond. pose proof (crypt_begun_byte t Hbg) as Hbg'.
    destruct t as [[[[c' b'] d'] ctr'] enc']. bool_to_prop. pose proof HI as (_ & Hb' & _).
    assert (b' <> 16) by (by intros ->).
    destruct (crypt_fill_ok out fin _ HI) as [H3 H4]; [unfold begun in Hbg; lia|].
    split; [split; [done|apply Hbg'; lia]|done]. }
  match goal with |- context [while ?n ?c crypt_byte ?s] =>
    set (s1 := while n c crypt_byte s) in *; clearbody s1 end.
  edestruct (while_rule (fun '(cnt, b_pos, _, _, _) =>
      (u32 (cnt + Z.of_nat BUF_INC) <=? len) && (b_pos <=? BLOCK_SIZE - Z.of_nat BUF_INC))
    crypt_unit (fun s => crypting out fin s /\ begun s /\ unit_aligned s) crypt_left)
    as [(H2 & _ & Ha2) E2]; [|apply (crypt_fuel s1)|split_and!; [exact H1|exact Hbg1|]|].
  { intros t (HI & Hbg & Ha) Hcond. destruct t as [[[[c' b'] d'] ctr'] enc'].
    pose proof HI as (Hc' & Hb' & _). bool_to_prop. change (Z.of_nat BUF_INC) with 4 in *.
    rewrite (wrap_id 32) in * by (unfold in_range; lia). unfold BLOCK_SIZE, begun in *.
    destruct (crypt_unit_ok out fin c' b' d' ctr' enc' HI) as [H3 H4]; [lia..|].
    split; [split_and!; [done|..]|done]; unfold begun, unit_aligned, crypt_unit in *;
      change (Z.of_nat BUF_INC) with 4; rewrite !(wrap_id 32) by (unfold in_range; lia); [lia|].
    right. destruct Ha as [|Ha]; [lia|]. change BUF_ADRMASK with (Z.ones 2) in *.
    rewrite Z.land_ones in * by done. mod_lia. }
  { destruct s1 as [[[[c' b'] d'] ctr'] enc']. destruct H1 as (Hc' & _). unfold unit_aligned.
    apply andb_false_iff in E1 as [E|E]; [apply Z.ltb_ge in E; lia|].
    right. by apply negb_false_iff, Z.eqb_eq in E. }
  apply crypt_whole_ok; [apply xor_block_aligned_spec|exact H2|].
  match goal with |- crypt_boundary ?s => destruct s as [[[[c' b'] d'] ctr'] enc'] end.
  destruct H2 as (Hc' & Hb' & _). unfold crypt_boundary, unit_aligned, BLOCK_SIZE in *.
  change (Z.of_nat BUF_INC) with 4 in *. rewrite (wrap_id 32) in * by (unfold in_range; lia).
  apply andb_false_iff in E2 as [E|E]; apply Z.leb_gt in E; [lia|].
  destruct Ha2 as [->|Ha]; [lia|]. left.
  change BUF_ADRMASK with (Z.ones 2) in *. rewrite Z.land_ones in * by done. mod_lia.
Qed.

(** Encryption of a buffer, for every alignment. *)
Lemma crypt_data_bytewise adr ctx :
  data <> [] -> k = aes ctx -> block (ctr_val ctx) -> block (enc_ctr ctx) -> 0 <= txt_ccnt ctx ->
  let '(out, (_, ctr, enc)) :=
    crypt_bytes k (txt_ccnt ctx mod BLOCK_SIZE, ctr_val ctx, enc_ctr ctx) data in
  gcm_crypt_data adr data ctx =
    (RETURN_GOOD, out, set_crypt ctr enc (u32 (txt_ccnt ctx + len)) ctx) /\ block ctr /\ block enc.
Proof.
  intros Hne Hk Hctr Henc Hcnt.
  destruct (crypt_bytes k _ data) as [out fin] eqn:Eo. destruct fin as [[bf ctrf] encf].
  unfold gcm_crypt_data. destruct (Z.eqb_spec len 0) as [E|_]; [destruct data; [done|cbn in E; lia]|].
  assert (Z.land (txt_ccnt ctx) BLK_ADR_MASK = txt_ccnt ctx mod 16) as ->.
  { change BLK_ADR_MASK with (Z.ones 4). by rewrite Z.land_ones. }
  pose proof (Z.mod_pos_bound (txt_ccnt ctx) 16 ltac:(done)) as Hb.
  set (b := txt_ccnt ctx mod 16) in *.
  assert (crypting out (bf, ctrf, encf) (0, b, data, ctr_val ctx, enc_ctr ctx)) as H0.
  { unfold crypting. change (Z.to_nat 0) with 0%nat. rewrite drop_0, take_0.
    split_and!; [lia..|done|done|done|done|].
    rewrite (Z.mod_small b) by (unfold BLOCK_SIZE; lia). change (txt_ccnt ctx mod BLOCK_SIZE) with b in Eo.
    by rewrite Eo. }
  rewrite <- Hk. set (s1 := if Z.land (adr - b) BUF_ADRMASK =? 0 then _ else _).
  assert (crypting out (bf, ctrf, encf) s1) as H1.
  { unfold s1. destruct (Z.land (adr - b) BUF_ADRMASK =? 0);
      [by apply crypt_aligned_ok|by apply crypt_unaligned_ok]. }
  clearbody s1.
  edestruct (while_rule (fun '(cnt, _, _, _, _) => cnt <? len) (crypt_tail k)
    (crypting out (bf, ctrf, encf)) crypt_left) as [H2 E2]; [|apply (crypt_fuel s1)|exact H1|].
  { intros [[[[c' b'] d'] ctr'] enc'] HI Hc. apply Z.ltb_lt in Hc. by apply crypt_tail_ok. }
  name_loop s1 s2. destruct s2 as [[[[c' b'] d'] ctr'] enc'].
  destruct H2 as (Hc & _ & Hctr' & Henc' & Hl & _ & HT). apply Z.ltb_ge in E2.
  rewrite drop_ge in HT by lia. cbn [crypt_bytes] in HT. destruct HT as [<- HT].
  injection HT as _ <- <-. rewrite app_nil_r, take_ge by lia.
  split; [|done]. do 3 f_equal. lia.
Qed.
End crypt_bytewise.
