(* ===== verification/GcmSpec.v ===== *)
(** * GCM against NIST SP 800-38D

    The field of the standard is commutative, GHASH and GCTR as the standard
    defines them, and the theorems that gcm.c computes them: the keyed
    context, the authenticated encryption of a message and its decryption. *)

From S2P Require Import Prelude Blocks Aes Gf128 Gcm.

Local Open Scope Z_scope.

(** ** The standard *)

Module Sp800_38D.
Section functions.
(** The block cipher under the key. *)
Context (E : list Z -> list Z).

Definition H : Z := Nist.of_block (E (replicate 16 0)).

(** Section 6.4. *)
Definition ghash_step (y : Z) (x : list Z) : Z := Nist.mul (Z.lxor y (Nist.of_block x)) H.
Definition GHASH (x : list Z) : Z := absorb ghash_step 16 0 x.

(** Section 6.2. *)
Definition inc32 (x : list Z) : list Z :=
  take 12 x ++ be_bytes 4 (u32 (Nist.of_block (drop 12 x) + 1)).

(** Section 6.5, for a string of at most [n] blocks. *)
Fixpoint GCTR (n : nat) (cb x : list Z) : list Z :=
  match n with
  | O => []
  | S n => xor_bytes (take 16 x) (E cb) ++ GCTR n (inc32 cb) (drop 16 x)
  end.

Definition blocks_of (x : list Z) : nat := ((length x + 15) / 16)%nat.

(** The zero bytes that complete the last block. *)
Definition pad16 (x : list Z) : list Z := x ++ replicate (16 * blocks_of x - length x) 0.

Definition lengths (a c : list Z) : list Z :=
  be_bytes 8 (8 * Z.of_nat (length a)) ++ be_bytes 8 (8 * Z.of_nat (length c)).

(** Section 7.1. *)
Definition J0 (iv : list Z) : list Z :=
  if decide (length iv = 12%nat) then iv ++ [0; 0; 0; 1]
  else be_bytes 16 (GHASH (pad16 iv ++ lengths [] iv)).

Definition ciphertext (iv p : list Z) : list Z := GCTR (blocks_of p) (inc32 (J0 iv)) p.

Definition tag (t : nat) (iv a c : list Z) : list Z :=
  take t (GCTR 1 (J0 iv) (be_bytes 16 (GHASH (pad16 a ++ pad16 c ++ lengths a c)))).
End functions.
End Sp800_38D.
Import Sp800_38D.

(** ** The field *)

Section field.
Import Nist.

Definition is_field (x : Z) : Prop := in_range 128 x.

Lemma wrap_succ_bit n x :
  wrap (Z.of_nat (S n)) x =
  Z.lxor (if Z.testbit x (Z.of_nat n) then 2 ^ Z.of_nat n else 0) (wrap (Z.of_nat n) x).
Proof.
  bit_ext i. rewrite Z.lxor_spec, !wrap_testbit by lia.
  assert (Z.testbit (if Z.testbit x (Z.of_nat n) then 2 ^ Z.of_nat n else 0) i =
          (Z.of_nat n =? i) && Z.testbit x i) as ->.
  { destruct (Z.eqb_spec (Z.of_nat n) i) as [<-|Hne]; destruct (Z.testbit x (Z.of_nat n)) eqn:E;
      rewrite ?E, ?Z.bits_0, ?Z.pow2_bits_true, ?Z.pow2_bits_false by lia; done. }
  destruct (Z.eqb_spec (Z.of_nat n) i) as [<-|Hne].
  - rewrite bool_decide_eq_true_2, bool_decide_eq_false_2 by lia. by destruct (Z.testbit _ _).
  - rewrite (bool_decide_ext (i < Z.of_nat (S n)) (i < Z.of_nat n)) by lia. by destruct (_ && _).
Qed.

(** The first bit of a block is the coefficient of 1. *)
Lemma mul_loop_one n x : mul_loop n x 0 (2 ^ (Z.of_nat n - 1)) = wrap (Z.of_nat n) x.
Proof.
  induction n as [|n IH].
  { cbn [mul_loop]. unfold wrap. change (2 ^ Z.of_nat 0) with 1. by rewrite Z.mod_1_r. }
  rewrite mul_loop_S, wrap_succ_bit. replace (Z.of_nat (S n) - 1) with (Z.of_nat n) by lia. f_equal.
  destruct n as [|n]; [unfold wrap; change (2 ^ Z.of_nat 0) with 1; by rewrite Z.mod_1_r|].
  rewrite <- IH. f_equal. replace (Z.of_nat (S n)) with (Z.of_nat (S n) - 1 + 1) at 1 by lia.
  rewrite Z.pow_add_r, Z.mul_comm by lia. apply mulx_double.
Qed.

Definition one : Z := 2 ^ 127.

Lemma mul_one_r x : is_field x -> mul x one = x.
Proof. intros Hx. unfold mul, one. rewrite (mul_loop_one 128). by apply wrap_id. Qed.

Lemma mul_loop_lxor_r n x : forall v w,
  mul_loop n x 0 (Z.lxor v w) = Z.lxor (mul_loop n x 0 v) (mul_loop n x 0 w).
Proof.
  induction n as [|n IH]; intros v w; [done|]. rewrite !mul_loop_S, mulx_lxor, IH.
  destruct (Z.testbit x (Z.of_nat n)); rewrite ?Z.lxor_0_l; [|done].
  bit_ext i. rewrite !Z.lxor_spec. by repeat destruct (Z.testbit _ _).
Qed.

(** Multiplications commute: each is a polynomial in [mulx]. *)
Lemma mul_loop_comm n m x y : forall v,
  mul_loop n x 0 (mul_loop m y 0 v) = mul_loop m y 0 (mul_loop n x 0 v).
Proof.
  induction n as [|n IH]; intros v; [cbn [mul_loop]; by rewrite mul_loop_0|].
  rewrite !mul_loop_S, mul_loop_lxor_r, <- mul_loop_mulx, IH. f_equal.
  destruct (Z.testbit x (Z.of_nat n)); [done|by rewrite mul_loop_0].
Qed.

Lemma mul_comm x y : is_field x -> is_field y -> mul x y = mul y x.
Proof.
  intros Hx Hy. transitivity (mul x (mul y one)); [by rewrite (mul_one_r y Hy)|].
  transitivity (mul y (mul x one)); [|by rewrite (mul_one_r x Hx)].
  exact (mul_loop_comm 128 128 x y one).
Qed.

Lemma mulx_field v : is_field v -> is_field (mulx v).
Proof.
  intros Hv. unfold mulx, is_field. apply in_range_lxor; [done|by apply in_range_shiftr|].
  destruct (Z.odd v); [|by apply in_range_0]. unfold in_range, R. by vm_compute.
Qed.

Lemma mul_field x y : is_field y -> is_field (mul x y).
Proof.
  unfold mul. generalize 128%nat as n. intros n. revert y.
  induction n as [|n IH]; intros y Hy; [by apply in_range_0|]. rewrite mul_loop_S.
  apply in_range_lxor; [done| |by apply IH, mulx_field].
  destruct (Z.testbit _ _); [done|by apply in_range_0].
Qed.

Lemma mul_assoc x y z :
  is_field x -> is_field y -> is_field z -> mul (mul x y) z = mul x (mul y z).
Proof.
  intros Hx Hy Hz. rewrite mul_comm by auto using mul_field.
  rewrite (mul_comm y z) by done. exact (mul_loop_comm 128 128 z x y).
Qed.

Lemma mul_lxor_l x y z : mul (Z.lxor x y) z = Z.lxor (mul x z) (mul y z).
Proof. exact (mul_loop_lxor 128 x y z). Qed.

Lemma mul_0_l y : mul 0 y = 0.
Proof. exact (mul_loop_zero 128 y). Qed.
End field.

(** ** Blocks and numbers *)

Lemma block_replicate_zero : replicate 16 0 = zero_block.
Proof. done. Qed.

Lemma of_block_field b : block b -> is_field (Nist.of_block b).
Proof. intros [Hb Hl]. pose proof (of_block_range b Hb) as H. by rewrite Hl in H. Qed.

Lemma of_block_inj a : forall b,
  bytes a -> bytes b -> length a = length b -> Nist.of_block a = Nist.of_block b -> a = b.
Proof.
  induction a as [|x a IH] using rev_ind; intros b Ha Hb Hl E.
  { by destruct b. }
  destruct b as [|y b _] using rev_ind; rewrite !length_app in Hl; cbn [length] in Hl; [lia|].
  apply Forall_app in Ha as [Ha Hx], Hb as [Hb Hy]. apply List.Forall_inv in Hx, Hy.
  rewrite !of_block_snoc in E. unfold in_range in *. change (2 ^ 8) with 256 in *.
  f_equal; [apply IH; auto; lia|]. f_equal. lia.
Qed.

Lemma of_block_be_bytes n x : Nist.of_block (be_bytes n x) = wrap (8 * Z.of_nat n) x.
Proof.
  unfold be_bytes. revert x. induction n as [|n IH]; intros x.
  { unfold wrap. change (2 ^ (8 * Z.of_nat 0)) with 1. by rewrite Z.mod_1_r. }
  cbn [le_bytes rev]. rewrite of_block_snoc, IH. unfold wrap.
  change 255 with (Z.ones 8). rewrite Z.land_ones, Z.shiftr_div_pow2 by done.
  replace (8 * Z.of_nat (S n)) with (8 + 8 * Z.of_nat n) by lia. rewrite Z.pow_add_r by lia.
  change (2 ^ 8) with 256. rewrite Z.rem_mul_r by lia. lia.
Qed.



Lemma be_bytes_block x : block (be_bytes 16 x).
Proof. split; [apply bytes_be_bytes|apply length_be_bytes]. Qed.

Lemma be_bytes_of_block b : block b -> be_bytes 16 (Nist.of_block b) = b.
Proof.
  intros Hb. apply of_block_inj; [apply bytes_be_bytes|apply Hb|by rewrite length_be_bytes, (proj2 Hb)|].
  rewrite of_block_be_bytes. apply wrap_id. by apply of_block_field.
Qed.

(** ** Padding *)

Lemma blocks_of_app b x : length b = 16%nat -> blocks_of (b ++ x) = S (blocks_of x).
Proof.
  intros Hb. unfold blocks_of. rewrite length_app, Hb.
  replace (16 + length x + 15)%nat with (length x + 15 + 1 * 16)%nat by lia.
  rewrite Nat.div_add by lia. lia.
Qed.

Lemma pad16_app b x : length b = 16%nat -> pad16 (b ++ x) = b ++ pad16 x.
Proof.
  intros Hb. unfold pad16. rewrite blocks_of_app, length_app, Hb, <- app_assoc by done.
  do 3 f_equal. lia.
Qed.

Lemma pad16_short x : (0 < length x <= 16)%nat -> pad16 x = x ++ replicate (16 - length x) 0.
Proof.
  intros Hx. unfold pad16, blocks_of.
  assert ((length x + 15) / 16 = 1)%nat as -> by (symmetry; apply (Nat.div_unique _ _ _ (length x - 1)); lia).
  done.
Qed.

Lemma pad16_length x : length (pad16 x) = (16 * blocks_of x)%nat.
Proof.
  unfold pad16, blocks_of. rewrite length_app, length_replicate.
  pose proof (Nat.div_mod_eq (length x + 15) 16). pose proof (Nat.mod_upper_bound (length x + 15) 16). lia.
Qed.

Lemma bytes_pad16 x : bytes x -> bytes (pad16 x).
Proof. intros. apply bytes_app; [done|]. by apply bytes_replicate. Qed.

(** ** GHASH *)

Section ghash.
#[local] Opaque Nist.mul.
Context (E : list Z -> list Z).
#[local] Abbreviation HH := (H E).

Definition hash_blocks (y : Z) (x : list Z) : Z := absorb (ghash_step E) 16 y x.

Lemma hash_blocks_nil y : hash_blocks y [] = y.
Proof. done. Qed.

Lemma hash_blocks_cons y b x :
  length b = 16%nat -> hash_blocks y (b ++ x) = hash_blocks (ghash_step E y b) x.
Proof. intros Hb. by destruct (absorb_block (ghash_step E) 16 ltac:(lia) y b x Hb). Qed.

(** Data in whole blocks. *)
Lemma hash_blocks_ind (P : list Z -> Prop) :
  P [] -> (forall b x, length b = 16%nat -> P x -> P (b ++ x)) ->
  forall n x, length x = (16 * n)%nat -> P x.
Proof.
  intros H0 HS n. induction n as [|n IH]; intros x Hx; [by destruct x|].
  rewrite <- (take_drop 16 x). apply HS; [rewrite length_take; lia|].
  apply IH. rewrite length_drop. lia.
Qed.

Lemma hash_blocks_app y a b n :
  length a = (16 * n)%nat -> hash_blocks y (a ++ b) = hash_blocks (hash_blocks y a) b.
Proof.
  intros Ha. revert y. pattern a. eapply hash_blocks_ind; [done| |exact Ha].
  intros blk x Hb IH y. by rewrite <- app_assoc, (hash_blocks_cons y blk), (hash_blocks_cons y blk), IH.
Qed.

Definition times_H (n : nat) (y : Z) : Z := Nat.iter n (fun y => Nist.mul y HH) y.

Lemma times_H_lxor n a b : times_H n (Z.lxor a b) = Z.lxor (times_H n a) (times_H n b).
Proof.
  unfold times_H. induction n as [|n IH]; [done|]. rewrite !Nat.iter_succ, IH. apply mul_lxor_l.
Qed.

(** The hash of [n] blocks that starts from [y] is linear in [y]. *)
Lemma hash_blocks_start x n : forall y,
  length x = (16 * n)%nat -> hash_blocks y x = Z.lxor (times_H n y) (hash_blocks 0 x).
Proof.
  revert x. induction n as [|n IH]; intros x y Hx.
  { destruct x; [|done]. rewrite !hash_blocks_nil. unfold times_H. cbn. by rewrite Z.lxor_0_r. }
  rewrite <- (take_drop 16 x).
  assert (length (take 16 x) = 16%nat) as Hb by (rewrite length_take; lia).
  rewrite !hash_blocks_cons by done. rewrite IH, (IH _ (ghash_step E 0 _)) by (rewrite length_drop; lia).
  unfold ghash_step. rewrite Z.lxor_0_l, mul_lxor_l, times_H_lxor, <- Z.lxor_assoc.
  unfold times_H at 3. by rewrite Nat.iter_succ_r.
Qed.

(** *** The byte-at-a-time computation of the code *)

Context (mulB : list Z -> list Z).
Hypothesis mulB_spec : forall g, block g -> block (mulB g) /\ Nist.of_block (mulB g) = Nist.mul (Nist.of_block g) HH.

Lemma mulB_block g : block g -> block (mulB g).
Proof. apply mulB_spec. Qed.

Lemma mulB_zero : mulB zero_block = zero_block.
Proof.
  destruct (mulB_spec zero_block zero_block_block) as [Hb Ev].
  apply of_block_inj; [apply Hb|apply zero_block_block|by rewrite (proj2 Hb)|].
  rewrite Ev. apply mul_0_l.
Qed.

Lemma xor_pad g x :
  block g -> bytes x -> (length x <= 16)%nat ->
  memcpy_at g 0 (xor_bytes (slice 0 (length x) g) x) = xor_bytes g (x ++ replicate (16 - length x) 0).
Proof.
  intros [Hg Hl] Hx Hle. unfold slice. rewrite drop_0.
  rewrite memcpy_at_spec by (rewrite length_xor_bytes, length_take; lia).
  rewrite length_xor_bytes, length_take, take_0, app_nil_l, Nat.add_0_l.
  replace ((length x `min` length g) `min` length x)%nat with (length x) by lia.
  transitivity (xor_bytes (take (length x) g ++ drop (length x) g) (x ++ replicate (16 - length x) 0));
    [|by rewrite take_drop].
  unfold xor_bytes.
  rewrite zip_with_app by (rewrite length_take; lia). f_equal.
  fold (xor_bytes (drop (length x) g) (replicate (16 - length x) 0)).
  assert (forall l n, length l = n -> xor_bytes l (replicate n 0) = l) as Hz.
  { intros l. induction l as [|z l IH]; intros n <-; [done|]. cbn [length replicate].
    unfold xor_bytes. cbn [zip_with]. rewrite Z.lxor_0_r. f_equal. by apply IH. }
  symmetry. apply Hz. rewrite length_drop. lia.
Qed.

Lemma ghash_bytes_full n : forall d g,
  (length d < 16 * n)%nat -> d <> [] -> bytes d -> block g ->
  let r := (foldl (ghash_byte mulB) (BLOCK_SIZE, g) d).2 in
  block r /\ Nist.of_block (mulB r) = hash_blocks (Nist.of_block (mulB g)) (pad16 d).
Proof.
  induction n as [|n IH]; intros d g Hn Hne Hd Hg; [lia|].
  pose proof (mulB_block g Hg) as Hm.
  assert (length d <> 0)%nat as Hd0 by (by intros ?%nil_length_inv).
  assert (forall x, bytes x -> (0 < length x <= 16)%nat ->
    foldl (ghash_byte mulB) (BLOCK_SIZE, g) x =
    (Z.of_nat (length x), xor_bytes (mulB g) (x ++ replicate (16 - length x) 0)) /\
    block (xor_bytes (mulB g) (x ++ replicate (16 - length x) 0)) /\
    Nist.of_block (mulB (xor_bytes (mulB g) (x ++ replicate (16 - length x) 0))) =
    ghash_step E (Nist.of_block (mulB g)) (x ++ replicate (16 - length x) 0)) as Hblk.
  { intros x Hx Hl.
    assert (block (x ++ replicate (16 - length x) 0)) as Hp.
    { split; [apply bytes_app; [done|by apply bytes_replicate]|]. rewrite length_app, length_replicate. lia. }
    pose proof (Aes.xor_block _ _ Hm Hp) as Hxb.
    split_and!; [|done|].
    - rewrite <- xor_pad by (done || lia).
      pose proof (ghash_slice mulB x (mulB g) 0 0 (length x) Hm ltac:(lia) ltac:(lia) ltac:(lia) ltac:(lia)) as Hs.
      change (Z.to_nat 0) with 0%nat in Hs. unfold slice in Hs at 1 3. rewrite drop_0, take_ge, Z.add_0_l in Hs by lia.
      rewrite <- Hs. destruct x; [exfalso; clear -Hl; cbn in Hl; lia|]. apply ghash_first_full.
    - destruct (mulB_spec _ Hxb) as [_ ->]. unfold ghash_step.
      rewrite of_block_lxor; [done|apply Hm|apply Hp|]. by rewrite (proj2 Hm), (proj2 Hp). }
  destruct (decide (length d <= 16)%nat) as [Hs|Hl].
  - destruct (Hblk d Hd) as (-> & Hb & Hv); [lia|].
    cbn [snd]. split; [done|]. rewrite Hv, pad16_short by lia.
    rewrite <- (app_nil_r (d ++ _)) at 2. rewrite hash_blocks_cons; [done|].
    rewrite length_app, length_replicate. lia.
  - rewrite <- (take_drop 16 d), foldl_app.
    assert (length (take 16 d) = 16%nat) as Ht by (rewrite length_take; lia).
    destruct (Hblk (take 16 d)) as (-> & Hb & Hv); [by apply bytes_take|lia|].
    rewrite Ht in Hb, Hv |- *. cbn [Nat.sub replicate] in Hb, Hv |- *. rewrite app_nil_r in Hb, Hv |- *.
    rewrite pad16_app, hash_blocks_cons by done. rewrite <- Hv.
    apply IH; [rewrite length_drop; lia| |by apply bytes_drop|done].
    intros Hnil. apply (f_equal length) in Hnil. rewrite length_drop in Hnil. cbn in Hnil. lia.
Qed.

(** The hash block after the bytes [d]. *)
Definition ghash_state (d : list Z) : list Z := (foldl (ghash_byte mulB) (0, zero_block) d).2.

Lemma ghash_state_spec d :
  bytes d ->
  block (ghash_state d) /\ Nist.of_block (mulB (ghash_state d)) = hash_blocks 0 (pad16 d).
Proof.
  intros Hd. unfold ghash_state. destruct d as [|c d].
  { cbn [foldl snd]. split; [apply zero_block_block|]. by rewrite mulB_zero. }
  rewrite <- mulB_zero at 1 2. rewrite <- ghash_first_full.
  pose proof (ghash_bytes_full (S (length (c :: d))) (c :: d) zero_block) as Hf.
  rewrite mulB_zero in Hf. apply Hf; [lia|done|done|apply zero_block_block].
Qed.
End ghash.

(** ** The counter *)

#[local] Opaque Nist.mul.

Lemma inc_last a b c d :
  bytes [a; b; c; d] ->
  be_bytes 4 (u32 (Nist.of_block [a; b; c; d] + 1)) =
  (if u8 (d + 1) =? 0 then
     if u8 (c + 1) =? 0 then
       if u8 (b + 1) =? 0 then [u8 (a + 1); 0; 0; 0] else [a; u8 (b + 1); 0; 0]
     else [a; b; u8 (c + 1); 0]
   else [a; b; c; u8 (d + 1)]).
Proof.
  intros Hl. unfold bytes in Hl. rewrite !List.Forall_cons_iff in Hl.
  destruct Hl as (Ha & Hb & Hc & Hd & _).
  pose proof (wrap_range 8 (a + 1) ltac:(done)). pose proof (wrap_range 8 (b + 1) ltac:(done)).
  pose proof (wrap_range 8 (c + 1) ltac:(done)). pose proof (wrap_range 8 (d + 1) ltac:(done)).
  apply of_block_inj; [apply bytes_be_bytes| | |].
  - repeat case_match; unfold bytes; rewrite !List.Forall_cons_iff; split_and!; done.
  - rewrite length_be_bytes. by repeat case_match.
  - rewrite of_block_be_bytes, wrap_idemp by done. change (8 * Z.of_nat 4) with 32.
    unfold Nist.of_block, wrap, in_range in *. change (2 ^ 8) with 256 in *. change (2 ^ 32) with 4294967296.
    repeat case_match; bool_to_prop; cbn [foldl]; Z.div_mod_to_equations; lia.
Qed.

Lemma inc_ctr_loop_S n x i :
  (0 <= i < Z.of_nat (length x)) ->
  inc_ctr_loop (S n) x i =
  if u8 (rd x i + 1) =? 0 then inc_ctr_loop n (wr x i (u8 (rd x i + 1))) (i - 1)
  else wr x i (u8 (rd x i + 1)).
Proof. intros Hi. cbn [inc_ctr_loop]. by rewrite rd_wr_eq. Qed.

Lemma inc_ctr_spec c : block c -> inc_ctr c = inc32 c.
Proof.
  intros Hc. explode c. unfold inc32. cbn [take drop].
  rewrite inc_last by byte_lists. unfold inc_ctr.
  change (Z.to_nat (BLOCK_SIZE - CTR_POS)) with 4%nat. change (BLOCK_SIZE - 1) with 15.
  rewrite inc_ctr_loop_S by (cbn; lia). rd_lit.
  destruct (Z.eqb_spec (u8 (z14 + 1)) 0) as [E|]; [|done]. rewrite E.
  change (15 - 1) with 14.
  rewrite inc_ctr_loop_S by (rewrite ?length_wr; cbn; lia). rewrite rd_wr_ne by lia. rd_lit.
  destruct (Z.eqb_spec (u8 (z13 + 1)) 0) as [E1|]; [|done]. rewrite E1.
  change (14 - 1) with 13.
  rewrite inc_ctr_loop_S by (rewrite ?length_wr; cbn; lia). rewrite !rd_wr_ne by lia. rd_lit.
  destruct (Z.eqb_spec (u8 (z12 + 1)) 0) as [E2|]; [|done]. rewrite E2.
  change (13 - 1) with 12.
  rewrite inc_ctr_loop_S by (rewrite ?length_wr; cbn; lia). rewrite !rd_wr_ne by lia. rd_lit.
  by destruct (Z.eqb_spec (u8 (z11 + 1)) 0) as [E3|]; [rewrite E3|].
Qed.

Lemma inc32_block c : block c -> block (inc32 c) /\ take 12 (inc32 c) = take 12 c.
Proof.
  intros Hc. split; [rewrite <- inc_ctr_spec by done; by apply inc_ctr_block|].
  destruct Hc as [_ Hl]. unfold inc32. rewrite take_app_le by (rewrite length_take; lia).
  rewrite take_take. by replace (12 `min` 12)%nat with 12%nat by lia.
Qed.

(** ** The key stream *)

Section keyed.
Context (E : list Z -> list Z) (k : aes_encrypt_ctx).
Hypothesis E_spec : forall x out, block x -> aes_into x out k = E x.
Hypothesis E_block : forall x, block x -> block (E x).

Lemma blocks_of_short x : (0 < length x <= 16)%nat -> blocks_of x = 1%nat.
Proof. intros Hx. unfold blocks_of. symmetry. apply (Nat.div_unique _ _ _ (length x - 1)); lia. Qed.

Lemma crypt_is_gctr n : forall x cb enc,
  (length x < 16 * n)%nat -> block cb -> block enc ->
  exists ctr enc',
    crypt_bytes k (0, cb, enc) x =
      (GCTR E (blocks_of x) (inc32 cb) x, (Z.of_nat (length x) mod BLOCK_SIZE, ctr, enc')) /\
    block ctr /\ block enc' /\ take 12 ctr = take 12 cb.
Proof.
  induction n as [|n IH]; intros x cb enc Hn Hcb Henc; [lia|].
  destruct (inc32_block cb Hcb) as [Hic Hit].
  assert (refresh k (0, cb, enc) = (0, inc32 cb, E (inc32 cb))) as Hr.
  { unfold refresh. rewrite inc_ctr_spec by done. by rewrite E_spec. }
  assert (block (E (inc32 cb))) as He by auto.
  destruct (decide (x = [])) as [->|Hne]; [by exists cb, enc|].
  assert (length x <> 0)%nat by (by intros ?%nil_length_inv).
  destruct (decide (length x <= 16)%nat) as [Hs|Hl].
  - exists (inc32 cb), (E (inc32 cb)). rewrite blocks_of_short by lia. cbn [GCTR].
    rewrite (take_ge x), app_nil_r by lia.
    rewrite (crypt_bytes_run k x 0 cb enc _ _ Hr) by (done || lia || apply He). done.
  - assert (length (take 16 x) = 16%nat) as Ht by (rewrite length_take; lia).
    destruct (IH (drop 16 x) (inc32 cb) (E (inc32 cb))) as (ctr & enc' & Ex & H1 & H2 & H3);
      [rewrite length_drop; lia|done|done|].
    exists ctr, enc'. rewrite H3, Hit. split_and!; try done.
    rewrite <- (take_drop 16 x) at 1 2. rewrite blocks_of_app by done. cbn [GCTR].
    rewrite crypt_bytes_app, (crypt_bytes_run k _ 0 cb enc _ _ Hr)
      by (done || lia || apply He || (by intros Hn0; rewrite Hn0 in Ht)).
    rewrite Ht. change ((0 + Z.of_nat 16) mod BLOCK_SIZE) with 0. rewrite Ex. rewrite length_drop.
    assert (Z.of_nat (length x - 16) mod BLOCK_SIZE = Z.of_nat (length x) mod BLOCK_SIZE) as ->; [|done].
    unfold BLOCK_SIZE. replace (Z.of_nat (length x)) with (Z.of_nat (length x - 16) + 1 * 16) by lia.
    by rewrite Z.mod_add.
Qed.

Lemma GCTR_involutive n : forall cb x,
  block cb -> (length x <= 16 * n)%nat -> GCTR E n cb (GCTR E n cb x) = x.
Proof.
  induction n as [|n IH]; intros cb x Hcb Hl; cbn [GCTR]; [destruct x; [done|cbn in Hl; lia]|].
  destruct (E_block cb Hcb) as [_ He]. destruct (inc32_block cb Hcb) as [Hic _].
  assert (length (xor_bytes (take 16 x) (E cb)) = length (take 16 x)) as Hx.
  { rewrite length_xor_bytes, length_take. lia. }
  destruct (decide (length x <= 16)%nat) as [Hs|Hg].
  - assert (forall m c, GCTR E m c [] = []) as Hnil.
    { intros m. induction m as [|m IHm]; intros c; cbn [GCTR]; [done|]. by rewrite IHm. }
    rewrite (drop_ge x), Hnil, app_nil_r by lia. rewrite take_ge by (rewrite Hx, length_take; lia).
    rewrite drop_ge, Hnil, app_nil_r by (rewrite Hx, length_take; lia).
    rewrite xor_bytes_cancel by (rewrite length_take; lia). apply take_ge. lia.
  - rewrite take_app_length', drop_app_length' by (rewrite Hx, length_take; lia).
    rewrite IH by (done || rewrite length_drop; lia).
    rewrite xor_bytes_cancel by (rewrite length_take; lia). apply take_drop.
Qed.

Lemma GCTR_length n : forall cb x,
  block cb -> (length x <= 16 * n)%nat -> length (GCTR E n cb x) = length x.
Proof.
  induction n as [|n IH]; intros cb x Hcb Hl; cbn [GCTR]; [destruct x; [done|cbn in Hl; lia]|].
  destruct (E_block cb Hcb) as [_ He]. destruct (inc32_block cb Hcb) as [Hic _].
  rewrite length_app, length_xor_bytes, IH, length_take, length_drop by (done || rewrite length_drop; lia).
  lia.
Qed.

Lemma GCTR_bytes n : forall cb x, block cb -> bytes x -> bytes (GCTR E n cb x).
Proof.
  induction n as [|n IH]; intros cb x Hcb Hx; cbn [GCTR]; [constructor|].
  apply bytes_app; [|apply IH; [by apply inc32_block|by apply bytes_drop]].
  apply bytes_xor; [by apply bytes_take|]. by apply E_block.
Qed.
End keyed.

Lemma blocks_of_bound x : (length x <= 16 * blocks_of x)%nat.
Proof.
  unfold blocks_of. pose proof (Nat.div_mod_eq (length x + 15) 16).
  pose proof (Nat.mod_upper_bound (length x + 15) 16). lia.
Qed.

(** ** The tag *)

Lemma iter_double (x : Z) m : forall y, is_field x -> is_field y ->
  Nat.iter (m + m) (fun y => Nist.mul y x) y = Nat.iter m (fun y => Nist.mul y (Nist.mul x x)) y.
Proof.
  induction m as [|m IH]; intros y Hx Hy; [done|].
  replace (S m + S m)%nat with (S (S (m + m))) by lia. rewrite !Nat.iter_succ, IH by done.
  assert (is_field (Nat.iter m (fun y => Nist.mul y (Nist.mul x x)) y)) as Hf.
  { clear IH. induction m; [done|]. rewrite Nat.iter_succ. by apply mul_field, mul_field. }
  by apply mul_assoc.
Qed.

(** Repeated squaring raises to the power [ln]. *)
Lemma hdr_power_spec fuel : forall ln tb g,
  0 < ln < 2 ^ Z.of_nat fuel -> block tb -> block g ->
  block (hdr_power fuel ln tb g) /\
  Nist.of_block (hdr_power fuel ln tb g) =
    Nat.iter (Z.to_nat ln) (fun y => Nist.mul y (Nist.of_block tb)) (Nist.of_block g).
Proof.
  induction fuel as [|fuel IH]; intros ln tb g Hln Ht Hg; [change (2 ^ Z.of_nat 0) with 1 in Hln; lia|].
  cbn [hdr_power].
  assert (Z.land ln 1 = ln mod 2) as -> by (change 1 with (Z.ones 1); by rewrite Z.land_ones).
  rewrite Z.shiftr_div_pow2 by done. change (2 ^ 1) with 2.
  pose proof (of_block_field tb Ht) as Hft. pose proof (of_block_field g Hg) as Hfg.
  set (g' := if ln mod 2 =? 0 then g else gf_mulTMD g tb).
  assert (block g' /\ Nist.of_block g' =
    Nat.iter (Z.to_nat (ln mod 2)) (fun y => Nist.mul y (Nist.of_block tb)) (Nist.of_block g)) as [Hg' Eg'].
  { unfold g'. assert (ln mod 2 = 0 \/ ln mod 2 = 1) as [-> | ->] by mod_lia; [done|].
    destruct (gf_mulTMD_nist g tb Hg Ht) as [Hb Ev]. split; [done|].
    cbn [Z.eqb]. rewrite Ev. change (Z.to_nat 1) with 1%nat. by apply mul_comm. }
  destruct (Z.eqb_spec (ln / 2) 0) as [Hz|Hnz].
  { split; [done|]. rewrite Eg'. do 2 f_equal. mod_lia. }
  destruct (gf_mulTMD_nist tb tb Ht Ht) as [Hb2 Ev2].
  destruct (IH (ln / 2) (gf_mulTMD tb tb) g') as [Hb Ev]; [|done|done|].
  { rewrite Nat2Z.inj_succ, Z.pow_succ_r in Hln by lia.
    split; [mod_lia|]. apply Z.div_lt_upper_bound; lia. }
  split; [done|]. rewrite Ev, Ev2, Eg', <- iter_double; [|done|by rewrite <- Eg'; apply of_block_field].
  rewrite <- Nat.iter_add. do 2 f_equal. mod_lia.
Qed.

Lemma land_255 x : u8 x = Z.land x 255.
Proof. by rewrite wrap_land. Qed.

Lemma add_lengths_spec g x tm h :
  block g -> block x ->
  add_lengths 16 15 tm h g x =
  xor_bytes (xor_bytes g x) (be_bytes 8 (u64 (Z.shiftl h 3)) ++ be_bytes 8 tm).
Proof.
  intros Hg Hx. set (v := u64 (Z.shiftl h 3)). explode g. explode x.
  cbn [add_lengths]. fold v.
  cbv [xor_byte wr rd insert list_insert lookup list_lookup default from_option id Z.to_nat Pos.to_nat
       Pos.iter_op Init.Nat.add Z.sub Z.opp Z.add Z.pos_sub Pos.pred_double Z.pred_double
       Z.succ_double Z.double Z.eqb Pos.eqb].
  unfold be_bytes. cbn [le_bytes rev app]. unfold xor_bytes. cbn [zip_with].
  rewrite !land_255, !Z.lxor_assoc. reflexivity.
Qed.

(** ** The keyed context *)

Section messages.
Context (key : list Z).
Hypothesis key_block : block key.

#[local] Abbreviation E := (Fips.cipher key).
#[local] Opaque Fips.cipher aes_encrypt aes_encrypt_key128 init_4k_table gf_mul_4k.

(** What [gcm_init_and_key] establishes and every message keeps. *)
Record keyed (ctx : gcm_ctx) : Prop := {
  keyed_aes : exists cx, length (ks cx) = KS_LENGTH /\ aes ctx = aes_encrypt_key128 key cx;
  keyed_table : exists t, length t = 256%nat /\ gf_t4k ctx = init_4k_table (E zero_block) t;
  keyed_h : ghash_h ctx = E zero_block;
  keyed_ctr : block (ctr_val ctx);
  keyed_enc : block (enc_ctr ctx);
}.

(** A context before keying: its arrays have their sizes. *)
Record wf_ctx (ctx : gcm_ctx) : Prop := {
  wf_ks : length (ks (aes ctx)) = KS_LENGTH;
  wf_table : length (gf_t4k ctx) = 256%nat;
  wf_ctr : block (ctr_val ctx);
  wf_enc : block (enc_ctr ctx);
}.

Lemma E_block x : block x -> block (E x).
Proof.
  intros Hx. apply (key_encrypts key (mk_aes_ctx (replicate KS_LENGTH 0) []) x); [done..|].
  apply length_replicate.
Qed.

Lemma aes_into_E x out cx :
  block x -> length (ks cx) = KS_LENGTH -> aes_into x out (aes_encrypt_key128 key cx) = E x.
Proof.
  intros Hx Hc. unfold aes_into. by destruct (key_encrypts key cx x) as [-> _].
Qed.

Lemma gcm_init_and_key_keyed ctx :
  wf_ctx ctx -> let '(r, ctx') := gcm_init_and_key key ctx in r = RETURN_GOOD /\ keyed ctx'.
Proof.
  intros Hw. unfold gcm_init_and_key. rewrite aes_into_E by (apply zero_block_block || apply Hw).
  split; [done|]. split; cbn [aes gf_t4k ghash_h ctr_val enc_ctr set_key];
    [exists (aes ctx)|exists (gf_t4k ctx)|..]; try split; by try apply Hw.
Qed.

Section one_context.
Context (ctx : gcm_ctx).
Hypothesis Hk : keyed ctx.

Lemma keyed_aes_into x out : block x -> aes_into x out (aes ctx) = E x.
Proof. intros Hx. destruct (keyed_aes _ Hk) as (cx & Hc & ->). by apply aes_into_E. Qed.

Lemma keyed_mul g :
  block g ->
  block (gf_mul_hh g ctx) /\ Nist.of_block (gf_mul_hh g ctx) = Nist.mul (Nist.of_block g) (H E).
Proof.
  intros Hg. unfold gf_mul_hh. destruct (keyed_table _ Hk) as (t & Ht & ->).
  destruct (gf_mul_4k_nist g (E zero_block) t) as [Hb Ev]; [done|apply E_block, zero_block_block|done|].
  split; [exact Hb|]. unfold H. rewrite block_replicate_zero. exact Ev.
Qed.

(** *** The header and the text, in one piece *)

Lemma ghash_absorb_state adr d :
  bytes d -> Z.of_nat (length d) + 16 < 2 ^ 32 -> d <> [] ->
  ghash_absorb (fun a => gf_mul_hh a ctx) d adr 0 zero_block =
  (ghash_state (fun a => gf_mul_hh a ctx) d, Z.of_nat (length d)).
Proof.
  intros Hd Hl Hne. rewrite ghash_absorb_bytewise; [done| |done..|apply zero_block_block].
  intros g Hg. by apply keyed_mul.
Qed.
End one_context.

(** The context after [gcm_init_message] and [gcm_auth_header]: only the
    message state has changed. *)
Definition same_key (c c' : gcm_ctx) : Prop :=
  aes c' = aes c /\ gf_t4k c' = gf_t4k c /\ ghash_h c' = ghash_h c.

Lemma keyed_same c c' :
  keyed c -> same_key c c' -> block (ctr_val c') -> block (enc_ctr c') -> keyed c'.
Proof. intros [? ? ? ? ?] (Ha & Ht & Hh) ? ?. split; rewrite ?Ha, ?Ht, ?Hh; done. Qed.

Lemma gf_mul_hh_same c c' a : same_key c c' -> gf_mul_hh a c' = gf_mul_hh a c.
Proof. intros (_ & Ht & _). unfold gf_mul_hh. by rewrite Ht. Qed.

(** The state of a message after its header and text. *)
Definition message_state (c0 : gcm_ctx) (j0 a p ctr enc out : list Z) (c : gcm_ctx) : Prop :=
  same_key c0 c /\ ctr_val c = ctr /\ enc_ctr c = enc /\ y0_val c = le_word (slice 12 4 j0) /\
  hdr_cnt c = Z.of_nat (length a) /\ txt_acnt c = Z.of_nat (length p) /\
  txt_ccnt c = Z.of_nat (length p) /\
  hdr_ghv c = ghash_state (fun g => gf_mul_hh g c0) a /\
  txt_ghv c = ghash_state (fun g => gf_mul_hh g c0) out.

Lemma init_message_12 c iv :
  keyed c -> bytes iv -> length iv = 12%nat ->
  gcm_init_message iv c =
    (RETURN_GOOD, set_message (J0 E iv) (le_word (slice 12 4 (J0 E iv))) c) /\ block (J0 E iv).
Proof.
  intros Hk Hb Hl. unfold gcm_init_message, J0. rewrite Hl, decide_True by done.
  change (Z.of_nat 12 =? CTR_POS) with true. cbn iota.
  rewrite take_ge by (rewrite Hl; done).
  assert (wr (memcpy_at zero_block 0 iv) 15 1 = iv ++ [0; 0; 0; 1]) as ->.
  { do 12 (destruct iv as [|? iv]; [done|]). by destruct iv. }
  split; [done|]. split; [apply bytes_app; [done|decide_true]|]. by rewrite length_app, Hl.
Qed.

Lemma auth_header_state c a adr :
  keyed c -> hdr_ghv c = zero_block -> hdr_cnt c = 0 ->
  bytes a -> Z.of_nat (length a) + 16 < 2 ^ 32 ->
  gcm_auth_header adr a c =
  (RETURN_GOOD, set_hdr (ghash_state (fun g => gf_mul_hh g c) a) (Z.of_nat (length a)) c).
Proof.
  intros Hk Hg Hn Ha Hl. unfold gcm_auth_header.
  destruct (Z.eqb_spec (Z.of_nat (length a)) 0) as [E0|E0].
  - destruct a; [|cbn in E0; lia]. f_equal. destruct c; cbn in *. by subst.
  - rewrite Hg, Hn, ghash_absorb_state by (done || by intros ->).
    f_equal. f_equal. rewrite Z.add_0_l. apply wrap_id. unfold in_range. lia.
Qed.

Lemma auth_data_state c d adr :
  keyed c -> txt_ghv c = zero_block -> txt_acnt c = 0 ->
  bytes d -> Z.of_nat (length d) + 16 < 2 ^ 32 ->
  gcm_auth_data adr d c =
  (RETURN_GOOD, set_txt (ghash_state (fun g => gf_mul_hh g c) d) (Z.of_nat (length d)) c).
Proof.
  intros Hk Hg Hn Ha Hl. unfold gcm_auth_data.
  destruct (Z.eqb_spec (Z.of_nat (length d)) 0) as [E0|E0].
  - destruct d; [|cbn in E0; lia]. f_equal. destruct c; cbn in *. by subst.
  - rewrite Hg, Hn, ghash_absorb_state by (done || by intros ->).
    f_equal. f_equal. rewrite Z.add_0_l. apply wrap_id. unfold in_range. lia.
Qed.

(** Encryption from the start of a message is GCTR from the incremented
    first counter block. *)
Lemma crypt_data_gctr c d adr :
  keyed c -> txt_ccnt c = 0 -> bytes d -> Z.of_nat (length d) + 16 < 2 ^ 32 ->
  exists ctr enc,
    gcm_crypt_data adr d c =
      (RETURN_GOOD, GCTR E (blocks_of d) (inc32 (ctr_val c)) d,
       set_crypt ctr enc (Z.of_nat (length d)) c) /\
    block ctr /\ block enc /\ take 12 ctr = take 12 (ctr_val c).
Proof.
  intros Hk Hn Hd Hl. pose proof (keyed_ctr _ Hk) as Hctr. pose proof (keyed_enc _ Hk) as Henc.
  destruct (decide (d = [])) as [->|Hne].
  { exists (ctr_val c), (enc_ctr c). split; [|done]. unfold gcm_crypt_data. cbn [length Z.of_nat Z.eqb].
    destruct c; cbn in *. by subst. }
  destruct (crypt_is_gctr E (aes c)) with (S (length d)) d (ctr_val c) (enc_ctr c)
    as (ctr & enc & Ec & H1 & H2 & H3); [intros; by apply keyed_aes_into|intros; by apply E_block|lia|done|done|].
  exists ctr, enc. split; [|done].
  pose proof (crypt_data_bytewise (aes c) d) as Hb.
  specialize (Hb ltac:(intros; rewrite (keyed_aes_into c Hk) by done; by apply E_block) Hd Hl adr c Hne).
  rewrite Hn in Hb. change (0 mod BLOCK_SIZE) with 0 in Hb.
  rewrite Ec in Hb. destruct Hb as [Hb _]; [done|done|done|done|].
  rewrite Hb. do 2 f_equal. rewrite Z.add_0_l. apply wrap_id. unfold in_range. lia.
Qed.

(** *** The tag of a message *)

Lemma pad16_nil : pad16 [] = [].
Proof. done. Qed.

Lemma length_lengths a c : length (lengths a c) = 16%nat.
Proof. unfold lengths. by rewrite length_app, !length_be_bytes. Qed.

Lemma bytes_lengths a c : bytes (lengths a c).
Proof. apply bytes_app; apply bytes_be_bytes. Qed.

Lemma GHASH_split a c :
  GHASH E (pad16 a ++ pad16 c ++ lengths a c) =
  Nist.mul (Z.lxor (Z.lxor (times_H E (blocks_of c) (hash_blocks E 0 (pad16 a)))
                      (hash_blocks E 0 (pad16 c))) (Nist.of_block (lengths a c))) (H E).
Proof.
  unfold GHASH. fold (hash_blocks E 0 (pad16 a ++ pad16 c ++ lengths a c)).
  rewrite (hash_blocks_app E 0 _ _ _ (pad16_length a)), (hash_blocks_app E _ _ _ _ (pad16_length c)).
  rewrite (hash_blocks_start E (pad16 c) _ _ (pad16_length c)).
  rewrite <- (app_nil_r (lengths a c)) at 1.
  rewrite hash_blocks_cons by apply length_lengths. done.
Qed.

Lemma shiftl_3_u64 n : 0 <= n < 2 ^ 32 -> u64 (Z.shiftl n 3) = 8 * n.
Proof.
  intros Hn. rewrite Z.shiftl_mul_pow2 by done. rewrite wrap_id by (unfold in_range; lia). lia.
Qed.

(** The header hash raised past the text. *)
Lemma header_power c g n :
  keyed c -> block g -> 0 <= n -> n + 16 < 2 ^ 32 ->
  let ln := u32 (n + BLOCK_SIZE - 1) / BLOCK_SIZE in
  let r := if ln =? 0 then g else hdr_power 32 ln (ghash_h c) g in
  block r /\ Nist.of_block r = times_H E (Z.to_nat ln) (Nist.of_block g).
Proof.
  intros Hk Hg Hn Hs ln r. unfold BLOCK_SIZE in ln.
  assert (ln = (n + 15) / 16) as Hln.
  { unfold ln. rewrite wrap_id by (unfold in_range; lia). f_equal. lia. }
  assert (0 <= ln < 2 ^ Z.of_nat 32) as Hr.
  { rewrite Hln. change (2 ^ Z.of_nat 32) with (2 ^ 32).
    split; [apply Z.div_pos; lia|apply Z.div_lt_upper_bound; lia]. }
  unfold r. clear r. clearbody ln. destruct (Z.eqb_spec ln 0) as [->|Hz]; [done|].
  rewrite (keyed_h _ Hk).
  destruct (hdr_power_spec 32 ln (E zero_block) g) as [Hb Ev];
    [lia|apply E_block, zero_block_block|done|].
  split; [done|]. rewrite Ev. unfold times_H, H. by rewrite block_replicate_zero.
Qed.

Lemma be_last j0 ctr :
  block j0 -> block ctr -> take 12 ctr = take 12 j0 ->
  memcpy_at ctr (Z.to_nat CTR_POS) (le_bytes 4 (le_word (slice 12 4 j0))) = j0.
Proof.
  intros [Hb Hl] [Hbc Hlc] Ht. change (Z.to_nat CTR_POS) with 12%nat.
  assert (length (slice 12 4 j0) = 4%nat) as Hs by (rewrite length_slice; lia).
  pose proof (le_bytes_le_word (slice 12 4 j0) ltac:(auto with words)) as Hw. rewrite Hs in Hw. rewrite Hw.
  rewrite memcpy_at_spec by lia. rewrite Ht, Hs, drop_ge, app_nil_r by lia.
  unfold slice. rewrite (take_ge (drop 12 j0)) by (rewrite length_drop; lia). apply take_drop.
Qed.

(** What [gcm_compute_tag] needs of the context at the end of a message. *)
Record at_end (iv a c : list Z) (ctx : gcm_ctx) : Prop := {
  end_keyed : keyed ctx;
  end_y0 : y0_val ctx = le_word (slice 12 4 (J0 E iv));
  end_ctr : take 12 (ctr_val ctx) = take 12 (J0 E iv);
  end_hdr : hdr_ghv ctx = ghash_state (fun g => gf_mul_hh g ctx) a;
  end_txt : txt_ghv ctx = ghash_state (fun g => gf_mul_hh g ctx) c;
  end_hdr_cnt : hdr_cnt ctx = Z.of_nat (length a);
  end_acnt : txt_acnt ctx = Z.of_nat (length c);
  end_ccnt : txt_ccnt ctx = Z.of_nat (length c);
}.

Definition small (x : list Z) : Prop := bytes x /\ Z.of_nat (length x) + 16 < 2 ^ 32.

Lemma compute_tag_spec t iv a c ctx :
  at_end iv a c ctx -> block (J0 E iv) -> small a -> small c ->
  exists ctx', gcm_compute_tag t ctx = (RETURN_GOOD, tag E t iv a c, ctx') /\ keyed ctx'.
Proof.
  intros He Hj [Ha Hla] [Hc Hlc]. pose proof (end_keyed _ _ _ _ He) as Hk.
  unfold gcm_compute_tag. rewrite (end_hdr_cnt _ _ _ _ He), (end_acnt _ _ _ _ He), (end_ccnt _ _ _ _ He).
  rewrite Z.eqb_refl. cbn [negb andb]. rewrite (end_hdr _ _ _ _ He), (end_txt _ _ _ _ He).
  pose proof (keyed_mul ctx Hk) as Hmul.
  destruct (ghash_state_spec E _ Hmul a Ha) as [Hab Hav].
  destruct (ghash_state_spec E _ Hmul c Hc) as [Hcb Hcv].
  destruct (Hmul _ Hab) as [Hga _]. destruct (Hmul _ Hcb) as [Hgc _].
  set (ga := gf_mul_hh (ghash_state _ a) ctx) in *. set (gc := gf_mul_hh (ghash_state _ c) ctx) in *.
  destruct (header_power ctx ga (Z.of_nat (length c)) Hk Hga ltac:(lia) Hlc) as [Hpb Hpv].
  assert (Z.to_nat (u32 (Z.of_nat (length c) + BLOCK_SIZE - 1) / BLOCK_SIZE) = blocks_of c) as Hln.
  { unfold BLOCK_SIZE, blocks_of. rewrite wrap_id by (unfold in_range; lia).
    apply Nat2Z.inj. rewrite Nat2Z.inj_div, Z2Nat.id by (apply Z.div_pos; lia). f_equal. lia. }
  rewrite Hln, Hav in Hpv.
  set (gp := if _ / _ =? 0 then ga else _) in *.
  set (g2 := if Z.of_nat (length a) =? 0 then ga else gp).
  assert (block g2 /\ Nist.of_block g2 = times_H E (blocks_of c) (hash_blocks E 0 (pad16 a))) as [Hb2 Hv2].
  { unfold g2. destruct (Z.eqb_spec (Z.of_nat (length a)) 0) as [E0|E0]; [|done].
    split; [exact Hga|]. rewrite Hav. destruct a; [|cbn in E0; lia]. rewrite pad16_nil, hash_blocks_nil.
    clear. induction (blocks_of c) as [|n IH]; [done|].
    unfold times_H in *. rewrite Nat.iter_succ, <- IH. by rewrite mul_0_l. }
  change (BLOCK_SIZE - 1) with 15. rewrite add_lengths_spec by done.
  rewrite !shiftl_3_u64 by lia. fold (lengths a c).
  assert (block (lengths a c)) as Hlb by (split; [apply bytes_lengths|apply length_lengths]).
  pose proof (Aes.xor_block _ _ Hb2 Hgc) as Hx1. pose proof (Aes.xor_block _ _ Hx1 Hlb) as Hx2.
  destruct (Hmul _ Hx2) as [Hb3 Hv3].
  set (g3 := gf_mul_hh (xor_bytes _ (lengths a c)) ctx) in *.
  assert (g3 = be_bytes 16 (GHASH E (pad16 a ++ pad16 c ++ lengths a c))) as ->.
  { rewrite GHASH_split, <- Hv2, <- Hcv, <- !of_block_lxor, <- Hv3
      by (apply Hb2 || apply Hgc || apply Hx1 || apply Hlb ||
          by rewrite ?(proj2 Hb2), ?(proj2 Hgc), ?(proj2 Hx1), ?(proj2 Hlb)).
    by rewrite be_bytes_of_block. }
  rewrite (end_y0 _ _ _ _ He), be_last; [|exact Hj|apply Hk|apply He].
  rewrite (keyed_aes_into ctx Hk) by exact Hj. eexists. split.
  - unfold tag. cbn [GCTR]. rewrite app_nil_r, (take_ge (be_bytes 16 _)) by (rewrite length_be_bytes; done).
    reflexivity.
  - apply (keyed_same ctx); [exact Hk|repeat split|exact (keyed_ctr _ Hk)|exact (E_block _ Hj)].
Qed.

(** *** Whole messages *)

Lemma small_nil : small [].
Proof. split; [constructor|done]. Qed.

(** The context after the nonce and the header. *)
Lemma start_spec ctx iv a adr :
  keyed ctx -> bytes iv -> length iv = 12%nat -> small a ->
  block (J0 E iv) /\
  exists c, (let '(_, c) := gcm_init_message iv ctx in gcm_auth_header adr a c) = (RETURN_GOOD, c) /\
    keyed c /\ ctr_val c = J0 E iv /\ y0_val c = le_word (slice 12 4 (J0 E iv)) /\
    hdr_ghv c = ghash_state (fun g => gf_mul_hh g c) a /\ hdr_cnt c = Z.of_nat (length a) /\
    txt_ghv c = zero_block /\ txt_acnt c = 0 /\ txt_ccnt c = 0.
Proof.
  intros Hk Hb Hl [Ha Hla]. destruct (init_message_12 ctx iv Hk Hb Hl) as [Ei Hj]. split; [exact Hj|].
  rewrite Ei. set (c1 := set_message _ _ ctx).
  assert (keyed c1) as Hk1 by (apply (keyed_same ctx); [exact Hk|repeat split|exact Hj|exact (keyed_enc _ Hk)]).
  rewrite auth_header_state by first [exact Hk1|exact Ha|exact Hla|reflexivity].
  eexists. split; [reflexivity|]. split; [|repeat split].
  apply (keyed_same c1); [exact Hk1|repeat split|exact Hj|exact (keyed_enc _ Hk)].
Qed.

Lemma ciphertext_small iv p : block (J0 E iv) -> small p -> small (ciphertext E iv p).
Proof.
  intros Hj [Hp Hl]. destruct (inc32_block _ Hj) as [Hi _]. split.
  - apply GCTR_bytes; [exact E_block|exact Hi|exact Hp].
  - unfold ciphertext. rewrite GCTR_length; [exact Hl|exact E_block|exact Hi|apply blocks_of_bound].
Qed.

Lemma ciphertext_length iv p : block (J0 E iv) -> length (ciphertext E iv p) = length p.
Proof.
  intros Hj. destruct (inc32_block _ Hj) as [Hi _]. apply GCTR_length; [exact E_block|exact Hi|apply blocks_of_bound].
Qed.

Lemma encrypt_message_spec adr_h adr_t adr_e t iv a p ctx :
  keyed ctx -> bytes iv -> length iv = 12%nat -> small a -> small p ->
  exists ctx',
    gcm_encrypt_message adr_h adr_t adr_e iv a p t ctx =
      (RETURN_GOOD, ciphertext E iv p, tag E t iv a (ciphertext E iv p), ctx') /\ keyed ctx'.
Proof.
  intros Hk Hb Hl Ha Hp.
  destruct (start_spec ctx iv a adr_h Hk Hb Hl Ha) as (Hj & c & Es & Hkc & Hctr & Hy0 & Hh & Hhc & Ht & Hta & Htc).
  pose proof (ciphertext_small iv p Hj Hp) as Hcs. pose proof (ciphertext_length iv p Hj) as Hcl.
  unfold gcm_encrypt_message, gcm_encrypt. destruct (gcm_init_message iv ctx) as [r0 c0]. rewrite Es.
  destruct (crypt_data_gctr c p adr_e Hkc Htc (proj1 Hp) (proj2 Hp)) as (ctr & enc & Ec & H1 & H2 & H3).
  rewrite Ec, Hctr. fold (ciphertext E iv p).
  set (c2 := set_crypt ctr enc _ c).
  assert (keyed c2) as Hk2 by (apply (keyed_same c); [exact Hkc|repeat split|exact H1|exact H2]).
  rewrite auth_data_state by first [exact Hk2|exact Ht|exact Hta|apply Hcs].
  destruct (compute_tag_spec t iv a (ciphertext E iv p)
    (set_txt (ghash_state (fun g => gf_mul_hh g c2) (ciphertext E iv p))
       (Z.of_nat (length (ciphertext E iv p))) c2)) as (ctx' & Et & Hk'); [|exact Hj|exact Ha|exact Hcs|].
  { split; [|exact Hy0| |exact Hh|reflexivity|exact Hhc|reflexivity|].
    - apply (keyed_same c2); [exact Hk2|repeat split|exact H1|exact H2].
    - rewrite Hctr in H3. exact H3.
    - rewrite Hcl. reflexivity. }
  rewrite Et. by exists ctx'.
Qed.

Lemma decrypt_message_spec adr_h adr_t adr_e iv a c tg ctx :
  keyed ctx -> bytes iv -> length iv = 12%nat -> small a -> small c ->
  exists ctx',
    gcm_decrypt_message adr_h adr_t adr_e iv a c tg ctx =
      (if bool_decide (tg = tag E (length tg) iv a c) then RETURN_GOOD else RETURN_ERROR,
       ciphertext E iv c, ctx') /\ keyed ctx'.
Proof.
  intros Hk Hb Hl Ha Hc.
  destruct (start_spec ctx iv a adr_h Hk Hb Hl Ha) as (Hj & c1 & Es & Hkc & Hctr & Hy0 & Hh & Hhc & Ht & Hta & Htc).
  unfold gcm_decrypt_message, gcm_decrypt. destruct (gcm_init_message iv ctx) as [r0 c0]. rewrite Es.
  rewrite auth_data_state by first [exact Hkc|exact Ht|exact Hta|apply Hc].
  set (c2 := set_txt _ _ c1).
  assert (keyed c2) as Hk2.
  { apply (keyed_same c1); [exact Hkc|repeat split|exact (keyed_ctr _ Hkc)|exact (keyed_enc _ Hkc)]. }
  destruct (crypt_data_gctr c2 c adr_e Hk2 Htc (proj1 Hc) (proj2 Hc)) as (ctr & enc & Ec & H1 & H2 & H3).
  rewrite Ec. change (ctr_val c2) with (ctr_val c1) in H3 |- *. rewrite Hctr in H3 |- *. fold (ciphertext E iv c).
  destruct (compute_tag_spec (length tg) iv a c (set_crypt ctr enc (Z.of_nat (length c)) c2))
    as (ctx' & Et & Hk'); [|exact Hj|exact Ha|exact Hc|].
  { split; [|exact Hy0|exact H3|exact Hh|reflexivity|exact Hhc|reflexivity|reflexivity].
    apply (keyed_same c2); [exact Hk2|repeat split|exact H1|exact H2]. }
  rewrite Et. exists ctx'. split; [|exact Hk']. do 2 f_equal.
  case_bool_decide; reflexivity.
Qed.

Lemma ciphertext_involutive iv p :
  block (J0 E iv) -> ciphertext E iv (ciphertext E iv p) = p.
Proof.
  intros Hj. destruct (inc32_block _ Hj) as [Hi _]. unfold ciphertext at 1.
  assert (blocks_of (ciphertext E iv p) = blocks_of p) as ->.
  { unfold blocks_of. by rewrite ciphertext_length. }
  apply GCTR_involutive; [exact E_block|exact Hi|apply blocks_of_bound].
Qed.
End messages.

(** C12. After keying, [gcm_encrypt_message] with a 12-byte IV is the
    authenticated encryption of SP 800-38D under AES-128, whatever the
    alignment of the buffers, and leaves the context ready for the next
    message.  (A tag has at most 16 bytes; the code asks for 12.) *)
Theorem gcm_encrypt_message_is_sp800_38d key ctx adr_h adr_t adr_e t iv a p :
  block key -> wf_ctx ctx -> bytes iv -> length iv = 12%nat -> small a -> small p ->
  let c1 := (gcm_init_and_key key ctx).2 in
  let c := ciphertext (Fips.cipher key) iv p in
  exists c2,
    gcm_encrypt_message adr_h adr_t adr_e iv a p t c1 =
      (RETURN_GOOD, c, tag (Fips.cipher key) t iv a c, c2) /\ keyed key c2.
Proof.
  intros Hkey Hw Hb Hl Ha Hp c1 c. pose proof (gcm_init_and_key_keyed key Hkey ctx Hw) as Hk.
  unfold c1. destruct (gcm_init_and_key key ctx) as [r c']. destruct Hk as [_ Hk].
  by apply encrypt_message_spec.
Qed.

(** In a keyed context, decryption of anything gives a definite verdict:
    RETURN_GOOD exactly when the tag is the standard's; a message that was
    encrypted comes back. *)
Theorem gcm_decrypt_message_verdict key ctx adr_h adr_t adr_e iv a c tg :
  block key -> keyed key ctx -> bytes iv -> length iv = 12%nat -> small a -> small c ->
  exists p ctx',
    gcm_decrypt_message adr_h adr_t adr_e iv a c tg ctx =
      (if bool_decide (tg = tag (Fips.cipher key) (length tg) iv a c) then RETURN_GOOD
       else RETURN_ERROR, p, ctx') /\
    keyed key ctx' /\ ciphertext (Fips.cipher key) iv p = c.
Proof.
  intros Hkey Hk Hb Hl Ha Hc.
  destruct (decrypt_message_spec key Hkey adr_h adr_t adr_e iv a c tg ctx Hk Hb Hl Ha Hc) as (ctx' & E & Hk').
  exists (ciphertext (Fips.cipher key) iv c), ctx'. split; [exact E|]. split; [exact Hk'|].
  apply ciphertext_involutive; [exact Hkey|]. by apply (init_message_12 key ctx iv Hk Hb Hl).
Qed.

(** A context with the sizes of the arrays and nothing in them. *)
Definition blank_ctx : gcm_ctx :=
  mk_gcm (replicate 256 zero_block) zero_block zero_block zero_block zero_block zero_block
    (mk_aes_ctx (replicate KS_LENGTH 0) [0; 0; 0; 0]) 0 0 0 0.

Lemma blank_ctx_wf : wf_ctx blank_ctx.
Proof. split; [done|done|decide_true|decide_true]. Qed.

Lemma gcm_encrypt_message_is_sp800_38d_witness :
  let key := seqZ 0 16 in
  let c := ciphertext (Fips.cipher key) (seqZ 50 12) (seqZ 0 40) in
  exists c2,
    gcm_encrypt_message 1 2 3 (seqZ 50 12) (seqZ 7 20) (seqZ 0 40) 12 (gcm_init_and_key key blank_ctx).2 =
      (RETURN_GOOD, c, tag (Fips.cipher key) 12 (seqZ 50 12) (seqZ 7 20) c, c2) /\ keyed key c2.
Proof.
  refine (gcm_encrypt_message_is_sp800_38d (seqZ 0 16) blank_ctx 1 2 3 12 (seqZ 50 12) (seqZ 7 20) (seqZ 0 40)
    _ blank_ctx_wf _ eq_refl _ _); [decide_true..|].
  decide_true.
Defined.

(** An all-zero tag on forty bytes. *)
Lemma gcm_decrypt_message_verdict_witness :
  let key := seqZ 0 16 in
  let tg := replicate 12 0 in
  exists p ctx',
    gcm_decrypt_message 1 2 3 (seqZ 50 12) (seqZ 7 20) (seqZ 0 40) tg (gcm_init_and_key key blank_ctx).2 =
      (if bool_decide (tg = tag (Fips.cipher key) 12 (seqZ 50 12) (seqZ 7 20) (seqZ 0 40)) then RETURN_GOOD
       else RETURN_ERROR, p, ctx') /\
    keyed key ctx' /\ ciphertext (Fips.cipher key) (seqZ 50 12) p = seqZ 0 40.
Proof.
  assert (keyed (seqZ 0 16) (gcm_init_and_key (seqZ 0 16) blank_ctx).2) as Hk.
  { pose proof (gcm_init_and_key_keyed (seqZ 0 16) ltac:(decide_true) blank_ctx blank_ctx_wf) as H.
    destruct (gcm_init_and_key (seqZ 0 16) blank_ctx). exact (proj2 H). }
  refine (gcm_decrypt_message_verdict (seqZ 0 16) _ 1 2 3 (seqZ 50 12) (seqZ 7 20) (seqZ 0 40) (replicate 12 0)
    _ Hk _ eq_refl _ _); decide_true.
Defined.
