(* ===== verification/AesModes.v ===== *)
(** * AES in counter mode with a caller-supplied counter

    [aes_mode_reset], [aes_ecb_encrypt] and [aes_ctr_crypt] of
    GEC-block/src/aes_modes.c, without the VIA ACE instructions.  The counter
    buffer is advanced by the function the caller passes; [ctr_stream] says
    byte by byte what the chunked, word-at-a-time code computes. *)

From S2P Require Import Prelude Aes Gf128 Gcm.

Local Open Scope Z_scope.

Definition EXIT_SUCCESS : Z := 0.
Definition EXIT_FAILURE : Z := 1.

Definition BFR_BLOCKS : Z := 8.
Definition BFR_LENGTH : Z := BFR_BLOCKS * 16.

(** [ctx->inf.b[2]]: the bytes already used of the current key-stream block. *)
Definition inf_pos (cx : aes_encrypt_ctx) : Z := rd (inf_b cx) 2.
Definition set_inf_pos (v : Z) (cx : aes_encrypt_ctx) : aes_encrypt_ctx :=
  mk_aes_ctx (ks cx) (wr (inf_b cx) 2 (u8 v)).

Definition aes_mode_reset (cx : aes_encrypt_ctx) : Z * aes_encrypt_ctx :=
  (EXIT_SUCCESS, set_inf_pos 0 cx).

(** [while(nb--)] over the blocks of [ibuf]; [None] is EXIT_FAILURE. *)
Fixpoint ecb_loop (nb : nat) (ibuf : list Z) (cx : aes_encrypt_ctx) : option (list Z) :=
  match nb with
  | O => Some []
  | S nb =>
      match aes_encrypt (take 16 ibuf) cx with
      | None => None
      | Some o => option_map (app o) (ecb_loop nb (drop 16 ibuf) cx)
      end
  end.

Definition aes_ecb_encrypt (ibuf : list Z) (cx : aes_encrypt_ctx) : option (list Z) :=
  let len := Z.of_nat (length ibuf) in
  if negb (Z.land len 15 =? 0) then None
  else ecb_loop (Z.to_nat (Z.shiftr len 4)) ibuf cx.

Section ctr.
Context (ctr_inc : list Z -> list Z).

(** [for(i = 0, ip = buf; i < (blen >> 4); ++i)]: copies of the counter. *)
Fixpoint fill_counters (n : nat) (cbuf : list Z) : list Z * list Z :=
  match n with
  | O => ([], cbuf)
  | S n => let '(buf, c) := fill_counters n (ctr_inc cbuf) in (cbuf ++ buf, c)
  end.

(** The whole blocks of a chunk, by words when the three buffers are
    aligned and by bytes otherwise. *)
Fixpoint xor_chunk (aligned : bool) (n : nat) (ibuf buf : list Z) : list Z :=
  match n with
  | O => []
  | S n =>
      (if aligned then xor_block_aligned (take 16 ibuf) (take 16 buf)
       else xor_block (take 16 ibuf) (take 16 buf)) ++
      xor_chunk aligned n (drop 16 ibuf) (drop 16 buf)
  end.

(** One turn of [while(len)]: the output of the chunk, the counter and the
    number of bytes used of the last block. *)
Definition ctr_chunk (aligned : bool) (cx : aes_encrypt_ctx) (ibuf cbuf : list Z) (b_pos : Z)
    : option (list Z * list Z * Z) :=
  let blen := Z.of_nat (length ibuf) in
  let nb := Z.to_nat (Z.shiftr blen 4) in
  let '(buf, cbuf) := fill_counters nb cbuf in
  let buf := if Z.land blen 15 =? 0 then buf else buf ++ cbuf in
  match aes_ecb_encrypt buf cx with
  | None => None
  | Some buf =>
      let rest := drop (16 * nb) ibuf in
      let ip := drop (Z.to_nat b_pos) (drop (16 * nb) buf) in
      Some (xor_chunk aligned nb ibuf buf ++ xor_bytes rest (take (length rest) ip),
            cbuf, b_pos + Z.of_nat (length rest))
  end.

Fixpoint ctr_loop (fuel : nat) (aligned : bool) (cx : aes_encrypt_ctx) (ibuf cbuf obuf : list Z) (b_pos : Z)
    : Z * list Z * list Z * Z :=
  match fuel with
  | O => (EXIT_SUCCESS, obuf, cbuf, b_pos)
  | S fuel =>
      if Z.of_nat (length ibuf) =? 0 then (EXIT_SUCCESS, obuf, cbuf, b_pos)
      else
        let blen := Z.to_nat (Z.min BFR_LENGTH (Z.of_nat (length ibuf))) in
        match ctr_chunk aligned cx (take blen ibuf) cbuf b_pos with
        | None => (EXIT_FAILURE, obuf, cbuf, b_pos)
        | Some (out, cbuf, b_pos) => ctr_loop fuel aligned cx (drop blen ibuf) cbuf (obuf ++ out) b_pos
        end
  end.

(** [ibuf] is the whole input; the results are the return value, what has
    been written to [obuf], the counter buffer and the context.  [aligned]
    is whether the three buffers are aligned to four bytes. *)
Definition aes_ctr_crypt (aligned : bool) (ibuf cbuf : list Z) (cx : aes_encrypt_ctx)
    : Z * list Z * list Z * aes_encrypt_ctx :=
  let b_pos := inf_pos cx in
  let start :=
    if b_pos =? 0 then Some (ibuf, cbuf, [], 0)
    else
      match aes_ecb_encrypt (take 16 cbuf) cx with
      | None => None
      | Some buf =>
          let n := Nat.min (Z.to_nat (16 - b_pos)) (length ibuf) in
          let out := xor_bytes (take n ibuf) (take n (drop (Z.to_nat b_pos) buf)) in
          let rest := drop n ibuf in
          if Z.of_nat (length rest) =? 0 then Some (rest, cbuf, out, b_pos + Z.of_nat n)
          else Some (rest, ctr_inc cbuf, out, 0)
      end in
  match start with
  | None => (EXIT_FAILURE, [], cbuf, cx)
  | Some (ibuf, cbuf, obuf, b_pos) =>
      let '(r, obuf, cbuf, b_pos) := ctr_loop (S (length ibuf)) aligned cx ibuf cbuf obuf b_pos in
      if r =? EXIT_SUCCESS then (r, obuf, cbuf, set_inf_pos b_pos cx) else (r, obuf, cbuf, cx)
  end.
End ctr.

(** ** The key stream *)

Section stream.
Context (ctr_inc : list Z -> list Z) (cx : aes_encrypt_ctx) (E : list Z -> list Z).
Hypothesis E_spec : forall x, block x -> aes_encrypt x cx = Some (E x) /\ block (E x).
Hypothesis inc_block : forall x, block x -> block (ctr_inc x).

(** The key stream from counter block [c]: [n] bytes. *)
Fixpoint key_stream (n : nat) (c : list Z) : list Z :=
  match n with
  | O => []
  | S n => E c ++ key_stream n (ctr_inc c)
  end.

(** Encryption from byte [p] of the key-stream block of [c]. *)
Definition ctr_stream (c : list Z) (p : nat) (x : list Z) : list Z :=
  xor_bytes x (drop p (key_stream (S (p + length x)) c)).

Lemma iter_inc_block n c : block c -> block (Nat.iter n ctr_inc c).
Proof. intros Hc. induction n as [|n IH]; [done|]. rewrite Nat.iter_succ. auto. Qed.

Lemma key_stream_length n : forall c, block c -> length (key_stream n c) = (16 * n)%nat.
Proof.
  induction n as [|n IH]; intros c Hc; cbn [key_stream]; [done|].
  rewrite length_app, IH by auto. destruct (E_spec c Hc) as [_ [_ ->]]. lia.
Qed.

Lemma key_stream_app m n : forall c,
  key_stream (m + n) c = key_stream m c ++ key_stream n (Nat.iter m ctr_inc c).
Proof.
  induction m as [|m IH]; intros c; cbn [key_stream Nat.add]; [done|].
  by rewrite IH, Nat.iter_succ_r, app_assoc.
Qed.

Lemma fill_counters_spec n : forall c,
  block c ->
  (fill_counters ctr_inc n c).2 = Nat.iter n ctr_inc c /\
  length (fill_counters ctr_inc n c).1 = (16 * n)%nat /\
  forall tail m, length tail = (16 * m)%nat ->
    ecb_loop (n + m) ((fill_counters ctr_inc n c).1 ++ tail) cx =
    option_map (app (key_stream n c)) (ecb_loop m tail cx).
Proof.
  induction n as [|n IH]; intros c Hc; cbn [fill_counters].
  { split_and!; try done. intros tail m _. cbn. by destruct (ecb_loop m tail cx). }
  destruct (IH (ctr_inc c)) as (H1 & H2 & H3); [auto|].
  destruct (fill_counters ctr_inc n (ctr_inc c)) as [buf c']. cbn [fst snd] in *.
  pose proof (proj2 Hc) as Hl. split_and!.
  - by rewrite H1, Nat.iter_succ_r.
  - rewrite length_app, H2, Hl. lia.
  - intros tail m Ht. cbn [Nat.add ecb_loop key_stream].
    rewrite <- app_assoc, take_app_length', drop_app_length' by done.
    destruct (E_spec c Hc) as [-> _]. rewrite (H3 tail m Ht).
    destruct (ecb_loop m tail cx); cbn; [by rewrite app_assoc|done].
Qed.

Lemma xor_bytes_split l n y : (n <= length l)%nat -> (n <= length y)%nat ->
  xor_bytes l y = xor_bytes (take n l) (take n y) ++ xor_bytes (drop n l) (drop n y).
Proof.
  intros Hl Hy. unfold xor_bytes. rewrite <- zip_with_take, <- zip_with_drop. by rewrite take_drop.
Qed.

Lemma xor_chunk_spec aligned n : forall x buf,
  bytes x -> bytes buf -> (16 * n <= length x)%nat -> (16 * n <= length buf)%nat ->
  xor_chunk aligned n x buf = xor_bytes (take (16 * n) x) (take (16 * n) buf).
Proof.
  induction n as [|n IH]; intros x buf Hx Hb Hlx Hlb; [done|]. cbn [xor_chunk].
  assert (block (take 16 x)) as Bx by (split; [by apply bytes_take|rewrite length_take; lia]).
  assert (block (take 16 buf)) as Bb by (split; [by apply bytes_take|rewrite length_take; lia]).
  rewrite IH by (auto using bytes_drop; rewrite length_drop; lia).
  rewrite (xor_bytes_split (take (16 * S n) x) 16) by (rewrite length_take; lia).
  replace (16 * S n)%nat with (16 + 16 * n)%nat by lia.
  rewrite !take_take, !skipn_firstn_comm.
  replace (16 `min` (16 + 16 * n))%nat with 16%nat by lia.
  replace (16 + 16 * n - 16)%nat with (16 * n)%nat by lia.
  f_equal. destruct aligned; [by apply xor_block_aligned_spec|done].
Qed.

(** *** Chunks *)

Lemma ecb_whole buf nb : length buf = (16 * nb)%nat -> aes_ecb_encrypt buf cx = ecb_loop nb buf cx.
Proof.
  intros Hl. unfold aes_ecb_encrypt. rewrite Hl. change 15 with (Z.ones 4).
  rewrite Z.land_ones, Z.shiftr_div_pow2 by done. change (2 ^ 4) with 16.
  replace (Z.of_nat (16 * nb)) with (Z.of_nat nb * 16) by lia.
  rewrite Z.mod_mul, Z.div_mul, Nat2Z.id by done. done.
Qed.

Lemma key_stream_bytes n : forall c, block c -> bytes (key_stream n c).
Proof.
  induction n as [|n IH]; intros c Hc; cbn [key_stream]; [constructor|].
  apply bytes_app; [by apply (E_spec c Hc)|by apply IH, inc_block].
Qed.

(** A chunk of [nb] blocks and [r < 16] more bytes. *)
Lemma ctr_chunk_spec aligned x c :
  bytes x -> block c ->
  let nb := (length x / 16)%nat in
  ctr_chunk ctr_inc aligned cx x c 0 =
  Some (xor_bytes x (key_stream (S nb) c), Nat.iter nb ctr_inc c, Z.of_nat (length x mod 16)).
Proof.
  intros Hx Hc nb. unfold ctr_chunk.
  assert (Z.to_nat (Z.shiftr (Z.of_nat (length x)) 4) = nb) as ->.
  { rewrite Z.shiftr_div_pow2 by done. change (2 ^ 4) with (Z.of_nat 16). rewrite <- Nat2Z.inj_div. apply Nat2Z.id. }
  assert (Z.land (Z.of_nat (length x)) 15 = Z.of_nat (length x mod 16)) as ->.
  { change 15 with (Z.ones 4). rewrite Z.land_ones, Nat2Z.inj_mod by done. done. }
  pose proof (Nat.div_mod_eq (length x) 16) as Hdm. fold nb in Hdm.
  pose proof (Nat.mod_upper_bound (length x) 16 ltac:(done)) as Hr.
  set (r := (length x mod 16)%nat) in *.
  assert (length (drop (16 * nb) x) = r) as Hrest by (rewrite length_drop; lia).
  destruct (fill_counters_spec nb c Hc) as (H1 & H2 & H3).
  destruct (fill_counters ctr_inc nb c) as [buf c'] eqn:Ef. cbn [fst snd] in *. subst c'.
  set (c' := Nat.iter nb ctr_inc c) in *. assert (block c') as Hc' by by apply iter_inc_block.
  destruct (E_spec c' Hc') as [He Hbe].
  pose proof (key_stream_length nb c Hc) as Hkl. pose proof (key_stream_bytes nb c Hc) as Hkb.
  assert (key_stream (S nb) c = key_stream nb c ++ E c') as Hks.
  { replace (S nb) with (nb + 1)%nat by lia. rewrite key_stream_app. cbn [key_stream]. by rewrite app_nil_r. }
  rewrite Hks, Hrest, Z.add_0_l. change (Z.to_nat 0) with 0%nat. rewrite (xor_bytes_split x (16 * nb)) by (rewrite ?length_app; lia).
  rewrite take_app_length', drop_app_length' by done.
  destruct (Z.eqb_spec (Z.of_nat r) 0) as [E0|E0].
  - rewrite (ecb_whole buf nb H2). specialize (H3 [] 0%nat eq_refl).
    rewrite app_nil_r, Nat.add_0_r in H3. rewrite H3. cbn [ecb_loop option_map]. rewrite app_nil_r.
    rewrite xor_chunk_spec, (take_ge (key_stream nb c)) by (done || lia).
    rewrite (nil_length_inv (drop (16 * nb) x)) by lia. done.
  - rewrite (ecb_whole _ (nb + 1)) by (rewrite length_app, (proj2 Hc'); lia).
    rewrite (H3 c' 1%nat) by (rewrite (proj2 Hc'); lia). cbn [ecb_loop option_map].
    rewrite take_ge by (rewrite (proj2 Hc'); lia). rewrite He. cbn [option_map]. rewrite app_nil_r.
    assert (bytes (key_stream nb c ++ E c')) as Hkb' by (apply bytes_app; [done|apply Hbe]).
    assert (16 * nb <= length (key_stream nb c ++ E c'))%nat by (rewrite length_app; lia).
    rewrite xor_chunk_spec by (done || lia).
    rewrite take_app_length', drop_app_length', drop_0 by done.
    pose proof (xor_bytes_take (drop (16 * nb) x) (E c')) as Ht. rewrite Hrest in Ht. by rewrite Ht.
Qed.

Lemma xor_stream_take x a b :
  (length x <= length a)%nat -> xor_bytes x (a ++ b) = xor_bytes x a.
Proof.
  intros Hl. rewrite <- (xor_bytes_take x (a ++ b)), <- (xor_bytes_take x a).
  by rewrite take_app_le.
Qed.

Lemma xor_stream_more x m n c :
  block c -> (length x <= 16 * m)%nat -> (m <= n)%nat ->
  xor_bytes x (key_stream n c) = xor_bytes x (key_stream m c).
Proof.
  intros Hc Hl Hmn. replace n with (m + (n - m))%nat by lia. rewrite key_stream_app.
  apply xor_stream_take. by rewrite key_stream_length.
Qed.

Lemma ctr_loop_spec aligned fuel : forall x c out b_pos,
  (length x < 128 * fuel)%nat -> bytes x -> block c ->
  b_pos = 0 \/ x = [] ->
  ctr_loop ctr_inc fuel aligned cx x c out b_pos =
  (EXIT_SUCCESS, out ++ xor_bytes x (key_stream (S (length x / 16)) c),
   Nat.iter (length x / 16) ctr_inc c,
   if decide (x = []) then b_pos else Z.of_nat (length x mod 16)).
Proof.
  induction fuel as [|fuel IH]; intros x c out b_pos Hf Hx Hc Hp; [lia|]. cbn [ctr_loop].
  destruct (Z.eqb_spec (Z.of_nat (length x)) 0) as [E0|E0].
  { assert (x = []) as -> by (apply nil_length_inv; lia). cbn. by rewrite app_nil_r. }
  rewrite (decide_False (P := x = [])) by (by intros ->).
  destruct Hp as [->| ->]; [|done].
  unfold BFR_LENGTH, BFR_BLOCKS. change (8 * 16) with 128.
  destruct (decide (length x <= 128)%nat) as [Hs|Hl].
  - replace (Z.to_nat (Z.min 128 (Z.of_nat (length x)))) with (length x) by lia.
    rewrite take_ge, drop_ge by lia. rewrite ctr_chunk_spec by done.
    destruct fuel; cbn [ctr_loop length Z.of_nat Z.eqb]; done.
  - replace (Z.to_nat (Z.min 128 (Z.of_nat (length x)))) with 128%nat by lia.
    assert (length (take 128 x) = 128%nat) as Ht by (rewrite length_take; lia).
    rewrite ctr_chunk_spec by (done || by apply bytes_take). rewrite Ht.
    change (128 / 16)%nat with 8%nat. change (128 mod 16)%nat with 0%nat.
    assert (length (drop 128 x) = length x - 128)%nat as Hd by apply length_drop.
    rewrite IH by (rewrite ?Hd; try lia; auto using bytes_drop, iter_inc_block).
    rewrite (decide_False (P := drop 128 x = [])) by (intros H0; rewrite H0 in Hd; cbn in Hd; lia).
    rewrite Hd.
    assert (length x / 16 = 8 + (length x - 128) / 16)%nat as Hq.
    { replace (length x) with (length x - 128 + 8 * 16)%nat at 1 by lia. rewrite Nat.div_add by done. lia. }
    assert (length x mod 16 = (length x - 128) mod 16)%nat as Hm.
    { replace (length x) with (length x - 128 + 8 * 16)%nat at 1 by lia. by rewrite Nat.Div0.mod_add. }
    rewrite Hq, Hm. set (q := ((length x - 128) / 16)%nat).
    assert (Nat.iter (8 + q) ctr_inc c = Nat.iter q ctr_inc (Nat.iter 8 ctr_inc c)) as ->.
    { by rewrite <- Nat.iter_add, Nat.add_comm. }
    f_equal. f_equal. f_equal. rewrite <- app_assoc. f_equal.
    rewrite (xor_stream_more (take 128 x) 8 9) by (done || lia).
    change (S (8 + q)) with (8 + S q)%nat. rewrite key_stream_app.
    rewrite (xor_bytes_split x 128) by (rewrite ?length_app, ?key_stream_length by done; lia).
    by rewrite take_app_length', drop_app_length' by (by rewrite key_stream_length).
Qed.

(** *** A whole call *)

(** The counter block and the position in it after [n] more bytes. *)
Definition ctr_end (c : list Z) (p n : nat) : list Z * nat :=
  if decide (0 < p /\ p + n <= 16)%nat then (c, p + n)%nat
  else (Nat.iter ((p + n) / 16) ctr_inc c, (p + n) mod 16)%nat.

Lemma drop_key_stream q r n c :
  block c -> drop (16 * q + r) (key_stream (q + n) c) = drop r (key_stream n (Nat.iter q ctr_inc c)).
Proof.
  intros Hc. rewrite key_stream_app, <- drop_drop.
  rewrite drop_app_length'; [done|by rewrite key_stream_length].
Qed.

(** The number of blocks asked for does not matter when it is enough. *)
Lemma ctr_stream_enough n p x c :
  block c -> (p + length x <= 16 * n)%nat -> xor_bytes x (drop p (key_stream n c)) = ctr_stream c p x.
Proof.
  intros Hc Hn. unfold ctr_stream.
  assert (forall a b, (p + length x <= 16 * a)%nat -> (a <= b)%nat ->
            xor_bytes x (drop p (key_stream b c)) = xor_bytes x (drop p (key_stream a c))) as Hmore.
  { intros a b Ha Hab. replace b with (a + (b - a))%nat by lia. rewrite key_stream_app.
    rewrite drop_app_le by (rewrite key_stream_length by done; lia).
    apply xor_stream_take. rewrite length_drop, key_stream_length by done. lia. }
  destruct (decide (n <= S (p + length x))%nat).
  - symmetry. by apply Hmore.
  - apply Hmore; lia.
Qed.

Lemma ctr_stream_length c p x : block c -> length (ctr_stream c p x) = length x.
Proof.
  intros Hc. unfold ctr_stream. rewrite length_xor_bytes, length_drop, key_stream_length by done. lia.
Qed.

Lemma ctr_stream_app c p x y :
  block c -> ctr_stream c p (x ++ y) = ctr_stream c p x ++ ctr_stream c (p + length x) y.
Proof.
  intros Hc. set (n := S (p + length x + length y)).
  rewrite <- (ctr_stream_enough n p (x ++ y)), <- (ctr_stream_enough n p x), <- (ctr_stream_enough n _ y)
    by (done || (rewrite ?length_app; lia)).
  rewrite (xor_bytes_split (x ++ y) (length x))
    by (rewrite ?length_app, ?length_drop, ?key_stream_length by done; lia).
  rewrite take_app_length, drop_app_length, drop_drop. f_equal.
  rewrite <- (xor_bytes_take x (drop p _)). done.
Qed.

Lemma ctr_stream_shift c q r x :
  block c -> ctr_stream c (16 * q + r) x = ctr_stream (Nat.iter q ctr_inc c) r x.
Proof.
  intros Hc. rewrite <- (ctr_stream_enough (q + S (r + length x)) _ x c) by (done || lia).
  by rewrite drop_key_stream.
Qed.

Lemma ctr_end_spec c p n x :
  block c -> let '(c', p') := ctr_end c p n in ctr_stream c (p + n) x = ctr_stream c' p' x.
Proof.
  intros Hc. unfold ctr_end. case_decide; [done|].
  rewrite (Nat.div_mod_eq (p + n) 16) at 1. by apply ctr_stream_shift.
Qed.

(** The position stays within the block, which the byte [inf.b[2]] can hold. *)
Lemma ctr_end_bound c p n :
  block c -> let '(c', p') := ctr_end c p n in block c' /\ (p' <= 16)%nat.
Proof.
  intros Hc. unfold ctr_end. case_decide; [split; [done|lia]|]. split; [by apply iter_inc_block|].
  pose proof (Nat.mod_upper_bound (p + n) 16). lia.
Qed.

Lemma aes_ctr_crypt_stream aligned x c :
  bytes x -> block c -> 0 <= inf_pos cx <= 16 ->
  let p := Z.to_nat (inf_pos cx) in
  aes_ctr_crypt ctr_inc aligned x c cx =
  (EXIT_SUCCESS, ctr_stream c p x, (ctr_end c p (length x)).1,
   set_inf_pos (Z.of_nat (ctr_end c p (length x)).2) cx).
Proof.
  intros Hx Hc Hp p. unfold aes_ctr_crypt. destruct (Z.eqb_spec (inf_pos cx) 0) as [E0|E0].
  { assert (p = 0%nat) as -> by lia. unfold ctr_end. rewrite decide_False by lia. cbn [fst snd].
    rewrite ctr_loop_spec by (done || lia || by left). rewrite Z.eqb_refl, app_nil_l. rewrite Nat.add_0_l.
    f_equal; [f_equal; f_equal|].
    - rewrite <- (ctr_stream_enough (S (length x / 16)) 0 x c), drop_0; [done|done|].
      pose proof (Nat.div_mod_eq (length x) 16). pose proof (Nat.mod_upper_bound (length x) 16). lia.
    - f_equal. case_decide as Ex; [by subst x|done]. }
  assert (0 < p)%nat by lia. destruct (E_spec c Hc) as [He [_ Hl]]. pose proof (proj2 Hc).
  rewrite (take_ge c 16), (ecb_whole c 1) by lia. cbn [ecb_loop]. rewrite (take_ge c 16) by lia.
  rewrite He. cbn [option_map]. rewrite app_nil_r.

  assert (Z.to_nat (16 - inf_pos cx) = (16 - p)%nat) as -> by lia. fold p.
  set (n := ((16 - p) `min` length x)%nat).
  assert (xor_bytes (take n x) (take n (drop p (E c))) = ctr_stream c p (take n x)) as ->.
  { rewrite <- (ctr_stream_enough 1 p (take n x)) by (done || (rewrite length_take; lia)).
    cbn [key_stream]. rewrite app_nil_r.
    rewrite <- (xor_bytes_take (take n x) (drop p (E c))), length_take.
    by replace (n `min` length x)%nat with n by lia. }
  rewrite length_drop. destruct (Z.eqb_spec (Z.of_nat (length x - n)) 0) as [Er|Er].
  - rewrite drop_ge, take_ge by lia. cbn [length ctr_loop Z.of_nat Z.eqb EXIT_SUCCESS].
    unfold ctr_end. rewrite decide_True by lia. cbn [fst snd]. f_equal. f_equal. lia.
  - unfold ctr_end. rewrite decide_False by lia. cbn [fst snd].
    rewrite ctr_loop_spec by (auto using bytes_drop || (rewrite ?length_drop; lia)).
    rewrite Z.eqb_refl. rewrite decide_False by (intros Hn; apply (f_equal length) in Hn; rewrite length_drop in Hn; cbn in Hn; lia).
    rewrite length_drop. assert (n = 16 - p)%nat as Hn by lia.
    assert (p + length x = length x - n + 1 * 16)%nat as Hd by lia.
    assert ((p + length x) / 16 = S ((length x - n) / 16))%nat as -> by (rewrite Hd, Nat.div_add by done; lia).
    assert ((p + length x) mod 16 = (length x - n) mod 16)%nat as -> by (by rewrite Hd, Nat.Div0.mod_add).
    f_equal. f_equal.
    + f_equal. rewrite <- (take_drop n x) at 4. rewrite ctr_stream_app by done. f_equal.
      rewrite length_take. replace (p + n `min` length x)%nat with (16 * 1 + 0)%nat by lia.
      rewrite ctr_stream_shift by done. cbn [Nat.iter nat_rect].
      rewrite <- (ctr_stream_enough (S ((length x - n) / 16)) 0), drop_0; [done|auto|].
      rewrite length_drop. pose proof (Nat.div_mod_eq (length x - n) 16).
      pose proof (Nat.mod_upper_bound (length x - n) 16). lia.
    + by rewrite Nat.iter_succ_r.
Qed.
End stream.

(** ** The contexts of a key *)

(** A context keyed with [key], with [p] bytes of the current block used. *)
Definition ctr_keyed (key : list Z) (p : Z) (cx : aes_encrypt_ctx) : Prop :=
  exists cx0, length (ks cx0) = KS_LENGTH /\ cx = set_inf_pos p (aes_encrypt_key128 key cx0).

Lemma set_inf_pos_ks p cx : ks (set_inf_pos p cx) = ks cx.
Proof. done. Qed.

Lemma set_inf_pos_twice p q cx : set_inf_pos p (set_inf_pos q cx) = set_inf_pos p cx.
Proof. unfold set_inf_pos, wr. cbn [ks inf_b]. by rewrite list_insert_insert_eq. Qed.

(** The cipher does not read the position. *)
Lemma aes_encrypt_pos p cx x : aes_encrypt x (set_inf_pos p cx) = aes_encrypt x cx.
Proof. unfold aes_encrypt. cbn [set_inf_pos inf_b ks]. by rewrite rd_wr_ne by done. Qed.

Section key.
Context (key : list Z) (Hkey : block key).

Lemma ctr_keyed_cipher p cx x :
  ctr_keyed key p cx -> block x -> aes_encrypt x cx = Some (Fips.cipher key x) /\ block (Fips.cipher key x).
Proof.
  intros (cx0 & Hl & ->) Hx. rewrite aes_encrypt_pos. by apply key_encrypts.
Qed.

Lemma ctr_keyed_pos p cx : ctr_keyed key p cx -> 0 <= p <= 16 -> inf_pos cx = p.
Proof.
  intros (cx0 & Hl & ->) Hp. unfold inf_pos, set_inf_pos. cbn [inf_b].
  destruct (key_schedule key cx0 Hkey Hl) as [_ ->].
  rewrite rd_wr_eq by (cbn; lia). apply wrap_id. unfold in_range. lia.
Qed.

Lemma ctr_keyed_set p q cx : ctr_keyed key p cx -> ctr_keyed key q (set_inf_pos q cx).
Proof. intros (cx0 & Hl & ->). exists cx0. by rewrite set_inf_pos_twice. Qed.

Lemma aes_ctr_crypt_spec ctr_inc aligned x c p cx :
  (forall x, block x -> block (ctr_inc x)) -> ctr_keyed key (Z.of_nat p) cx -> (p <= 16)%nat ->
  bytes x -> block c ->
  let '(c', p') := ctr_end ctr_inc c p (length x) in
  aes_ctr_crypt ctr_inc aligned x c cx =
    (EXIT_SUCCESS, ctr_stream ctr_inc (Fips.cipher key) c p x, c', set_inf_pos (Z.of_nat p') cx) /\
  ctr_keyed key (Z.of_nat p') (set_inf_pos (Z.of_nat p') cx) /\ block c' /\ (p' <= 16)%nat.
Proof.
  intros Hinc Hk Hp Hx Hc. pose proof (ctr_keyed_pos _ _ Hk ltac:(lia)) as Hpos.
  pose proof (aes_ctr_crypt_stream ctr_inc cx (Fips.cipher key)
    (fun x => ctr_keyed_cipher _ cx x Hk) Hinc aligned x c Hx Hc ltac:(lia)) as H.
  cbn zeta in H. rewrite Hpos, Nat2Z.id in H. rewrite H.
  pose proof (ctr_end_bound ctr_inc Hinc c p (length x) Hc) as Hb.
  destruct (ctr_end ctr_inc c p (length x)) as [c' p'].
  split; [reflexivity|]. split; [by eapply ctr_keyed_set|exact Hb].
Qed.
End key.

(** A message may be encrypted in pieces: two calls, the second with the
    counter buffer and the context the first left, give the bytes of one call
    on the whole message.  These are the message xor the key stream of the
    FIPS 197 cipher on the successive values of the counter, whatever the
    alignment of the buffers. *)
Theorem aes_ctr_crypt_in_pieces key ctr_inc al1 al2 al3 x y c p cx :
  block key -> (forall x, block x -> block (ctr_inc x)) ->
  ctr_keyed key (Z.of_nat p) cx -> (p <= 16)%nat -> bytes x -> bytes y -> block c ->
  let '(r1, o1, c1, cx1) := aes_ctr_crypt ctr_inc al1 x c cx in
  let '(r2, o2, c2, cx2) := aes_ctr_crypt ctr_inc al2 y c1 cx1 in
  let '(r3, o3, c3, cx3) := aes_ctr_crypt ctr_inc al3 (x ++ y) c cx in
  (r1, r2, r3) = (EXIT_SUCCESS, EXIT_SUCCESS, EXIT_SUCCESS) /\
  o1 ++ o2 = o3 /\ o3 = ctr_stream ctr_inc (Fips.cipher key) c p (x ++ y) /\
  length o3 = length (x ++ y).
Proof.
  intros Hkey Hinc Hk Hp Hx Hy Hc.
  pose proof (fun z => ctr_keyed_cipher key Hkey _ cx z Hk) as HE.
  pose proof (aes_ctr_crypt_spec key Hkey ctr_inc al1 x c p cx Hinc Hk Hp Hx Hc) as H1.
  pose proof (ctr_end_spec ctr_inc cx (Fips.cipher key) HE Hinc c p (length x) y Hc) as Hend.
  destruct (ctr_end ctr_inc c p (length x)) as [c1 p1]. destruct H1 as (-> & Hk1 & Hc1 & Hp1).
  pose proof (aes_ctr_crypt_spec key Hkey ctr_inc al2 y c1 p1 _ Hinc Hk1 Hp1 Hy Hc1) as H2.
  destruct (ctr_end ctr_inc c1 p1 (length y)) as [c2 p2]. destruct H2 as (-> & _).
  pose proof (aes_ctr_crypt_spec key Hkey ctr_inc al3 (x ++ y) c p cx Hinc Hk Hp (bytes_app _ _ Hx Hy) Hc) as H3.
  destruct (ctr_end ctr_inc c p (length (x ++ y))) as [c3 p3]. destruct H3 as (-> & _).
  split; [reflexivity|]. rewrite (ctr_stream_app ctr_inc cx _ HE Hinc), Hend by done. split; [reflexivity|]. split; [reflexivity|].
  rewrite !length_app, !(ctr_stream_length ctr_inc cx _ HE Hinc) by done. done.
Qed.

(** Ten bytes, then twenty more, under a counter block that the increment
    rotates by one byte. *)
Lemma aes_ctr_crypt_in_pieces_witness :
  let inc := fun x : list Z => drop 1 x ++ take 1 x in
  let cx := set_inf_pos 0 (aes_encrypt_key128 (seqZ 0 16) (mk_aes_ctx (replicate 44 0) [0; 0; 0; 0])) in
  let c := seqZ 100 16 in
  let '(r1, o1, c1, cx1) := aes_ctr_crypt inc false (seqZ 0 10) c cx in
  let '(r2, o2, c2, cx2) := aes_ctr_crypt inc false (seqZ 10 20) c1 cx1 in
  let '(r3, o3, c3, cx3) := aes_ctr_crypt inc true (seqZ 0 10 ++ seqZ 10 20) c cx in
  (r1, r2, r3) = (EXIT_SUCCESS, EXIT_SUCCESS, EXIT_SUCCESS) /\
  o1 ++ o2 = o3 /\ o3 = ctr_stream inc (Fips.cipher (seqZ 0 16)) c 0 (seqZ 0 10 ++ seqZ 10 20) /\
  length o3 = length (seqZ 0 10 ++ seqZ 10 20).
Proof.
  intros inc cx c. refine (aes_ctr_crypt_in_pieces (seqZ 0 16) inc false false true (seqZ 0 10) (seqZ 10 20) c 0 cx _ _ _ _ _ _ _).
  1,5,6,7: decide_true.
  - intros x [Hb Hl]. unfold inc. split; [by apply bytes_app; [apply bytes_drop|apply bytes_take]|].
    rewrite length_app, length_drop, length_take, Hl. done.
  - by exists (mk_aes_ctx (replicate 44 0) [0; 0; 0; 0]).
  - lia.
Defined.
