(* ===== verification/AesBlockModes.v ===== *)
(** * AES in the CBC, CFB and OFB modes

    The rest of GEC-block/src/aes_modes.c, without the VIA ACE instructions:
    [aes_ecb_decrypt], [aes_cbc_encrypt] and [aes_cbc_decrypt], and
    [aes_cfb_encrypt], [aes_cfb_decrypt] and [aes_ofb_crypt].  The last three
    are one piece of code but for the assignment that treats a byte or a word
    of the input; here they are [stream_crypt] of that assignment.  They are
    proved to be a machine that treats the input byte by byte, so that a
    message may be cut anywhere between calls. *)

From S2P Require Import Prelude Aes AesDecrypt Gf128 Gcm AesModes.

Local Open Scope Z_scope.

(** ** aes_modes.c *)

(** The address [x] rounded down and up to a multiple of [n]. *)
Definition ALIGN_FLOOR (x n : Z) : Z := x - Z.land x (n - 1).
Definition ALIGN_CEIL (x n : Z) : Z := x + Z.land (- x) (n - 1).

(** [p] is the address of the array.  The two counters; [None] is the return
    inside the loop. *)
Definition aes_test_alignment_detection (p n : Z) : Z :=
  if (n <? 4) || (16 <? n) then EXIT_FAILURE
  else
    match foldl (fun c i =>
        match c with
        | None => None
        | Some (count_eq, count_neq) =>
            let qf := ALIGN_FLOOR (p + i) n in
            let qh := ALIGN_CEIL (p + i) n in
            if qh =? qf then Some (count_eq + 1, count_neq)
            else if qh =? qf + n then Some (count_eq, count_neq + 1)
            else None
        end) (Some (0, 0)) (seqZ 0 n) with
    | None => EXIT_FAILURE
    | Some (count_eq, count_neq) =>
        if negb (count_eq =? 1) || negb (count_neq =? n - 1) then EXIT_FAILURE else EXIT_SUCCESS
    end.

Fixpoint ecb_decrypt_loop (nb : nat) (ibuf : list Z) (cx : aes_decrypt_ctx) : option (list Z) :=
  match nb with
  | O => Some []
  | S nb =>
      match aes_decrypt (take 16 ibuf) cx with
      | None => None
      | Some o => option_map (app o) (ecb_decrypt_loop nb (drop 16 ibuf) cx)
      end
  end.

(** [None] is EXIT_FAILURE. *)
Definition aes_ecb_decrypt (ibuf : list Z) (cx : aes_decrypt_ctx) : option (list Z) :=
  let len := Z.of_nat (length ibuf) in
  if negb (Z.land len 15 =? 0) then None
  else ecb_decrypt_loop (Z.to_nat (Z.shiftr len 4)) ibuf cx.

(** The exclusive or of two blocks, by words when the buffers are aligned. *)
Definition xor_any (aligned : bool) (p q : list Z) : list Z :=
  if aligned then xor_block_aligned p q else xor_block p q.

(** The return value, what has been written to [obuf], and [iv]. *)
Fixpoint cbc_encrypt_loop (nb : nat) (aligned : bool) (ibuf iv : list Z) (cx : aes_encrypt_ctx)
    : Z * list Z * list Z :=
  match nb with
  | O => (EXIT_SUCCESS, [], iv)
  | S nb =>
      let iv := xor_any aligned iv (take 16 ibuf) in
      match aes_encrypt iv cx with
      | None => (EXIT_FAILURE, [], iv)
      | Some iv =>
          let '(r, obuf, iv') := cbc_encrypt_loop nb aligned (drop 16 ibuf) iv cx in (r, iv ++ obuf, iv')
      end
  end.

Definition aes_cbc_encrypt (aligned : bool) (ibuf iv : list Z) (cx : aes_encrypt_ctx) : Z * list Z * list Z :=
  let len := Z.of_nat (length ibuf) in
  if negb (Z.land len 15 =? 0) then (EXIT_FAILURE, [], iv)
  else cbc_encrypt_loop (Z.to_nat (Z.shiftr len 4)) aligned ibuf iv cx.

Fixpoint cbc_decrypt_loop (nb : nat) (aligned : bool) (ibuf iv : list Z) (cx : aes_decrypt_ctx)
    : Z * list Z * list Z :=
  match nb with
  | O => (EXIT_SUCCESS, [], iv)
  | S nb =>
      let tmp := take 16 ibuf in
      match aes_decrypt (take 16 ibuf) cx with
      | None => (EXIT_FAILURE, [], iv)
      | Some o =>
          let '(r, obuf, iv') := cbc_decrypt_loop nb aligned (drop 16 ibuf) tmp cx in
          (r, xor_any aligned o iv ++ obuf, iv')
      end
  end.

Definition aes_cbc_decrypt (aligned : bool) (ibuf iv : list Z) (cx : aes_decrypt_ctx) : Z * list Z * list Z :=
  let len := Z.of_nat (length ibuf) in
  if negb (Z.land len 15 =? 0) then (EXIT_FAILURE, [], iv)
  else cbc_decrypt_loop (Z.to_nat (Z.shiftr len 4)) aligned ibuf iv cx.

(** *** CFB and OFB *)

(** What an assignment does with a byte or word of [iv] and one of the input:
    the new one of [iv], and the output. *)
Definition mode : Type := Z -> Z -> Z * Z.

(** [*obuf++ = (iv[b_pos++] ^= *ibuf++)]. *)
Definition cfb_enc : mode := fun v x => (Z.lxor v x, Z.lxor v x).
(** [t = *ibuf++; *obuf++ = t ^ iv[b_pos]; iv[b_pos++] = t]. *)
Definition cfb_dec : mode := fun v t => (t, Z.lxor t v).
(** [*obuf++ = iv[b_pos++] ^ *ibuf++]. *)
Definition ofb : mode := fun v x => (v, Z.lxor v x).

(** What is left of the input, [iv], what has been written to the output,
    and [b_pos]. *)
Record cursor := mk_cursor { c_in : list Z; c_iv : list Z; c_out : list Z; c_pos : Z }.

(** [Asserted]: an [assert] has failed.  [Looping]: the fuel is used up. *)
Inductive outcome :=
| Returned (r : Z) (obuf iv : list Z) (cx : aes_encrypt_ctx)
| Asserted
| Looping.

Section stream_mode.
Context (m : mode).

(** [while(b_pos < AES_BLOCK_SIZE && cnt < len)]. *)
Fixpoint fill_block (ibuf iv obuf : list Z) (b_pos : Z) : cursor :=
  match ibuf with
  | [] => mk_cursor [] iv obuf b_pos
  | x :: rest =>
      if b_pos <? 16 then
        let '(v, o) := m (rd iv b_pos) x in fill_block rest (wr iv b_pos v) (obuf ++ [o]) (b_pos + 1)
      else mk_cursor ibuf iv obuf b_pos
  end.

(** [b_pos = (b_pos == AES_BLOCK_SIZE ? 0 : b_pos)]. *)
Definition wrap_pos (c : cursor) : cursor :=
  mk_cursor (c_in c) (c_iv c) (c_out c) (if c_pos c =? 16 then 0 else c_pos c).

(** The sixteen assignments to a whole block: the new [iv] and the output. *)
Definition block_bytes (iv ibuf : list Z) : list Z * list Z :=
  foldl (fun '(iv, obuf) i => let '(v, o) := m (rd iv i) (rd ibuf i) in (wr iv i v, obuf ++ [o]))
    (iv, []) [0; 1; 2; 3; 4; 5; 6; 7; 8; 9; 10; 11; 12; 13; 14; 15].

(** The four assignments to the words of aligned buffers. *)
Definition block_words (iv ibuf : list Z) : list Z * list Z :=
  foldl (fun '(iv', obuf) i => let '(v, o) := m (word_in iv i) (word_in ibuf i) in
      (iv' ++ word_out v, obuf ++ word_out o))
    ([], []) [0; 1; 2; 3].

(** [while(cnt + AES_BLOCK_SIZE <= len)]. *)
Fixpoint whole_blocks (fuel : nat) (aligned : bool) (cx : aes_encrypt_ctx) (c : cursor) : cursor + outcome :=
  if Z.of_nat (length (c_in c)) <? 16 then inl c
  else
    match fuel with
    | O => inr Looping
    | S fuel =>
        if negb (c_pos c =? 0) then inr Asserted
        else
          match aes_encrypt (c_iv c) cx with
          | None => inr (Returned EXIT_FAILURE (c_out c) (c_iv c) cx)
          | Some iv =>
              let '(iv, o) := (if aligned then block_words else block_bytes) iv (take 16 (c_in c)) in
              whole_blocks fuel aligned cx (mk_cursor (drop 16 (c_in c)) iv (c_out c ++ o) (c_pos c))
          end
    end.

(** [while(cnt < len)]. *)
Fixpoint last_bytes (fuel : nat) (cx : aes_encrypt_ctx) (c : cursor) : cursor + outcome :=
  if Z.of_nat (length (c_in c)) =? 0 then inl c
  else
    match fuel with
    | O => inr Looping
    | S fuel =>
        match (if c_pos c =? 0 then aes_encrypt (c_iv c) cx else Some (c_iv c)) with
        | None => inr (Returned EXIT_FAILURE (c_out c) (c_iv c) cx)
        | Some iv => last_bytes fuel cx (wrap_pos (fill_block (c_in c) iv (c_out c) (c_pos c)))
        end
    end.

(** [aligned] is whether the three buffers are aligned to four bytes. *)
Definition stream_crypt (aligned : bool) (ibuf iv : list Z) (cx : aes_encrypt_ctx) : outcome :=
  let b_pos := inf_pos cx in
  let c := if b_pos =? 0 then mk_cursor ibuf iv [] b_pos else wrap_pos (fill_block ibuf iv [] b_pos) in
  let nb := Z.shiftr (Z.of_nat (length (c_in c))) 4 in
  match (if nb =? 0 then inl c else whole_blocks (length (c_in c)) aligned cx c) with
  | inr o => o
  | inl c =>
      match last_bytes (length (c_in c)) cx c with
      | inr o => o
      | inl c => Returned EXIT_SUCCESS (c_out c) (c_iv c) (set_inf_pos (c_pos c) cx)
      end
  end.
End stream_mode.

Definition aes_cfb_encrypt : bool -> list Z -> list Z -> aes_encrypt_ctx -> outcome := stream_crypt cfb_enc.
Definition aes_cfb_decrypt : bool -> list Z -> list Z -> aes_encrypt_ctx -> outcome := stream_crypt cfb_dec.
Definition aes_ofb_crypt : bool -> list Z -> list Z -> aes_encrypt_ctx -> outcome := stream_crypt ofb.

(** The two FIPS blocks of ones and zeroes, there and back, in two calls. *)
Example cfb_in_two_calls :
  let key := seqZ 0 16 in let cx := aes_encrypt_key128 key (mk_aes_ctx (replicate 44 0) [0; 0; 0; 0]) in
  let x := seqZ 100 40 in let iv := seqZ 50 16 in
  match aes_cfb_encrypt true x iv cx with
  | Returned 0 ct _ _ =>
      match aes_cfb_decrypt false (take 21 ct) iv cx with
      | Returned 0 x1 iv1 cx1 =>
          match aes_cfb_decrypt true (drop 21 ct) iv1 cx1 with
          | Returned 0 x2 _ _ => bool_decide (x1 ++ x2 = x)
          | _ => false
          end
      | _ => false
      end
  | _ => false
  end = true.
Proof. vm_compute. reflexivity. Qed.

(** ** The alignment of addresses *)

Lemma land_pow2 x n : In n [4; 8; 16] -> Z.land x (n - 1) = x mod n.
Proof.
  intros Hn. assert (exists k, 0 <= k /\ n = 2 ^ k) as (k & Hk & ->).
  { destruct Hn as [<-|[<-|[<-|[]]]]; [by exists 2|by exists 3|by exists 4]. }
  rewrite <- Z.land_ones, Z.ones_equiv by done. by rewrite Z.sub_1_r.
Qed.

Lemma foldl_pointwise {A B : Type} (f g : A -> B -> A) l :
  (forall a x, f a x = g a x) -> forall a, foldl f a l = foldl g a l.
Proof. intros H. induction l as [|x l IH]; intros a; [done|]. cbn [foldl]. by rewrite H. Qed.

(** For the powers of two the test succeeds wherever the array is. *)
Lemma alignment_detected p n : In n [4; 8; 16] -> aes_test_alignment_detection p n = EXIT_SUCCESS.
Proof.
  intros Hn. assert (0 < n) as Hn0 by (destruct Hn as [<-|[<-|[<-|[]]]]; done).
  assert (aes_test_alignment_detection p n = aes_test_alignment_detection (p mod n) n) as ->.
  { unfold aes_test_alignment_detection.
    assert (forall i, (ALIGN_CEIL (p + i) n =? ALIGN_FLOOR (p + i) n) = (ALIGN_CEIL (p mod n + i) n =? ALIGN_FLOOR (p mod n + i) n) /\
      (ALIGN_CEIL (p + i) n =? ALIGN_FLOOR (p + i) n + n) = (ALIGN_CEIL (p mod n + i) n =? ALIGN_FLOOR (p mod n + i) n + n)) as H.
    { intros i. unfold ALIGN_CEIL, ALIGN_FLOOR. rewrite !land_pow2 by done.
      assert (p + i = p mod n + i + (p / n) * n) as -> by (pose proof (Z.div_mod p n); lia).
      set (y := p mod n + i). replace (- (y + p / n * n)) with (- y + - (p / n) * n) by lia. rewrite !Z.mod_add by lia.
      split; apply eq_bool_prop_intro; rewrite !Is_true_true, !Z.eqb_eq; lia. }
    replace (foldl _ (Some (0, 0)) (seqZ 0 n)) with (foldl (fun c i => match c with None => None
        | Some (count_eq, count_neq) => if ALIGN_CEIL (p mod n + i) n =? ALIGN_FLOOR (p mod n + i) n then Some (count_eq + 1, count_neq)
            else if ALIGN_CEIL (p mod n + i) n =? ALIGN_FLOOR (p mod n + i) n + n then Some (count_eq, count_neq + 1) else None
        end) (Some (0, 0)) (seqZ 0 n)); [done|].
    apply foldl_pointwise. intros [[? ?]|] i; [|done]. by destruct (H i) as [-> ->]. }
  assert (0 <= p mod n < n) as Hr by by apply Z.mod_pos_bound. generalize dependent (p mod n). intros r Hr.
  assert (forallb (fun n => forallb (fun r => aes_test_alignment_detection r n =? EXIT_SUCCESS) (seqZ 0 n)) [4; 8; 16] = true) as Hall by done.
  rewrite forallb_forall in Hall. specialize (Hall n Hn). rewrite forallb_forall in Hall.
  apply Z.eqb_eq, Hall. apply list_elem_of_In, elem_of_seqZ. lia.
Qed.

(** ** Byte by byte *)

(** The machine: [iv] is encrypted before the first byte of a block. *)
Section machine.
Context (m : mode) (E : list Z -> list Z).

Definition byte_step (s : list Z * Z) (x : Z) : list Z * Z * Z :=
  let '(iv, p) := s in
  let iv := if p =? 0 then E iv else iv in
  let '(v, o) := m (rd iv p) x in (wr iv p v, (p + 1) mod 16, o).

Fixpoint bytewise (s : list Z * Z) (xs : list Z) : list Z * Z * list Z :=
  match xs with
  | [] => (s, [])
  | x :: xs => let '(s, o) := byte_step s x in let '(s, os) := bytewise s xs in (s, o :: os)
  end.

Lemma bytewise_app xs ys : forall s,
  bytewise s (xs ++ ys) =
  let '(s, os) := bytewise s xs in let '(s, os') := bytewise s ys in (s, os ++ os').
Proof.
  induction xs as [|x xs IH]; intros s; cbn [bytewise app].
  - by destruct (bytewise s ys).
  - destruct (byte_step s x) as [s1 o]. rewrite IH. destruct (bytewise s1 xs) as [s2 os].
    by destruct (bytewise s2 ys).
Qed.

Lemma bytewise_length xs : forall s, length (bytewise s xs).2 = length xs.
Proof.
  induction xs as [|x xs IH]; intros s; cbn [bytewise]; [done|]. destruct (byte_step s x) as [s1 o].
  specialize (IH s1). destruct (bytewise s1 xs) as [s2 os]. cbn in *. by rewrite IH.
Qed.
End machine.

(** What a mode has to do for the two ways of treating a block to agree. *)
Class ModeLaws (m : mode) : Prop := {
  mode_u8 v x : is_u8 v -> is_u8 x -> is_u8 (m v x).1 /\ is_u8 (m v x).2;
  mode_words a b : bytes a -> bytes b -> length a = length b ->
    m (le_word a) (le_word b) =
      (le_word (zip_with (fun v x => (m v x).1) a b), le_word (zip_with (fun v x => (m v x).2) a b))
}.

Lemma zip_with_left a : forall b : list Z, length a = length b -> zip_with (fun v _ : Z => v) a b = a.
Proof. induction a as [|x a IH]; intros [|y b]; intros Hl; [done..|]. cbn. by rewrite IH by (cbn in Hl; lia). Qed.

Lemma zip_with_swap (f : Z -> Z -> Z) a : forall b, zip_with (fun v x => f x v) a b = zip_with f b a.
Proof. induction a as [|x a IH]; intros [|y b]; [done..|]. cbn. by rewrite IH. Qed.

#[export] Instance cfb_enc_laws : ModeLaws cfb_enc.
Proof.
  split; intros; unfold cfb_enc; cbn [fst snd]; [auto with words|]. by rewrite le_word_lxor.
Qed.

#[export] Instance ofb_laws : ModeLaws ofb.
Proof.
  split; intros; unfold ofb; cbn [fst snd]; [auto with words|]. by rewrite le_word_lxor, zip_with_left.
Qed.

#[export] Instance cfb_dec_laws : ModeLaws cfb_dec.
Proof.
  split; intros; unfold cfb_dec; cbn [fst snd]; [auto with words|].
  rewrite le_word_lxor by done. by rewrite (zip_with_swap (fun x _ => x)), (zip_with_swap Z.lxor), zip_with_left.
Qed.

Section stream.
Context (m : mode) {Hm : ModeLaws m} (cx : aes_encrypt_ctx) (E : list Z -> list Z).
Hypothesis E_spec : forall x, block x -> aes_encrypt x cx = Some (E x) /\ block (E x).

Lemma byte_step_block iv p x :
  block iv -> 0 <= p < 16 -> is_u8 x ->
  block (byte_step m E (iv, p) x).1.1 /\ 0 <= (byte_step m E (iv, p) x).1.2 < 16.
Proof.
  intros Hiv Hp Hx. unfold byte_step. assert (block (if p =? 0 then E iv else iv)) as Hb.
  { destruct (p =? 0); [|done]. by apply E_spec. }
  destruct (mode_u8 (rd (if p =? 0 then E iv else iv) p) x) as [H1 _]; [by apply rd_u8, Hb|done|].
  destruct (m _ x) as [v o]. cbn [fst snd] in *. split; [|by apply Z.mod_pos_bound].
  split; [apply bytes_wr; [apply Hb|done]|]. rewrite length_wr. apply Hb.
Qed.

Lemma bytewise_block xs : forall iv p,
  block iv -> 0 <= p < 16 -> bytes xs ->
  block (bytewise m E (iv, p) xs).1.1 /\ 0 <= (bytewise m E (iv, p) xs).1.2 < 16.
Proof.
  induction xs as [|x xs IH]; intros iv p Hiv Hp Hxs; [done|]. apply List.Forall_cons_iff in Hxs as [Hx Hxs].
  cbn [bytewise]. destruct (byte_step_block iv p x Hiv Hp Hx) as [H1 H2].
  destruct (byte_step m E (iv, p) x) as [[iv1 p1] o]. cbn [fst snd] in *. specialize (IH iv1 p1 H1 H2 Hxs).
  by destruct (bytewise m E (iv1, p1) xs).
Qed.

Lemma bytewise_bytes xs : forall iv p,
  block iv -> 0 <= p < 16 -> bytes xs -> bytes (bytewise m E (iv, p) xs).2.
Proof.
  induction xs as [|x xs IH]; intros iv p Hiv Hp Hxs; [constructor|]. apply List.Forall_cons_iff in Hxs as [Hx Hxs].
  cbn [bytewise]. destruct (byte_step_block iv p x Hiv Hp Hx) as [H1 H2].
  assert (is_u8 (byte_step m E (iv, p) x).2) as Ho.
  { unfold byte_step. assert (bytes (if p =? 0 then E iv else iv)) as Hb by (destruct (p =? 0); [by apply E_spec|apply Hiv]).
    destruct (mode_u8 (rd (if p =? 0 then E iv else iv) p) x) as [_ H]; [by apply rd_u8|done|]. by destruct (m _ x). }
  destruct (byte_step m E (iv, p) x) as [[iv1 p1] o]. cbn [fst snd] in *. specialize (IH iv1 p1 H1 H2 Hxs).
  destruct (bytewise m E (iv1, p1) xs). by constructor.
Qed.

(** A block that has been begun. *)
Lemma fill_block_begun xs : forall iv obuf p,
  0 < p <= 16 ->
  let n := Nat.min (Z.to_nat (16 - p)) (length xs) in
  let '(iv', p', os) := bytewise m E (iv, p mod 16) (take n xs) in
  fill_block m xs iv obuf p = mk_cursor (drop n xs) iv' (obuf ++ os) (p + Z.of_nat n) /\ p' = (p + Z.of_nat n) mod 16.
Proof.
  induction xs as [|x xs IH]; intros iv obuf p Hp n.
  { subst n. rewrite Nat.min_0_r. cbn. by rewrite app_nil_r, Z.add_0_r. }
  destruct (Z.ltb_spec p 16) as [Hlt|Hge].
  - assert (n = S (Nat.min (Z.to_nat (16 - (p + 1))) (length xs))) as -> by (subst n; cbn [length]; lia).
    specialize (IH (wr iv p (m (rd iv p) x).1) (obuf ++ [(m (rd iv p) x).2]) (p + 1) ltac:(lia)). cbn zeta in IH.
    set (n' := Nat.min _ _) in *. cbn [take bytewise drop fill_block]. rewrite (Z.mod_small p) by lia.
    unfold byte_step. rewrite (proj2 (Z.eqb_neq p 0)), (proj2 (Z.ltb_lt p 16)) by lia.
    destruct (m (rd iv p) x) as [v o]. cbn [fst snd] in IH.
    destruct (bytewise m E (wr iv p v, (p + 1) mod 16) (take n' xs)) as [[iv' p'] os]. destruct IH as [-> ->].
    rewrite <- app_assoc. replace (p + Z.of_nat (S n')) with (p + 1 + Z.of_nat n') by lia. done.
  - assert (n = 0%nat) as -> by (subst n; lia). cbn. rewrite (proj2 (Z.ltb_ge p 16)) by lia.
    by rewrite app_nil_r, Z.add_0_r.
Qed.

(** A block that begins, [iv] being encrypted already. *)
Lemma fill_block_begins xs iv obuf :
  xs <> [] ->
  let n := Nat.min 16 (length xs) in
  let '(iv', p', os) := bytewise m E (iv, 0) (take n xs) in
  fill_block m xs (E iv) obuf 0 = mk_cursor (drop n xs) iv' (obuf ++ os) (Z.of_nat n) /\ p' = Z.of_nat n mod 16.
Proof.
  destruct xs as [|x xs]; intros Hne n; [done|].
  pose proof (fill_block_begun xs (wr (E iv) 0 (m (rd (E iv) 0) x).1) (obuf ++ [(m (rd (E iv) 0) x).2]) 1 ltac:(lia)) as Hf.
  cbn zeta in Hf. change (Z.to_nat (16 - 1)) with 15%nat in Hf.
  assert (n = S (Nat.min 15 (length xs))) as -> by (subst n; cbn [length]; lia). set (n' := Nat.min _ _) in *.
  cbn [take bytewise drop fill_block]. unfold byte_step. change (0 =? 0) with true. change (0 <? 16) with true.
  cbv iota. change (0 + 1) with 1. destruct (m (rd (E iv) 0) x) as [v o]. cbn [fst snd] in Hf.
  destruct (bytewise m E (wr (E iv) 0 v, 1 mod 16) (take n' xs)) as [[iv' p'] os]. destruct Hf as [-> ->].
  rewrite <- app_assoc. by replace (Z.of_nat (S n')) with (1 + Z.of_nat n') by lia.
Qed.

(** *** Whole blocks *)

Lemma fill_block_zip xs : forall pre ivs obuf,
  length ivs = length xs -> (length pre + length xs = 16)%nat ->
  let g v x := (m v x).1 in let h v x := (m v x).2 in
  fill_block m xs (pre ++ ivs) obuf (Z.of_nat (length pre)) =
    mk_cursor [] (pre ++ zip_with g ivs xs) (obuf ++ zip_with h ivs xs) 16.
Proof.
  induction xs as [|x xs IH]; intros pre ivs obuf Hl Hp g h; destruct ivs as [|v ivs]; try discriminate Hl; cbn [length] in *.
  { cbn [fill_block zip_with]. rewrite !app_nil_r. f_equal. lia. }
  cbn [fill_block zip_with]. rewrite (proj2 (Z.ltb_lt (Z.of_nat (length pre)) 16)) by lia.
  assert (rd (pre ++ v :: ivs) (Z.of_nat (length pre)) = v) as ->.
  { unfold rd. by rewrite Nat2Z.id, list_lookup_middle. }
  change (g v x) with (m v x).1. change (h v x) with (m v x).2. destruct (m v x) as [v' o]. cbn [fst snd].
  specialize (IH (pre ++ [v']) ivs (obuf ++ [o])). rewrite length_app in IH. cbn [length] in IH.
  replace (Z.of_nat (length pre) + 1) with (Z.of_nat (length pre + 1)) by lia.
  assert (wr (pre ++ v :: ivs) (Z.of_nat (length pre)) v' = (pre ++ [v']) ++ ivs) as ->.
  { rewrite wr_app_r by lia. rewrite Z.sub_diag, <- app_assoc. done. }
  rewrite IH by lia. by rewrite <- !app_assoc.
Qed.

Lemma block_bytes_fill xs : forall pre iv obuf,
  (length pre + length xs = 16)%nat ->
  let c := fill_block m xs iv obuf (Z.of_nat (length pre)) in
  foldl (fun '(iv, obuf) i => let '(v, o) := m (rd iv i) (rd (pre ++ xs) i) in (wr iv i v, obuf ++ [o]))
    (iv, obuf) (seqZ (Z.of_nat (length pre)) (Z.of_nat (length xs))) = (c_iv c, c_out c).
Proof.
  induction xs as [|x xs IH]; intros pre iv obuf Hp; [done|]. cbn [length] in Hp. cbn zeta.
  rewrite seqZ_cons by (cbn; lia). cbn [foldl fill_block]. rewrite (proj2 (Z.ltb_lt (Z.of_nat (length pre)) 16)) by lia.
  assert (rd (pre ++ x :: xs) (Z.of_nat (length pre)) = x) as ->.
  { unfold rd. by rewrite Nat2Z.id, list_lookup_middle. }
  destruct (m _ x) as [v o]. specialize (IH (pre ++ [x]) (wr iv (Z.of_nat (length pre)) v) (obuf ++ [o])).
  rewrite length_app, <- app_assoc in IH. cbn [length app] in IH.
  replace (Z.of_nat (length pre) + 1) with (Z.of_nat (length pre + 1)) by lia.
  rewrite <- IH by lia. f_equal. f_equal; cbn [length]; lia.
Qed.

Lemma word_out_le l : bytes l -> length l = 4%nat -> word_out (le_word l) = l.
Proof.
  intros Hb Hl. destruct l as [|a [|b [|c [|d [|? ?]]]]]; try discriminate Hl.
  unfold bytes in Hb. rewrite !List.Forall_cons_iff in Hb. destruct Hb as (? & ? & ? & ? & _).
  rewrite <- bytes2word_le. unfold word_out. by destruct (bval_bytes2word a b c d) as (-> & -> & -> & ->).
Qed.

Lemma bytes_zip_with (f : Z -> Z -> Z) a b :
  (forall v x, is_u8 v -> is_u8 x -> is_u8 (f v x)) -> bytes a -> bytes b -> bytes (zip_with f a b).
Proof.
  intros Hf Ha. revert b. induction Ha as [|x a Hx Ha IH]; intros b Hb; [constructor|].
  destruct Hb as [|y b Hy Hb]; [constructor|]. constructor; [by apply Hf|by apply IH].
Qed.

Lemma mode_block_words iv ib i :
  block iv -> block ib -> 0 <= i < 4 ->
  let g v x := (m v x).1 in let h v x := (m v x).2 in let s := slice (Z.to_nat (4 * i)) 4 in
  let r := m (word_in iv i) (word_in ib i) in
  word_out r.1 = zip_with g (s iv) (s ib) /\ word_out r.2 = zip_with h (s iv) (s ib).
Proof.
  intros [Hv Hlv] [Hx Hlx] Hi g h s r. assert (length (s iv) = 4%nat /\ length (s ib) = 4%nat) as [H4 H4'].
  { split; apply length_slice; lia. }
  assert (forall f : Z -> Z -> Z, (forall v x, is_u8 v -> is_u8 x -> is_u8 (f v x)) ->
    bytes (zip_with f (s iv) (s ib))) as Hz.
  { intros f Hf. apply bytes_zip_with; [done|by apply bytes_slice..]. }
  subst r. rewrite !word_in_le by (done || lia). rewrite (mode_words (s iv) (s ib)) by (first [by apply bytes_slice | congruence]).
  cbn [fst snd]. rewrite !word_out_le;
    first [done | apply Hz; intros; by apply mode_u8 | rewrite length_zip_with; lia].
Qed.

(** Both ways of treating a block. *)
Lemma block_any aligned iv ib :
  block iv -> block ib ->
  let g v x := (m v x).1 in let h v x := (m v x).2 in
  (if aligned : bool then block_words m else block_bytes m) iv ib = (zip_with g iv ib, zip_with h iv ib).
Proof.
  intros Hv Hx g h. destruct aligned.
  - destruct (mode_block_words iv ib 0 Hv Hx ltac:(lia)) as [A0 B0], (mode_block_words iv ib 1 Hv Hx ltac:(lia)) as [A1 B1],
      (mode_block_words iv ib 2 Hv Hx ltac:(lia)) as [A2 B2], (mode_block_words iv ib 3 Hv Hx ltac:(lia)) as [A3 B3].
    unfold block_words. cbn [foldl]. destruct (m (word_in iv 0) _), (m (word_in iv 1) _), (m (word_in iv 2) _), (m (word_in iv 3) _).
    cbn [fst snd] in *. rewrite A0, A1, A2, A3, B0, B1, B2, B3. explode iv. explode ib. reflexivity.
  - pose proof (block_bytes_fill ib [] iv [] (proj2 Hx)) as Hf. rewrite (proj2 Hx) in Hf.
    pose proof (fill_block_zip ib [] iv [] ltac:(by rewrite (proj2 Hx), (proj2 Hv)) (proj2 Hx)) as Hz.
    cbn zeta in *. cbn [app length] in *. change (Z.of_nat 0) with 0 in *. rewrite Hz in Hf. exact Hf.
Qed.

Lemma bytewise_whole iv ib :
  block iv -> block ib ->
  bytewise m E (iv, 0) ib =
    ((zip_with (fun v x => (m v x).1) (E iv) ib, 0), zip_with (fun v x => (m v x).2) (E iv) ib).
Proof.
  intros Hv Hx. destruct (E_spec iv Hv) as [_ He]. pose proof (proj2 Hx) as Hl.
  assert (ib <> []) as Hne by (intros ->; discriminate Hl).
  pose proof (fill_block_begins ib iv [] Hne) as Hf. cbn zeta in Hf. rewrite Hl in Hf. cbn [Nat.min] in Hf.
  rewrite (take_ge ib 16) in Hf by lia. destruct (bytewise m E (iv, 0) ib) as [[iv' p'] os]. destruct Hf as [Hf ->].
  pose proof (fill_block_zip ib [] (E iv) [] ltac:(by rewrite Hl, (proj2 He)) Hl) as Hz.
  cbn zeta in Hz. cbn [app length] in Hz. change (Z.of_nat 0) with 0 in Hz. rewrite Hz in Hf.
  injection Hf as _ <- <-. done.
Qed.

Lemma whole_blocks_spec aligned fuel : forall xs iv obuf,
  block iv -> bytes xs -> (length xs < 16 * S fuel)%nat ->
  let n := (16 * (length xs / 16))%nat in
  let '(iv', p', os) := bytewise m E (iv, 0) (take n xs) in
  whole_blocks m fuel aligned cx (mk_cursor xs iv obuf 0) = inl (mk_cursor (drop n xs) iv' (obuf ++ os) 0) /\ p' = 0.
Proof.
  assert (forall xs iv obuf f, (length xs < 16)%nat -> let n := (16 * (length xs / 16))%nat in
    let '(iv', p', os) := bytewise m E (iv, 0) (take n xs) in
    whole_blocks m f aligned cx (mk_cursor xs iv obuf 0) = inl (mk_cursor (drop n xs) iv' (obuf ++ os) 0) /\ p' = 0) as Hshort.
  { intros xs iv obuf f Hs n. assert (n = 0%nat) as -> by (subst n; by rewrite Nat.div_small).
    rewrite take_0, drop_0. cbn [bytewise]. rewrite app_nil_r.
    assert ((Z.of_nat (length xs) <? 16) = true) as Hlt by (apply Z.ltb_lt; lia).
    destruct f; cbn [whole_blocks c_in]; by rewrite Hlt. }
  induction fuel as [|fuel IH]; intros xs iv obuf Hv Hx Hl n; [by apply Hshort|].
  destruct (decide (length xs < 16)%nat) as [Hs|Hs]; [by apply Hshort|].
  assert (n = 16 + 16 * ((length xs - 16) / 16))%nat as ->.
  { subst n. replace (length xs) with (length xs - 16 + 1 * 16)%nat at 1 by lia. rewrite Nat.div_add by done. lia. }
  set (n := (16 * ((length xs - 16) / 16))%nat). set (ib := take 16 xs).
  assert (block ib) as Hb by (split; [by apply bytes_take|subst ib; rewrite length_take; lia]).
  destruct (E_spec iv Hv) as [He Hbe].
  assert (take (16 + n) xs = ib ++ take n (drop 16 xs)) as -> by (subst ib; by rewrite <- take_take_drop).
  rewrite bytewise_app, (bytewise_whole iv ib Hv Hb).
  set (iv1 := zip_with _ (E iv) ib). set (o1 := zip_with _ (E iv) ib).
  assert (block iv1) as Hv1.
  { subst iv1. split; [apply bytes_zip_with; [intros; by apply mode_u8|apply Hbe|apply Hb]|].
    rewrite length_zip_with, (proj2 Hbe), (proj2 Hb). done. }
  specialize (IH (drop 16 xs) iv1 (obuf ++ o1) Hv1 (bytes_drop 16 xs Hx)). rewrite length_drop in IH.
  specialize (IH ltac:(lia)). cbn zeta in IH. fold n in IH.
  destruct (bytewise m E (iv1, 0) (take n (drop 16 xs))) as [[iv' p'] os]. destruct IH as [IH ->].
  cbn [whole_blocks c_in c_pos c_iv c_out]. rewrite (proj2 (Z.ltb_ge (Z.of_nat (length xs)) 16)) by lia.
  change (negb (0 =? 0)) with false. cbv iota. rewrite He. fold ib.
  rewrite (block_any aligned (E iv) ib Hbe Hb). fold iv1 o1. rewrite IH, drop_drop, app_assoc. done.
Qed.

(** What is left: nothing, or less than a block that has to begin. *)
Lemma last_bytes_spec xs iv obuf p :
  xs = [] \/ (p = 0 /\ (length xs < 16)%nat) -> block iv -> 0 <= p < 16 ->
  let '(iv', p', os) := bytewise m E (iv, p) xs in
  last_bytes m (length xs) cx (mk_cursor xs iv obuf p) = inl (mk_cursor [] iv' (obuf ++ os) p').
Proof.
  intros [->|[-> Hl]] Hv Hp; [by cbn; rewrite app_nil_r|].
  destruct (decide (xs = [])) as [->|Hne]; [by cbn; rewrite app_nil_r|].
  pose proof (fill_block_begins xs iv obuf Hne) as Hf. cbn zeta in Hf.
  replace (Nat.min 16 (length xs)) with (length xs) in Hf by lia. rewrite take_ge, drop_ge in Hf by lia.
  destruct (bytewise m E (iv, 0) xs) as [[iv' p'] os]. destruct Hf as [Hf ->].
  assert (0 < length xs)%nat by (destruct xs; [done|cbn; lia]).
  destruct (length xs) as [|fuel] eqn:El; [lia|]. cbn [last_bytes c_in c_pos c_iv c_out].
  rewrite El, (proj2 (Z.eqb_neq (Z.of_nat (S fuel)) 0)) by lia. rewrite Z.eqb_refl.
  rewrite (proj1 (E_spec iv Hv)), Hf. unfold wrap_pos. cbn [c_in c_pos c_iv c_out].
  rewrite (proj2 (Z.eqb_neq (Z.of_nat (S fuel)) 16)), (Z.mod_small (Z.of_nat (S fuel)) 16) by lia. by destruct fuel.
Qed.

(** A position past the end of a block never moves again. *)
Lemma position_past_block fuel : forall xs iv obuf p,
  xs <> [] -> 16 < p -> last_bytes m fuel cx (mk_cursor xs iv obuf p) = inr Looping.
Proof.
  induction fuel as [|fuel IH]; intros xs iv obuf p Hx Hp; destruct xs as [|x xs]; try done.
  cbn [last_bytes c_in c_pos c_iv c_out fill_block].
  rewrite (proj2 (Z.eqb_neq p 0)), (proj2 (Z.ltb_ge p 16)) by lia.
  change (Z.of_nat (length (x :: xs)) =? 0) with false. cbv iota. unfold wrap_pos. cbn [c_in c_pos c_iv c_out].
  rewrite (proj2 (Z.eqb_neq p 16)) by lia. by apply IH.
Qed.

(** *** A whole call *)

(** After the block that earlier calls began. *)
Lemma partial_block_spec xs iv :
  0 <= inf_pos cx <= 16 ->
  exists n p1, (p1 = 0 \/ drop n xs = []) /\
    let '(iv1, p1', o1) := bytewise m E (iv, inf_pos cx mod 16) (take n xs) in
    (if inf_pos cx =? 0 then mk_cursor xs iv [] (inf_pos cx) else wrap_pos (fill_block m xs iv [] (inf_pos cx))) =
      mk_cursor (drop n xs) iv1 o1 p1 /\ p1' = p1.
Proof.
  intros Hp. destruct (Z.eqb_spec (inf_pos cx) 0) as [E0|E0]; [by exists 0%nat, 0; split; [by left|rewrite E0]|].
  pose proof (fill_block_begun xs iv [] (inf_pos cx) ltac:(lia)) as Hf. cbn zeta in Hf.
  set (n := Nat.min _ _) in *. exists n, ((inf_pos cx + Z.of_nat n) mod 16).
  destruct (bytewise m E (iv, inf_pos cx mod 16) (take n xs)) as [[iv1 p1'] o1]. destruct Hf as [-> ->].
  split.
  - destruct (decide (length xs <= n)%nat); [right; by apply drop_ge|left].
    replace (inf_pos cx + Z.of_nat n) with 16 by lia. done.
  - split; [|done]. unfold wrap_pos. cbn [c_in c_pos c_iv c_out app]. f_equal.
    destruct (Z.eqb_spec (inf_pos cx + Z.of_nat n) 16) as [->|]; [done|]. rewrite Z.mod_small; lia.
Qed.

(** After the whole blocks that follow. *)
Lemma whole_part_spec aligned ys iv1 o1 p1 :
  p1 = 0 \/ ys = [] -> block iv1 -> bytes ys ->
  let k := (16 * (length ys / 16))%nat in
  let '(iv2, p2, o2) := bytewise m E (iv1, p1) (take k ys) in
  (if Z.shiftr (Z.of_nat (length ys)) 4 =? 0 then inl (mk_cursor ys iv1 o1 p1)
   else whole_blocks m (length ys) aligned cx (mk_cursor ys iv1 o1 p1)) =
    inl (mk_cursor (drop k ys) iv2 (o1 ++ o2) p2) /\ (p2 = 0 \/ drop k ys = []).
Proof.
  intros Hn Hv1 Hy k. assert (Z.shiftr (Z.of_nat (length ys)) 4 = Z.of_nat (length ys / 16)) as ->.
  { rewrite Z.shiftr_div_pow2 by done. change (2 ^ 4) with (Z.of_nat 16). by rewrite Nat2Z.inj_div. }
  destruct (Z.eqb_spec (Z.of_nat (length ys / 16)) 0) as [E0|E0].
  - assert (k = 0%nat) as -> by lia. rewrite take_0, drop_0. cbn [bytewise]. by rewrite app_nil_r.
  - destruct Hn as [->|Hn]; [|rewrite Hn in E0; done].
    pose proof (whole_blocks_spec aligned (length ys) ys iv1 o1 Hv1 Hy ltac:(lia)) as Hw. cbn zeta in Hw. fold k in Hw.
    destruct (bytewise m E (iv1, 0) (take k ys)) as [[iv2 p2] o2]. destruct Hw as [-> ->]. auto.
Qed.

Lemma bytewise_split n xs s :
  bytewise m E s xs =
  let '(s, os) := bytewise m E s (take n xs) in let '(s, os') := bytewise m E s (drop n xs) in (s, os ++ os').
Proof. rewrite <- bytewise_app. by rewrite take_drop. Qed.

Lemma stream_crypt_bytewise aligned xs iv :
  block iv -> bytes xs -> 0 <= inf_pos cx <= 16 ->
  let '(iv', p', os) := bytewise m E (iv, inf_pos cx mod 16) xs in
  stream_crypt m aligned xs iv cx = Returned EXIT_SUCCESS os iv' (set_inf_pos p' cx).
Proof.
  intros Hv Hx Hp. destruct (partial_block_spec xs iv Hp) as (n & p1 & Hn & H1).
  rewrite (bytewise_split n).
  pose proof (bytewise_block (take n xs) iv (inf_pos cx mod 16) Hv ltac:(by apply Z.mod_pos_bound) (bytes_take n xs Hx)) as Hb1.
  destruct (bytewise m E (iv, inf_pos cx mod 16) (take n xs)) as [[iv1 p1'] o1]. destruct H1 as [H1 ->].
  cbn [fst snd] in Hb1. destruct Hb1 as [Hv1 Hp1]. unfold stream_crypt. rewrite H1. cbn [c_in c_pos c_iv c_out].
  set (ys := drop n xs) in *. assert (bytes ys) as Hy by by apply bytes_drop.
  pose proof (whole_part_spec aligned ys iv1 o1 p1 Hn Hv1 Hy) as H2. cbn zeta in H2.
  set (k := (16 * (length ys / 16))%nat) in *. rewrite (bytewise_split k).
  pose proof (bytewise_block (take k ys) iv1 p1 Hv1 Hp1 (bytes_take k ys Hy)) as Hb2.
  destruct (bytewise m E (iv1, p1) (take k ys)) as [[iv2 p2] o2]. destruct H2 as [-> H2].
  cbn [fst snd] in Hb2. destruct Hb2 as [Hv2 Hp2]. cbn [c_in c_pos c_iv c_out].
  assert (length ys < k + 16)%nat as Hr.
  { pose proof (Nat.div_mod_eq (length ys) 16). pose proof (Nat.mod_upper_bound (length ys) 16 ltac:(done)). lia. }
  pose proof (last_bytes_spec (drop k ys) iv2 (o1 ++ o2) p2) as Hl. rewrite length_drop in Hl |- *.
  destruct (bytewise m E (iv2, p2) (drop k ys)) as [[iv3 p3] o3].
  rewrite Hl; [|destruct H2; [right; split; [done|lia]|by left]|done|done].
  cbn [c_in c_pos c_iv c_out]. by rewrite <- app_assoc.
Qed.
End stream.

(** *** There and back *)

(** [dec] undoes [enc] and follows it. *)
Definition undoes (enc dec : mode) : Prop :=
  forall v x, let '(v', o) := enc v x in dec v o = (v', x).

Lemma lxor_cancel_r a b : Z.lxor (Z.lxor a b) b = a.
Proof. by rewrite Z.lxor_assoc, Z.lxor_nilpotent, Z.lxor_0_r. Qed.

Lemma cfb_undoes : undoes cfb_enc cfb_dec.
Proof. intros v x. unfold cfb_enc, cfb_dec. by rewrite (Z.lxor_comm v x), lxor_cancel_r. Qed.

Lemma ofb_undoes : undoes ofb ofb.
Proof. intros v x. unfold ofb. by rewrite (Z.lxor_comm v x), Z.lxor_comm, lxor_cancel_r. Qed.

Lemma bytewise_undo enc dec E xs : undoes enc dec -> forall s,
  let '(s', os) := bytewise enc E s xs in bytewise dec E s os = (s', xs).
Proof.
  intros Hu. induction xs as [|x xs IH]; intros [iv p]; cbn [bytewise]; [done|].
  unfold byte_step at 1. specialize (Hu (rd (if p =? 0 then E iv else iv) p) x).
  destruct (enc _ x) as [v o]. specialize (IH (wr (if p =? 0 then E iv else iv) p v, (p + 1) mod 16)).
  destruct (bytewise enc E _ xs) as [s' os]. cbn [bytewise]. unfold byte_step. by rewrite Hu, IH.
Qed.

Section keyed.
Context (key : list Z) (Hkey : block key).

Lemma stream_keyed m {Hm : ModeLaws m} aligned xs iv p cx :
  ctr_keyed key p cx -> 0 <= p <= 16 -> bytes xs -> block iv ->
  let '(iv', p', os) := bytewise m (Fips.cipher key) (iv, p mod 16) xs in
  stream_crypt m aligned xs iv cx = Returned EXIT_SUCCESS os iv' (set_inf_pos p' cx) /\
  ctr_keyed key p' (set_inf_pos p' cx) /\ block iv' /\ 0 <= p' < 16 /\ bytes os.
Proof.
  intros Hk Hp Hx Hv. pose proof (ctr_keyed_pos key Hkey p cx Hk Hp) as Hpos.
  pose proof (fun x => ctr_keyed_cipher key Hkey p cx x Hk) as HE.
  pose proof (stream_crypt_bytewise m cx _ HE aligned xs iv Hv Hx ltac:(lia)) as H. rewrite Hpos in H.
  pose proof (bytewise_block m cx _ HE xs iv (p mod 16) Hv ltac:(by apply Z.mod_pos_bound) Hx) as Hb.
  pose proof (bytewise_bytes m cx _ HE xs iv (p mod 16) Hv ltac:(by apply Z.mod_pos_bound) Hx) as Ho.
  destruct (bytewise m _ _ xs) as [[iv' p'] os]. cbn [fst snd] in *.
  split_and!; try done; try apply Hb. by eapply ctr_keyed_set.
Qed.
End keyed.

(** C16. [aes_cfb_encrypt], [aes_cfb_decrypt] and [aes_ofb_crypt] treat their
    input byte by byte: whatever the alignment of the buffers and the position
    in the current block, they return EXIT_SUCCESS with the output, the [iv]
    and the position of a machine that encrypts [iv] before the first byte of
    a block and changes one byte of it at a time.  No [assert] fails and no
    loop runs on. *)
Theorem stream_modes_byte_by_byte key p cx aligned x iv :
  block key -> ctr_keyed key p cx -> 0 <= p <= 16 -> bytes x -> block iv ->
  Forall (fun '(crypt, m) =>
      let '(iv', p', os) := bytewise m (Fips.cipher key) (iv, p mod 16) x in
      crypt aligned x iv cx = Returned EXIT_SUCCESS os iv' (set_inf_pos p' cx))
    [(aes_cfb_encrypt, cfb_enc); (aes_cfb_decrypt, cfb_dec); (aes_ofb_crypt, ofb)].
Proof.
  intros Hkey Hk Hp Hx Hv.
  pose proof (stream_keyed key Hkey cfb_enc aligned x iv p cx Hk Hp Hx Hv) as H1.
  pose proof (stream_keyed key Hkey cfb_dec aligned x iv p cx Hk Hp Hx Hv) as H2.
  pose proof (stream_keyed key Hkey ofb aligned x iv p cx Hk Hp Hx Hv) as H3.
  apply List.Forall_cons; [|apply List.Forall_cons; [|apply List.Forall_cons; [|constructor]]].
  - destruct (bytewise cfb_enc _ _ x) as [[? ?] ?]. apply H1.
  - destruct (bytewise cfb_dec _ _ x) as [[? ?] ?]. apply H2.
  - destruct (bytewise ofb _ _ x) as [[? ?] ?]. apply H3.
Qed.

Lemma stream_modes_byte_by_byte_witness :
  let key := map Z.of_nat (seq 0 16) in let x := map Z.of_nat (seq 0 40) in let iv := map Z.of_nat (seq 9 16) in
  let cx := set_inf_pos 5 (aes_encrypt_key128 key (mk_aes_ctx (replicate 44 0) [])) in
  Forall (fun '(crypt, m) =>
      let '(iv', p', os) := bytewise m (Fips.cipher key) (iv, 5 mod 16) x in
      crypt true x iv cx = Returned EXIT_SUCCESS os iv' (set_inf_pos p' cx))
    [(aes_cfb_encrypt, cfb_enc); (aes_cfb_decrypt, cfb_dec); (aes_ofb_crypt, ofb)].
Proof.
  apply stream_modes_byte_by_byte; [decide_true|by exists (mk_aes_ctx (replicate 44 0) [])|lia|decide_true|decide_true].
Defined.


Section there_and_back.
Context (key : list Z) (Hkey : block key) (enc dec : mode) {He : ModeLaws enc} {Hd : ModeLaws dec} (Hu : undoes enc dec).

Lemma stream_in_pieces al1 al2 al3 x iv n p cx :
  ctr_keyed key p cx -> 0 <= p <= 16 -> bytes x -> block iv ->
  exists ct iv1 iv2 cx1 cx2,
    stream_crypt enc al1 x iv cx = Returned EXIT_SUCCESS ct iv2 cx2 /\
    stream_crypt dec al2 (take n ct) iv cx = Returned EXIT_SUCCESS (take n x) iv1 cx1 /\
    stream_crypt dec al3 (drop n ct) iv1 cx1 = Returned EXIT_SUCCESS (drop n x) iv2 cx2.
Proof.
  intros Hk Hp Hx Hv. pose proof (stream_keyed key Hkey enc al1 x iv p cx Hk Hp Hx Hv) as H1.
  pose proof (bytewise_undo enc dec (Fips.cipher key) x Hu (iv, p mod 16)) as H2.
  destruct (bytewise enc _ _ x) as [[iv2 p2] ct]. destruct H1 as (-> & _ & _ & _ & Hc).
  rewrite (bytewise_split dec _ n) in H2.
  pose proof (stream_keyed key Hkey dec al2 (take n ct) iv p cx Hk Hp (bytes_take n ct Hc) Hv) as H3.
  pose proof (bytewise_length dec (Fips.cipher key) (take n ct) (iv, p mod 16)) as L1.
  destruct (bytewise dec _ _ (take n ct)) as [[iv1 p1] x1]. destruct H3 as (E3 & Hk1 & Hv1 & Hp1 & _).
  pose proof (stream_keyed key Hkey dec al3 (drop n ct) iv1 p1 _ Hk1 ltac:(lia) (bytes_drop n ct Hc) Hv1) as H4.
  rewrite (Z.mod_small p1 16) in H4 by lia.
  pose proof (bytewise_length dec (Fips.cipher key) (drop n ct) (iv1, p1)) as L2.
  destruct (bytewise dec _ _ (drop n ct)) as [[iv3 p3] x2]. destruct H4 as (E4 & _).
  injection H2 as -> -> Ex. cbn [snd] in L1, L2. rewrite set_inf_pos_twice in E4.
  assert (x1 = take n x /\ x2 = drop n x) as [-> ->].
  { subst x. rewrite length_take in L1. rewrite length_drop in L2. destruct (decide (n <= length ct)%nat).
    - by rewrite take_app_length', drop_app_length' by lia.
    - assert (x2 = []) as -> by (apply nil_length_inv; lia).
      rewrite app_nil_r, take_ge, drop_ge by lia. done. }
  do 5 eexists. split; [reflexivity|]. split; [exact E3|exact E4].
Qed.
End there_and_back.

(** C17. A message encrypted in CFB or OFB mode reads back when it is decrypted
    in two calls, cut anywhere, the second with the [iv] and the context the
    first left; the two calls end where the encryption ended, whatever the
    alignment of the buffers in each. *)
Theorem stream_modes_roundtrip key al1 al2 al3 x iv n p cx :
  block key -> ctr_keyed key p cx -> 0 <= p <= 16 -> bytes x -> block iv ->
  Forall (fun '(encrypt, decrypt) => exists ct iv1 iv2 cx1 cx2,
      encrypt al1 x iv cx = Returned EXIT_SUCCESS ct iv2 cx2 /\
      decrypt al2 (take n ct) iv cx = Returned EXIT_SUCCESS (take n x) iv1 cx1 /\
      decrypt al3 (drop n ct) iv1 cx1 = Returned EXIT_SUCCESS (drop n x) iv2 cx2)
    [(aes_cfb_encrypt, aes_cfb_decrypt); (aes_ofb_crypt, aes_ofb_crypt)].
Proof.
  intros Hkey Hk Hp Hx Hv. apply List.Forall_cons; [|apply List.Forall_cons; [|constructor]].
  - by apply (stream_in_pieces key Hkey cfb_enc cfb_dec cfb_undoes al1 al2 al3 x iv n p cx).
  - by apply (stream_in_pieces key Hkey ofb ofb ofb_undoes al1 al2 al3 x iv n p cx).
Qed.

Lemma stream_modes_roundtrip_witness :
  let key := map Z.of_nat (seq 0 16) in let x := map Z.of_nat (seq 0 40) in let iv := map Z.of_nat (seq 9 16) in
  let cx := set_inf_pos 5 (aes_encrypt_key128 key (mk_aes_ctx (replicate 44 0) [])) in
  Forall (fun '(encrypt, decrypt) => exists ct iv1 iv2 cx1 cx2,
      encrypt true x iv cx = Returned EXIT_SUCCESS ct iv2 cx2 /\
      decrypt false (take 17 ct) iv cx = Returned EXIT_SUCCESS (take 17 x) iv1 cx1 /\
      decrypt true (drop 17 ct) iv1 cx1 = Returned EXIT_SUCCESS (drop 17 x) iv2 cx2)
    [(aes_cfb_encrypt, aes_cfb_decrypt); (aes_ofb_crypt, aes_ofb_crypt)].
Proof.
  intros key x iv cx. apply (stream_modes_roundtrip key true false true x iv 17 5 cx); [decide_true|by exists (mk_aes_ctx (replicate 44 0) [])|lia|decide_true|decide_true].
Defined.

(** ** Cipher block chaining *)

(** SP 800-38A: [n] blocks of [x] under the block cipher [E]. *)
Fixpoint cbc (E : list Z -> list Z) (n : nat) (iv x : list Z) : list Z :=
  match n with
  | O => []
  | S n => let c := E (xor_bytes (take 16 x) iv) in c ++ cbc E n c (drop 16 x)
  end.

Lemma xor_any_spec aligned p q : block p -> block q -> xor_any aligned p q = xor_bytes p q.
Proof. intros. destruct aligned; [by apply xor_block_aligned_spec|done]. Qed.

Lemma whole_blocks_of (x : list Z) :
  if decide (length x mod 16 = 0)%nat then
    Z.land (Z.of_nat (length x)) 15 = 0 /\ length x = (16 * Z.to_nat (Z.shiftr (Z.of_nat (length x)) 4))%nat
  else (Z.land (Z.of_nat (length x)) 15 =? 0) = false.
Proof.
  assert (Z.land (Z.of_nat (length x)) 15 = Z.of_nat (length x mod 16)) as ->.
  { change 15 with (Z.ones 4). rewrite Z.land_ones, Nat2Z.inj_mod by done. done. }
  case_decide as H0; [|apply Z.eqb_neq; lia]. rewrite H0. split; [done|].
  rewrite Z.shiftr_div_pow2 by done. change (2 ^ 4) with (Z.of_nat 16). rewrite <- Nat2Z.inj_div, Nat2Z.id.
  pose proof (Nat.div_mod_eq (length x) 16). lia.
Qed.

Section chaining.
Context (E : list Z -> list Z) (cx : aes_encrypt_ctx) (dx : aes_decrypt_ctx).
Hypothesis E_spec : forall x, block x -> aes_encrypt x cx = Some (E x) /\ block (E x).
Hypothesis D_spec : forall x, block x -> aes_decrypt (E x) dx = Some x.

Lemma cbc_loops al1 al2 n : forall x iv,
  bytes x -> length x = (16 * n)%nat -> block iv ->
  exists iv', cbc_encrypt_loop n al1 x iv cx = (EXIT_SUCCESS, cbc E n iv x, iv') /\
    cbc_decrypt_loop n al2 (cbc E n iv x) iv dx = (EXIT_SUCCESS, x, iv') /\ length (cbc E n iv x) = (16 * n)%nat.
Proof.
  induction n as [|n IH]; intros x iv Hx Hl Hv.
  { apply nil_length_inv in Hl as ->. by exists iv. }
  assert (block (take 16 x)) as Hb by (split; [by apply bytes_take|rewrite length_take; lia]).
  pose proof (Aes.xor_block _ _ Hb Hv) as Hxb. destruct (E_spec _ Hxb) as [He Hbe]. pose proof (D_spec _ Hxb) as Hd.
  set (c := E (xor_bytes (take 16 x) iv)) in *.
  destruct (IH (drop 16 x) c) as (iv' & E1 & E2 & El); [by apply bytes_drop|rewrite length_drop; lia|done|].
  exists iv'. cbn [cbc_encrypt_loop cbc_decrypt_loop cbc]. fold c.
  rewrite (xor_any_spec al1) by done. rewrite (xor_bytes_comm iv), He, E1. split; [done|].
  rewrite take_app_length', drop_app_length' by (symmetry; apply Hbe).
  rewrite Hd, E2, (xor_any_spec al2) by done.
  rewrite xor_bytes_cancel, take_drop by (rewrite (proj2 Hb), (proj2 Hv); done). split; [done|].
  rewrite length_app, (proj2 Hbe), El. lia.
Qed.

Lemma ecb_loops n : forall x,
  bytes x -> length x = (16 * n)%nat ->
  exists ct, ecb_loop n x cx = Some ct /\ ecb_decrypt_loop n ct dx = Some x /\ length ct = (16 * n)%nat.
Proof.
  induction n as [|n IH]; intros x Hx Hl; [apply nil_length_inv in Hl as ->; by exists []|].
  assert (block (take 16 x)) as Hb by (split; [by apply bytes_take|rewrite length_take; lia]).
  destruct (E_spec _ Hb) as [He Hbe].
  destruct (IH (drop 16 x)) as (ct & E1 & E2 & El); [by apply bytes_drop|rewrite length_drop; lia|].
  exists (E (take 16 x) ++ ct). cbn [ecb_loop ecb_decrypt_loop]. rewrite He, E1. split; [done|].
  rewrite take_app_length', drop_app_length' by (symmetry; apply Hbe). rewrite (D_spec _ Hb), E2. cbn [option_map].
  rewrite take_drop, length_app, (proj2 Hbe), El. split; [done|lia].
Qed.
End chaining.

(** C18. [aes_cbc_encrypt] is the CBC mode of NIST SP 800-38A under the cipher of
    FIPS 197, [aes_cbc_decrypt] undoes it and leaves the same [iv]; the
    codebook mode is undone too.  A length that is not a multiple of sixteen
    is refused by all of them, with nothing written. *)
Theorem block_modes_roundtrip u key cx cx' al1 al2 x iv :
  block key -> length (ks cx) = KS_LENGTH -> length (ks cx') = KS_LENGTH -> bytes x -> block iv ->
  let ex := aes_encrypt_key128 key cx in let dx := aes_decrypt_key128 u key cx' in
  if decide (length x mod 16 = 0)%nat then
    let ct := cbc (Fips.cipher key) (length x / 16) iv x in
    (exists iv', aes_cbc_encrypt al1 x iv ex = (EXIT_SUCCESS, ct, iv') /\
      aes_cbc_decrypt al2 ct iv dx = (EXIT_SUCCESS, x, iv')) /\
    (exists ct, aes_ecb_encrypt x ex = Some ct /\ aes_ecb_decrypt ct dx = Some x)
  else
    aes_cbc_encrypt al1 x iv ex = (EXIT_FAILURE, [], iv) /\ aes_cbc_decrypt al2 x iv dx = (EXIT_FAILURE, [], iv) /\
    aes_ecb_encrypt x ex = None /\ aes_ecb_decrypt x dx = None.
Proof.
  intros Hk Hl Hl' Hx Hv ex dx.
  assert (forall b, block b -> aes_encrypt b ex = Some (Fips.cipher key b) /\ block (Fips.cipher key b)) as He
    by (intros; by apply key_encrypts).
  assert (forall b, block b -> aes_decrypt (Fips.cipher key b) dx = Some b) as Hd.
  { intros b Hb. etransitivity; [by apply (key_decrypts u key cx' _ Hk (proj2 (He b Hb)))|]. by rewrite inv_cipher_undo. }
  pose proof (whole_blocks_of x) as Hw.
  unfold aes_cbc_encrypt, aes_cbc_decrypt, aes_ecb_encrypt, aes_ecb_decrypt. case_decide as H0.
  - destruct Hw as [E5 Hn]. rewrite E5. set (n := Z.to_nat _) in *.
    assert (length x / 16 = n)%nat as -> by (rewrite Hn, Nat.mul_comm; by apply Nat.div_mul).
    destruct (cbc_loops (Fips.cipher key) ex dx He Hd al1 al2 n x iv Hx Hn Hv) as (iv' & E1 & E2 & Lc).
    destruct (ecb_loops (Fips.cipher key) ex dx He Hd n x Hx Hn) as (ct & E3 & E4 & Le).
    cbn [Z.eqb negb]. split.
    + exists iv'. split; [exact E1|]. rewrite Lc, <- Hn, E5. exact E2.
    + exists ct. split; [exact E3|]. rewrite Le, <- Hn, E5. exact E4.
  - rewrite Hw. done.
Qed.

Lemma block_modes_roundtrip_witness :
  let key := map Z.of_nat (seq 0 16) in let x := map Z.of_nat (seq 0 32) in let iv := map Z.of_nat (seq 9 16) in
  let cx := mk_aes_ctx (replicate 44 0) [] in
  let ex := aes_encrypt_key128 key cx in let dx := aes_decrypt_key128 7 key cx in
  if decide (length x mod 16 = 0)%nat then
    let ct := cbc (Fips.cipher key) (length x / 16) iv x in
    (exists iv', aes_cbc_encrypt true x iv ex = (EXIT_SUCCESS, ct, iv') /\
      aes_cbc_decrypt false ct iv dx = (EXIT_SUCCESS, x, iv')) /\
    (exists ct, aes_ecb_encrypt x ex = Some ct /\ aes_ecb_decrypt ct dx = Some x)
  else
    aes_cbc_encrypt true x iv ex = (EXIT_FAILURE, [], iv) /\ aes_cbc_decrypt false x iv dx = (EXIT_FAILURE, [], iv) /\
    aes_ecb_encrypt x ex = None /\ aes_ecb_decrypt x dx = None.
Proof. apply (block_modes_roundtrip 7); decide_true. Defined.
