(* ===== verification/Gec.v ===== *)
(** * Galois embedded crypto: the symmetric operations

    GEC-block/src/gec.c over gcm.c and aes_modes.c: keys of 24 raw bytes (an
    AES key and a salt), authenticated boxes of 64 bytes and the
    confidentiality-only mode.  The asymmetric wrappers are in GecKe.v. *)

From S2P Require Import Prelude Aes Gf128 Gcm GcmSpec AesModes.

Local Open Scope Z_scope.

Definition GEC_ID_LEN : nat := 0.
Definition GEC_SALT_LEN : nat := 8.
Definition GEC_CTR_LEN : nat := 4.
Definition GEC_TAG_LEN : nat := 12.
Definition GEC_SYM_CIPHER_KEY_LEN : nat := 16.
Definition CTR_IV_LEN : nat := 16.
Definition GCM_IV_LEN : nat := 12.

Definition GEC_RAW_KEY_LEN : nat := GEC_SALT_LEN + GEC_SYM_CIPHER_KEY_LEN.
Definition GEC_PT_LEN : nat := 64.
Definition GEC_CT_LEN : nat := GEC_ID_LEN + GEC_CTR_LEN + GEC_PT_LEN + GEC_TAG_LEN.

Definition GEC_SUCCESS : Z := 0.
Definition GEC_ERROR_INVALID : Z := 1.
Definition GEC_ERROR_DUPLICATE_COUNTER : Z := 2.
Definition GEC_ERROR_DECRYPT_AUTH_FAILED : Z := 3.
Definition GEC_ERROR_COUNTER_ROLLOVER : Z := 4.
Definition GEC_ERROR_ENCRYPT_AUTH_FAILED : Z := 5.

Definition UINT32_MAX : Z := 2 ^ 32 - 1.

Record gec_sym_key := mk_sym_key { gctx : gcm_ctx; salt : list Z; ctr : Z }.
Record gec_sym_key_conf := mk_sym_key_conf { cctx : aes_encrypt_ctx; csalt : list Z; cctr : Z }.

(** ** Words in buffers *)

(** The shift comes after the or, also for the last byte. *)
Definition _read_word64_be (buf : list Z) : Z :=
  foldl (fun c i => u64 (Z.shiftl (Z.lor c (rd buf i)) 8)) 0 (seqZ 0 8).

Definition _read_word32_be (buf : list Z) : Z :=
  foldl (fun c i => u32 (Z.shiftl (Z.lor c (rd buf i)) 8)) 0 (seqZ 0 4).

Definition _write_word64_be (buf : list Z) (c : Z) : list Z :=
  (foldl (fun '(buf, c) i => (wr buf i (Z.land c 255), Z.shiftr c 8)) (buf, c) [7; 6; 5; 4; 3; 2; 1; 0]).1.

Definition _write_word32_be (buf : list Z) (c : Z) : list Z :=
  (foldl (fun '(buf, c) i => (wr buf i (Z.land c 255), Z.shiftr c 8)) (buf, c) [3; 2; 1; 0]).1.

Definition _gec_ctr_inc_func (ctr_buf : list Z) : list Z :=
  _write_word32_be ctr_buf (u32 (_read_word32_be ctr_buf + 1)).

(** ** Keys *)

Definition gec_init_sym_key_conf_auth (k : gec_sym_key) (rawkey : list Z) : gec_sym_key :=
  let '(_, g) := gcm_init_and_key (take GEC_SYM_CIPHER_KEY_LEN rawkey) (gctx k) in
  mk_sym_key g (slice GEC_SYM_CIPHER_KEY_LEN GEC_SALT_LEN rawkey) 0.

Definition gec_key_material_to_2_channels (chan1 chan2 : gec_sym_key) (key_material : list Z)
    : gec_sym_key * gec_sym_key :=
  let km1 := key_material in
  let km2 := drop GEC_RAW_KEY_LEN key_material in
  (gec_init_sym_key_conf_auth chan1 km1, gec_init_sym_key_conf_auth chan2 km2).

Definition gec_init_sym_key_conf (k : gec_sym_key_conf) (rawkey : list Z) : gec_sym_key_conf :=
  mk_sym_key_conf (aes_encrypt_key128 (take GEC_SYM_CIPHER_KEY_LEN rawkey) (cctx k))
    (slice GEC_SYM_CIPHER_KEY_LEN GEC_SALT_LEN rawkey) 0.

(** [memset(k, 0, sizeof *k)]. *)
Definition zeros (l : list Z) : list Z := replicate (length l) 0.
Definition zero_aes_ctx (c : aes_encrypt_ctx) : aes_encrypt_ctx := mk_aes_ctx (zeros (ks c)) (zeros (inf_b c)).
Definition zero_gcm_ctx (c : gcm_ctx) : gcm_ctx :=
  mk_gcm (map zeros (gf_t4k c)) (zeros (ctr_val c)) (zeros (enc_ctr c)) (zeros (hdr_ghv c))
    (zeros (txt_ghv c)) (zeros (ghash_h c)) (zero_aes_ctx (aes c)) 0 0 0 0.

Definition gec_clear (k : gec_sym_key) : gec_sym_key :=
  mk_sym_key (zero_gcm_ctx (gctx k)) (zeros (salt k)) 0.
Definition gec_clear_conf (k : gec_sym_key_conf) : gec_sym_key_conf :=
  mk_sym_key_conf (zero_aes_ctx (cctx k)) (zeros (csalt k)) 0.

(** ** Authenticated boxes *)

(** The positions of the buffers modulo the word size, which select the
    loops of gcm.c. *)
Record places := mk_places { adr_h : Z; adr_t : Z; adr_e : Z }.

Definition nrBlks (len : Z) : Z := (len + 16 - 1) mod 16.

(** [ct] is the buffer of the caller; the results are the return value, the
    buffer and the key. *)
Definition gec_encrypt (at_ : places) (k : gec_sym_key) (pt ct : list Z) : Z * list Z * gec_sym_key :=
  if UINT32_MAX - nrBlks (Z.of_nat GEC_PT_LEN) <=? ctr k then (GEC_ERROR_COUNTER_ROLLOVER, ct, k)
  else
    let c := u64 (ctr k + 1) in
    let iv := _write_word32_be (replicate GCM_IV_LEN 0) (u32 c) in
    let ct := take GEC_ID_LEN ct ++ _write_word32_be (drop GEC_ID_LEN ct) (u32 c) in
    let iv := memcpy_at iv 4 (take GEC_SALT_LEN (salt k)) in
    let ct := memcpy_at ct (GEC_ID_LEN + GEC_CTR_LEN) (take GEC_PT_LEN pt) in
    let '(gcm_ret, msg, tag, g) :=
      gcm_encrypt_message (adr_h at_) (adr_t at_) (adr_e at_) iv []
        (slice (GEC_ID_LEN + GEC_CTR_LEN) GEC_PT_LEN ct) GEC_TAG_LEN (gctx k) in
    let ct := memcpy_at ct (GEC_ID_LEN + GEC_CTR_LEN) msg in
    let ct := memcpy_at ct (GEC_CT_LEN - GEC_TAG_LEN) tag in
    let k := mk_sym_key g (salt k) c in
    if RETURN_GOOD =? gcm_ret then (GEC_SUCCESS, ct, k)
    else (GEC_ERROR_ENCRYPT_AUTH_FAILED, memset_at ct 0 GEC_CT_LEN 0, k).

Definition gec_decrypt (at_ : places) (k : gec_sym_key) (ct pt : list Z) : Z * list Z * gec_sym_key :=
  let tag := slice (GEC_CT_LEN - GEC_TAG_LEN) GEC_TAG_LEN ct in
  let their_counter := _read_word32_be (drop GEC_ID_LEN ct) in
  let iv := memcpy_at (replicate GCM_IV_LEN 0) 0 (slice GEC_ID_LEN GEC_CTR_LEN ct) in
  let iv := memcpy_at iv GEC_CTR_LEN (take GEC_SALT_LEN (salt k)) in
  let pt := memcpy_at pt 0 (slice (GEC_ID_LEN + GEC_CTR_LEN) GEC_PT_LEN ct) in
  let '(gcm_ret, msg, g) :=
    gcm_decrypt_message (adr_h at_) (adr_t at_) (adr_e at_) iv [] (take GEC_PT_LEN pt) tag (gctx k) in
  let pt := memcpy_at pt 0 msg in
  if RETURN_GOOD =? gcm_ret then (GEC_SUCCESS, pt, mk_sym_key g (salt k) their_counter)
  else (GEC_ERROR_DECRYPT_AUTH_FAILED, memset_at pt 0 GEC_PT_LEN 0, mk_sym_key g (salt k) (ctr k)).

(** ** Confidentiality only *)

(** [pt] holds the [len] bytes of the input. *)
Definition gec_encrypt_conf (aligned : bool) (k : gec_sym_key_conf) (pt ct : list Z)
    : Z * list Z * gec_sym_key_conf :=
  if UINT32_MAX - nrBlks (Z.of_nat (length pt)) <=? cctr k then (GEC_ERROR_COUNTER_ROLLOVER, ct, k)
  else
    let ctr_buf := _write_word32_be (replicate CTR_IV_LEN 0) (u32 (cctr k)) in
    let '(_, out, ctr_buf, cx) := aes_ctr_crypt _gec_ctr_inc_func aligned pt ctr_buf (cctx k) in
    (GEC_SUCCESS, memcpy_at ct 0 out, mk_sym_key_conf cx (csalt k) (_read_word32_be ctr_buf)).

Definition gec_decrypt_conf (aligned : bool) (k : gec_sym_key_conf) (ct pt : list Z)
    : Z * list Z * gec_sym_key_conf :=
  gec_encrypt_conf aligned k ct pt.

(** ** The words in the buffers *)

(** Lists of bytes with known elements. *)
Ltac solve_bytes :=
  unfold bytes in *; decompose_Forall_hyps; repeat apply Forall_cons_2; try apply Forall_nil_2; try done.

Lemma read_fold l :
  bytes l ->
  foldl (fun c b => u32 (Z.shiftl (Z.lor c b) 8)) 0 l = u32 (Z.shiftl (le_word (rev l)) 8).
Proof.
  induction l as [|b l IH] using rev_ind; intros Hl; [done|].
  apply Forall_app in Hl as [Hl Hb]. rewrite foldl_app, IH, rev_unit by done. cbn [foldl le_word].
  bit_ext i. rewrite !wrap_testbit, !Z.shiftl_spec, !Z.lor_spec by lia.
  destruct (decide (i < 8)); [by rewrite !Z.testbit_neg_r by lia|].
  rewrite wrap_testbit by lia. destruct (decide (i < 32)); [|by rewrite !(bool_decide_eq_false_2 (i < 32)), !andb_false_r by lia].
  rewrite !bool_decide_eq_true_2, !andb_true_r by lia. apply orb_comm.
Qed.

Lemma read_word32_spec a b c d r :
  bytes [a; b; c; d] ->
  _read_word32_be (a :: b :: c :: d :: r) = u32 (Z.shiftl (le_word [d; c; b; a]) 8).
Proof. intros Hb. apply (read_fold [a; b; c; d] Hb). Qed.

Lemma write_word32_spec a b c d r x :
  _write_word32_be (a :: b :: c :: d :: r) x = be_bytes 4 x ++ r.
Proof. done. Qed.

(** The increment shifts the four counter bytes and appends a one. *)
Lemma ctr_inc_shift a b c d r :
  bytes [a; b; c; d] -> _gec_ctr_inc_func (a :: b :: c :: d :: r) = b :: c :: d :: 1 :: r.
Proof.
  intros Hb. unfold _gec_ctr_inc_func. rewrite read_word32_spec, write_word32_spec by done.
  change (b :: c :: d :: 1 :: r) with (rev (take 4 [1; d; c; b; a]) ++ r).
  unfold be_bytes. f_equal. f_equal.
  assert (bytes [1; d; c; b; a]) as H5.
  { assert (is_u8 1) by done. solve_bytes. }
  transitivity (le_bytes 4 (le_word [1; d; c; b; a])).
  2:{ pose proof (le_bytes_le_word _ H5) as He. cbn [length] in He.
      rewrite (le_bytes_app 4 1) in He. rewrite <- He at 2.
      by rewrite take_app_length' by (by rewrite length_le_bytes). }
  rewrite le_bytes_wrap by lia.
  rewrite <- (le_bytes_wrap 4 (le_word _) 32), <- (le_bytes_wrap 4 (_ + 1) 32) by lia. f_equal.
  cbn [le_word]. set (w := Z.lor d _). change (Z.lor 1 (Z.shiftl w 8)) with (Z.lor 1 (Z.shiftl w 8)).
  assert (Z.lor 1 (Z.shiftl w 8) = Z.shiftl w 8 + 1) as ->.
  { rewrite Z.lor_comm, <- Z.add_nocarry_lor; [done|]. bit_ext i. rewrite Z.land_spec, Z.bits_0.
    destruct (decide (i < 8)); [rewrite Z.shiftl_spec_low by lia; done|].
    rewrite (in_range_testbit_high 8 1 i) by (done || lia). apply andb_false_r. }
  unfold wrap. by rewrite Zplus_mod_idemp_l.
Qed.

Lemma block_bytes x : block x -> exists a b c d r, x = a :: b :: c :: d :: r /\ bytes [a; b; c; d] /\ bytes r /\ length r = 12%nat.
Proof.
  intros [Hb Hl]. do 4 (destruct x as [|? x]; [done|]). do 5 eexists. split; [reflexivity|].
  change (bytes ([z; z0; z1; z2] ++ x)) in Hb. apply Forall_app in Hb as [H1 H2].
  split; [exact H1|]. split; [exact H2|]. cbn in Hl. lia.
Qed.

Lemma ctr_inc_block x : block x -> block (_gec_ctr_inc_func x).
Proof.
  intros Hx. apply block_bytes in Hx as (a & b & c & d & r & -> & Hb & Hr & Hl).
  rewrite ctr_inc_shift by done. assert (is_u8 1) by done.
  split; [|cbn; lia]. unfold bytes in *. solve_bytes.
Qed.

(** The increment function of the counter mode does not count: from any
    counter it arrives after four calls at the counter 0x01010101, which it
    maps to itself. *)
Theorem gec_ctr_inc_fixed_point c :
  block c ->
  let fixed := [1; 1; 1; 1] ++ drop 4 c in
  Nat.iter 4 _gec_ctr_inc_func c = fixed /\ _gec_ctr_inc_func fixed = fixed.
Proof.
  intros Hc. apply block_bytes in Hc as (x & y & z & w & r & -> & Hb & Hr & Hl).
  assert (is_u8 1) by done. unfold bytes in Hb. decompose_Forall_hyps. cbn [Nat.iter nat_rect].
  rewrite !ctr_inc_shift by solve_bytes. done.
Qed.

(** ** The confidentiality-only mode *)

(** A key made from the AES key [key], with [p] bytes of the current block
    of key stream used. *)
Definition conf_keyed (key : list Z) (p : nat) (k : gec_sym_key_conf) : Prop :=
  ctr_keyed key (Z.of_nat p) (cctx k) /\ (p <= 16)%nat.

(** The counter block a call starts from. *)
Definition conf_start (k : gec_sym_key_conf) : list Z := be_bytes 4 (u32 (cctr k)) ++ replicate 12 0.

Lemma conf_start_block k : block (conf_start k).
Proof.
  split; [|unfold conf_start; by rewrite length_app, length_be_bytes, length_replicate].
  apply bytes_app; [apply bytes_be_bytes|by apply bytes_replicate].
Qed.

Lemma memcpy_at_full dst src : length src = length dst -> memcpy_at dst 0 src = src.
Proof.
  intros Hl. rewrite memcpy_at_spec by lia. cbn [take app]. rewrite drop_ge by lia. apply app_nil_r.
Qed.

Section conf.
Context (key : list Z) (Hkey : block key).

Lemma cipher_enc p k x :
  conf_keyed key p k -> block x -> aes_encrypt x (cctx k) = Some (Fips.cipher key x) /\ block (Fips.cipher key x).
Proof. intros [Hk _]. by apply (ctr_keyed_cipher key Hkey (Z.of_nat p) (cctx k) x). Qed.

(** What a call does below the limit of the counter. *)
Lemma gec_encrypt_conf_spec aligned k p pt ct :
  conf_keyed key p k -> bytes pt -> length ct = length pt ->
  cctr k < UINT32_MAX - nrBlks (Z.of_nat (length pt)) ->
  let '(c', p') := ctr_end _gec_ctr_inc_func (conf_start k) p (length pt) in
  let k' := mk_sym_key_conf (set_inf_pos (Z.of_nat p') (cctx k)) (csalt k) (_read_word32_be c') in
  gec_encrypt_conf aligned k pt ct =
    (GEC_SUCCESS, ctr_stream _gec_ctr_inc_func (Fips.cipher key) (conf_start k) p pt, k') /\
  conf_keyed key p' k'.
Proof.
  intros [Hk Hp] Hpt Hl Hc. unfold gec_encrypt_conf.
  destruct (Z.leb_spec (UINT32_MAX - nrBlks (Z.of_nat (length pt))) (cctr k)); [lia|].
  change (_write_word32_be (replicate CTR_IV_LEN 0) (u32 (cctr k))) with (conf_start k).
  pose proof (aes_ctr_crypt_spec key Hkey _gec_ctr_inc_func aligned pt (conf_start k) p (cctx k)
    ctr_inc_block Hk Hp Hpt (conf_start_block k)) as H1.
  destruct (ctr_end _gec_ctr_inc_func (conf_start k) p (length pt)) as [c' p'].
  destruct H1 as (-> & Hk' & Hc' & Hp'). split; [|split; [exact Hk'|exact Hp']].
  f_equal. f_equal. apply memcpy_at_full.
  rewrite (ctr_stream_length _ (cctx k) _ (fun x => cipher_enc p k x (conj Hk Hp)) ctr_inc_block); [done|].
  apply conf_start_block.
Qed.

Lemma ctr_stream_involutive k p q x :
  conf_keyed key q k ->
  let s := ctr_stream _gec_ctr_inc_func (Fips.cipher key) (conf_start k) p in s (s x) = x.
Proof.
  intros Hk s. unfold s, ctr_stream. pose proof (fun x => cipher_enc q k x Hk) as HE.
  pose proof (ctr_stream_length _ (cctx k) _ HE ctr_inc_block (conf_start k) p x (conf_start_block k)) as Hl.
  unfold ctr_stream in Hl. rewrite Hl. apply xor_bytes_cancel.
  rewrite length_drop, (key_stream_length _ (cctx k) _ HE ctr_inc_block) by apply conf_start_block. lia.
Qed.
End conf.

(** Below the limit of the counter. *)
Lemma conf_transport al1 al2 key k p pt ct buf :
  block key -> conf_keyed key p k -> bytes pt -> length ct = length pt -> length buf = length pt ->
  cctr k < UINT32_MAX - nrBlks (Z.of_nat (length pt)) ->
  exists c k', gec_encrypt_conf al1 k pt ct = (GEC_SUCCESS, c, k') /\
    bytes c /\ length c = length pt /\
    gec_decrypt_conf al2 k c buf = (GEC_SUCCESS, pt, k') /\ exists p', conf_keyed key p' k'.
Proof.
  intros Hkey Hk Hpt Hl Hb Hc.
  pose proof (gec_encrypt_conf_spec key Hkey al1 k p pt ct Hk Hpt Hl Hc) as H1.
  set (s := ctr_stream _gec_ctr_inc_func (Fips.cipher key) (conf_start k) p) in *.
  assert (length (s pt) = length pt) as Hs.
  { apply (ctr_stream_length _ (cctx k) _ (fun x => cipher_enc key Hkey p k x Hk) ctr_inc_block).
    apply conf_start_block. }
  assert (bytes (s pt)) as Hsb.
  { apply bytes_xor; [done|]. apply bytes_drop.
    apply (key_stream_bytes _ (cctx k) _ (fun x => cipher_enc key Hkey p k x Hk) ctr_inc_block).
    apply conf_start_block. }
  pose proof (gec_encrypt_conf_spec key Hkey al2 k p (s pt) buf Hk Hsb) as H2.
  rewrite Hs in H2. specialize (H2 Hb Hc).
  destruct (ctr_end _gec_ctr_inc_func (conf_start k) p (length pt)) as [c' p'].
  destruct H1 as [-> Hk']. destruct H2 as [H2 _]. unfold gec_decrypt_conf.
  eexists _, _. split; [reflexivity|]. split; [exact Hsb|]. split; [exact Hs|]. split; [|by exists p'].
  rewrite H2. f_equal. f_equal. by apply (ctr_stream_involutive key Hkey k p p).
Qed.

(** In the confidentiality mode a peer whose key is in the same state
    undoes the encryption of a message of any length, and both keys move to
    the same next state; at the limit of the counter both refuse and change
    nothing. *)
Theorem gec_conf_roundtrip al1 al2 key k p pt ct buf :
  block key -> conf_keyed key p k -> bytes pt -> length ct = length pt -> length buf = length pt ->
  let '(r1, ct', k1) := gec_encrypt_conf al1 k pt ct in
  let '(r2, pt', k2) := gec_decrypt_conf al2 k ct' buf in
  if UINT32_MAX - nrBlks (Z.of_nat (length pt)) <=? cctr k
  then r1 = GEC_ERROR_COUNTER_ROLLOVER /\ r2 = GEC_ERROR_COUNTER_ROLLOVER /\
       ct' = ct /\ pt' = buf /\ k1 = k /\ k2 = k
  else r1 = GEC_SUCCESS /\ r2 = GEC_SUCCESS /\ pt' = pt /\ k1 = k2 /\ exists p', conf_keyed key p' k1.
Proof.
  intros Hkey Hk Hpt Hl Hb.
  destruct (Z.leb_spec (UINT32_MAX - nrBlks (Z.of_nat (length pt))) (cctr k)) as [Hc|Hc].
  { unfold gec_decrypt_conf, gec_encrypt_conf. rewrite (proj2 (Z.leb_le _ _)) by done.
    rewrite Hl, (proj2 (Z.leb_le _ _)) by done. repeat split. }
  destruct (conf_transport al1 al2 key k p pt ct buf) as (c & k' & -> & _ & _ & -> & Hk'); try done.
Qed.

Lemma iter_fixed {A} (f : A -> A) x n : f x = x -> Nat.iter n f x = x.
Proof. intros Hf. induction n as [|n IH]; [done|]. by rewrite Nat.iter_succ, IH. Qed.

(** The counters of the successive calls, from the fourth on. *)
Lemma ctr_inc_iter c n : block c -> (4 <= n)%nat -> Nat.iter n _gec_ctr_inc_func c = [1; 1; 1; 1] ++ drop 4 c.
Proof.
  intros Hc Hn. apply block_bytes in Hc as (x & y & z & w & r & -> & Hb & Hr & Hl).
  assert (is_u8 1) by done. unfold bytes in Hb. decompose_Forall_hyps.
  replace n with (n - 4 + 4)%nat by lia. rewrite Nat.iter_add.
  change (Nat.iter 4 ?f ?c) with (f (f (f (f c)))). rewrite !ctr_inc_shift by solve_bytes.
  apply iter_fixed. cbn [app drop]. by rewrite ctr_inc_shift by solve_bytes.
Qed.

(** From the fifth block of a message on, the confidentiality mode adds
    the same sixteen bytes of key stream to every block, for any counter and
    salt: they depend on the AES key alone. *)
Theorem gec_encrypt_conf_repeats_key_stream aligned key k pt ct i :
  block key -> conf_keyed key 0 k -> bytes pt -> length ct = length pt ->
  cctr k < UINT32_MAX - nrBlks (Z.of_nat (length pt)) ->
  (4 <= i)%nat -> (16 * i + 16 <= length pt)%nat ->
  let '(_, ct', _) := gec_encrypt_conf aligned k pt ct in
  xor_bytes (slice (16 * i) 16 ct') (slice (16 * i) 16 pt) =
  Fips.cipher key ([1; 1; 1; 1] ++ replicate 12 0).
Proof.
  intros Hkey Hk Hpt Hl Hc Hi Hn.
  pose proof (gec_encrypt_conf_spec key Hkey aligned k 0 pt ct Hk Hpt Hl Hc) as H1.
  destruct (ctr_end _gec_ctr_inc_func (conf_start k) 0 (length pt)) as [c' p'].
  destruct H1 as [-> _]. pose proof (fun x => cipher_enc key Hkey 0 k x Hk) as HE.
  assert (forall p x, length (ctr_stream _gec_ctr_inc_func (Fips.cipher key) (conf_start k) p x) = length x) as Hlen.
  { intros p x. apply (ctr_stream_length _ (cctx k) _ HE ctr_inc_block), conf_start_block. }
  rewrite (split_at (16 * i) 16 pt) at 1.
  pose proof (length_take pt (16 * i)) as Ht. rewrite Nat.min_l in Ht by lia.
  pose proof (length_slice (16 * i) 16 pt ltac:(lia)) as Hs.
  rewrite !(ctr_stream_app _ (cctx k) _ HE ctr_inc_block) by apply conf_start_block.
  unfold slice at 1. rewrite drop_app_length' by (by rewrite Hlen).
  rewrite take_app_length' by (by rewrite Hlen).
  replace (0 + length (take (16 * i) pt))%nat with (16 * i + 0)%nat by lia.
  rewrite (ctr_stream_shift _ (cctx k) _ HE ctr_inc_block) by apply conf_start_block.
  rewrite ctr_inc_iter by (apply conf_start_block || done).
  change (drop 4 (conf_start k)) with (drop (length (be_bytes 4 (u32 (cctr k)))) (conf_start k)).
  unfold conf_start. rewrite drop_app_length.
  set (c := [1; 1; 1; 1] ++ replicate 12 0). assert (block c) as Hcb by decide_true.
  rewrite <- (ctr_stream_enough _ (cctx k) _ HE ctr_inc_block 1) by (done || lia).
  cbn [key_stream]. rewrite app_nil_r, drop_0, (xor_bytes_comm (slice _ _ pt)).
  apply xor_bytes_cancel. rewrite Hs. destruct (HE c Hcb) as [_ [_ ->]]. lia.
Qed.

(** ** Authenticated boxes *)

(** A key that holds the schedule, the table and the salt of a raw key. *)
Record gec_keyed (key s : list Z) (k : gec_sym_key) : Prop := {
  gec_gcm : keyed key (gctx k);
  gec_salt : salt k = s;
  gec_ctr : 0 <= ctr k;
}.

Definition is_salt (s : list Z) : Prop := bytes s /\ length s = GEC_SALT_LEN.

(** The initialisation vector and the box of SP 800-38D for a counter. *)
Definition box_iv (s : list Z) (c : Z) : list Z := be_bytes 4 (u32 c) ++ s.
Definition box (key s : list Z) (c : Z) (pt : list Z) : list Z :=
  let E := Fips.cipher key in
  let C := Sp800_38D.ciphertext E (box_iv s c) pt in
  be_bytes 4 (u32 c) ++ C ++ Sp800_38D.tag E GEC_TAG_LEN (box_iv s c) [] C.

Lemma memcpy_at_mid a b b' r n :
  length a = n -> length b' = length b -> memcpy_at (a ++ b ++ r) n b' = a ++ b' ++ r.
Proof.
  intros <- Hl. rewrite memcpy_at_spec by (rewrite !length_app; lia).
  rewrite take_app_length. f_equal. f_equal. rewrite <- drop_drop, drop_app_length, Hl. apply drop_app_length.
Qed.

Lemma slice_mid a b r n m : length a = n -> length b = m -> slice n m (a ++ b ++ r) = b.
Proof. intros <- <-. unfold slice. rewrite drop_app_length. apply take_app_length. Qed.

Lemma length_replicate_bytes n : bytes (replicate n 0).
Proof. by apply bytes_replicate. Qed.

Section boxes.
Context (key s : list Z) (Hkey : block key) (Hs : is_salt s).
#[local] Opaque Fips.cipher Nist.mul.

Lemma box_iv_spec c : bytes (box_iv s c) /\ length (box_iv s c) = 12%nat.
Proof.
  unfold box_iv. split; [by apply bytes_app; [apply bytes_be_bytes|apply Hs]|].
  rewrite length_app, length_be_bytes, (proj2 Hs). done.
Qed.

Lemma box_J0 c : block (Sp800_38D.J0 (Fips.cipher key) (box_iv s c)).
Proof.
  destruct (box_iv_spec c) as [Hb Hl]. unfold Sp800_38D.J0. rewrite decide_True by done.
  split; [apply bytes_app; [done|decide_true]|rewrite length_app, Hl; done].
Qed.

Lemma box_tag_length c x : length (Sp800_38D.tag (Fips.cipher key) GEC_TAG_LEN (box_iv s c) [] x) = GEC_TAG_LEN.
Proof.
  unfold Sp800_38D.tag. rewrite length_take, (GCTR_length _ (E_block key Hkey)), length_be_bytes;
    [done|apply box_J0|rewrite length_be_bytes; lia].
Qed.


Lemma small_box pt : bytes pt -> length pt = GEC_PT_LEN -> small pt.
Proof. intros Hb Hl. split; [done|]. by rewrite Hl. Qed.

(** The buffer before and after encryption. *)
Lemma box_layout c pt : length pt = GEC_PT_LEN -> length (box key s c pt) = GEC_CT_LEN.
Proof.
  intros Hp. unfold box. rewrite !length_app, length_be_bytes, box_tag_length.
  rewrite (ciphertext_length key Hkey) by apply box_J0. by rewrite Hp.
Qed.

Lemma write_start ct c :
  (4 <= length ct)%nat -> _write_word32_be ct c = be_bytes 4 c ++ drop 4 ct.
Proof. intros Hl. do 4 (destruct ct as [|? ct]; [cbn in Hl; lia|]). by rewrite write_word32_spec. Qed.

Lemma box_iv_made c : memcpy_at (_write_word32_be (replicate GCM_IV_LEN 0) (u32 c)) 4 s = box_iv s c.
Proof.
  pose proof (memcpy_at_mid (be_bytes 4 (u32 c)) (replicate 8 0) s [] 4) as Hm.
  rewrite !app_nil_r in Hm. rewrite write_start by (rewrite length_replicate; unfold GCM_IV_LEN; lia).
  apply Hm; [apply length_be_bytes|apply Hs].
Qed.

Lemma gec_encrypt_spec at_ k pt ct :
  gec_keyed key s k -> bytes pt -> length pt = GEC_PT_LEN -> length ct = GEC_CT_LEN ->
  ctr k < UINT32_MAX - 15 ->
  exists k',
    gec_encrypt at_ k pt ct = (GEC_SUCCESS, box key s (ctr k + 1) pt, k') /\
    gec_keyed key s k' /\ ctr k' = ctr k + 1.
Proof.
  intros Hk Hp Hl Hc Hctr. unfold gec_encrypt. change (nrBlks (Z.of_nat GEC_PT_LEN)) with 15.
  destruct (Z.leb_spec (UINT32_MAX - 15) (ctr k)); [lia|].
  pose proof (gec_ctr _ _ _ Hk) as H0. set (c := ctr k + 1).
  assert (u64 c = c) as ->. { apply wrap_id. unfold in_range, UINT32_MAX in *. lia. }
  rewrite (gec_salt _ _ _ Hk), (take_ge s) by (rewrite (proj2 Hs); unfold GEC_SALT_LEN; lia).
  rewrite box_iv_made. change GEC_ID_LEN with 0%nat. rewrite take_0, drop_0, app_nil_l, write_start by (rewrite Hc; unfold GEC_CT_LEN; cbn; lia).
  rewrite (take_ge pt) by lia. change (0 + GEC_CTR_LEN)%nat with 4%nat.
  pose proof (take_drop 64 (drop 4 ct)) as Hd.
  assert (length (take 64 (drop 4 ct)) = 64%nat) as Hm by (rewrite length_take, length_drop, Hc; done).
  assert (length (drop 64 (drop 4 ct)) = 12%nat) as Hr by (rewrite !length_drop, Hc; done).
  revert Hd Hm Hr. generalize (take 64 (drop 4 ct)) as mid, (drop 64 (drop 4 ct)) as rest. intros mid rest <- Hm Hr.
  rewrite memcpy_at_mid by (rewrite ?Hl, ?Hm; done || apply length_be_bytes).
  rewrite slice_mid by (rewrite ?Hl; done || apply length_be_bytes).
  destruct (box_iv_spec c) as [Hvb Hvl].
  destruct (encrypt_message_spec key Hkey (adr_h at_) (adr_t at_) (adr_e at_) GEC_TAG_LEN (box_iv s c) [] pt (gctx k)
    (gec_gcm _ _ _ Hk) Hvb Hvl small_nil (small_box pt Hp Hl)) as (g & -> & Hg).
  change (RETURN_GOOD =? RETURN_GOOD) with true. cbv iota.
  pose proof (ciphertext_length key Hkey (box_iv s c) pt (box_J0 c)) as Hcl.
  rewrite memcpy_at_mid by (rewrite ?Hcl; done || apply length_be_bytes).
  exists (mk_sym_key g s c). split; [|split; [split; [exact Hg|reflexivity|cbn; lia]|reflexivity]].
  f_equal. f_equal. unfold box. rewrite (app_assoc _ _ rest), <- (app_nil_r rest).
  rewrite memcpy_at_mid; [by rewrite app_nil_r, <- app_assoc| |].
  - rewrite length_app, length_be_bytes, Hcl, Hl. done.
  - rewrite box_tag_length, Hr. done.
Qed.

(** The verdict on any 80 bytes, and what is left in the buffers. *)
Lemma gec_decrypt_spec at_ k ct pt :
  gec_keyed key s k -> bytes ct -> length ct = GEC_CT_LEN -> length pt = GEC_PT_LEN ->
  let E := Fips.cipher key in
  let iv := take 4 ct ++ s in
  let C := slice 4 64 ct in
  exists g, keyed key g /\
    gec_decrypt at_ k ct pt =
      if bool_decide (drop 68 ct = Sp800_38D.tag E GEC_TAG_LEN iv [] C)
      then (GEC_SUCCESS, Sp800_38D.ciphertext E iv C, mk_sym_key g s (_read_word32_be ct))
      else (GEC_ERROR_DECRYPT_AUTH_FAILED, replicate GEC_PT_LEN 0, mk_sym_key g s (ctr k)).
Proof.
  intros Hk Hb Hc Hl E iv C. unfold gec_decrypt.
  change (GEC_CT_LEN - GEC_TAG_LEN)%nat with 68%nat. change (GEC_ID_LEN + GEC_CTR_LEN)%nat with 4%nat.
  rewrite (gec_salt _ _ _ Hk), (take_ge s) by (rewrite (proj2 Hs); unfold GEC_SALT_LEN; lia).
  change (drop GEC_ID_LEN ct) with ct.
  assert (slice 68 GEC_TAG_LEN ct = drop 68 ct) as ->.
  { apply take_ge. rewrite length_drop, Hc. done. }
  assert (length (drop 68 ct) = GEC_TAG_LEN) as Htl by (rewrite length_drop, Hc; done).
  assert (length (take 4 ct) = 4%nat) as H4 by (rewrite length_take, Hc; done).
  assert (memcpy_at (memcpy_at (replicate GCM_IV_LEN 0) 0 (slice GEC_ID_LEN GEC_CTR_LEN ct)) GEC_CTR_LEN s = iv) as ->.
  { change (slice GEC_ID_LEN GEC_CTR_LEN ct) with (take 4 ct).
    rewrite memcpy_at_join by (by rewrite H4). unfold iv. apply memcpy_at_full.
    rewrite length_app, H4, (proj2 Hs). done. }
  assert (length C = 64%nat) as HC by (apply length_slice; rewrite Hc; cbn; lia).
  change (slice 4 GEC_PT_LEN ct) with C.
  rewrite (memcpy_at_full pt C) by (rewrite HC, Hl; done). rewrite (take_ge C) by (rewrite HC; unfold GEC_PT_LEN; lia).
  assert (bytes iv /\ length iv = 12%nat) as [Hvb Hvl].
  { split; [by apply bytes_app; [apply bytes_take|apply Hs]|]. unfold iv. rewrite length_app, H4, (proj2 Hs). done. }
  assert (small C) as HsC by (apply small_box; [by apply bytes_slice|done]).
  destruct (decrypt_message_spec key Hkey (adr_h at_) (adr_t at_) (adr_e at_) iv [] C (drop 68 ct) (gctx k)
    (gec_gcm _ _ _ Hk) Hvb Hvl small_nil HsC) as (g & -> & Hg).
  exists g. split; [exact Hg|]. rewrite Htl. fold E.
  assert (length (Sp800_38D.ciphertext E iv C) = 64%nat) as Hp.
  { rewrite (ciphertext_length key Hkey), HC; [done|]. apply (init_message_12 key (gctx k) iv (gec_gcm _ _ _ Hk) Hvb Hvl). }
  rewrite memcpy_at_full by (by rewrite Hp, HC).
  case_bool_decide; [reflexivity|].
  change (RETURN_GOOD =? RETURN_ERROR) with false. cbv iota. f_equal. f_equal.
  apply memcpy_at_full. by rewrite Hp.
Qed.

Lemma read_box c C : _read_word32_be (be_bytes 4 (u32 c) ++ C) = u32 (256 * c).
Proof.
  unfold be_bytes. cbn [le_bytes rev app]. set (x := u32 c).
  rewrite read_word32_spec by (repeat apply Forall_cons_2; auto using Forall_nil_2 with words).
  change (rev [?a; ?b; ?c; ?d]) with [d; c; b; a].
  change ([_; _; _; _]) with (le_bytes 4 x). rewrite le_word_le_bytes. change (8 * Z.of_nat 4) with 32.
  unfold x. rewrite wrap_idemp, Z.shiftl_mul_pow2 by done. unfold wrap. change (2 ^ 8) with 256.
  by rewrite Z.mul_mod_idemp_l, Z.mul_comm.
Qed.

Lemma box_bytes c pt : bytes pt -> bytes (box key s c pt).
Proof.
  intros Hp. unfold box. apply bytes_app; [apply bytes_be_bytes|]. apply bytes_app.
  - apply GCTR_bytes; [exact (E_block key Hkey)| |done]. by apply inc32_block, box_J0.
  - apply bytes_take, GCTR_bytes; [exact (E_block key Hkey)|apply box_J0|apply bytes_be_bytes].
Qed.

(** A box holds its counter, a ciphertext of its plaintext and the tag of
    that ciphertext. *)
Lemma box_opens c pt : length pt = GEC_PT_LEN ->
  let E := Fips.cipher key in
  let ct := box key s c pt in
  let iv := take 4 ct ++ s in
  drop 68 ct = Sp800_38D.tag E GEC_TAG_LEN iv [] (slice 4 64 ct) /\ Sp800_38D.ciphertext E iv (slice 4 64 ct) = pt /\ _read_word32_be ct = u32 (256 * c).
Proof.
  intros Hl. cbv zeta.
  pose proof (ciphertext_length key Hkey (box_iv s c) pt (box_J0 c)) as Hcl. unfold box. cbn zeta.
  set (E := Fips.cipher key) in *. set (C := Sp800_38D.ciphertext E (box_iv s c) pt) in *.
  rewrite take_app_length' by (by rewrite length_be_bytes). fold (box_iv s c).
  rewrite slice_mid by (apply length_be_bytes || by rewrite Hcl, Hl).
  rewrite (app_assoc _ C), drop_app_length' by (rewrite length_app, length_be_bytes, Hcl, Hl; done).
  split; [reflexivity|]. rewrite <- app_assoc, read_box. split; [|reflexivity].
  unfold C. apply (ciphertext_involutive key Hkey), box_J0.
Qed.

(** A box opens under any key structure with the same key and salt. *)
Lemma gec_decrypt_box at_ k c pt buf :
  gec_keyed key s k -> bytes pt -> length pt = GEC_PT_LEN -> length buf = GEC_PT_LEN ->
  exists g, keyed key g /\   gec_decrypt at_ k (box key s c pt) buf = (GEC_SUCCESS, pt, mk_sym_key g s (u32 (256 * c))).
Proof.
  intros Hk Hp Hl Hb.
  destruct (gec_decrypt_spec at_ k (box key s c pt) buf Hk (box_bytes c pt Hp) (box_layout c pt Hl) Hb) as (g & Hg & ->).
  destruct (box_opens c pt Hl) as (Ht & Hd & Hr).
  exists g. split; [exact Hg|]. rewrite bool_decide_eq_true_2 by exact Ht. by rewrite Hd, Hr.
Qed.
End boxes.

(** *** Keys made from raw key material *)

(** The memory of a key before it is initialised: arrays of their sizes. *)
Definition wf_sym_key (k : gec_sym_key) : Prop := wf_ctx (gctx k).

Lemma init_auth_keyed k raw :
  wf_sym_key k -> bytes raw -> (GEC_RAW_KEY_LEN <= length raw)%nat ->
  let k' := gec_init_sym_key_conf_auth k raw in
  gec_keyed (take 16 raw) (slice 16 8 raw) k' /\ ctr k' = 0 /\
  block (take 16 raw) /\ is_salt (slice 16 8 raw).
Proof.
  intros Hw Hb Hl. unfold GEC_RAW_KEY_LEN, GEC_SALT_LEN, GEC_SYM_CIPHER_KEY_LEN in Hl.
  assert (block (take 16 raw)) as Hk by (split; [by apply bytes_take|rewrite length_take; lia]).
  unfold gec_init_sym_key_conf_auth, GEC_SYM_CIPHER_KEY_LEN.
  pose proof (gcm_init_and_key_keyed (take 16 raw) Hk (gctx k) Hw) as Hg.
  destruct (gcm_init_and_key (take 16 raw) (gctx k)) as [r g]. destruct Hg as [_ Hg].
  split; [by split|]. split; [done|]. split; [done|].
  split; [by apply bytes_slice|]. apply length_slice. unfold GEC_SALT_LEN. lia.
Qed.

(** The two ends of a channel: key structures made from the same raw key,
    at any counters. *)
Definition paired (k1 k2 : gec_sym_key) : Prop :=
  exists key s, block key /\ is_salt s /\ gec_keyed key s k1 /\ gec_keyed key s k2.

Lemma paired_sym k1 k2 : paired k1 k2 -> paired k2 k1.
Proof. intros (key & s & Hk & Hs & H1 & H2). by exists key, s. Qed.

Lemma paired_of key s k1 k2 :
  block key -> is_salt s -> gec_keyed key s k1 -> gec_keyed key s k2 -> paired k1 k2.
Proof. intros. by exists key, s. Qed.

Lemma channels_paired a1 a2 b1 b2 km :
  wf_sym_key a1 -> wf_sym_key a2 -> wf_sym_key b1 -> wf_sym_key b2 ->
  bytes km -> length km = (2 * GEC_RAW_KEY_LEN)%nat ->
  let '(ka1, ka2) := gec_key_material_to_2_channels a1 a2 km in
  let '(kb1, kb2) := gec_key_material_to_2_channels b1 b2 km in
  paired ka1 kb1 /\ paired ka2 kb2 /\ map ctr [ka1; ka2; kb1; kb2] = [0; 0; 0; 0].
Proof.
  intros Ha1 Ha2 Hb1 Hb2 Hb Hl. unfold gec_key_material_to_2_channels.
  assert (bytes (drop GEC_RAW_KEY_LEN km)) as Hd by by apply bytes_drop.
  assert (GEC_RAW_KEY_LEN <= length km)%nat as Hl1 by lia.
  assert (GEC_RAW_KEY_LEN <= length (drop GEC_RAW_KEY_LEN km))%nat as Hl2 by (rewrite length_drop; lia).
  destruct (init_auth_keyed a1 km Ha1 Hb Hl1) as (Ka1 & Ca1 & Bk & Bs).
  destruct (init_auth_keyed b1 km Hb1 Hb Hl1) as (Kb1 & Cb1 & _ & _).
  destruct (init_auth_keyed a2 _ Ha2 Hd Hl2) as (Ka2 & Ca2 & Bk2 & Bs2).
  destruct (init_auth_keyed b2 _ Hb2 Hd Hl2) as (Kb2 & Cb2 & _ & _).
  split; [exact (paired_of _ _ _ _ Bk Bs Ka1 Kb1)|]. split; [exact (paired_of _ _ _ _ Bk2 Bs2 Ka2 Kb2)|].
  cbn [map]. by rewrite Ca1, Ca2, Cb1, Cb2.
Qed.

(** Two parties that expand the same 48 bytes of key material into two
    channels hold the two ends of each channel, with their counters at 0. *)
Theorem gec_channels_agree a1 a2 b1 b2 km :
  wf_sym_key a1 -> wf_sym_key a2 -> wf_sym_key b1 -> wf_sym_key b2 ->
  bytes km -> length km = (2 * GEC_RAW_KEY_LEN)%nat ->
  let '(ka1, ka2) := gec_key_material_to_2_channels a1 a2 km in
  let '(kb1, kb2) := gec_key_material_to_2_channels b1 b2 km in
  paired ka1 kb1 /\ paired ka2 kb2 /\ map ctr [ka1; ka2; kb1; kb2] = [0; 0; 0; 0].
Proof. exact (channels_paired a1 a2 b1 b2 km). Qed.

Lemma gec_rollover at_ k pt ct :
  UINT32_MAX - 15 <= ctr k -> gec_encrypt at_ k pt ct = (GEC_ERROR_COUNTER_ROLLOVER, ct, k).
Proof.
  intros Hc. unfold gec_encrypt. change (nrBlks (Z.of_nat GEC_PT_LEN)) with 15.
  by rewrite (proj2 (Z.leb_le _ _)) by done.
Qed.

(** C10. What one end of a channel seals the other end opens, at any counter of
    the receiver and any alignment of the buffers, and they remain the ends
    of the channel; the sender counts one up, the receiver's counter becomes
    the sender's shifted by eight bits.  At the limit of the counter nothing
    is sent and nothing changes. *)
Theorem gec_box_roundtrip at1 at2 k1 k2 pt ct buf :
  paired k1 k2 -> bytes pt -> length pt = GEC_PT_LEN -> length ct = GEC_CT_LEN -> length buf = GEC_PT_LEN ->
  let '(r1, ct', k1') := gec_encrypt at1 k1 pt ct in
  if bool_decide (ctr k1 < UINT32_MAX - 15) then
    let '(r2, pt', k2') := gec_decrypt at2 k2 ct' buf in
    r1 = GEC_SUCCESS /\ r2 = GEC_SUCCESS /\ pt' = pt /\ length ct' = GEC_CT_LEN /\
    paired k1' k2' /\ ctr k1' = ctr k1 + 1 /\ ctr k2' = u32 (256 * (ctr k1 + 1))
  else (r1, ct', k1') = (GEC_ERROR_COUNTER_ROLLOVER, ct, k1).
Proof.
  intros (key & s & Hkey & Hs & H1 & H2) Hp Hl Hc Hb. case_bool_decide as Hctr.
  2:{ rewrite gec_rollover by lia. done. }
  destruct (gec_encrypt_spec key s Hkey Hs at1 k1 pt ct H1 Hp Hl Hc Hctr) as (k1' & -> & H1' & Hc1).
  destruct (gec_decrypt_box key s Hkey Hs at2 k2 (ctr k1 + 1) pt buf H2 Hp Hl Hb) as (g & Hg & ->).
  split; [done|]. split; [done|]. split; [done|]. split; [exact (box_layout key s Hkey Hs _ pt Hl)|].
  split; [|by split]. apply (paired_of key s); [done..|].
  split; [exact Hg|done|]. cbn [ctr]. by apply wrap_range.
Qed.

(** C34. Decryption of any 80 bytes returns GEC_SUCCESS exactly when the last 12
    are the tag of SP 800-38D for the others; otherwise it returns
    GEC_ERROR_DECRYPT_AUTH_FAILED, the caller's buffer holds 64 zero bytes
    and the counter is unchanged.  The key stays usable. *)
Theorem gec_decrypt_verdict at_ key s k ct buf :
  block key -> is_salt s -> gec_keyed key s k -> bytes ct -> length ct = GEC_CT_LEN ->
  length buf = GEC_PT_LEN ->
  let E := Fips.cipher key in
  let iv := take 4 ct ++ s in
  let authentic := bool_decide (drop 68 ct = Sp800_38D.tag E GEC_TAG_LEN iv [] (slice 4 64 ct)) in
  let '(r, pt', k') := gec_decrypt at_ k ct buf in
  r = (if authentic then GEC_SUCCESS else GEC_ERROR_DECRYPT_AUTH_FAILED) /\
  (if authentic then Sp800_38D.ciphertext E iv pt' = slice 4 64 ct
   else pt' = replicate GEC_PT_LEN 0 /\ ctr k' = ctr k) /\
  gec_keyed key s k'.
Proof.
  intros Hkey Hs Hk Hb Hl Hbuf E iv authentic.
  destruct (gec_decrypt_spec key s Hkey Hs at_ k ct buf Hk Hb Hl Hbuf) as (g & Hg & ->). fold E iv authentic.
  assert (bytes iv /\ length iv = 12%nat) as [Hvb Hvl].
  { split; [by apply bytes_app; [apply bytes_take|apply Hs]|].
    unfold iv. rewrite length_app, length_take, (proj2 Hs), Hl. done. }
  destruct authentic.
  - split; [done|]. split.
    + apply (ciphertext_involutive key Hkey). apply (init_message_12 key (gctx k) iv (gec_gcm _ _ _ Hk) Hvb Hvl).
    + split; [exact Hg|done|]. by apply (wrap_range 32).
  - split; [done|]. split; [done|]. split; [exact Hg|done|exact (gec_ctr _ _ _ Hk)].
Qed.

(** A replayed box is accepted: decrypting the same 80 bytes again
    succeeds again, for any buffers, because the comparison of the counters is
    commented out and the stored counter is not compared to anything. *)
Theorem gec_decrypt_accepts_replay at1 at2 at3 k1 k2 pt ct b1 b2 :
  paired k1 k2 -> bytes pt -> length pt = GEC_PT_LEN -> length ct = GEC_CT_LEN ->
  length b1 = GEC_PT_LEN -> length b2 = GEC_PT_LEN -> ctr k1 < UINT32_MAX - 15 ->
  let '(_, c, _) := gec_encrypt at1 k1 pt ct in
  let '(r1, p1, k2') := gec_decrypt at2 k2 c b1 in
  let '(r2, p2, k2'') := gec_decrypt at3 k2' c b2 in
  (r1, p1) = (GEC_SUCCESS, pt) /\ (r2, p2) = (GEC_SUCCESS, pt) /\ ctr k2'' = ctr k2'.
Proof.
  intros (key & s & Hkey & Hs & H1 & H2) Hp Hl Hc Hb1 Hb2 Hctr.
  destruct (gec_encrypt_spec key s Hkey Hs at1 k1 pt ct H1 Hp Hl Hc Hctr) as (k1' & -> & _).
  destruct (gec_decrypt_box key s Hkey Hs at2 k2 (ctr k1 + 1) pt b1 H2 Hp Hl Hb1) as (g & Hg & ->).
  destruct (gec_decrypt_box key s Hkey Hs at3 (mk_sym_key g s (u32 (256 * (ctr k1 + 1)))) (ctr k1 + 1) pt b2)
    as (g' & Hg' & ->); [|done..|done].
  split; [exact Hg|done|]. by apply (wrap_range 32).
Qed.

(** ** Sessions *)

(** The calls of one sender, one after the other, each with the buffer [ct]. *)
Fixpoint gec_encrypt_all (at_ : places) (k : gec_sym_key) (pts : list (list Z)) (ct : list Z)
    : list (Z * list Z) * gec_sym_key :=
  match pts with
  | [] => ([], k)
  | pt :: pts =>
      let '(r, c, k) := gec_encrypt at_ k pt ct in
      let '(rs, k) := gec_encrypt_all at_ k pts ct in ((r, c) :: rs, k)
  end.

(** The boxes of the calls that succeeded. *)
Definition sent (rs : list (Z * list Z)) : list (list Z) :=
  map snd (filter (fun rc => rc.1 = GEC_SUCCESS) rs).

Definition is_pt (pt : list Z) : Prop := bytes pt /\ length pt = GEC_PT_LEN.

Lemma gec_encrypt_all_spec at_ key s ct pts :
  block key -> is_salt s -> length ct = GEC_CT_LEN -> Forall is_pt pts ->
  forall k, gec_keyed key s k ->
  let n := Z.min (Z.of_nat (length pts)) (Z.max 0 (UINT32_MAX - 15 - ctr k)) in
  map (take 4) (sent (gec_encrypt_all at_ k pts ct).1) = map (be_bytes 4) (seqZ (ctr k + 1) n).
Proof.
  intros Hkey Hs Hc. induction 1 as [|pt pts [Hp Hl] _ IH]; intros k Hk n.
  { by replace n with 0 by (cbn [length] in n; lia). }
  cbn [gec_encrypt_all]. destruct (Z.leb_spec (UINT32_MAX - 15) (ctr k)) as [Hr|Hr].
  - rewrite gec_rollover by done. specialize (IH k Hk). cbn zeta in IH.
    destruct (gec_encrypt_all at_ k pts ct) as [rs k']. cbn [fst] in *.
    unfold sent. rewrite filter_cons_False by done. unfold sent in IH. rewrite IH.
    unfold n. rewrite !Z.max_l, !Z.min_r by lia. done.
  - destruct (gec_encrypt_spec key s Hkey Hs at_ k pt ct Hk Hp Hl Hc Hr) as (k1 & -> & Hk1 & Hc1).
    specialize (IH k1 Hk1). cbn zeta in IH. destruct (gec_encrypt_all at_ k1 pts ct) as [rs k']. cbn [fst] in *.
    unfold sent. rewrite filter_cons_True by done. cbn [map snd]. fold (sent rs). rewrite IH, Hc1.
    unfold n. rewrite (seqZ_cons (ctr k + 1)) by (cbn [length]; lia). cbn [map]. f_equal.
    + unfold box. rewrite take_app_length' by (by rewrite length_be_bytes). f_equal.
      apply wrap_id. pose proof (gec_ctr _ _ _ Hk). unfold in_range, UINT32_MAX in *. lia.
    + f_equal. f_equal. cbn [length]. lia.
Qed.

Lemma be_bytes_inj n x y : in_range (8 * Z.of_nat n) x -> in_range (8 * Z.of_nat n) y ->
  be_bytes n x = be_bytes n y -> x = y.
Proof.
  intros Hx Hy H. apply rev_inj in H. apply (f_equal le_word) in H.
  rewrite !le_word_le_bytes, !wrap_id in H by done. done.
Qed.

(** However many messages one end of a channel seals, no two of the boxes
    it sends carry the same counter, so that no initialisation vector is
    used twice; it seals exactly until the limit of the counter. *)
Theorem gec_nonces_distinct at_ key s k pts ct :
  block key -> is_salt s -> gec_keyed key s k -> Forall is_pt pts -> length ct = GEC_CT_LEN ->
  let boxes := sent (gec_encrypt_all at_ k pts ct).1 in
  NoDup (map (take 4) boxes) /\
  Z.of_nat (length boxes) = Z.min (Z.of_nat (length pts)) (Z.max 0 (UINT32_MAX - 15 - ctr k)).
Proof.
  intros Hkey Hs Hk Hp Hc boxes.
  pose proof (gec_encrypt_all_spec at_ key s ct pts Hkey Hs Hc Hp k Hk) as He. cbn zeta in He. fold boxes in He.
  pose proof (gec_ctr _ _ _ Hk). split.
  - rewrite He. apply NoDup_fmap_2_strong; [|apply NoDup_seqZ]. intros x y Hx Hy.
    apply elem_of_seqZ in Hx, Hy. unfold UINT32_MAX in *.
    apply be_bytes_inj; unfold in_range; change (8 * Z.of_nat 4) with 32; lia.
  - apply (f_equal length) in He. rewrite !length_map, length_seqZ in He. rewrite He. lia.
Qed.

(** Only the first 64 bytes of the input are read. *)
Lemma gec_encrypt_take at_ k pt ct : gec_encrypt at_ k pt ct = gec_encrypt at_ k (take GEC_PT_LEN pt) ct.
Proof. unfold gec_encrypt. by rewrite take_take, Nat.min_id. Qed.

(** ** A channel to try the theorems on *)

Definition sample_raw : list Z := seqZ 0 24.
Definition sample_chan (c : Z) : gec_sym_key :=
  mk_sym_key (gctx (gec_init_sym_key_conf_auth (mk_sym_key blank_ctx (replicate 8 0) 0) sample_raw)) (slice 16 8 sample_raw) c.

Lemma sample_keyed c : 0 <= c ->
  gec_keyed (take 16 sample_raw) (slice 16 8 sample_raw) (sample_chan c) /\
  block (take 16 sample_raw) /\ is_salt (slice 16 8 sample_raw).
Proof.
  intros Hc. destruct (init_auth_keyed (mk_sym_key blank_ctx (replicate 8 0) 0) sample_raw blank_ctx_wf)
    as (Hk & _ & Hb & Hs); [decide_true|decide_true|].
  split; [|by split]. split; cbn [gctx salt ctr sample_chan]; [exact (gec_gcm _ _ _ Hk)|reflexivity|lia].
Qed.

Lemma sample_paired c d : 0 <= c -> 0 <= d -> paired (sample_chan c) (sample_chan d).
Proof.
  intros Hc Hd. destruct (sample_keyed c Hc) as (Hk & Hb & Hs). destruct (sample_keyed d Hd) as (Hk' & _).
  by apply (paired_of (take 16 sample_raw) (slice 16 8 sample_raw)).
Qed.

#[local] Abbreviation here := (mk_places 0 1 2).

Lemma gec_ctr_inc_fixed_point_witness :
  Nat.iter 4 _gec_ctr_inc_func (seqZ 9 16) = [1; 1; 1; 1] ++ drop 4 (seqZ 9 16) /\
  _gec_ctr_inc_func ([1; 1; 1; 1] ++ drop 4 (seqZ 9 16)) = [1; 1; 1; 1] ++ drop 4 (seqZ 9 16).
Proof. apply (gec_ctr_inc_fixed_point (seqZ 9 16)). decide_true. Defined.

Definition sample_conf : gec_sym_key_conf :=
  gec_init_sym_key_conf (mk_sym_key_conf (mk_aes_ctx (replicate 44 0) [0; 0; 0; 0]) (replicate 8 0) 0) sample_raw.

Lemma sample_conf_keyed : conf_keyed (take 16 sample_raw) 0 sample_conf.
Proof. split; [|lia]. exists (mk_aes_ctx (replicate 44 0) [0; 0; 0; 0]). split; [done|]. vm_compute. reflexivity. Qed.

Lemma gec_conf_roundtrip_witness :
  let '(r1, ct', k1) := gec_encrypt_conf true sample_conf (seqZ 0 20) (replicate 20 0) in
  let '(r2, pt', k2) := gec_decrypt_conf false sample_conf ct' (replicate 20 0) in
  r1 = GEC_SUCCESS /\ r2 = GEC_SUCCESS /\ pt' = seqZ 0 20 /\ k1 = k2 /\
  exists p', conf_keyed (take 16 sample_raw) p' k1.
Proof.
  refine (gec_conf_roundtrip true false (take 16 sample_raw) sample_conf 0 (seqZ 0 20) (replicate 20 0) (replicate 20 0)
    _ sample_conf_keyed _ eq_refl eq_refl); decide_true.
Defined.

Lemma gec_encrypt_conf_repeats_key_stream_witness :
  let '(_, ct', _) := gec_encrypt_conf true sample_conf (seqZ 0 112) (replicate 112 0) in
  xor_bytes (slice 80 16 ct') (slice 80 16 (seqZ 0 112)) =
  Fips.cipher (take 16 sample_raw) ([1; 1; 1; 1] ++ replicate 12 0).
Proof.
  refine (gec_encrypt_conf_repeats_key_stream true (take 16 sample_raw) sample_conf (seqZ 0 112) (replicate 112 0) 5
    _ sample_conf_keyed _ eq_refl _ _ _); decide_true.
Defined.

Lemma gec_channels_agree_witness :
  let blank := mk_sym_key blank_ctx (replicate 8 0) 0 in
  let '(ka1, ka2) := gec_key_material_to_2_channels blank blank (seqZ 3 48) in
  let '(kb1, kb2) := gec_key_material_to_2_channels blank blank (seqZ 3 48) in
  paired ka1 kb1 /\ paired ka2 kb2 /\ map ctr [ka1; ka2; kb1; kb2] = [0; 0; 0; 0].
Proof.
  intros blank.
  refine (gec_channels_agree blank blank blank blank (seqZ 3 48) blank_ctx_wf blank_ctx_wf blank_ctx_wf blank_ctx_wf _ eq_refl).
  decide_true.
Defined.

Lemma gec_box_roundtrip_witness :
  let '(r1, ct', k1') := gec_encrypt here (sample_chan 5) (seqZ 0 64) (replicate 80 0) in
  let '(r2, pt', k2') := gec_decrypt here (sample_chan 9) ct' (replicate 64 0) in
  r1 = GEC_SUCCESS /\ r2 = GEC_SUCCESS /\ pt' = seqZ 0 64 /\ length ct' = GEC_CT_LEN /\
  paired k1' k2' /\ ctr k1' = 6 /\ ctr k2' = 1536.
Proof.
  refine (gec_box_roundtrip here here (sample_chan 5) (sample_chan 9) (seqZ 0 64) (replicate 80 0) (replicate 64 0)
    (sample_paired 5 9 _ _) _ eq_refl eq_refl eq_refl); [lia|lia|decide_true].
Defined.

Lemma gec_decrypt_verdict_witness :
  let key := take 16 sample_raw in
  let s := slice 16 8 sample_raw in
  let ct := seqZ 0 80 in
  let authentic := bool_decide (drop 68 ct =
    Sp800_38D.tag (Fips.cipher key) GEC_TAG_LEN (take 4 ct ++ s) [] (slice 4 64 ct)) in
  let '(r, pt', k') := gec_decrypt here (sample_chan 0) ct (replicate 64 0) in
  r = (if authentic then GEC_SUCCESS else GEC_ERROR_DECRYPT_AUTH_FAILED) /\
  (if authentic then Sp800_38D.ciphertext (Fips.cipher key) (take 4 ct ++ s) pt' = slice 4 64 ct
   else pt' = replicate GEC_PT_LEN 0 /\ ctr k' = ctr (sample_chan 0)) /\
  gec_keyed key s k'.
Proof.
  destruct (sample_keyed 0 ltac:(lia)) as (Hk & Hb & Hs).
  refine (gec_decrypt_verdict here _ _ (sample_chan 0) (seqZ 0 80) (replicate 64 0) Hb Hs Hk _ eq_refl eq_refl).
  decide_true.
Defined.

Lemma gec_decrypt_accepts_replay_witness :
  let '(_, c, _) := gec_encrypt here (sample_chan 5) (seqZ 0 64) (replicate 80 0) in
  let '(r1, p1, k2') := gec_decrypt here (sample_chan 9) c (replicate 64 0) in
  let '(r2, p2, k2'') := gec_decrypt here k2' c (replicate 64 1) in
  (r1, p1) = (GEC_SUCCESS, seqZ 0 64) /\ (r2, p2) = (GEC_SUCCESS, seqZ 0 64) /\ ctr k2'' = ctr k2'.
Proof.
  refine (gec_decrypt_accepts_replay here here here (sample_chan 5) (sample_chan 9) (seqZ 0 64) (replicate 80 0)
    (replicate 64 0) (replicate 64 1) (sample_paired 5 9 _ _) _ eq_refl eq_refl eq_refl eq_refl _);
    [lia|lia|decide_true|reflexivity].
Defined.

(** Three messages, of which two fit below the limit. *)
Lemma gec_nonces_distinct_witness :
  let boxes := sent (gec_encrypt_all here (sample_chan (UINT32_MAX - 17)) (replicate 3 (seqZ 0 64)) (replicate 80 0)).1 in
  NoDup (map (take 4) boxes) /\ Z.of_nat (length boxes) = 2.
Proof.
  destruct (sample_keyed (UINT32_MAX - 17) ltac:(unfold UINT32_MAX; lia)) as (Hk & Hb & Hs).
  refine (gec_nonces_distinct here _ _ (sample_chan (UINT32_MAX - 17)) (replicate 3 (seqZ 0 64)) (replicate 80 0)
    Hb Hs Hk _ eq_refl).
  apply Forall_replicate. split; [decide_true|reflexivity].
Defined.
