(* ===== verification/Sha512Spec.v ===== *)
(** * SHA-512 as FIPS 180-4 defines it

    The reference for Sha512.v.  It shares nothing with the code: the constants
    come from the roots of the first primes, the message schedule from a window
    of sixteen words, the logical functions are those of section 4.1.3. *)

From S2P Require Import Prelude.

Local Open Scope Z_scope.

Module Fips180_4.

Definition modulus : Z := 2 ^ 64.

(** Addition of words. *)
Definition sum (l : list Z) : Z := foldr Z.add 0 l mod modulus.

(** ** Functions (sections 3.2 and 4.1.3) *)

Definition SHR (n x : Z) : Z := Z.shiftr x n.
Definition ROTR (n x : Z) : Z := Z.lor (Z.shiftr x n) (Z.shiftl x (64 - n) mod modulus).
Definition Ch (x y z : Z) : Z := Z.lxor (Z.land x y) (Z.land (Z.lnot x) z).
Definition Maj (x y z : Z) : Z := Z.lxor (Z.lxor (Z.land x y) (Z.land x z)) (Z.land y z).
Definition Sigma0 (x : Z) : Z := Z.lxor (Z.lxor (ROTR 28 x) (ROTR 34 x)) (ROTR 39 x).
Definition Sigma1 (x : Z) : Z := Z.lxor (Z.lxor (ROTR 14 x) (ROTR 18 x)) (ROTR 41 x).
Definition sigma0 (x : Z) : Z := Z.lxor (Z.lxor (ROTR 1 x) (ROTR 8 x)) (SHR 7 x).
Definition sigma1 (x : Z) : Z := Z.lxor (Z.lxor (ROTR 19 x) (ROTR 61 x)) (SHR 6 x).

(** ** Constants (sections 4.2.3 and 5.3.5) *)

Definition is_prime (n : Z) : bool := forallb (fun d => negb (n mod d =? 0)) (seqZ 2 (n - 2)).

Definition first_primes (n : nat) : list Z := take n (List.filter is_prime (seqZ 2 500)).

(** The cube root rounded down, of a number with a root below [2 ^ n]. *)
Fixpoint cube_root_from (n : nat) (r x : Z) : Z :=
  match n with
  | O => r
  | S n =>
      let r' := r + 2 ^ Z.of_nat n in
      cube_root_from n (if r' ^ 3 <=? x then r' else r) x
  end.

Definition cube_root (n : nat) (x : Z) : Z := cube_root_from n 0 x.

(** The first 64 bits of the fractional parts of the cube roots of the first
    eighty primes, and of the square roots of the first eight. *)
Definition K : list Z := map (fun p => cube_root 68 (p * 2 ^ 192) mod modulus) (first_primes 80).
Definition H0 : list Z := map (fun p => Z.sqrt (p * 2 ^ 128) mod modulus) (first_primes 8).

(** ** Padding and parsing (sections 5.1.2 and 5.2.2) *)

(** The bit 1, the least number of zeroes that leaves 128 bits of the last
    block, and the length of the message in bits. *)
Definition pad (d : list Z) : list Z :=
  d ++ [0x80] ++ replicate (Z.to_nat ((111 - Z.of_nat (length d)) mod 128)) 0 ++
  be_bytes 16 (8 * Z.of_nat (length d)).

Fixpoint pieces (size n : nat) (d : list Z) : list (list Z) :=
  match n with
  | O => []
  | S n => take size d :: pieces size n (drop size d)
  end.

Definition blocks (d : list Z) : list (list Z) := pieces 128 (length d / 128) d.

(** A string of bytes as a word, the first byte the most significant. *)
Definition be_word (l : list Z) : Z := foldl (fun w b => Z.lor (Z.shiftl w 8) b) 0 l.

(** ** The computation (section 6.4.2) *)

(** [W_t] from the sixteen words before it. *)
Definition next_word (win : list Z) : Z :=
  sum [sigma1 (rd win 14); rd win 9; sigma0 (rd win 1); rd win 0].

(** The [n] words that begin with those of the window. *)
Fixpoint schedule (n : nat) (win : list Z) : list Z :=
  match n, win with
  | S n, w :: rest => w :: schedule n (rest ++ [next_word win])
  | _, _ => []
  end.

Definition round (v : list Z) (kw : Z * Z) : list Z :=
  match v with
  | [a; b; c; d; e; f; g; h] =>
      let T1 := sum [h; Sigma1 e; Ch e f g; kw.1; kw.2] in
      let T2 := sum [Sigma0 a; Maj a b c] in
      [sum [T1; T2]; a; b; c; sum [d; T1]; e; f; g]
  | _ => v
  end.

Definition compress (H blk : list Z) : list Z :=
  let W := schedule 80 (map be_word (pieces 8 16 blk)) in
  zip_with (fun x y => sum [x; y]) H (foldl round H (zip K W)).

Definition sha512 (d : list Z) : list Z :=
  concat (map (be_bytes 8) (foldl compress H0 (blocks (pad d)))).

(** ** The roots are roots *)

Lemma cube_root_from_spec n : forall r x,
  0 <= r -> r ^ 3 <= x < (r + 2 ^ Z.of_nat n) ^ 3 ->
  let q := cube_root_from n r x in 0 <= q /\ q ^ 3 <= x < (q + 1) ^ 3.
Proof.
  induction n as [|n IH]; intros r x Hr Hx; cbn [cube_root_from]; [by split|].
  assert (r + 2 ^ Z.of_nat (S n) = r + 2 ^ Z.of_nat n + 2 ^ Z.of_nat n) as E
    by (rewrite Nat2Z.inj_succ, Z.pow_succ_r by lia; lia).
  rewrite E in Hx. pose proof (Z.pow_pos_nonneg 2 (Z.of_nat n)).
  destruct (Z.leb_spec ((r + 2 ^ Z.of_nat n) ^ 3) x) as [Hle|Hlt]; apply IH; lia.
Qed.

Lemma cube_root_spec n x : 0 <= x < (2 ^ Z.of_nat n) ^ 3 ->
  let q := cube_root n x in 0 <= q /\ q ^ 3 <= x < (q + 1) ^ 3.
Proof. intros Hx. apply cube_root_from_spec; [done|by rewrite Z.add_0_l]. Qed.

(** ** Lengths *)

Lemma length_round v kw : length (round v kw) = length v.
Proof. unfold round. by repeat (case_match; try done). Qed.

Lemma length_rounds l : forall v, length (foldl round v l) = length v.
Proof. induction l as [|kw l IH]; intros v; [done|]. cbn [foldl]. by rewrite IH, length_round. Qed.

Lemma length_compress H blk : length (compress H blk) = length H.
Proof. unfold compress. cbv zeta. rewrite length_zip_with, length_rounds. lia. Qed.

Lemma length_compresses l : forall H, length (foldl compress H l) = length H.
Proof. induction l as [|b l IH]; intros H; [done|]. cbn [foldl]. by rewrite IH, length_compress. Qed.

(** The rounds only need the first words of the window. *)
Lemma schedule_window n : forall win, (n <= length win)%nat -> schedule n win = take n win.
Proof.
  induction n as [|n IH]; intros win Hn; [by destruct win|]. destruct win as [|w win]; [cbn in Hn; lia|].
  cbn [schedule length take] in *. rewrite IH by (rewrite length_app; lia). by rewrite take_app_le by lia.
Qed.

Lemma length_schedule n : forall win, win <> [] -> length (schedule n win) = n.
Proof.
  induction n as [|n IH]; intros win Hw; [by destruct win|]. destruct win as [|w win]; [done|].
  cbn [schedule length]. rewrite IH; [done|]. by destruct win.
Qed.

Lemma pieces_seq size n : forall d, pieces size n d = map (fun i => take size (drop (i * size) d)) (seq 0 n).
Proof.
  induction n as [|n IH]; intros d; [done|]. cbn [pieces seq map]. rewrite drop_0, IH, <- seq_shift, map_map. f_equal.
  apply map_ext. intros i. by rewrite drop_drop.
Qed.

(** The digest of the empty message (NIST, example values). *)
Example sha512_empty :
  be_word (sha512 []) =
  0xcf83e1357eefb8bdf1542850d66d8007d620e4050b5715dc83f4a921d36ce9ce47d0d13c5d85f2b0ff8318d2877eec2f63b931bd47417a81a538327af927da3e.
Proof. vm_compute. reflexivity. Qed.

End Fips180_4.
