(* ===== verification/Sha512.v ===== *)
(** * The SHA-512 of the elliptic-curve code

    GEC-block/include/ed25519-hash.h with ED25519_REFHASH, the hash behind
    [gec_hash] and the key derivation of gec-ke.c.  The constants, the block
    function and the padding are proved to be those of FIPS 180-4
    (Sha512Spec.v), and the streaming context to compute the digest for every
    way of cutting the message into pieces. *)

From S2P Require Import Prelude Blocks Sha512Spec.

Local Open Scope Z_scope.

Definition HASH_BLOCK_SIZE : nat := 128.
Definition HASH_DIGEST_SIZE : nat := 64.

Record sha512_state := mk_sha512 {
  chain : list Z;
  T0 : Z;
  T1 : Z;
  leftover : nat;
  buffer : list Z;
}.

(** One row per pair of constants of the source. *)
Definition sha512_constants : list Z := Eval cbv [concat app] in concat [
  [0x428a2f98d728ae22; 0x7137449123ef65cd]; [0xb5c0fbcfec4d3b2f; 0xe9b5dba58189dbbc];
  [0x3956c25bf348b538; 0x59f111f1b605d019]; [0x923f82a4af194f9b; 0xab1c5ed5da6d8118];
  [0xd807aa98a3030242; 0x12835b0145706fbe]; [0x243185be4ee4b28c; 0x550c7dc3d5ffb4e2];
  [0x72be5d74f27b896f; 0x80deb1fe3b1696b1]; [0x9bdc06a725c71235; 0xc19bf174cf692694];
  [0xe49b69c19ef14ad2; 0xefbe4786384f25e3]; [0x0fc19dc68b8cd5b5; 0x240ca1cc77ac9c65];
  [0x2de92c6f592b0275; 0x4a7484aa6ea6e483]; [0x5cb0a9dcbd41fbd4; 0x76f988da831153b5];
  [0x983e5152ee66dfab; 0xa831c66d2db43210]; [0xb00327c898fb213f; 0xbf597fc7beef0ee4];
  [0xc6e00bf33da88fc2; 0xd5a79147930aa725]; [0x06ca6351e003826f; 0x142929670a0e6e70];
  [0x27b70a8546d22ffc; 0x2e1b21385c26c926]; [0x4d2c6dfc5ac42aed; 0x53380d139d95b3df];
  [0x650a73548baf63de; 0x766a0abb3c77b2a8]; [0x81c2c92e47edaee6; 0x92722c851482353b];
  [0xa2bfe8a14cf10364; 0xa81a664bbc423001]; [0xc24b8b70d0f89791; 0xc76c51a30654be30];
  [0xd192e819d6ef5218; 0xd69906245565a910]; [0xf40e35855771202a; 0x106aa07032bbd1b8];
  [0x19a4c116b8d2d0c8; 0x1e376c085141ab53]; [0x2748774cdf8eeb99; 0x34b0bcb5e19b48a8];
  [0x391c0cb3c5c95a63; 0x4ed8aa4ae3418acb]; [0x5b9cca4f7763e373; 0x682e6ff3d6b2b8a3];
  [0x748f82ee5defb2fc; 0x78a5636f43172f60]; [0x84c87814a1f0ab72; 0x8cc702081a6439ec];
  [0x90befffa23631e28; 0xa4506cebde82bde9]; [0xbef9a3f7b2c67915; 0xc67178f2e372532b];
  [0xca273eceea26619c; 0xd186b8c721c0c207]; [0xeada7dd6cde0eb1e; 0xf57d4f7fee6ed178];
  [0x06f067aa72176fba; 0x0a637dc5a2c898a6]; [0x113f9804bef90dae; 0x1b710b35131c471b];
  [0x28db77f523047d84; 0x32caab7b40c72493]; [0x3c9ebe0a15c9bebc; 0x431d67c49c100d4c];
  [0x4cc5d4becb3e42b6; 0x597f299cfc657e2a]; [0x5fcb6fab3ad6faec; 0x6c44198c4a475817]].

Definition sha512_ROTR64 (x k : Z) : Z := Z.lor (Z.shiftr x k) (u64 (Z.shiftl x (64 - k))).

Definition sha512_LOAD64_BE (p : list Z) : Z :=
  Z.lor (Z.lor (Z.lor (Z.lor (Z.lor (Z.lor (Z.lor
    (Z.shiftl (rd p 0) 56) (Z.shiftl (rd p 1) 48)) (Z.shiftl (rd p 2) 40)) (Z.shiftl (rd p 3) 32))
    (Z.shiftl (rd p 4) 24)) (Z.shiftl (rd p 5) 16)) (Z.shiftl (rd p 6) 8)) (rd p 7).

Definition sha512_STORE64_BE (v : Z) : list Z :=
  map (fun k => u8 (Z.shiftr v k)) [56; 48; 40; 32; 24; 16; 8; 0].

Definition ED25519_Ch (x y z : Z) : Z := Z.lxor z (Z.land x (Z.lxor y z)).
Definition ED25519_Maj (x y z : Z) : Z := Z.lor (Z.land (Z.lor x y) z) (Z.land x y).
Definition S0 (x : Z) : Z := Z.lxor (Z.lxor (sha512_ROTR64 x 28) (sha512_ROTR64 x 34)) (sha512_ROTR64 x 39).
Definition S1 (x : Z) : Z := Z.lxor (Z.lxor (sha512_ROTR64 x 14) (sha512_ROTR64 x 18)) (sha512_ROTR64 x 41).
Definition G0 (x : Z) : Z := Z.lxor (Z.lxor (sha512_ROTR64 x 1) (sha512_ROTR64 x 8)) (Z.shiftr x 7).
Definition G1 (x : Z) : Z := Z.lxor (Z.lxor (sha512_ROTR64 x 19) (sha512_ROTR64 x 61)) (Z.shiftr x 6).
Definition W0 (inp : list Z) (i : nat) : Z := sha512_LOAD64_BE (drop (i * 8) inp).
Definition W1 (w : list Z) (i : Z) : Z :=
  u64 (G1 (rd w (i - 2)) + rd w (i - 7) + G0 (rd w (i - 15)) + rd w (i - 16)).

(** The eight words [r] as a list. *)
Definition STEP (w : list Z) (r : list Z) (i : Z) : list Z :=
  let t1 := u64 (S0 (rd r 0) + ED25519_Maj (rd r 0) (rd r 1) (rd r 2)) in
  let t0 := u64 (rd r 7 + S1 (rd r 4) + ED25519_Ch (rd r 4) (rd r 5) (rd r 6) +
                 rd sha512_constants i + rd w i) in
  let r := wr r 7 (rd r 6) in
  let r := wr r 6 (rd r 5) in
  let r := wr r 5 (rd r 4) in
  let r := wr r 4 (u64 (rd r 3 + t0)) in
  let r := wr r 3 (rd r 2) in
  let r := wr r 2 (rd r 1) in
  let r := wr r 1 (rd r 0) in
  wr r 0 (u64 (t0 + t1)).

(** The body of [while (blocks--)] on the chaining words; [r] equals
    [S->H] at the start of every turn. *)
Definition sha512_block (h inp : list Z) : list Z :=
  let w := map (W0 inp) (seq 0 16) in
  let w := foldl (fun w i => w ++ [W1 w i]) w (seqZ 16 64) in
  let r := foldl (STEP w) h (seqZ 0 80) in
  zip_with (fun r h => u64 (r + h)) r h.

Fixpoint sha512_blocks (S : sha512_state) (inp : list Z) (blocks : nat) : sha512_state :=
  match blocks with
  | O => S
  | Datatypes.S blocks =>
      let t0 := u64 (T0 S + Z.of_nat HASH_BLOCK_SIZE * 8) in
      let t1 := u64 (T1 S + if t0 =? 0 then 1 else 0) in
      sha512_blocks (mk_sha512 (sha512_block (chain S) inp) t0 t1 (leftover S) (buffer S))
        (drop HASH_BLOCK_SIZE inp) blocks
  end.

Definition sha512_H0 : list Z :=
  [0x6a09e667f3bcc908; 0xbb67ae8584caa73b;
   0x3c6ef372fe94f82b; 0xa54ff53a5f1d36f1;
   0x510e527fade682d1; 0x9b05688c2b3e6c1f;
   0x1f83d9abfb41bd6b; 0x5be0cd19137e2179].

(** The buffer is not written. *)
Definition ed25519_hash_init (S : sha512_state) : sha512_state :=
  mk_sha512 sha512_H0 0 0 0 (buffer S).

(** From the comment "handle the current data" on. *)
Definition update_current (S : sha512_state) (inp : list Z) : sha512_state :=
  let inlen := Z.of_nat (length inp) in
  let blocks := Z.to_nat (Z.land inlen (Z.lnot (Z.of_nat HASH_BLOCK_SIZE - 1))) in
  let left := (length inp - blocks)%nat in
  let S := mk_sha512 (chain S) (T0 S) (T1 S) left (buffer S) in
  let S := if (blocks =? 0)%nat then S else sha512_blocks S inp (blocks / HASH_BLOCK_SIZE) in
  if (left =? 0)%nat then S
  else mk_sha512 (chain S) (T0 S) (T1 S) (leftover S) (memcpy_at (buffer S) 0 (take left (drop blocks inp))).

Definition ed25519_hash_update (S : sha512_state) (inp : list Z) : sha512_state :=
  if (leftover S =? 0)%nat then update_current S inp
  else
    let want := Nat.min (HASH_BLOCK_SIZE - leftover S) (length inp) in
    let S := mk_sha512 (chain S) (T0 S) (T1 S) (leftover S + want)
               (memcpy_at (buffer S) (leftover S) (take want inp)) in
    if (leftover S <? HASH_BLOCK_SIZE)%nat then S
    else update_current (sha512_blocks S (buffer S) 1) (drop want inp).

Definition set_buffer (b : list Z) (S : sha512_state) : sha512_state :=
  mk_sha512 (chain S) (T0 S) (T1 S) (leftover S) b.

(** [ed25519_hash_final] up to the stores of the digest. *)
Definition hash_final_blocks (S : sha512_state) : sha512_state :=
  let t0 := u64 (T0 S + Z.of_nat (leftover S) * 8) in
  let t1 := T1 S in
  let S := set_buffer (memcpy_at (buffer S) (leftover S) [0x80]) S in
  let S :=
    if (leftover S <=? 111)%nat
    then set_buffer (memset_at (buffer S) (leftover S + 1) (111 - leftover S) 0) S
    else
      let S := set_buffer (memset_at (buffer S) (leftover S + 1) (127 - leftover S) 0) S in
      let S := sha512_blocks S (buffer S) 1 in
      set_buffer (memset_at (buffer S) 0 112 0) S in
  let S := set_buffer (memcpy_at (buffer S) 112 (sha512_STORE64_BE t1)) S in
  let S := set_buffer (memcpy_at (buffer S) 120 (sha512_STORE64_BE t0)) S in
  sha512_blocks S (buffer S) 1.

Definition ed25519_hash_final (S : sha512_state) : list Z :=
  let S := hash_final_blocks S in
  concat (map (fun i => sha512_STORE64_BE (rd (chain S) i)) (seqZ 0 8)).

(** [ctx] is what the stack holds before. *)
Definition ed25519_hash (ctx : sha512_state) (inp : list Z) : list Z :=
  ed25519_hash_final (ed25519_hash_update (ed25519_hash_init ctx) inp).

(** The digest of "abc" (FIPS 180-2, appendix C.1). *)
Example sha512_abc :
  le_word (rev (ed25519_hash (mk_sha512 [] 7 7 7 (replicate 128 7)) [97; 98; 99])) =
  0xddaf35a193617abacc417349ae20413112e6fa4e89a97ea20a9eeee64b55d39a2192992a274fc1a836ba3c23a3feebbd454d4423643ce80e2a9ac94fa54ca49f.
Proof. vm_compute. reflexivity. Qed.

(** A block is read word by word. *)
Lemma load_words_take inp : map (W0 inp) (seq 0 16) = map (W0 (take 128 inp)) (seq 0 16).
Proof.
  apply map_ext_in. intros i Hi. apply in_seq in Hi. unfold W0, sha512_LOAD64_BE.
  assert (forall j, 0 <= j < 8 -> rd (drop (i * 8) inp) j = rd (drop (i * 8) (take 128 inp)) j) as Hr.
  { intros j Hj. unfold rd. rewrite !lookup_drop, lookup_take_lt by lia. done. }
  by rewrite !Hr by lia.
Qed.

Lemma sha512_block_take h inp : sha512_block h inp = sha512_block h (take 128 inp).
Proof. unfold sha512_block. by rewrite load_words_take. Qed.

(** ** The block function is that of FIPS 180-4 *)

Import Fips180_4.

Lemma constants_are_K : sha512_constants = K.
Proof. vm_compute. reflexivity. Qed.

Lemma sha512_H0_is_H0 : sha512_H0 = H0.
Proof. vm_compute. reflexivity. Qed.

Lemma ED25519_Ch_is_Ch x y z : ED25519_Ch x y z = Ch x y z.
Proof.
  unfold ED25519_Ch, Ch. bit_ext i. rewrite !Z.lxor_spec, !Z.land_spec, Z.lxor_spec, Z.lnot_spec by done.
  by destruct (Z.testbit x i), (Z.testbit y i), (Z.testbit z i).
Qed.

Lemma ED25519_Maj_is_Maj x y z : ED25519_Maj x y z = Maj x y z.
Proof.
  unfold ED25519_Maj, Maj. bit_ext i. rewrite !Z.lxor_spec, Z.lor_spec, !Z.land_spec, Z.lor_spec.
  by destruct (Z.testbit x i), (Z.testbit y i), (Z.testbit z i).
Qed.

Lemma LOAD64_is_be_word p : (8 <= length p)%nat -> sha512_LOAD64_BE p = be_word (take 8 p).
Proof.
  intros Hp. do 8 (destruct p as [|? p]; [cbn in Hp; lia|]). cbn [take]. unfold be_word. cbn [foldl].
  rewrite !Z.shiftl_lor, !Z.shiftl_shiftl, Z.shiftl_0_l by done. reflexivity.
Qed.

(** Sums of words. *)
Lemma sum_u64 l x : foldr Z.add 0 l = x -> sum l = u64 x.
Proof. by intros <-. Qed.

Lemma STEP_is_round w i r : length r = 8%nat ->
  STEP w r i = round r (rd sha512_constants i, rd w i).
Proof.
  intros Hr. destruct r as [|a [|b [|c [|d [|e [|f [|g [|h [|]]]]]]]]]; try done.
  transitivity (let t1 := u64 (S0 a + ED25519_Maj a b c) in
    let t0 := u64 (h + S1 e + ED25519_Ch e f g + rd sha512_constants i + rd w i) in
    [u64 (t0 + t1); a; b; c; u64 (d + t0); e; f; g]); [reflexivity|].
  unfold round. cbn [fst snd]. cbv zeta. rewrite ED25519_Ch_is_Ch, ED25519_Maj_is_Maj.
  rewrite !(sum_u64 _ _ eq_refl). cbn [foldr]. rewrite !Z.add_0_r, !Z.add_assoc. done.
Qed.

Lemma W1_is_next_word w t : (16 <= t)%nat -> length w = t ->
  W1 w (Z.of_nat t) = next_word (drop (t - 16) w).
Proof.
  intros Ht Hl. unfold W1, next_word.
  assert (forall j, 0 <= j < 16 -> rd (drop (t - 16) w) j = rd w (Z.of_nat t - (16 - j))) as Hj.
  { intros j Hj. unfold rd. rewrite lookup_drop. do 2 f_equal. lia. }
  rewrite !Hj by lia.
  rewrite (sum_u64 _ _ eq_refl). cbn [foldr]. rewrite !Z.add_0_r, !Z.add_assoc. reflexivity.
Qed.

(** The schedule grows by one word a turn. *)
Lemma words_are_schedule n : forall w t, (16 <= t)%nat -> length w = t ->
  foldl (fun w i => w ++ [W1 w i]) w (seqZ (Z.of_nat t) (Z.of_nat n)) =
  take (t - 16) w ++ schedule (n + 16) (drop (t - 16) w).
Proof.
  induction n as [|n IH]; intros w t Ht Hl.
  { cbn [foldl]. rewrite schedule_window, (take_ge (drop _ _)), take_drop by (rewrite length_drop; lia). done. }
  rewrite seqZ_cons by lia. cbn [foldl]. 
  replace (Z.succ (Z.of_nat t)) with (Z.of_nat (S t)) by lia.
  replace (Z.pred (Z.of_nat (S n))) with (Z.of_nat n) by lia.
  rewrite IH by (rewrite ?length_app; cbn [length]; lia). rewrite (W1_is_next_word w t) by done.
  destruct (drop (t - 16) w) as [|x win] eqn:E.
  { apply (f_equal length) in E. rewrite length_drop in E. cbn in E. lia. }
  cbn [Nat.add schedule]. replace (S t - 16)%nat with (S (t - 16)) by lia.
  assert (w !! (t - 16)%nat = Some x) as Hx by (rewrite <- (Nat.add_0_r (t - 16)), <- lookup_drop, E; done).
  rewrite take_app_le, drop_app_le, (take_S_r _ _ _ Hx), <- app_assoc by lia.
  assert (drop (S (t - 16)) w = win) as -> by (by rewrite <- Nat.add_1_r, <- drop_drop, E). done.
Qed.

Lemma steps_are_rounds w l : forall r, length r = 8%nat ->
  foldl (STEP w) r l = foldl round r (map (fun i => (rd sha512_constants i, rd w i)) l).
Proof.
  induction l as [|i l IH]; intros r Hr; [done|]. cbn [foldl map]. rewrite STEP_is_round by done.
  apply IH. by rewrite length_round.
Qed.

Lemma zip_rd (k w : list Z) : length w = length k ->
  map (fun i => (rd k i, rd w i)) (seqZ 0 (Z.of_nat (length k))) = zip k w.
Proof.
  intros Hl. apply list_eq. intros i. rewrite list_lookup_fmap, lookup_zip_with.
  destruct (Nat.ltb_spec i (length k)) as [Hi|Hi].
  - rewrite lookup_seqZ_lt by lia. destruct (lookup_lt_is_Some_2 k i Hi) as [x Hx].
    destruct (lookup_lt_is_Some_2 w i ltac:(lia)) as [y Hy]. rewrite Hx, Hy. cbn. unfold rd.
    rewrite Z.add_0_l, Nat2Z.id, Hx, Hy. done.
  - rewrite lookup_seqZ_ge, (lookup_ge_None_2 k) by lia. done.
Qed.

Lemma block_is_compress h inp : length h = 8%nat -> (128 <= length inp)%nat ->
  sha512_block h inp = compress h (take 128 inp).
Proof.
  intros Hh Hi. rewrite sha512_block_take. set (blk := take 128 inp).
  assert (length blk = 128%nat) as Hb by (unfold blk; rewrite length_take; lia). clearbody blk.
  assert (map (W0 blk) (seq 0 16) = map be_word (pieces 8 16 blk)) as E.
  { rewrite pieces_seq, map_map. apply map_ext_in. intros i Hin. apply in_seq in Hin. apply LOAD64_is_be_word.
    rewrite length_drop. lia. }
  unfold sha512_block, compress. cbv zeta. rewrite E. set (win := map be_word (pieces 8 16 blk)).
  assert (length win = 16%nat) as Hw by (unfold win; by rewrite length_map, pieces_seq, length_map).
  pose proof (words_are_schedule 64 win 16 ltac:(lia) Hw) as Es.
  change (Z.of_nat 16) with 16 in Es. change (Z.of_nat 64) with 64 in Es.
  change (take (16 - 16) win ++ schedule (64 + 16) (drop (16 - 16) win)) with (schedule 80 win) in Es.
  rewrite Es. clear Es.
  assert (length (schedule 80 win) = 80%nat) as Hs by (apply length_schedule; by destruct win).
  rewrite steps_are_rounds, constants_are_K by done. assert (length K = 80%nat) as HK by (vm_compute; reflexivity).
  pose proof (zip_rd K (schedule 80 win) ltac:(congruence)) as Ez. rewrite HK in Ez. change (Z.of_nat 80) with 80 in Ez.
  rewrite Ez, <- (zip_with_flip _ _ h). generalize (foldl round h (zip K (schedule 80 win))) as r.
  clear. intros r. apply zip_with_ext; [|done|done]. intros x y. unfold flip.
  by rewrite (sum_u64 [x; y] (x + (y + 0)) eq_refl), Z.add_0_r, Z.add_comm.
Qed.

Lemma blocks_are_compressed n : forall h d, length h = 8%nat -> (128 * n <= length d)%nat ->
  absorb_n sha512_block 128 n h d = foldl compress h (pieces 128 n d).
Proof.
  induction n as [|n IH]; intros h d Hh Hd; [done|]. cbn [absorb_n pieces foldl].
  rewrite <- sha512_block_take, block_is_compress by (done || lia).
  apply IH; [by rewrite length_compress|rewrite length_drop; lia].
Qed.

(** The padding in natural numbers. *)
Definition sha512_pad (d : list Z) : list Z :=
  d ++ 0x80 :: replicate ((239 - length d `mod` 128) `mod` 128)%nat 0 ++
  be_bytes 16 (8 * Z.of_nat (length d)).

Lemma sha512_pad_is_pad d : sha512_pad d = pad d.
Proof.
  unfold sha512_pad, pad. cbn [app]. do 4 f_equal. apply Nat2Z.inj. rewrite Z2Nat.id by (by apply Z.mod_pos_bound).
  pose proof (Nat.mod_upper_bound (length d) 128). rewrite Nat2Z.inj_mod, Nat2Z.inj_sub, Nat2Z.inj_mod by lia.
  change (Z.of_nat 128) with 128. change (Z.of_nat 239) with 239. Z.div_mod_to_equations. lia.
Qed.

Lemma sha512_is_fold d :
  sha512 d = concat (map (fun i => be_bytes 8 (rd (absorb sha512_block 128 sha512_H0 (sha512_pad d)) i)) (seqZ 0 8)).
Proof.
  unfold sha512, blocks. rewrite <- sha512_pad_is_pad, <- sha512_H0_is_H0. unfold absorb.
  rewrite blocks_are_compressed by (done || by apply Nat.Div0.mul_div_le).
  set (h := foldl compress _ _). assert (length h = 8%nat) as Hh by (unfold h; by rewrite length_compresses).
  clearbody h. do 9 (destruct h as [|? h]; try done).
Qed.

#[local] Opaque sha512_block.

(** ** The streaming context *)

(** The state after the data [d], apart from the buffer and its fill. *)
Record rep_chain (S : sha512_state) (d : list Z) : Prop := {
  rep_h : chain S = absorb sha512_block 128 sha512_H0 d;
  rep_len : length (buffer S) = 128%nat;
  rep_T0 : is_u64 (T0 S);
  rep_T1 : 0 <= T1 S;
  rep_T : T0 S + 2 ^ 64 * T1 S = 8 * Z.of_nat (length d - length (rest 128 d));
}.

Record rep (S : sha512_state) (d : list Z) : Prop := {
  rep_c : rep_chain S d;
  rep_left : leftover S = length (rest 128 d);
  rep_buf : take (length (rest 128 d)) (buffer S) = rest 128 d;
}.

Lemma rest_div d : (length d - length (rest 128 d) = 128 * (length d / 128))%nat.
Proof. rewrite length_rest by lia. pose proof (Nat.div_mod_eq (length d) 128). lia. Qed.

(** Counting 1024 more bits. *)
Lemma count_block t0 t1 n :
  is_u64 t0 -> 0 <= t1 -> t0 + 2 ^ 64 * t1 = 1024 * n -> 1024 * (n + 1) < 2 ^ 128 ->
  let t0' := u64 (t0 + 1024) in
  let t1' := u64 (t1 + if t0' =? 0 then 1 else 0) in
  is_u64 t0' /\ 0 <= t1' /\ t0' + 2 ^ 64 * t1' = 1024 * (n + 1).
Proof.
  intros H0 H1 Ht Hb t0' t1'. split; [by apply wrap_range|]. split; [by apply (wrap_range 64)|].
  assert (t0' = if t0 + 1024 =? 2 ^ 64 then 0 else t0 + 1024) as E0.
  { unfold t0', wrap, in_range in *. destruct (Z.eqb_spec (t0 + 1024) (2 ^ 64)) as [->|Hne]; [done|].
    apply Z.mod_small. Z.div_mod_to_equations. lia. }
  assert (t1' = t1 + if t0' =? 0 then 1 else 0) as E1.
  { apply wrap_id. unfold in_range in *. rewrite E0.
    destruct (Z.eqb_spec (t0 + 1024) (2 ^ 64)); [rewrite Z.eqb_refl; lia|].
    destruct (Z.eqb_spec (t0 + 1024) 0); lia. }
  rewrite E1, E0. clearbody t0' t1'. unfold in_range in *. destruct (Z.eqb_spec (t0 + 1024) (2 ^ 64)); [rewrite Z.eqb_refl; lia|].
  destruct (Z.eqb_spec (t0 + 1024) 0); lia.
Qed.

Lemma rest_whole d b : rest 128 d = [] -> length b = 128%nat ->
  rest 128 (d ++ b) = [] /\
  absorb sha512_block 128 sha512_H0 (d ++ b) = sha512_block (absorb sha512_block 128 sha512_H0 d) b.
Proof.
  intros Hd Hb. destruct (absorb_app sha512_block 128 ltac:(lia) sha512_H0 d b) as [-> ->]. rewrite Hd. cbn [app].
  destruct (absorb_block sha512_block 128 ltac:(lia) (absorb sha512_block 128 sha512_H0 d) b [] Hb) as [Ha Hr0].
  rewrite app_nil_r in Ha, Hr0. by rewrite Ha, Hr0.
Qed.

(** Whole blocks: the chaining value and the two words of the bit count. *)
Lemma blocks_spec n : forall S d inp,
  rest 128 d = [] -> rep_chain S d -> (128 * n <= length inp)%nat ->
  8 * Z.of_nat (length d + 128 * n) < 2 ^ 128 ->
  let S' := sha512_blocks S inp n in
  rep_chain S' (d ++ take (128 * n) inp) /\ rest 128 (d ++ take (128 * n) inp) = [] /\
  buffer S' = buffer S /\ leftover S' = leftover S.
Proof.
  induction n as [|n IH]; intros S d inp Hd Hr Hl Hb.
  { rewrite Nat.mul_0_r, take_0, app_nil_r. done. }
  cbn [sha512_blocks].
  assert (take (128 * Datatypes.S n) inp = take 128 inp ++ take (128 * n) (drop 128 inp)) as ->.
  { rewrite take_drop_commute. replace (128 + 128 * n)%nat with (128 * Datatypes.S n)%nat by lia.
    rewrite <- (take_drop 128 (take (128 * Datatypes.S n) inp)) at 1. f_equal.
    rewrite take_take. f_equal. lia. }
  rewrite app_assoc. set (b := take 128 inp).
  assert (length b = 128%nat) as Hlb by (unfold b; rewrite length_take; lia).
  destruct (rest_whole d b Hd Hlb) as [Hdb Hab].
  assert (length (d ++ b) = length d + 128)%nat as Hldb by (rewrite length_app; lia).
  destruct Hr as [Hc Hbuf HT0 HT1 HT]. rewrite Hd in HT. cbn [length] in HT. rewrite Nat.sub_0_r in HT.
  assert (length d = 128 * (length d / 128))%nat as Hdiv.
  { pose proof (rest_div d) as Hdiv. rewrite Hd in Hdiv. cbn [length] in Hdiv. by rewrite Nat.sub_0_r in Hdiv. }
  set (q := (length d / 128)%nat) in *.
  destruct (count_block (T0 S) (T1 S) (Z.of_nat q) HT0 HT1) as (HT0' & HT1' & HT'); [lia|lia|].
  destruct (IH (mk_sha512 (sha512_block (chain S) inp) (u64 (T0 S + Z.of_nat HASH_BLOCK_SIZE * 8))
      (u64 (T1 S + if u64 (T0 S + Z.of_nat HASH_BLOCK_SIZE * 8) =? 0 then 1 else 0)) (leftover S) (buffer S))
    (d ++ b) (drop HASH_BLOCK_SIZE inp)) as (H1 & H2 & H3 & H4); [done| |rewrite length_drop; unfold HASH_BLOCK_SIZE; lia|lia|].
  { split; cbn [chain buffer T0 T1]; [|done|exact HT0'|exact HT1'|].
    - by rewrite Hab, Hc, (sha512_block_take _ inp).
    - rewrite Hdb, Hldb. cbn [length]. rewrite Nat.sub_0_r. refine (eq_trans HT' _). lia. }
  split; [exact H1|]. split; [exact H2|]. by split.
Qed.

Lemma rep_chain_buffer S d l b :
  rep_chain S d -> length b = 128%nat -> rep_chain (mk_sha512 (chain S) (T0 S) (T1 S) l b) d.
Proof. intros [? ? ? ? ?] Hb. by split. Qed.

Lemma absorb_rest_app d x :
  absorb sha512_block 128 sha512_H0 (d ++ x) =
    absorb sha512_block 128 (absorb sha512_block 128 sha512_H0 d) (rest 128 d ++ x) /\
  rest 128 (d ++ x) = rest 128 (rest 128 d ++ x).
Proof. apply absorb_app. lia. Qed.

Lemma rest_le d : (length (rest 128 d) <= length d)%nat.
Proof. rewrite length_rest by lia. apply Nat.Div0.mod_le. Qed.

(** A piece that does not complete a block. *)
Lemma rep_chain_partial S d x :
  rep_chain S d -> (length (rest 128 d) + length x < 128)%nat ->
  rep_chain S (d ++ x) /\ rest 128 (d ++ x) = rest 128 d ++ x.
Proof.
  intros [Hc Hb H0 H1 HT] Hx. destruct (absorb_rest_app d x) as [Ha Hr].
  destruct (absorb_short sha512_block 128 ltac:(lia) (absorb sha512_block 128 sha512_H0 d) (rest 128 d ++ x))
    as [Ha' Hr']; [rewrite length_app; lia|].
  rewrite Hr' in Hr. rewrite Ha' in Ha. split; [|done]. split; [by rewrite Ha|done|done|done|].
  rewrite HT, Hr, !length_app. pose proof (rest_le d). lia.
Qed.

Lemma whole_blocks n : Z.to_nat (Z.land (Z.of_nat n) (Z.lnot (Z.of_nat HASH_BLOCK_SIZE - 1))) = (128 * (n / 128))%nat.
Proof.
  change (Z.of_nat HASH_BLOCK_SIZE - 1) with (Z.ones 7).
  change (Z.land (Z.of_nat n) (Z.lnot (Z.ones 7))) with (Z.land (Z.of_nat n) (Z.lnot (Z.ones 7))).
  rewrite <- Z.ldiff_land, Z.ldiff_ones_r, Z.shiftl_mul_pow2, Z.shiftr_div_pow2 by lia.
  change (2 ^ 7) with (Z.of_nat 128). rewrite <- Nat2Z.inj_div, <- Nat2Z.inj_mul, Nat2Z.id. lia.
Qed.

Lemma update_current_spec S d inp :
  rest 128 d = [] -> rep_chain S d -> 8 * Z.of_nat (length (d ++ inp)) < 2 ^ 128 ->
  rep (update_current S inp) (d ++ inp).
Proof.
  intros Hd Hr Hb. unfold update_current. rewrite whole_blocks. set (n := (length inp / 128)%nat).
  pose proof (Nat.div_mod_eq (length inp) 128) as Hdm. fold n in Hdm.
  pose proof (Nat.mod_upper_bound (length inp) 128 ltac:(done)) as Hm.
  set (left := (length inp - 128 * n)%nat).
  set (S0 := mk_sha512 (chain S) (T0 S) (T1 S) left (buffer S)).
  set (S1 := if (128 * n =? 0)%nat then S0 else sha512_blocks S0 inp (128 * n / HASH_BLOCK_SIZE)).
  assert (rep_chain S0 d) as Hr0 by (apply rep_chain_buffer; [done|apply Hr]).
  assert (S1 = sha512_blocks S0 inp n) as HS1.
  { unfold S1, HASH_BLOCK_SIZE. rewrite Nat.mul_comm, Nat.div_mul by done. by destruct n. }
  destruct (blocks_spec n S0 d inp Hd Hr0) as (H1 & H2 & H3 & H4); [lia|rewrite length_app in Hb; lia|].
  rewrite <- HS1 in H1, H3, H4. clearbody S1. clear HS1.
  set (tl := drop (128 * n) inp).
  assert (length tl = left) as Hl by (unfold tl; by rewrite length_drop).
  assert (d ++ inp = (d ++ take (128 * n) inp) ++ tl) as ->.
  { rewrite <- app_assoc. unfold tl. by rewrite take_drop. }
  destruct (rep_chain_partial S1 (d ++ take (128 * n) inp) tl H1) as [H5 H6]; [rewrite H2, Hl; cbn [length]; lia|].
  rewrite H2 in H6. cbn [app] in H6. destruct (Nat.eqb_spec left 0) as [E|E].
  - assert (tl = []) as Et by (apply nil_length_inv; lia). split; [done|by rewrite H4, H6, Hl|].
    by rewrite H6, Et, take_0.
  - split.
    + apply rep_chain_buffer; [done|]. rewrite length_memcpy_at, H3. apply Hr0.
    + cbn [leftover]. by rewrite H4, H6, Hl.
    + cbn [buffer]. rewrite H6, (take_ge tl) by lia.
      rewrite memcpy_at_spec by (rewrite H3, (rep_len _ _ Hr0); lia). rewrite take_0, app_nil_l. by apply take_app_length'.
Qed.

Lemma hash_update_spec S d inp :
  rep S d -> 8 * Z.of_nat (length (d ++ inp)) < 2 ^ 128 -> rep (ed25519_hash_update S inp) (d ++ inp).
Proof.
  intros [Hr Hl Hbuf] Hb. unfold ed25519_hash_update. pose proof (rest_lt 128 ltac:(lia) d) as Hlt.
  destruct (Nat.eqb_spec (leftover S) 0) as [E|E].
  { apply update_current_spec; [|done|done]. apply nil_length_inv. lia. }
  rewrite Hl. set (want := Nat.min (HASH_BLOCK_SIZE - length (rest 128 d)) (length inp)).
  set (S0 := mk_sha512 _ _ _ _ _). pose proof (rep_len _ _ Hr) as Hbl.
  assert (length (take want inp) = want) as Hw by (rewrite length_take; lia).
  unfold HASH_BLOCK_SIZE in *.
  assert (buffer S0 = rest 128 d ++ take want inp ++ drop (length (rest 128 d) + want) (buffer S)) as Hb0.
  { unfold S0. cbn [buffer]. rewrite memcpy_at_spec by lia. by rewrite Hbuf, Hw. }
  assert (rep_chain S0 d) as Hr0.
  { apply rep_chain_buffer; [done|]. by rewrite length_memcpy_at. }
  destruct (Nat.ltb_spec (leftover S0) 128) as [Hs|Hs]; cbn [leftover S0] in Hs.
  - assert (want = length inp) as Hwl by lia. rewrite take_ge in Hb0 by lia.
    destruct (rep_chain_partial S0 d inp Hr0) as [H5 H6]; [lia|]. split; [done| |].
    + cbn [leftover S0]. rewrite H6, length_app. lia.
    + rewrite H6, Hb0, app_assoc. by apply take_app_length'.
  - assert (length (rest 128 d) + want = 128)%nat as Hw128 by lia.
    rewrite (drop_ge (buffer S)), app_nil_r in Hb0 by lia.
    assert (d ++ inp = (d ++ take want inp) ++ drop want inp) as Hdi by (by rewrite <- app_assoc, take_drop).
    rewrite Hdi. destruct (absorb_rest_app d (take want inp)) as [Ha Hr1].
    set (b := rest 128 d ++ take want inp) in *.
    assert (length b = 128%nat) as Hlb by (unfold b; rewrite length_app; lia).
    destruct (rest_whole [] b eq_refl Hlb) as [Hrb _]. cbn [app] in Hrb. rewrite Hrb in Hr1.
    destruct (absorb_block sha512_block 128 ltac:(lia) (absorb sha512_block 128 sha512_H0 d) b [] Hlb) as [Hab _].
    rewrite app_nil_r in Hab. rewrite Hab in Ha.
    apply update_current_spec; [done| |by rewrite <- Hdi].
    pose proof (rest_div d) as Hdv. pose proof (rest_div (d ++ take want inp)) as Hdv'.
    destruct Hr0 as [Hc0 Hl0 HT0 HT1 HT].
    destruct (count_block (T0 S0) (T1 S0) (Z.of_nat (length d / 128)) HT0 HT1) as (H0' & H1' & HT'); [lia| |].
    { rewrite Hdi, !length_app in Hb. rewrite Hr1 in Hdv'. cbn [length] in Hdv'. rewrite length_app in Hdv'. lia. }
    cbn [sha512_blocks]. split; cbn [chain buffer T0 T1]; [|done|exact H0'|exact H1'|].
    + rewrite Ha, Hc0, Hb0. done.
    + refine (eq_trans HT' _). rewrite Hr1, length_app. cbn [length]. rewrite Hw. pose proof (rest_le d). lia.
Qed.

Lemma STORE64_spec v : sha512_STORE64_BE v = be_bytes 8 v.
Proof.
  unfold sha512_STORE64_BE, be_bytes. cbn [le_bytes rev app map].
  rewrite !Z.shiftr_shiftr by lia. rewrite Z.shiftr_0_r.
  rewrite !wrap_land by done. done.
Qed.

Lemma be_bytes_16 lo hi : is_u64 lo -> be_bytes 16 (lo + 2 ^ 64 * hi) = be_bytes 8 hi ++ be_bytes 8 lo.
Proof.
  intros Hlo. unfold be_bytes. rewrite (le_bytes_app 8 8), rev_app_distr.
  assert (Z.shiftr (lo + 2 ^ 64 * hi) (8 * Z.of_nat 8) = hi) as ->.
  { rewrite Z.shiftr_div_pow2 by lia. change (8 * Z.of_nat 8) with 64. unfold in_range in Hlo. Z.div_mod_to_equations. lia. }
  f_equal. f_equal. rewrite <- (le_bytes_wrap 8 (lo + _) 64) by lia. f_equal. unfold wrap, in_range in *.
  Z.div_mod_to_equations. lia.
Qed.

(** The padding that follows the incomplete block. *)
Definition pad_tail (d : list Z) : list Z :=
  0x80 :: replicate ((239 - length d `mod` 128) `mod` 128)%nat 0 ++ be_bytes 16 (8 * Z.of_nat (length d)).

Lemma one_block s b : length b = 128%nat -> absorb sha512_block 128 s b = sha512_block s b.
Proof.
  intros Hb. destruct (absorb_block sha512_block 128 ltac:(lia) s b [] Hb) as [H _].
  by rewrite app_nil_r in H.
Qed.

Lemma two_blocks s a b : length a = 128%nat -> length b = 128%nat ->
  absorb sha512_block 128 s (a ++ b) = sha512_block (sha512_block s a) b.
Proof.
  intros Ha Hb. destruct (absorb_block sha512_block 128 ltac:(lia) s a b Ha) as [-> _]. by apply one_block.
Qed.

(** Filling a buffer that starts with [a] up to its end. *)
Lemma fill_from buf a src :
  take (length a) buf = a -> (length a + length src = length buf)%nat ->
  memcpy_at buf (length a) src = a ++ src.
Proof.
  intros Ha Hl. rewrite memcpy_at_spec, Ha by lia. f_equal. rewrite drop_ge by lia. apply app_nil_r.
Qed.

Lemma memset_memcpy dst off n v : memset_at dst off n v = memcpy_at dst off (replicate n v).
Proof. done. Qed.

Lemma length_be n x : length (be_bytes n x) = n.
Proof. unfold be_bytes. by rewrite length_rev, length_le_bytes. Qed.

(** The writes of [ed25519_hash_final] into one buffer of 128 bytes. *)
Lemma final_short buf a x y :
  take (length a) buf = a -> length buf = 128%nat -> (length a <= 111)%nat ->
  memcpy_at (memcpy_at (memset_at (memcpy_at buf (length a) [0x80]) (length a + 1) (111 - length a) 0)
    112 (be_bytes 8 x)) 120 (be_bytes 8 y) =
  a ++ 0x80 :: replicate (111 - length a) 0 ++ be_bytes 8 x ++ be_bytes 8 y.
Proof.
  intros Ha Hl Hs. rewrite memset_memcpy.
  rewrite (memcpy_at_join buf) by (cbn [length]; lia).
  rewrite (memcpy_at_join buf) by (rewrite length_app, length_replicate; cbn [length]; lia).
  rewrite (memcpy_at_join buf) by (rewrite !length_app, length_be, length_replicate; cbn [length]; lia).
  rewrite <- !app_assoc. cbn [app]. apply fill_from; [done|]. cbn [length].
  rewrite !length_app, !length_be, length_replicate. lia.
Qed.

Lemma final_long buf a :
  take (length a) buf = a -> length buf = 128%nat -> (length a < 128)%nat ->
  memset_at (memcpy_at buf (length a) [0x80]) (length a + 1) (127 - length a) 0 =
  a ++ 0x80 :: replicate (127 - length a) 0.
Proof.
  intros Ha Hl Hs. rewrite memset_memcpy. rewrite (memcpy_at_join buf) by (cbn [length]; lia).
  cbn [app]. apply fill_from; [done|]. cbn [length]. rewrite length_replicate. lia.
Qed.

Lemma final_last buf x y :
  length buf = 128%nat ->
  memcpy_at (memcpy_at (memset_at buf 0 112 0) 112 (be_bytes 8 x)) 120 (be_bytes 8 y) =
  replicate 112 0 ++ be_bytes 8 x ++ be_bytes 8 y.
Proof.
  intros Hl. rewrite memset_memcpy.
  rewrite (memcpy_at_join buf) by (by rewrite length_replicate).
  rewrite (memcpy_at_join buf) by (by rewrite length_app, length_be, length_replicate).
  rewrite <- app_assoc. apply (fill_from buf []); [done|].
  rewrite !length_app, !length_be, length_replicate. done.
Qed.

Lemma final_blocks_spec S d :
  rep S d -> 8 * Z.of_nat (length d) < 2 ^ 128 ->
  chain (hash_final_blocks S) = absorb sha512_block 128 sha512_H0 (sha512_pad d).
Proof.
  intros [Hr Hl Hbuf] Hb. unfold hash_final_blocks. rewrite Hl.
  pose proof (rest_lt 128 ltac:(lia) d) as Hlt. pose proof (rest_div d) as Hdv. pose proof (rest_le d) as Hle.
  destruct Hr as [Hc Hlen HT0 HT1 HT]. rewrite Hdv in HT.
  assert (u64 (T0 S + Z.of_nat (length (rest 128 d)) * 8) = T0 S + Z.of_nat (length (rest 128 d)) * 8) as ->.
  { apply wrap_id. unfold in_range in *. Z.div_mod_to_equations. lia. }
  assert (be_bytes 8 (T1 S) ++ be_bytes 8 (T0 S + Z.of_nat (length (rest 128 d)) * 8) =
          be_bytes 16 (8 * Z.of_nat (length d))) as Hbits.
  { rewrite <- be_bytes_16; [f_equal; lia|]. unfold in_range in *. Z.div_mod_to_equations. lia. }
  rewrite !STORE64_spec.
  change (sha512_pad d) with (d ++ pad_tail d).
  destruct (absorb_rest_app d (pad_tail d)) as [-> _]. rewrite <- Hc. unfold pad_tail.
  rewrite <- (length_rest 128) by lia. rewrite <- Hbits.
  cbn [set_buffer leftover buffer]. rewrite Hl. destruct (Nat.leb_spec (length (rest 128 d)) 111) as [Hs|Hs].
  - cbn [set_buffer leftover buffer chain sha512_blocks]. rewrite final_short by done.
    replace ((239 - length (rest 128 d)) mod 128)%nat with (111 - length (rest 128 d))%nat.
    2:{ replace (239 - length (rest 128 d))%nat with (111 - length (rest 128 d) + 1 * 128)%nat by lia.
        rewrite Nat.Div0.mod_add, Nat.mod_small by lia. done. }
    rewrite one_block; [done|]. rewrite length_app. cbn [length].
    rewrite !length_app, !length_be, length_replicate. lia.
  - cbn [set_buffer leftover buffer chain sha512_blocks]. rewrite final_long by (done || lia).
    rewrite final_last.
    2:{ rewrite length_app. cbn [length]. rewrite length_replicate. lia. }
    rewrite Nat.mod_small by lia.
    replace (239 - length (rest 128 d))%nat with (127 - length (rest 128 d) + 112)%nat by lia.
    rewrite replicate_add, <- (app_assoc (replicate _ 0)), app_comm_cons, (app_assoc (rest 128 d)), two_blocks;
      [done| |].
    + rewrite length_app. cbn [length]. rewrite length_replicate. lia.
    + rewrite !length_app, !length_be, length_replicate. done.
Qed.

Lemma final_spec S d :
  rep S d -> 8 * Z.of_nat (length d) < 2 ^ 128 -> ed25519_hash_final S = sha512 d.
Proof.
  intros Hr Hb. rewrite sha512_is_fold. unfold ed25519_hash_final. cbv zeta. rewrite (final_blocks_spec S d Hr Hb). f_equal.
  apply map_ext. intros i. apply STORE64_spec.
Qed.

Lemma sha512_rep_init S : length (buffer S) = 128%nat -> rep (ed25519_hash_init S) [].
Proof.
  intros Hl. assert (rest 128 [] = []) as Hr by done. split; [|done|done].
  split; [done|done|done|done|]. cbn [T0 T1 ed25519_hash_init]. by rewrite Hr.
Qed.

(** C39. SHA-512: whatever the context held and however the message is cut
    into pieces, the 64 bytes produced are the digest that FIPS 180-4 defines
    for the whole message, of less than 2^128 bits. *)
Theorem ed25519_hash_stream S pieces :
  length (buffer S) = 128%nat -> 8 * Z.of_nat (length (concat pieces)) < 2 ^ 128 ->
  ed25519_hash_final (foldl ed25519_hash_update (ed25519_hash_init S) pieces) = Fips180_4.sha512 (concat pieces).
Proof.
  intros Hl Hb.
  assert (forall d S, rep S d -> 8 * Z.of_nat (length (d ++ concat pieces)) < 2 ^ 128 ->
            rep (foldl ed25519_hash_update S pieces) (d ++ concat pieces)) as Hrun.
  { clear Hb. induction pieces as [|x pieces IH]; intros d S1 Hr Hb; cbn [foldl concat].
    - by rewrite app_nil_r.
    - rewrite app_assoc. cbn [concat] in Hb. rewrite app_assoc in Hb. apply IH; [|done].
      apply hash_update_spec; [done|]. rewrite length_app in Hb. lia. }
  apply final_spec; [|done]. apply (Hrun []); [by apply sha512_rep_init|done].
Qed.

Lemma ed25519_hash_spec S d :
  length (buffer S) = 128%nat -> 8 * Z.of_nat (length d) < 2 ^ 128 -> ed25519_hash S d = sha512 d.
Proof.
  intros Hl Hb. unfold ed25519_hash. apply final_spec; [|done].
  apply (hash_update_spec _ []); [by apply sha512_rep_init|done].
Qed.

Lemma sha512_length d : length (sha512 d) = HASH_DIGEST_SIZE.
Proof. rewrite sha512_is_fold, length_concat, map_map. rewrite (map_ext _ (fun _ => 8%nat)) by (intros; apply length_be). done. Qed.

Lemma sha512_bytes d : bytes (sha512 d).
Proof. unfold sha512. apply Forall_concat, Forall_fmap, Forall_forall. intros i _. apply bytes_be_bytes. Qed.

(** The message "a", then "bc". *)
Lemma ed25519_hash_stream_witness :
  ed25519_hash_final (foldl ed25519_hash_update
    (ed25519_hash_init (mk_sha512 [] 0 0 0 (replicate 128 0))) [[97]; [98; 99]]) = sha512 [97; 98; 99].
Proof.
  refine (ed25519_hash_stream (mk_sha512 [] 0 0 0 (replicate 128 0)) [[97]; [98; 99]] eq_refl _).
  reflexivity.
Defined.
