(* ===== verification/GecKe.v ===== *)
(** * The station-to-station key exchange

    GEC-block/src/gec-ke.c and the asymmetric wrappers of gec.c.  The curve
    operations (curve25519-donna.c and ed25519.c) are the interface [Curve],
    with what the protocol relies on as the laws [CurveLaws]; the hash, the key
    derivation, the encryption of the signatures and the state of the
    protocol are those of the code. *)

From stdpp Require Import relations.
From S2P Require Import Prelude Aes Gf128 Gcm GcmSpec AesModes Gec Sha512Spec Sha512.

Local Open Scope Z_scope.

(** ** The interface of the curves *)

Class Curve := {
  (** [curve25519_donna(out, secret, point)] *)
  curve25519_donna : list Z -> list Z -> list Z;
  ed25519_publickey : list Z -> list Z;
  (** message, secret key, public key *)
  ed25519_sign : list Z -> list Z -> list Z -> list Z;
  (** message, public key, signature; 0 when the signature is good *)
  ed25519_sign_open : list Z -> list Z -> list Z -> Z;
}.

Definition key32 (k : list Z) : Prop := bytes k /\ length k = 32%nat.

Definition basepoint : list Z := 9 :: replicate 31 0.

(** Diffie-Hellman agreement on the x-coordinate and the correctness of the
    signature scheme. *)
Class CurveLaws `{Curve} := {
  donna_key32 : forall s p, key32 s -> key32 p -> key32 (curve25519_donna s p);
  donna_agree : forall a b, key32 a -> key32 b ->
    curve25519_donna a (curve25519_donna b basepoint) = curve25519_donna b (curve25519_donna a basepoint);
  sign_length : forall m s p, bytes (ed25519_sign m s p) /\ length (ed25519_sign m s p) = 64%nat;
  sign_opens : forall m s, key32 s ->
    ed25519_sign_open m (ed25519_publickey s) (ed25519_sign m s (ed25519_publickey s)) = 0;
}.

Definition GEC_SIG_LEN : nat := 64.
Definition GEC_PUB_KEY_LEN : nat := 32.
Definition GEC_PRIV_KEY_LEN : nat := 32.
Definition GEC_PUB_EPHEMERAL_KEY_LEN : nat := 32.
Definition GEC_SECRET_BYTES_LEN : nat := 32.

Record gec_privkey := mk_privkey { priv : list Z; privpub : list Z }.
Record gec_pubkey := mk_pubkey { pub : list Z }.

Section gec_asym.
Context `{Curve}.

Definition gec_mk_privkey (privkey pubkey : list Z) : gec_privkey := mk_privkey privkey pubkey.
Definition gec_mk_pubkey (pubkey : list Z) : gec_pubkey := mk_pubkey pubkey.

Definition gec_generate_sign_keypair (q : gec_privkey) (p : gec_pubkey) : gec_privkey * gec_pubkey :=
  let p := mk_pubkey (ed25519_publickey (priv q)) in
  (mk_privkey (priv q) (pub p), p).

Definition gec_sign (k : gec_privkey) (msg : list Z) : list Z := ed25519_sign msg (priv k) (privpub k).

Definition gec_verify (k : gec_pubkey) (msg sig : list Z) : Z :=
  let ed_ret := ed25519_sign_open msg (pub k) sig in
  if ed_ret =? 0 then GEC_SUCCESS else GEC_ERROR_INVALID.

Definition gec_generate_ephemeral_keypair (gec_ephemeral_priv : list Z) : list Z :=
  curve25519_donna gec_ephemeral_priv basepoint.

Definition gec_ecdh (pub_asym priv_asym : list Z) : list Z := curve25519_donna priv_asym pub_asym.
End gec_asym.

(** The context on the stack holds anything; [ed25519_hash_spec] shows that it
    does not matter. *)
Definition gec_hash (input : list Z) : list Z :=
  ed25519_hash (mk_sha512 [] 0 0 0 (replicate HASH_BLOCK_SIZE 0)) input.

(** ** gec-ke.h *)

Definition KEY_MATERIAL_LEN : nat := 2 * GEC_RAW_KEY_LEN.
Definition EPHEMERAL_PUBLICKEY_LEN : nat := GEC_PUB_EPHEMERAL_KEY_LEN.
Definition AUTH_DATA_LEN : nat := GEC_SIG_LEN.
Definition MSG_1_LEN : nat := EPHEMERAL_PUBLICKEY_LEN.
Definition MSG_2_LEN : nat := EPHEMERAL_PUBLICKEY_LEN + AUTH_DATA_LEN.
Definition MSG_3_LEN : nat := AUTH_DATA_LEN.
Definition RANDOM_DATA_LEN : nat := 32.

Inductive stage_t := INVALID_STAGE | READY_STAGE | MESSAGE_1_DONE | MESSAGE_2_DONE.
Inductive party_t := INITIATOR | RESPONDER | CLIENT | INVALID_PARTY.

#[export] Instance stage_t_eq_dec : EqDecision stage_t.
Proof. solve_decision. Defined.
#[export] Instance party_t_eq_dec : EqDecision party_t.
Proof. solve_decision. Defined.

(** The value of the enumeration constant, passed as a byte to [kdf]. *)
Definition party_byte (p : party_t) : Z :=
  match p with INITIATOR => 0 | RESPONDER => 1 | CLIENT => 2 | INVALID_PARTY => 3 end.

Record gec_sts_ctx := mk_sts {
  myPublicKey : gec_pubkey;
  myPrivateKey : gec_privkey;
  theirPublicKey : gec_pubkey;
  myPublicKey_ephemeral : list Z;
  myPrivateKey_ephemeral : list Z;
  theirPublicKey_ephemeral : list Z;
  myKCK : gec_sym_key_conf;
  theirKCK : gec_sym_key_conf;
  client_key_material : list Z;
  protocol_stage : stage_t;
  party : party_t;
}.

Definition THEIR_PARTY (ctx : gec_sts_ctx) : party_t :=
  if decide (party ctx = INITIATOR) then RESPONDER else INITIATOR.

(** Assignments to groups of fields. *)
Definition set_stage (s : stage_t) (p : party_t) (c : gec_sts_ctx) : gec_sts_ctx :=
  mk_sts (myPublicKey c) (myPrivateKey c) (theirPublicKey c) (myPublicKey_ephemeral c)
    (myPrivateKey_ephemeral c) (theirPublicKey_ephemeral c) (myKCK c) (theirKCK c)
    (client_key_material c) s p.
Definition set_my_ephemeral (pb pr : list Z) (c : gec_sts_ctx) : gec_sts_ctx :=
  mk_sts (myPublicKey c) (myPrivateKey c) (theirPublicKey c) pb pr
    (theirPublicKey_ephemeral c) (myKCK c) (theirKCK c) (client_key_material c) (protocol_stage c) (party c).
Definition set_their_ephemeral (k : list Z) (c : gec_sts_ctx) : gec_sts_ctx :=
  mk_sts (myPublicKey c) (myPrivateKey c) (theirPublicKey c) (myPublicKey_ephemeral c)
    (myPrivateKey_ephemeral c) k (myKCK c) (theirKCK c) (client_key_material c) (protocol_stage c) (party c).
Definition set_kcks (m t : gec_sym_key_conf) (c : gec_sts_ctx) : gec_sts_ctx :=
  mk_sts (myPublicKey c) (myPrivateKey c) (theirPublicKey c) (myPublicKey_ephemeral c)
    (myPrivateKey_ephemeral c) (theirPublicKey_ephemeral c) m t (client_key_material c) (protocol_stage c) (party c).
Definition set_material (k : list Z) (c : gec_sts_ctx) : gec_sts_ctx :=
  mk_sts (myPublicKey c) (myPrivateKey c) (theirPublicKey c) (myPublicKey_ephemeral c)
    (myPrivateKey_ephemeral c) (theirPublicKey_ephemeral c) (myKCK c) (theirKCK c) k (protocol_stage c) (party c).

(** ** gec-ke.c *)

(** [memset(&k, 0, GEC_RAW_KEY_LEN)]: the first 24 bytes of the structure, which
    are the first six words of the key schedule. *)
Definition memset_kck (k : gec_sym_key_conf) : gec_sym_key_conf :=
  mk_sym_key_conf (mk_aes_ctx (memset_at (ks (cctx k)) 0 (GEC_RAW_KEY_LEN / 4) 0) (inf_b (cctx k)))
    (csalt k) (cctr k).

Definition reset_ctx (c : gec_sts_ctx) : gec_sts_ctx :=
  mk_sts (myPublicKey c) (myPrivateKey c) (theirPublicKey c)
    (zeros (myPublicKey_ephemeral c)) (zeros (myPrivateKey_ephemeral c)) (zeros (theirPublicKey_ephemeral c))
    (memset_kck (myKCK c)) (memset_kck (theirKCK c)) (zeros (client_key_material c))
    READY_STAGE INVALID_PARTY.

(** [myPrivateKey] has 64 bytes, of which the secret half is cleared. *)
Definition clear_ctx (c : gec_sts_ctx) : gec_sts_ctx :=
  mk_sts (mk_pubkey (zeros (pub (myPublicKey c))))
    (mk_privkey (zeros (priv (myPrivateKey c))) (privpub (myPrivateKey c)))
    (mk_pubkey (zeros (pub (theirPublicKey c))))
    (zeros (myPublicKey_ephemeral c)) (zeros (myPrivateKey_ephemeral c)) (zeros (theirPublicKey_ephemeral c))
    (memset_kck (myKCK c)) (memset_kck (theirKCK c)) (zeros (client_key_material c))
    INVALID_STAGE INVALID_PARTY.

Definition PUT16be (ptr : list Z) (cnt : Z) : list Z :=
  wr (wr ptr 1 (Z.land cnt 0xFF)) 0 (Z.land (Z.shiftr cnt 8) 0xFF).

(** The loop over [count]; the results in the order of [result]. *)
Fixpoint kdf_loop (nrReps : nat) (count bytes_remaining : Z) (hash_input : list Z) : list Z :=
  match nrReps with
  | O => []
  | S nrReps =>
      let hash_input := PUT16be hash_input count in
      let h := gec_hash hash_input in
      (if Z.of_nat HASH_DIGEST_SIZE <? bytes_remaining then h else take (Z.to_nat bytes_remaining) h) ++
      kdf_loop nrReps (u16 (count + 1)) (u32 (bytes_remaining - Z.of_nat HASH_DIGEST_SIZE)) hash_input
  end.

Definition kdf (result_size : nat) (secret : list Z) (pb : Z) : list Z :=
  let nrReps := ((result_size + HASH_DIGEST_SIZE - 1) / HASH_DIGEST_SIZE)%nat in
  kdf_loop nrReps 0 (Z.of_nat result_size) ([0; 0] ++ take GEC_SECRET_BYTES_LEN secret ++ [pb]).

Definition derive_key_materials (c : gec_sts_ctx) (secret : list Z) : gec_sts_ctx :=
  let tmp := kdf GEC_RAW_KEY_LEN secret (party_byte (party c)) in
  let mine := gec_init_sym_key_conf (myKCK c) tmp in
  let tmp := kdf GEC_RAW_KEY_LEN secret (party_byte (THEIR_PARTY c)) in
  let theirs := gec_init_sym_key_conf (theirKCK c) tmp in
  set_material (kdf KEY_MATERIAL_LEN secret (party_byte CLIENT)) (set_kcks mine theirs c).

Section protocol.
Context `{Curve}.

(** The result and the context, whose [theirKCK] has been used. *)
Definition verify (al : bool) (c : gec_sts_ctx) (msg : list Z) : Z * gec_sts_ctx :=
  let signed_contents := theirPublicKey_ephemeral c ++ myPublicKey_ephemeral c in
  let '(_, sig, k) := gec_decrypt_conf al (theirKCK c) msg (replicate AUTH_DATA_LEN 0) in
  (gec_verify (theirPublicKey c) signed_contents sig, set_kcks (myKCK c) k c).

Definition generate (random_data : list Z) (sk : gec_privkey) (pk : gec_pubkey) : gec_privkey * gec_pubkey :=
  gec_generate_sign_keypair (mk_privkey random_data (privpub sk)) pk.

Definition init_context (c : gec_sts_ctx) (mypub : gec_pubkey) (mypriv : gec_privkey) (theirpub : gec_pubkey)
    : gec_sts_ctx :=
  mk_sts mypub mypriv theirpub (myPublicKey_ephemeral c) (myPrivateKey_ephemeral c)
    (theirPublicKey_ephemeral c) (myKCK c) (theirKCK c) (client_key_material c) READY_STAGE INVALID_PARTY.

Definition reset_partner (c : gec_sts_ctx) (theirpub : gec_pubkey) : gec_sts_ctx :=
  reset_ctx (mk_sts (myPublicKey c) (myPrivateKey c) theirpub (myPublicKey_ephemeral c)
    (myPrivateKey_ephemeral c) (theirPublicKey_ephemeral c) (myKCK c) (theirKCK c)
    (client_key_material c) (protocol_stage c) (party c)).

(** The messages and the key material are buffers of the caller. *)
Definition initiate_sts (msg1 : list Z) (c : gec_sts_ctx) (random_data : list Z)
    : Z * list Z * gec_sts_ctx :=
  if decide (protocol_stage c = READY_STAGE) then
    let c := set_my_ephemeral (gec_generate_ephemeral_keypair random_data) random_data c in
    let msg1 := memcpy_at msg1 0 (myPublicKey_ephemeral c) in
    (0, msg1, set_stage MESSAGE_1_DONE INITIATOR c)
  else (-1, msg1, c).

Definition respond_sts (al : bool) (msg1 msg2 : list Z) (c : gec_sts_ctx) (random_data : list Z)
    : Z * list Z * gec_sts_ctx :=
  if decide (protocol_stage c = READY_STAGE) then
    let c := set_stage (protocol_stage c) RESPONDER c in
    let c := set_my_ephemeral (gec_generate_ephemeral_keypair random_data) random_data c in
    let c := set_their_ephemeral (take EPHEMERAL_PUBLICKEY_LEN msg1) c in
    let z := gec_ecdh (theirPublicKey_ephemeral c) (myPrivateKey_ephemeral c) in
    let c := derive_key_materials c z in
    let msg2 := memcpy_at msg2 0 (myPublicKey_ephemeral c) in
    let unsigned_data := myPublicKey_ephemeral c ++ theirPublicKey_ephemeral c in
    let sig := gec_sign (myPrivateKey c) unsigned_data in
    let '(_, enc, k) := gec_encrypt_conf al (myKCK c) sig (drop EPHEMERAL_PUBLICKEY_LEN msg2) in
    let msg2 := take EPHEMERAL_PUBLICKEY_LEN msg2 ++ enc in
    let c := set_kcks k (theirKCK c) c in
    (0, msg2, set_stage MESSAGE_2_DONE (party c) c)
  else (-1, msg2, c).

Definition response_ack_sts (al1 al2 : bool) (msg2 msg3 : list Z) (c : gec_sts_ctx) (key_material : list Z)
    : Z * list Z * list Z * gec_sts_ctx :=
  if decide (protocol_stage c = MESSAGE_1_DONE) then
    let c := set_their_ephemeral (take EPHEMERAL_PUBLICKEY_LEN msg2) c in
    let z := gec_ecdh (theirPublicKey_ephemeral c) (myPrivateKey_ephemeral c) in
    let c := derive_key_materials c z in
    let '(sig_result, c) := verify al1 c (slice EPHEMERAL_PUBLICKEY_LEN AUTH_DATA_LEN msg2) in
    if negb (sig_result =? 0) then (-1, msg3, key_material, c)
    else
      let unsigned_data := myPublicKey_ephemeral c ++ theirPublicKey_ephemeral c in
      let sig := gec_sign (myPrivateKey c) unsigned_data in
      let '(_, msg3, k) := gec_encrypt_conf al2 (myKCK c) sig msg3 in
      let c := set_kcks k (theirKCK c) c in
      let key_material := memcpy_at key_material 0 (client_key_material c) in
      (0, msg3, key_material, reset_ctx c)
  else (-1, msg3, key_material, c).

Definition finish_sts (al : bool) (msg3 : list Z) (c : gec_sts_ctx) (key_material : list Z)
    : Z * list Z * gec_sts_ctx :=
  if decide (protocol_stage c = MESSAGE_2_DONE) then
    let '(r, c) := verify al c (take MSG_3_LEN msg3) in
    if negb (r =? 0) then (-1, key_material, c)
    else
      let key_material := memcpy_at key_material 0 (client_key_material c) in
      (0, key_material, reset_ctx c)
  else (-1, key_material, c).
End protocol.

(** ** Key derivation *)

#[local] Opaque Fips.cipher Fips180_4.sha512 ed25519_hash.

Lemma gec_hash_spec d : 8 * Z.of_nat (length d) < 2 ^ 128 -> gec_hash d = Fips180_4.sha512 d.
Proof. intros Hd. apply ed25519_hash_spec; [apply length_replicate|done]. Qed.

(** One hash is enough for the sizes the protocol derives: the derived bytes
    are a prefix of SHA-512 of a counter of zero, the secret and the party. *)
Lemma kdf_spec n secret pb :
  (0 < n <= 64)%nat -> length secret = 32%nat ->
  kdf n secret pb = take n (Fips180_4.sha512 ([0; 0] ++ secret ++ [pb])).
Proof.
  intros Hn Hs. unfold kdf, HASH_DIGEST_SIZE.
  assert ((n + 64 - 1) / 64 = 1)%nat as ->.
  { replace (n + 64 - 1)%nat with (n - 1 + 1 * 64)%nat by lia. rewrite Nat.div_add, Nat.div_small by lia. done. }
  cbn [kdf_loop]. rewrite app_nil_r, (take_ge secret) by (rewrite Hs; unfold GEC_SECRET_BYTES_LEN; lia).
  change (PUT16be ([0; 0] ++ secret ++ [pb]) 0) with ([0; 0] ++ secret ++ [pb]).
  rewrite gec_hash_spec by (rewrite !length_app, Hs; done).
  change (Z.of_nat HASH_DIGEST_SIZE) with 64. destruct (Z.ltb_spec 64 (Z.of_nat n)); [lia|]. by rewrite Nat2Z.id.
Qed.

Lemma kdf_bytes n secret pb :
  (0 < n <= 64)%nat -> length secret = 32%nat ->
  bytes (kdf n secret pb) /\ length (kdf n secret pb) = n.
Proof.
  intros Hn Hs. rewrite kdf_spec by done. split; [apply bytes_take, sha512_bytes|].
  rewrite length_take, sha512_length. unfold HASH_DIGEST_SIZE. lia.
Qed.

(** ** The keys that protect the signatures *)

Definition wf_kck (k : gec_sym_key_conf) : Prop := length (ks (cctx k)) = KS_LENGTH.

Definition blank_kck : gec_sym_key_conf :=
  mk_sym_key_conf (mk_aes_ctx (replicate KS_LENGTH 0) [0; 0; 0; 0]) [] 0.

(** The key made from the secret [z] for the messages of party [p]; it does
    not depend on the memory it is made in. *)
Definition kck_of (z : list Z) (p : party_t) : gec_sym_key_conf :=
  gec_init_sym_key_conf blank_kck (kdf GEC_RAW_KEY_LEN z (party_byte p)).

Lemma init_kck k z p :
  wf_kck k -> length z = 32%nat ->
  gec_init_sym_key_conf k (kdf GEC_RAW_KEY_LEN z (party_byte p)) = kck_of z p.
Proof.
  intros Hw Hz. unfold kck_of, gec_init_sym_key_conf.
  destruct (kdf_bytes GEC_RAW_KEY_LEN z (party_byte p) ltac:(unfold GEC_RAW_KEY_LEN, GEC_SALT_LEN, GEC_SYM_CIPHER_KEY_LEN; lia) Hz) as [Hb Hl].
  set (raw := kdf _ _ _) in *.
  assert (block (take GEC_SYM_CIPHER_KEY_LEN raw)) as Hk.
  { split; [by apply bytes_take|]. rewrite length_take, Hl. done. }
  destruct (key_schedule _ (cctx k) Hk Hw) as [E1 E2].
  destruct (key_schedule _ (cctx blank_kck) Hk (length_replicate _ _)) as [F1 F2].
  destruct (aes_encrypt_key128 (take GEC_SYM_CIPHER_KEY_LEN raw) (cctx k)) as [k1 i1].
  destruct (aes_encrypt_key128 (take GEC_SYM_CIPHER_KEY_LEN raw) (cctx blank_kck)) as [k2 i2].
  cbn [ks inf_b] in *. by subst.
Qed.

Lemma kck_of_keyed z p :
  length z = 32%nat -> exists key, block key /\ conf_keyed key 0 (kck_of z p) /\ cctr (kck_of z p) = 0.
Proof.
  intros Hz.
  destruct (kdf_bytes GEC_RAW_KEY_LEN z (party_byte p) ltac:(unfold GEC_RAW_KEY_LEN, GEC_SALT_LEN, GEC_SYM_CIPHER_KEY_LEN; lia) Hz) as [Hb Hl].
  unfold kck_of, gec_init_sym_key_conf. set (raw := kdf _ _ _) in *.
  assert (block (take GEC_SYM_CIPHER_KEY_LEN raw)) as Hk.
  { split; [by apply bytes_take|]. rewrite length_take, Hl. done. }
  exists (take GEC_SYM_CIPHER_KEY_LEN raw). split; [done|]. split; [|done]. split; [|lia].
  exists (cctx blank_kck). split; [apply length_replicate|]. cbn [cctx].
  destruct (key_schedule _ (cctx blank_kck) Hk (length_replicate _ _)) as [_ F2].
  destruct (aes_encrypt_key128 _ _) as [k2 i2]. cbn [inf_b] in F2. by subst i2.
Qed.

Lemma length_ke4 l : forall k ss, length (foldl ke4 (k, ss) l).1 = length k.
Proof.
  induction l as [|i l IH]; intros k ss; [done|]. cbn [foldl]. unfold ke4 at 2. cbv zeta.
  rewrite IH. by rewrite !length_wr.
Qed.

Lemma length_key_schedule key cx : length (ks (aes_encrypt_key128 key cx)) = length (ks cx).
Proof.
  unfold aes_encrypt_key128.
  pose proof (length_ke4 [0; 1; 2; 3; 4; 5; 6; 7; 8; 9]
    (wr (wr (wr (wr (ks cx) 0 (rd [word_in key 0; word_in key 1; word_in key 2; word_in key 3] 0)) 1
      (rd [word_in key 0; word_in key 1; word_in key 2; word_in key 3] 1)) 2
      (rd [word_in key 0; word_in key 1; word_in key 2; word_in key 3] 2)) 3
      (rd [word_in key 0; word_in key 1; word_in key 2; word_in key 3] 3))
    [word_in key 0; word_in key 1; word_in key 2; word_in key 3]) as Hl.
  destruct (foldl ke4 _ _) as [k ss]. cbn [fst ks] in *. by rewrite Hl, !length_wr.
Qed.

Lemma conf_keyed_wf key p k : conf_keyed key p k -> wf_kck k.
Proof.
  intros [(cx0 & Hl & E) _]. unfold wf_kck. by rewrite E, set_inf_pos_ks, length_key_schedule.
Qed.

(** ** The states of the protocol *)

Section invariant.
Context `{CurveLaws}.

(** The shared secret and what is derived from it for the caller. *)
Definition secret_of (c : gec_sts_ctx) : list Z :=
  curve25519_donna (myPrivateKey_ephemeral c) (theirPublicKey_ephemeral c).
Definition material_of (c : gec_sts_ctx) : list Z := kdf KEY_MATERIAL_LEN (secret_of c) (party_byte CLIENT).

(** The memory of a context: arrays of their sizes. *)
Record wf_sts (c : gec_sts_ctx) : Prop := {
  wf_my_kck : wf_kck (myKCK c);
  wf_their_kck : wf_kck (theirKCK c);
  wf_material : length (client_key_material c) = KEY_MATERIAL_LEN;
}.

(** An ephemeral key pair is in place. *)
Definition has_ephemeral (c : gec_sts_ctx) : Prop :=
  key32 (myPrivateKey_ephemeral c) /\
  myPublicKey_ephemeral c = curve25519_donna (myPrivateKey_ephemeral c) basepoint.

Record sts_inv (c : gec_sts_ctx) : Prop := {
  inv_wf : wf_sts c;
  inv_message_1 : protocol_stage c = MESSAGE_1_DONE -> has_ephemeral c /\ party c = INITIATOR;
  inv_message_2 : protocol_stage c = MESSAGE_2_DONE ->
    has_ephemeral c /\ party c = RESPONDER /\ key32 (theirPublicKey_ephemeral c) /\
    client_key_material c = material_of c /\
    exists key p, block key /\ conf_keyed key p (theirKCK c);
}.

(** One call of the interface, with any inputs of the right sizes. *)
Inductive sts_step (c : gec_sts_ctx) : gec_sts_ctx -> Prop :=
| step_initiate msg1 r : key32 r -> sts_step c (initiate_sts msg1 c r).2
| step_respond al msg1 msg2 r :
    bytes msg1 -> length msg1 = MSG_1_LEN -> length msg2 = MSG_2_LEN -> key32 r ->
    sts_step c (respond_sts al msg1 msg2 c r).2
| step_response_ack al1 al2 msg2 msg3 km :
    bytes msg2 -> length msg2 = MSG_2_LEN -> length msg3 = MSG_3_LEN ->
    sts_step c (response_ack_sts al1 al2 msg2 msg3 c km).2
| step_finish al msg3 km :
    bytes msg3 -> length msg3 = MSG_3_LEN -> sts_step c (finish_sts al msg3 c km).2
| step_reset : sts_step c (reset_ctx c)
| step_clear : sts_step c (clear_ctx c)
| step_reset_partner p : sts_step c (reset_partner c p)
| step_init pk sk p : sts_step c (init_context c pk sk p).

(** A context that [init_context] has filled, and what can become of it. *)
Definition sts_start (c : gec_sts_ctx) : Prop :=
  exists c0 pk sk p, wf_sts c0 /\ c = init_context c0 pk sk p.
Definition sts_reachable (c : gec_sts_ctx) : Prop := exists c0, sts_start c0 /\ rtc sts_step c0 c.

Lemma key32_take msg : bytes msg -> (32 <= length msg)%nat -> key32 (take EPHEMERAL_PUBLICKEY_LEN msg).
Proof. intros Hb Hl. split; [by apply bytes_take|]. rewrite length_take. unfold EPHEMERAL_PUBLICKEY_LEN, GEC_PUB_EPHEMERAL_KEY_LEN. lia. Qed.

Lemma basepoint_key32 : key32 basepoint.
Proof. split; [decide_true|done]. Qed.

Lemma wf_memset_kck k : wf_kck k -> wf_kck (memset_kck k).
Proof. intros Hk. unfold wf_kck, memset_kck. cbn [cctx ks]. unfold memset_at. by rewrite length_inserts. Qed.

Lemma wf_reset c : wf_sts c -> wf_sts (reset_ctx c).
Proof.
  intros [H1 H2 H3]. split; [by apply wf_memset_kck|by apply wf_memset_kck|].
  cbn. unfold zeros. by rewrite length_replicate.
Qed.

Lemma ready_inv c : wf_sts c -> protocol_stage c = READY_STAGE \/ protocol_stage c = INVALID_STAGE -> sts_inv c.
Proof. intros Hw Hs. split; [done|..]; intros E; destruct Hs; congruence. Qed.

Lemma kdf_material_length z : length z = 32%nat -> length (kdf KEY_MATERIAL_LEN z (party_byte CLIENT)) = KEY_MATERIAL_LEN.
Proof. intros Hz. apply kdf_bytes; [|done]. unfold KEY_MATERIAL_LEN, GEC_RAW_KEY_LEN, GEC_SALT_LEN, GEC_SYM_CIPHER_KEY_LEN. lia. Qed.

(** After [derive_key_materials] both keys are those of the secret. *)
Lemma derive_spec c z :
  wf_sts c -> length z = 32%nat ->
  derive_key_materials c z =
    set_material (kdf KEY_MATERIAL_LEN z (party_byte CLIENT))
      (set_kcks (kck_of z (party c)) (kck_of z (THEIR_PARTY c)) c).
Proof.
  intros Hw Hz. unfold derive_key_materials. rewrite !init_kck by (done || apply Hw). done.
Qed.

(** A use of a key leaves a key, when the message is within the counter. *)
Lemma conf_use key p al k x out :
  block key -> conf_keyed key p k -> bytes x -> length out = length x ->
  exists p', conf_keyed key p' (gec_encrypt_conf al k x out).2.
Proof.
  intros Hkey Hk Hx Hl.
  destruct (Z.leb_spec (UINT32_MAX - nrBlks (Z.of_nat (length x))) (cctr k)) as [Hc|Hc].
  - unfold gec_encrypt_conf. rewrite (proj2 (Z.leb_le _ _)) by done. by exists p.
  - destruct (conf_transport al al key k p x out out Hkey Hk Hx) as (c & k' & -> & _ & _ & _ & Hk'); done.
Qed.

Lemma verify_eq al c msg :
  verify al c msg =
  (gec_verify (theirPublicKey c) (theirPublicKey_ephemeral c ++ myPublicKey_ephemeral c)
     (gec_decrypt_conf al (theirKCK c) msg (replicate AUTH_DATA_LEN 0)).1.2,
   set_kcks (myKCK c) (gec_encrypt_conf al (theirKCK c) msg (replicate AUTH_DATA_LEN 0)).2 c).
Proof.
  unfold verify, gec_decrypt_conf.
  by destruct (gec_encrypt_conf al (theirKCK c) msg (replicate AUTH_DATA_LEN 0)) as [[r sig] k].
Qed.

Lemma gec_verify_0 k m s : gec_verify k m s = 0 -> ed25519_sign_open m (pub k) s = 0.
Proof. unfold gec_verify. case_bool; [by intros _; apply Z.eqb_eq|done]. Qed.

Lemma initiate_inv msg1 c r : key32 r -> sts_inv c -> sts_inv (initiate_sts msg1 c r).2.
Proof.
  intros Hr Hc. unfold initiate_sts. case_decide; [|exact Hc]. split; [|by intros _|by intros].
  split; apply Hc.
Qed.

Lemma respond_inv al msg1 msg2 c r :
  bytes msg1 -> length msg1 = MSG_1_LEN -> length msg2 = MSG_2_LEN -> key32 r ->
  sts_inv c -> sts_inv (respond_sts al msg1 msg2 c r).2.
Proof.
  intros Hb Hl1 Hl2 Hr Hc. unfold respond_sts. case_decide; [|exact Hc].
  assert (key32 (take EPHEMERAL_PUBLICKEY_LEN msg1)) as Hk by (apply key32_take; [done|by rewrite Hl1]).
  set (c1 := set_their_ephemeral _ _).
  assert (wf_sts c1) as Hw1 by (destruct (inv_wf c Hc); split; done).
  assert (length (gec_ecdh (theirPublicKey_ephemeral c1) (myPrivateKey_ephemeral c1)) = 32%nat) as Hz
    by (by apply donna_key32).
  rewrite (derive_spec c1 _ Hw1 Hz). set (c2 := set_material _ _).
  set (sig := gec_sign _ _). destruct (kck_of_keyed _ RESPONDER Hz) as (key & Hkey & Hkk & Hk0).
  destruct (kck_of_keyed _ INITIATOR Hz) as (key' & Hkey' & Hkk' & Hk0').
  set (out := drop _ _).
  assert (length out = length sig) as Hlo.
  { unfold out, sig, gec_sign. rewrite (proj2 (sign_length _ _ _)), length_drop, length_memcpy_at, Hl2. done. }
  destruct (conf_use key 0 al (myKCK c2) sig out Hkey Hkk ltac:(apply sign_length) Hlo) as [p' Hp'].
  destruct (gec_encrypt_conf al (myKCK c2) sig out) as [[r1 enc] k]. cbn [snd] in *.
  split; [split|done|intros _].
  - exact (conf_keyed_wf _ _ _ Hp').
  - exact (conf_keyed_wf _ _ _ Hkk').
  - by apply kdf_material_length.
  - split; [done|]. split; [done|]. split; [exact Hk|]. split; [done|]. by exists key', 0%nat.
Qed.

(** The context in which [response_ack_sts] verifies the signature. *)
Definition ack_ctx (msg2 : list Z) (c : gec_sts_ctx) : gec_sts_ctx :=
  let c := set_their_ephemeral (take EPHEMERAL_PUBLICKEY_LEN msg2) c in
  set_material (material_of c) (set_kcks (kck_of (secret_of c) INITIATOR) (kck_of (secret_of c) RESPONDER) c).

Lemma ack_derive msg2 c :
  wf_sts c -> key32 (myPrivateKey_ephemeral c) -> party c = INITIATOR ->
  bytes msg2 -> length msg2 = MSG_2_LEN ->
  let c1 := set_their_ephemeral (take EPHEMERAL_PUBLICKEY_LEN msg2) c in
  derive_key_materials c1 (gec_ecdh (theirPublicKey_ephemeral c1) (myPrivateKey_ephemeral c1)) = ack_ctx msg2 c /\
  length (secret_of c1) = 32%nat.
Proof.
  intros Hw Hk Hp Hb Hl c1.
  assert (key32 (take EPHEMERAL_PUBLICKEY_LEN msg2)) as Hk2 by (apply key32_take; [done|rewrite Hl; unfold MSG_2_LEN, AUTH_DATA_LEN, EPHEMERAL_PUBLICKEY_LEN, GEC_PUB_EPHEMERAL_KEY_LEN; lia]).
  assert (length (secret_of c1) = 32%nat) as Hz by (by apply donna_key32).
  assert (wf_sts c1) as Hw1 by (destruct Hw; split; done).
  split; [|done]. change (gec_ecdh (theirPublicKey_ephemeral c1) (myPrivateKey_ephemeral c1)) with (secret_of c1).
  rewrite (derive_spec c1 _ Hw1 Hz). unfold ack_ctx. fold c1. unfold THEIR_PARTY.
  change (party c1) with (party c). by rewrite Hp.
Qed.

(** What is left after a signature that does not verify is still a state
    that waits for message 2. *)
Lemma response_ack_inv al1 al2 msg2 msg3 km c :
  bytes msg2 -> length msg2 = MSG_2_LEN -> length msg3 = MSG_3_LEN ->
  sts_inv c -> sts_inv (response_ack_sts al1 al2 msg2 msg3 c km).2.
Proof.
  intros Hb Hl Hl3 Hc. unfold response_ack_sts. case_decide as E; [|exact Hc].
  destruct (inv_message_1 c Hc E) as [[Hk Hpub] Hp].
  destruct (ack_derive msg2 c (inv_wf c Hc) Hk Hp Hb Hl) as [-> Hz].
  set (z := secret_of _) in *.
  destruct (kck_of_keyed z RESPONDER Hz) as (key & Hkey & Hkk & _).
  destruct (kck_of_keyed z INITIATOR Hz) as (key' & Hkey' & Hkk' & _).
  assert (exists c2, c2 = ack_ctx msg2 c /\ protocol_stage c2 = MESSAGE_1_DONE /\ has_ephemeral c2 /\
    party c2 = INITIATOR /\ conf_keyed key 0 (theirKCK c2) /\ conf_keyed key' 0 (myKCK c2) /\
    length (client_key_material c2) = KEY_MATERIAL_LEN) as (c2 & <- & E2 & He2 & Hp2 & Ht2 & Hm2 & Hlm2).
  { exists (ack_ctx msg2 c). split; [reflexivity|]. split; [exact E|]. split; [exact (conj Hk Hpub)|].
    split; [exact Hp|]. split; [exact Hkk|]. split; [exact Hkk'|]. exact (kdf_material_length z Hz). }
  rewrite verify_eq. set (m := slice _ _ msg2).
  assert (length m = AUTH_DATA_LEN) as Hm by (apply length_slice; rewrite Hl; unfold MSG_2_LEN, AUTH_DATA_LEN, EPHEMERAL_PUBLICKEY_LEN, GEC_PUB_EPHEMERAL_KEY_LEN; lia).
  destruct (conf_use key 0 al1 (theirKCK c2) m (replicate AUTH_DATA_LEN 0) Hkey Ht2) as [p1 Hp1];
    [by apply bytes_slice|by rewrite length_replicate, Hm|].
  set (k1 := (gec_encrypt_conf _ _ _ _).2) in *. clearbody k1.
  assert (wf_sts (set_kcks (myKCK c2) k1 c2)) as Hw.
  { split; [exact (conf_keyed_wf _ _ _ Hm2)|exact (conf_keyed_wf _ _ _ Hp1)|done]. }
  destruct (negb _); cbn [snd].
  - split; [exact Hw|intros _; exact (conj He2 Hp2)|]. cbn [set_kcks protocol_stage]. congruence.
  - cbn [set_kcks myKCK theirKCK myPrivateKey]. set (sig := gec_sign _ _).
    assert (length msg3 = length sig) as Hs by (unfold sig, gec_sign; by rewrite (proj2 (sign_length _ _ _))).
    destruct (conf_use key' 0 al2 (myKCK c2) sig msg3 Hkey' Hm2 ltac:(apply sign_length) Hs) as [p2 Hkp2].
    destruct (gec_encrypt_conf al2 (myKCK c2) sig msg3) as [[r2 m3] k2]. cbn [snd] in *.
    apply ready_inv; [|by left]. apply wf_reset. destruct Hw. split; [exact (conf_keyed_wf _ _ _ Hkp2)|done|done].
Qed.

Lemma finish_inv al msg3 km c :
  bytes msg3 -> length msg3 = MSG_3_LEN -> sts_inv c -> sts_inv (finish_sts al msg3 c km).2.
Proof.
  intros Hb Hl Hc. unfold finish_sts. case_decide as E; [|exact Hc].
  destruct (inv_message_2 c Hc E) as (He & Hp & Ht & Hm & key & p & Hkey & Hkk).
  rewrite verify_eq. rewrite (take_ge msg3) by lia.
  destruct (conf_use key p al (theirKCK c) msg3 (replicate AUTH_DATA_LEN 0) Hkey Hkk Hb) as [p1 Hp1];
    [by rewrite length_replicate, Hl|].
  set (k1 := (gec_encrypt_conf _ _ _ _).2) in *.
  assert (wf_sts (set_kcks (myKCK c) k1 c)) as Hw.
  { destruct (inv_wf c Hc). split; [done|exact (conf_keyed_wf _ _ _ Hp1)|done]. }
  destruct (negb _); cbn [snd].
  - split; [exact Hw|cbn [set_kcks protocol_stage]; congruence|intros _]. split; [done|]. split; [done|]. split; [done|]. split; [done|].
    by exists key, p1.
  - apply ready_inv; [by apply wf_reset|by left].
Qed.

Lemma sts_step_inv c c' : sts_step c c' -> sts_inv c -> sts_inv c'.
Proof.
  intros Hs Hc. destruct Hs.
  - by apply initiate_inv.
  - by apply respond_inv.
  - by apply response_ack_inv.
  - by apply finish_inv.
  - apply ready_inv; [by apply wf_reset, Hc|by left].
  - apply ready_inv; [|by right]. destruct (wf_reset c (inv_wf c Hc)). by split.
  - apply ready_inv; [|by left]. apply wf_reset. destruct (inv_wf c Hc). by split.
  - apply ready_inv; [|by left]. destruct (inv_wf c Hc). by split.
Qed.

Lemma sts_reachable_inv c : sts_reachable c -> sts_inv c.
Proof.
  intros (c0 & (m & pk & sk & p & Hw & ->) & Hr).
  assert (sts_inv (init_context m pk sk p)) as Hi.
  { apply ready_inv; [destruct Hw; by split|by left]. }
  clear Hw. induction Hr as [|c1 c2 c3 Hs Hr IH]; [done|]. by apply IH, (sts_step_inv c1).
Qed.
End invariant.

(** ** What a released key means *)

Section release.
Context `{CurveLaws}.

(** What the key [k] makes of an encrypted signature. *)
Definition opened_signature (al : bool) (k : gec_sym_key_conf) (e : list Z) : list Z :=
  (gec_decrypt_conf al k e (replicate AUTH_DATA_LEN 0)).1.2.

(** [km] is released on behalf of the context [c] and the partner's
    ephemeral key [their], after [sig] has been received. *)
Definition released (c : gec_sts_ctx) (sig their km : list Z) (c' : gec_sts_ctx) : Prop :=
  ed25519_sign_open (their ++ myPublicKey_ephemeral c) (pub (theirPublicKey c)) sig = 0 /\
  km = kdf KEY_MATERIAL_LEN (curve25519_donna (myPrivateKey_ephemeral c) their) (party_byte CLIENT) /\
  protocol_stage c' = READY_STAGE /\
  myPrivateKey_ephemeral c' = zeros (myPrivateKey_ephemeral c).

Lemma response_ack_release al1 al2 msg2 msg3 km c m3 km' c' :
  sts_inv c -> bytes msg2 -> length msg2 = MSG_2_LEN -> length km = KEY_MATERIAL_LEN ->
  response_ack_sts al1 al2 msg2 msg3 c km = (0, m3, km', c') ->
  let their := take EPHEMERAL_PUBLICKEY_LEN msg2 in
  let k := kck_of (curve25519_donna (myPrivateKey_ephemeral c) their) RESPONDER in
  released c (opened_signature al1 k (slice EPHEMERAL_PUBLICKEY_LEN AUTH_DATA_LEN msg2)) their km' c'.
Proof.
  intros Hr Hb Hl Hkm. cbv zeta. unfold response_ack_sts. case_decide as E; [|done].
  destruct (inv_message_1 c Hr E) as [[Hk Hpub] Hp].
  destruct (ack_derive msg2 c (inv_wf c Hr) Hk Hp Hb Hl) as [-> Hz].
  rewrite verify_eq. set (r := gec_verify _ _ _). destruct (Z.eqb_spec r 0) as [Ev|Ev]; cbn [negb]; [|done].
  destruct (gec_encrypt_conf al2 _ _ msg3) as [[r3 m] k]. intros E3. injection E3 as _ <- <-.
  apply gec_verify_0 in Ev. split; [exact Ev|]. split; [|by split].
  apply memcpy_at_full. rewrite Hkm. exact (kdf_material_length _ Hz).
Qed.

Lemma finish_release al msg3 km c km' c' :
  sts_inv c -> length km = KEY_MATERIAL_LEN ->
  finish_sts al msg3 c km = (0, km', c') ->
  released c (opened_signature al (theirKCK c) (take MSG_3_LEN msg3)) (theirPublicKey_ephemeral c) km' c'.
Proof.
  intros Hr Hkm. unfold finish_sts. case_decide as E; [|done].
  destruct (inv_message_2 c Hr E) as (_ & _ & _ & Hm & _).
  rewrite verify_eq. set (r := gec_verify _ _ _). destruct (Z.eqb_spec r 0) as [Ev|Ev]; cbn [negb]; [|done].
  intros E3. injection E3 as <- <-. apply gec_verify_0 in Ev. split; [exact Ev|]. split; [|by split].
  cbn [set_kcks client_key_material].
  change (kdf _ (curve25519_donna _ _) _) with (material_of c). rewrite <- Hm. apply memcpy_at_full.
  rewrite Hkm. apply (inv_wf c Hr).
Qed.
End release.

(** ** The honest run *)

(** Read fields through assignments to others. *)
Ltac sts_fields :=
  cbn [set_material set_kcks set_their_ephemeral set_my_ephemeral set_stage myPublicKey_ephemeral
       theirPublicKey_ephemeral myPrivateKey myKCK theirKCK party theirPublicKey client_key_material].

Section honest.
Context `{CurveLaws}.

(** A signature sent under the key of party [p] arrives. *)
Lemma seal_signature al al2 z p sig out :
  length z = 32%nat -> bytes sig -> length sig = AUTH_DATA_LEN -> length out = AUTH_DATA_LEN ->
  exists e k,
    gec_encrypt_conf al (kck_of z p) sig out = (GEC_SUCCESS, e, k) /\ bytes e /\ length e = AUTH_DATA_LEN /\
    gec_decrypt_conf al2 (kck_of z p) e (replicate AUTH_DATA_LEN 0) = (GEC_SUCCESS, sig, k).
Proof.
  intros Hz Hb Hl Ho. destruct (kck_of_keyed z p Hz) as (key & Hkey & Hk & H0k).
  destruct (conf_transport al al2 key (kck_of z p) 0 sig out (replicate AUTH_DATA_LEN 0) Hkey Hk Hb)
    as (e & k & E1 & Hbe & Hle & E2 & _); [by rewrite Ho|by rewrite length_replicate|rewrite H0k, Hl; done|].
  exists e, k. rewrite <- Hl at 1. done.
Qed.

(** The signature of [sk] over [m] verifies. *)
Lemma signature_verifies sk m :
  key32 sk ->
  gec_verify (mk_pubkey (ed25519_publickey sk)) m (gec_sign (mk_privkey sk (ed25519_publickey sk)) m) = 0.
Proof. intros Hs. unfold gec_verify, gec_sign. cbn [pub priv privpub]. by rewrite sign_opens. Qed.

Lemma gec_sign_length k m : bytes (gec_sign k m) /\ length (gec_sign k m) = AUTH_DATA_LEN.
Proof. apply sign_length. Qed.

(** The responder's answer, and its state while it waits for message 3. *)
Definition responder_ctx (m1 r : list Z) (k : gec_sym_key_conf) (c : gec_sts_ctx) : gec_sts_ctx :=
  let z := curve25519_donna r m1 in
  mk_sts (myPublicKey c) (myPrivateKey c) (theirPublicKey c) (curve25519_donna r basepoint) r m1
    k (kck_of z INITIATOR) (kdf KEY_MATERIAL_LEN z (party_byte CLIENT)) MESSAGE_2_DONE RESPONDER.

Lemma respond_honest al al2 m1 msg2 c r :
  wf_sts c -> protocol_stage c = READY_STAGE -> key32 m1 -> key32 r -> length msg2 = MSG_2_LEN ->
  let pb := curve25519_donna r basepoint in
  exists e k,
    respond_sts al m1 msg2 c r = (0, pb ++ e, responder_ctx m1 r k c) /\ bytes e /\ length e = AUTH_DATA_LEN /\
    gec_decrypt_conf al2 (kck_of (curve25519_donna r m1) RESPONDER) e (replicate AUTH_DATA_LEN 0) =
      (GEC_SUCCESS, gec_sign (myPrivateKey c) (pb ++ m1), k).
Proof.
  intros Hw Hs Hm Hr Hl pb. unfold respond_sts. rewrite decide_True by done.
  rewrite (take_ge m1) by (rewrite (proj2 Hm); unfold EPHEMERAL_PUBLICKEY_LEN, GEC_PUB_EPHEMERAL_KEY_LEN; lia).
  set (c1 := set_their_ephemeral _ _). set (z := curve25519_donna r m1).
  change (gec_ecdh (theirPublicKey_ephemeral c1) (myPrivateKey_ephemeral c1)) with z.
  assert (length z = 32%nat) as Hz by (by apply donna_key32).
  assert (wf_sts c1) as Hw1 by (destruct Hw; split; done).
  rewrite (derive_spec c1 z Hw1 Hz). unfold gec_generate_ephemeral_keypair in *. fold pb in c1.
  sts_fields.
  assert (length pb = 32%nat) as Hpb by (apply donna_key32; [done|apply basepoint_key32]).
  change (memcpy_at msg2 0 _) with (memcpy_at msg2 0 pb). change (myPublicKey_ephemeral c1) with pb.
  change (theirPublicKey_ephemeral c1) with m1. change (myPrivateKey c1) with (myPrivateKey c).
  rewrite (memcpy_at_spec msg2) by (rewrite Hpb, Hl; cbn; lia). rewrite take_0, app_nil_l, Hpb.
  rewrite take_app_length', drop_app_length' by done. set (m := pb ++ m1).
  destruct (gec_sign_length (myPrivateKey c) m) as [Hsb Hsl].
  destruct (seal_signature al al2 z RESPONDER (gec_sign (myPrivateKey c) m) (drop (0 + 32) msg2) Hz Hsb Hsl)
    as (e & k & He & Hbe & Hle & Hd); [rewrite length_drop, Hl; done|].
  change (party c1) with RESPONDER. rewrite He. exists e, k. split; [reflexivity|]. by split.
Qed.

(** The initiator's state after message 1. *)
Definition initiator_ctx (r : list Z) (c : gec_sts_ctx) : gec_sts_ctx :=
  set_stage MESSAGE_1_DONE INITIATOR (set_my_ephemeral (curve25519_donna r basepoint) r c).

Lemma initiate_honest msg1 c r :
  protocol_stage c = READY_STAGE -> key32 r -> length msg1 = MSG_1_LEN ->
  initiate_sts msg1 c r = (0, curve25519_donna r basepoint, initiator_ctx r c).
Proof.
  intros Hs Hr Hl. unfold initiate_sts. rewrite decide_True by done. f_equal. f_equal.
  apply memcpy_at_full. rewrite Hl. apply donna_key32; [done|apply basepoint_key32].
Qed.

Lemma response_ack_honest al1 al2 al3 pb e k sk msg3 km c r :
  wf_sts c -> key32 r -> key32 pb -> bytes e -> length e = AUTH_DATA_LEN ->
  length msg3 = MSG_3_LEN -> length km = KEY_MATERIAL_LEN -> key32 sk ->
  theirPublicKey c = mk_pubkey (ed25519_publickey sk) ->
  let pa := curve25519_donna r basepoint in
  let z := curve25519_donna r pb in
  gec_decrypt_conf al1 (kck_of z RESPONDER) e (replicate AUTH_DATA_LEN 0) =
    (GEC_SUCCESS, gec_sign (mk_privkey sk (ed25519_publickey sk)) (pb ++ pa), k) ->
  exists m3 k3 c', response_ack_sts al1 al2 (pb ++ e) msg3 (initiator_ctx r c) km =
      (0, m3, kdf KEY_MATERIAL_LEN z (party_byte CLIENT), c') /\
    bytes m3 /\ length m3 = AUTH_DATA_LEN /\
    gec_decrypt_conf al3 (kck_of z INITIATOR) m3 (replicate AUTH_DATA_LEN 0) =
      (GEC_SUCCESS, gec_sign (myPrivateKey c) (pa ++ pb), k3) /\
    protocol_stage c' = READY_STAGE /\ myPrivateKey_ephemeral c' = zeros r.
Proof.
  intros Hw Hr Hpb Hbe Hle Hl3 Hkm Hsk Hpk pa z Hd. unfold response_ack_sts. rewrite decide_True by done.
  assert (bytes (pb ++ e) /\ length (pb ++ e) = MSG_2_LEN) as [Hb Hl].
  { split; [apply bytes_app; [apply Hpb|done]|]. by rewrite length_app, Hle, (proj2 Hpb). }
  assert (wf_sts (initiator_ctx r c)) as Hw1 by (destruct Hw; by split).
  destruct (ack_derive (pb ++ e) (initiator_ctx r c) Hw1 Hr eq_refl Hb Hl) as [-> Hz].
  unfold ack_ctx. assert (EPHEMERAL_PUBLICKEY_LEN = length pb) as Hlpb by (by rewrite (proj2 Hpb)).
  rewrite (take_app_length' pb) in Hz |- * by done.
  unfold slice. rewrite (drop_app_length' pb), (take_ge e) by (done || lia).
  change (secret_of _) with z in Hz |- *. change (material_of _) with (kdf KEY_MATERIAL_LEN z (party_byte CLIENT)).
  unfold verify. unfold initiator_ctx.
  sts_fields. fold pa. rewrite Hd, Hpk, signature_verifies, Z.eqb_refl by done. cbn [negb]. sts_fields.
  destruct (gec_sign_length (myPrivateKey c) (pa ++ pb)) as [Hsb Hsl].
  destruct (seal_signature al2 al3 z INITIATOR (gec_sign (myPrivateKey c) (pa ++ pb)) msg3 Hz Hsb Hsl Hl3)
    as (m3 & k3 & He & Hb3 & Hl3' & Hd3). rewrite He.
  rewrite memcpy_at_full by (rewrite Hkm; by apply kdf_material_length).
  exists m3, k3. eexists. split; [reflexivity|]. repeat (split; [assumption|]). by split.
Qed.

Lemma finish_honest al m3 k3 k sk km c r m1 :
  let z := curve25519_donna r m1 in
  let pb := curve25519_donna r basepoint in
  key32 sk -> theirPublicKey c = mk_pubkey (ed25519_publickey sk) -> length z = 32%nat ->
  length m3 = AUTH_DATA_LEN -> length km = KEY_MATERIAL_LEN ->
  gec_decrypt_conf al (kck_of z INITIATOR) m3 (replicate AUTH_DATA_LEN 0) =
    (GEC_SUCCESS, gec_sign (mk_privkey sk (ed25519_publickey sk)) (m1 ++ pb), k3) ->
  exists c', finish_sts al m3 (responder_ctx m1 r k c) km =
      (0, kdf KEY_MATERIAL_LEN z (party_byte CLIENT), c') /\
    protocol_stage c' = READY_STAGE /\ myPrivateKey_ephemeral c' = zeros r.
Proof.
  intros z pb Hsk Hpk Hz Hl Hkm Hd. unfold finish_sts. rewrite decide_True by done.
  rewrite (take_ge m3) by (rewrite Hl; unfold MSG_3_LEN; lia). unfold verify, responder_ctx.
  sts_fields.
  fold z pb. rewrite Hd, Hpk, signature_verifies, Z.eqb_refl by done. cbn [negb].
  rewrite memcpy_at_full by (rewrite Hkm; by apply kdf_material_length).
  eexists. split; [reflexivity|]. by split.
Qed.
End honest.

(** ** The theorems *)

Section theorems.
Context `{CurveLaws}.

(** C33. Every state that calls with inputs of the right sizes can reach from a
    fresh context satisfies the invariant of the protocol: waiting for message
    2 it is the initiator with an ephemeral key pair, waiting for message 3 it
    is the responder, its key material is that of the shared secret, and the
    key for the other's signature is usable. *)
Theorem sts_invariant c : sts_reachable c -> sts_inv c.
Proof. apply sts_reachable_inv. Qed.

(** In a stage in which it is not expected, each of the four calls returns
    -1 and changes neither the context nor the buffers of the caller. *)
Theorem sts_stage_guards al1 al2 msg1 msg2 msg3 r km c :
  (protocol_stage c <> READY_STAGE ->
     initiate_sts msg1 c r = (-1, msg1, c) /\ respond_sts al1 msg1 msg2 c r = (-1, msg2, c)) /\
  (protocol_stage c <> MESSAGE_1_DONE ->
     response_ack_sts al1 al2 msg2 msg3 c km = (-1, msg3, km, c)) /\
  (protocol_stage c <> MESSAGE_2_DONE -> finish_sts al1 msg3 c km = (-1, km, c)).
Proof.
  unfold initiate_sts, respond_sts, response_ack_sts, finish_sts.
  split_and!; intros Hs; rewrite !decide_False by done; done.
Qed.

(** C19. In a reachable state, key material is handed to the caller only after
    the signature that the message carries, decrypted with the key of the
    partner's role, has been verified over both ephemeral keys with the
    partner's long-term key; the material is then derived from the shared
    secret, and the context is ready again with its ephemeral secret zeroed. *)
Theorem sts_releases_authenticated al1 al2 msg2 msg3 km c :
  sts_reachable c -> bytes msg2 -> length msg2 = MSG_2_LEN -> length km = KEY_MATERIAL_LEN ->
  (forall m3 km' c', response_ack_sts al1 al2 msg2 msg3 c km = (0, m3, km', c') ->
     let their := take EPHEMERAL_PUBLICKEY_LEN msg2 in
     let k := kck_of (curve25519_donna (myPrivateKey_ephemeral c) their) RESPONDER in
     released c (opened_signature al1 k (slice EPHEMERAL_PUBLICKEY_LEN AUTH_DATA_LEN msg2)) their km' c') /\
  (forall km' c', finish_sts al1 msg3 c km = (0, km', c') ->
     released c (opened_signature al1 (theirKCK c) (take MSG_3_LEN msg3)) (theirPublicKey_ephemeral c) km' c').
Proof.
  intros Hr Hb Hl Hkm. apply sts_reachable_inv in Hr. split; intros.
  - by eapply response_ack_release.
  - by eapply finish_release.
Qed.

Lemma sts_run al ca cb ska skb ra rb msg1 msg2 msg3 kma kmb :
  wf_sts ca -> wf_sts cb -> key32 ska -> key32 skb -> key32 ra -> key32 rb ->
  length msg1 = MSG_1_LEN -> length msg2 = MSG_2_LEN -> length msg3 = MSG_3_LEN ->
  length kma = KEY_MATERIAL_LEN -> length kmb = KEY_MATERIAL_LEN ->
  let pka := mk_pubkey (ed25519_publickey ska) in
  let pkb := mk_pubkey (ed25519_publickey skb) in
  let '(r1, m1, a1) := initiate_sts msg1 (init_context ca pka (mk_privkey ska (pub pka)) pkb) ra in
  let '(r2, m2, b1) := respond_sts al m1 msg2 (init_context cb pkb (mk_privkey skb (pub pkb)) pka) rb in
  let '(r3, m3, ka, a2) := response_ack_sts al al m2 msg3 a1 kma in
  let '(r4, kb, b2) := finish_sts al m3 b1 kmb in
  [length m1; length m3] = [MSG_1_LEN; MSG_3_LEN] /\
  [r1; r2; r3; r4] = [0; 0; 0; 0] /\ ka = kb /\ bytes ka /\ length ka = KEY_MATERIAL_LEN /\
  protocol_stage a2 = READY_STAGE /\ protocol_stage b2 = READY_STAGE /\
  myPrivateKey_ephemeral a2 = zeros ra /\ myPrivateKey_ephemeral b2 = zeros rb.
Proof.
  intros Ha Hb Hska Hskb Hra Hrb L1 L2 L3 La Lb pka pkb.
  set (ca0 := init_context ca _ _ _). set (cb0 := init_context cb _ _ _).
  assert (wf_sts ca0 /\ wf_sts cb0) as [Hwa Hwb] by (destruct Ha, Hb; by repeat split).
  rewrite (initiate_honest msg1 ca0 ra eq_refl Hra L1).
  set (pa := curve25519_donna ra basepoint). set (pb := curve25519_donna rb basepoint).
  assert (key32 pa /\ key32 pb) as [Hpa Hpb] by (split; apply donna_key32; (done || apply basepoint_key32)).
  destruct (respond_honest al al pa msg2 cb0 rb Hwb eq_refl Hpa Hrb L2) as (e & k & -> & Hbe & Hle & Hd).
  fold pb in Hd |- *.
  assert (curve25519_donna ra pb = curve25519_donna rb pa) as Hz by (by apply donna_agree).
  assert (key32 (curve25519_donna rb pa)) as Hz32 by (by apply donna_key32).
  rewrite <- Hz in Hd.
  destruct (response_ack_honest al al al pb e k skb msg3 kma ca0 ra Hwa Hra Hpb Hbe Hle L3 La Hskb eq_refl Hd)
    as (m3 & k3 & a2 & -> & Hb3 & Hl3 & Hd3 & Hs2 & He2).
  fold pa in Hd3. rewrite Hz in Hd3 |- *.
  destruct (finish_honest al m3 k3 k ska kmb cb0 rb pa Hska eq_refl (proj2 Hz32) Hl3 Lb Hd3) as (b2 & -> & Hs3 & He3).
  split; [by rewrite (proj2 Hpa), Hl3|]. split; [done|]. split; [done|].
  assert (0 < KEY_MATERIAL_LEN <= 64)%nat as Hk by (unfold KEY_MATERIAL_LEN, GEC_RAW_KEY_LEN, GEC_SALT_LEN, GEC_SYM_CIPHER_KEY_LEN; lia).
  destruct (kdf_bytes KEY_MATERIAL_LEN _ (party_byte CLIENT) Hk (proj2 Hz32)) as [Hkb Hkl].
  by repeat split.
Qed.

(** C8. The honest run: two parties whose contexts hold their own key pairs and
    each other's public keys pass the three messages; all four calls return 0,
    both obtain the same 48 bytes of key material, and both contexts are
    ready again with their ephemeral secrets zeroed. *)
Theorem sts_key_agreement al ca cb ska skb ra rb msg1 msg2 msg3 kma kmb :
  wf_sts ca -> wf_sts cb -> key32 ska -> key32 skb -> key32 ra -> key32 rb ->
  length msg1 = MSG_1_LEN -> length msg2 = MSG_2_LEN -> length msg3 = MSG_3_LEN ->
  length kma = KEY_MATERIAL_LEN -> length kmb = KEY_MATERIAL_LEN ->
  let pka := mk_pubkey (ed25519_publickey ska) in
  let pkb := mk_pubkey (ed25519_publickey skb) in
  let '(r1, m1, a1) := initiate_sts msg1 (init_context ca pka (mk_privkey ska (pub pka)) pkb) ra in
  let '(r2, m2, b1) := respond_sts al m1 msg2 (init_context cb pkb (mk_privkey skb (pub pkb)) pka) rb in
  let '(r3, m3, ka, a2) := response_ack_sts al al m2 msg3 a1 kma in
  let '(r4, kb, b2) := finish_sts al m3 b1 kmb in
  [r1; r2; r3; r4] = [0; 0; 0; 0] /\ ka = kb /\ bytes ka /\ length ka = KEY_MATERIAL_LEN /\
  protocol_stage a2 = READY_STAGE /\ protocol_stage b2 = READY_STAGE /\
  myPrivateKey_ephemeral a2 = zeros ra /\ myPrivateKey_ephemeral b2 = zeros rb.
Proof.
  intros Ha Hb Hska Hskb Hra Hrb L1 L2 L3 La Lb pka pkb.
  pose proof (sts_run al ca cb ska skb ra rb msg1 msg2 msg3 kma kmb Ha Hb Hska Hskb Hra Hrb L1 L2 L3 La Lb) as H1.
  cbv zeta in H1. fold pka pkb in H1.
  destruct (initiate_sts _ _ _) as [[r1 m1] a1]. destruct (respond_sts _ _ _ _ _) as [[r2 m2] b1].
  destruct (response_ack_sts _ _ _ _ _ _) as [[[r3 m3] ka] a2]. destruct (finish_sts _ _ _ _) as [[r4 kb] b2].
  apply H1.
Qed.
End theorems.

(** ** A curve to try the theorems on

    Exclusive or in the place of the scalar multiplication, and the key
    itself, twice, in the place of the signature. *)
Module Toy.
Definition signature (k : list Z) : list Z := map u8 (take 64 (k ++ k ++ replicate 64 0)).

#[export] Instance curve : Curve := {
  curve25519_donna := xor_bytes;
  ed25519_publickey := fun s => s;
  ed25519_sign := fun _ s _ => signature s;
  ed25519_sign_open := fun _ p s => if bool_decide (s = signature p) then 0 else 1;
}.

Lemma signature_ok k : bytes (signature k) /\ length (signature k) = 64%nat.
Proof.
  split; [apply Forall_map, Forall_true; intros x; apply (wrap_range 8); lia|].
  unfold signature. rewrite length_map, length_take, !length_app, length_replicate. lia.
Qed.

#[export] Instance laws : CurveLaws.
Proof.
  split.
  - intros s p [Hs Ls] [Hp Lp]. split; [by apply bytes_xor|]. cbn. rewrite length_xor_bytes. lia.
  - intros a b _ _. cbn. by rewrite !xor_bytes_assoc, (xor_bytes_comm a b).
  - intros m s p. apply signature_ok.
  - intros m s _. cbn. by rewrite bool_decide_eq_true_2.
Qed.

Definition blank : gec_sts_ctx :=
  mk_sts (mk_pubkey (replicate 32 0)) (mk_privkey (replicate 32 0) (replicate 32 0)) (mk_pubkey (replicate 32 0))
    (replicate 32 0) (replicate 32 0) (replicate 32 0) blank_kck blank_kck (replicate 48 0) INVALID_STAGE INVALID_PARTY.

(** The long-term keys of the two parties, and their contexts. *)
Definition sa : list Z := seqZ 1 32.
Definition sb : list Z := seqZ 101 32.
Definition bob : gec_sts_ctx := init_context blank (mk_pubkey sb) (mk_privkey sb sb) (mk_pubkey sa).

Lemma blank_ok : wf_sts blank.
Proof. by split. Qed.

Definition alice : gec_sts_ctx := init_context blank (mk_pubkey sa) (mk_privkey sa sa) (mk_pubkey sb).

(** The messages of an honest run, and the second party after the first. *)
Definition alice1 : Z * list Z * gec_sts_ctx := initiate_sts (replicate 32 0) alice (seqZ 9 32).
Definition bob1 : Z * list Z * gec_sts_ctx := respond_sts true alice1.1.2 (replicate 96 0) bob (seqZ 7 32).
Definition waiting : gec_sts_ctx := bob1.2.
Definition msg3 : list Z := (response_ack_sts true true bob1.1.2 (replicate 64 0) alice1.2 (replicate 48 0)).1.1.2.

Lemma waiting_reachable : sts_reachable waiting.
Proof.
  exists bob. split; [exists blank, (mk_pubkey sb), (mk_privkey sb sb), (mk_pubkey sa); by split|].
  apply rtc_once, step_respond; decide_true.
Qed.
End Toy.
Import (hints) Toy.

Lemma sts_invariant_witness : sts_inv Toy.waiting.
Proof. exact (sts_invariant Toy.waiting Toy.waiting_reachable). Defined.

Lemma sts_stage_guards_witness :
  initiate_sts (replicate 32 0) Toy.waiting (seqZ 0 32) = (-1, replicate 32 0, Toy.waiting).
Proof.
  apply (sts_stage_guards true true (replicate 32 0) (replicate 96 0) (replicate 64 0) (seqZ 0 32) (replicate 48 0) Toy.waiting).
  vm_compute. discriminate.
Defined.

Lemma sts_releases_authenticated_witness :
  exists km' c', finish_sts true Toy.msg3 Toy.waiting (replicate 48 0) = (0, km', c') /\
  released Toy.waiting (opened_signature true (theirKCK Toy.waiting) (take MSG_3_LEN Toy.msg3))
    (theirPublicKey_ephemeral Toy.waiting) km' c'.
Proof.
  assert ((finish_sts true Toy.msg3 Toy.waiting (replicate 48 0)).1.1 = 0) as H0 by (vm_compute; reflexivity).
  pose proof (proj2 (sts_releases_authenticated true true (seqZ 0 96) Toy.msg3 (replicate 48 0) Toy.waiting
    Toy.waiting_reachable ltac:(decide_true) eq_refl eq_refl)) as H.
  destruct (finish_sts true Toy.msg3 Toy.waiting (replicate 48 0)) as [[r km'] c'].
  cbn [fst] in H0. rewrite H0 in *. exists km', c'. split; [reflexivity|exact (H km' c' eq_refl)].
Defined.

Lemma sts_key_agreement_witness :
  let pka := mk_pubkey (ed25519_publickey Toy.sa) in
  let pkb := mk_pubkey (ed25519_publickey Toy.sb) in
  let '(r1, m1, a1) := initiate_sts (replicate 32 0) (init_context Toy.blank pka (mk_privkey Toy.sa (pub pka)) pkb) (seqZ 9 32) in
  let '(r2, m2, b1) := respond_sts true m1 (replicate 96 0) (init_context Toy.blank pkb (mk_privkey Toy.sb (pub pkb)) pka) (seqZ 77 32) in
  let '(r3, m3, ka, a2) := response_ack_sts true true m2 (replicate 64 0) a1 (replicate 48 0) in
  let '(r4, kb, b2) := finish_sts true m3 b1 (replicate 48 0) in
  [r1; r2; r3; r4] = [0; 0; 0; 0] /\ ka = kb /\ bytes ka /\ length ka = KEY_MATERIAL_LEN /\
  protocol_stage a2 = READY_STAGE /\ protocol_stage b2 = READY_STAGE /\
  myPrivateKey_ephemeral a2 = zeros (seqZ 9 32) /\ myPrivateKey_ephemeral b2 = zeros (seqZ 77 32).
Proof.
  apply (sts_key_agreement true Toy.blank Toy.blank Toy.sa Toy.sb (seqZ 9 32) (seqZ 77 32) (replicate 32 0)
    (replicate 96 0) (replicate 64 0) (replicate 48 0) (replicate 48 0)
    Toy.blank_ok Toy.blank_ok); decide_true.
Defined.
