(* ===== verification/Relay.v ===== *)
(** * What the relay components share

    The components under apps/*/components repeat a few pieces of code: the
    parser behind [my_mavlink_parse_char], the loops that read the shared
    ring buffer, and the loops that move bytes between a buffer and the
    queue.  They are here once, with the list functions they implement; each
    application's file states its own functions in terms of them. *)

From S2P Require Import Prelude Ring Queue RingBuffer MavlinkTypes Mavlink MavlinkParser.

Local Open Scope Z_scope.

(** ** Reading the ring

    [rb] is the shared buffer as the consumer sees it while it reads; [None]
    is a loop that is still waiting for the producer, which is resumed from
    the same [head] when more has arrived (reads have no other effect). *)

(** The bytes between an index and the producer's [tail]. *)
Definition available (rb : ring_buffer_t) (h : Z) : list Z :=
  ring_read RING_BUFFER_SIZE (rb_buffer rb) h (Z.to_nat ((rb_tail rb - h) mod RING_BUFFER_SIZE)).

(** [do tail = rb->tail; while (tail == head); c = buffer[head++]; head %= SIZE]. *)
Definition ring_byte (rb : ring_buffer_t) (h : Z) : option (Z * Z) :=
  if rb_tail rb =? h then None else Some (rd (rb_buffer rb) h, u32 (h + 1) mod RING_BUFFER_SIZE).

(** [while (i < len && head != tail) buf[i++] = buffer[head++]], until [len]. *)
Fixpoint ring_bytes (len : nat) (rb : ring_buffer_t) (h : Z) : option (list Z * Z) :=
  match len with
  | O => Some ([], h)
  | S len =>
      match ring_byte rb h with
      | None => None
      | Some (c, h) =>
          match ring_bytes len rb h with
          | None => None
          | Some (l, h) => Some (c :: l, h)
          end
      end
  end.

(** [while (head != tail) { f(buffer[head]); head = (head + 1) % SIZE; }] *)
Fixpoint drain_ring {S : Type} (f : Z -> S -> S) (fuel : nat) (rb : ring_buffer_t) (h tail : Z) (s : S) : Z * S :=
  match fuel with
  | O => (h, s)
  | Datatypes.S fuel =>
      if h =? tail then (h, s)
      else drain_ring f fuel rb (u32 (h + 1) mod RING_BUFFER_SIZE) tail (f (rd (rb_buffer rb) h) s)
  end.

Definition in_ring (i : Z) : Prop := 0 <= i < RING_BUFFER_SIZE.

Lemma available_length rb h :
  in_ring h -> in_ring (rb_tail rb) -> (length (available rb h) < 2048)%nat.
Proof.
  intros Hh Ht. unfold available. rewrite length_ring_read. unfold in_ring, RING_BUFFER_SIZE in *.
  pose proof (Z.mod_pos_bound (rb_tail rb - h) 2048). lia.
Qed.

(** One byte of the ring is one byte of the list. *)
Lemma available_cons rb h :
  in_ring h -> in_ring (rb_tail rb) -> rb_tail rb <> h ->
  let h' := u32 (h + 1) mod RING_BUFFER_SIZE in
  available rb h = rd (rb_buffer rb) h :: available rb h' /\ in_ring h'.
Proof.
  intros Hh Ht Hne h'. unfold in_ring, RING_BUFFER_SIZE in *.
  assert (h' = (h + 1) mod 2048) as E by (unfold h', RING_BUFFER_SIZE; rewrite wrap_id; [done|unfold in_range; lia]).
  split; [|rewrite E; by apply Z.mod_pos_bound]. unfold available, RING_BUFFER_SIZE.
  replace (Z.to_nat ((rb_tail rb - h) mod 2048)) with (S (Z.to_nat ((rb_tail rb - h') mod 2048))).
  - cbn [ring_read]. rewrite Z.mod_small by lia. f_equal. rewrite E. symmetry. by apply ring_read_mod.
  - rewrite E. Z.div_mod_to_equations. lia.
Qed.

Lemma available_nil rb h : in_ring h -> rb_tail rb = h -> available rb h = [].
Proof. intros _ <-. unfold available. by rewrite Z.sub_diag. Qed.

Lemma ring_byte_spec rb h :
  in_ring h -> in_ring (rb_tail rb) ->
  match available rb h with
  | [] => ring_byte rb h = None
  | c :: l => exists h', ring_byte rb h = Some (c, h') /\ in_ring h' /\ available rb h' = l
  end.
Proof.
  intros Hh Ht. unfold ring_byte. destruct (Z.eqb_spec (rb_tail rb) h) as [E|E].
  - by rewrite available_nil.
  - destruct (available_cons rb h Hh Ht E) as [-> Hh']. by eexists.
Qed.

Lemma ring_bytes_spec n : forall rb h,
  in_ring h -> in_ring (rb_tail rb) ->
  if (n <=? length (available rb h))%nat then
    exists h', ring_bytes n rb h = Some (take n (available rb h), h') /\ in_ring h' /\
      available rb h' = drop n (available rb h)
  else ring_bytes n rb h = None.
Proof.
  induction n as [|n IH]; intros rb h Hh Ht; [by exists h|]. cbn [ring_bytes].
  pose proof (ring_byte_spec rb h Hh Ht) as H1. destruct (available rb h) as [|c l]; [by rewrite H1|].
  destruct H1 as (h1 & -> & Hh1 & <-). specialize (IH rb h1 Hh1 Ht). cbn [length Nat.leb].
  destruct (n <=? length (available rb h1))%nat; [|by rewrite IH].
  destruct IH as (h2 & -> & Hh2 & Ha). by exists h2.
Qed.

(** The loop of a consumer is a fold over what is available. *)
Lemma drain_ring_spec {S : Type} (f : Z -> S -> S) rb : forall fuel h s,
  in_ring h -> in_ring (rb_tail rb) -> (length (available rb h) < fuel)%nat ->
  drain_ring f fuel rb h (rb_tail rb) s = (rb_tail rb, foldl (fun s c => f c s) s (available rb h)).
Proof.
  induction fuel as [|fuel IH]; intros h s Hh Ht Hf; [lia|]. cbn [drain_ring].
  destruct (Z.eqb_spec h (rb_tail rb)) as [E|E].
  - rewrite available_nil by done. by rewrite E.
  - destruct (available_cons rb h Hh Ht (not_eq_sym E)) as [Ha Hh']. rewrite Ha in Hf |- *.
    rewrite IH; [done|done|done|]. cbn [length] in Hf. lia.
Qed.

(** ** Moving bytes through a queue *)

Section queues.
Context {Q : Type} `{ByteFifo Q}.

(** [for (i = 0; i < len; i++) enqueue(&queue, buf[i]);] *)
Definition enqueue_all (q : Q) (l : list Z) : Q := foldl (fun q c => (fifo_put q c).2) q l.

(** [for (j = 0; j < n; j++) { dequeue(&queue, &c); buf[j] = c; }], where [c]
    is a variable that keeps its value when the queue is empty. *)
Fixpoint dequeue_into (n : nat) (j c : Z) (q : Q) (buf : list Z) : Q * list Z :=
  match n with
  | O => (q, buf)
  | S n =>
      let '(r, q) := fifo_get q in
      let c := default c r in
      dequeue_into n (j + 1) c q (wr buf j c)
  end.

(** [for (i = 0; i < queue.size; i++) { dequeue(&queue, &c); f(c); }]: the
    bound is read again on every turn. *)
Fixpoint drain_queue {S : Type} (f : Z -> S -> S) (fuel : nat) (i c : Z) (q : Q) (s : S) : Q * S :=
  match fuel with
  | O => (q, s)
  | Datatypes.S fuel =>
      if i <? fifo_size q then
        let '(r, q) := fifo_get q in
        let c := default c r in
        drain_queue f fuel (i + 1) c q (f c s)
      else (q, s)
  end.

Lemma enqueue_all_spec l : forall q,
  fifo_wf q -> bytes l -> Z.of_nat (length (fifo_contents q ++ l)) <= fifo_capacity ->
  fifo_wf (enqueue_all q l) /\ fifo_contents (enqueue_all q l) = fifo_contents q ++ l.
Proof.
  induction l as [|c l IH]; intros q Hq Hb Hl; [by rewrite app_nil_r|].
  unfold bytes in Hb. decompose_Forall_hyps. rewrite length_app in Hl. cbn [length] in Hl.
  destruct (fifo_put_ok q c Hq) as (q' & E & Hq' & Hc); [done|lia|].
  cbn [enqueue_all foldl]. rewrite E. cbn [snd]. fold (enqueue_all q' l).
  destruct (IH q') as [IH1 IH2]; [done|done|rewrite Hc, !length_app; cbn [length]; lia|].
  split; [done|]. by rewrite IH2, Hc, <- app_assoc.
Qed.

Lemma dequeue_into_spec n : forall (j : nat) c q buf,
  fifo_wf q -> (n <= length (fifo_contents q))%nat -> (j + n <= length buf)%nat ->
  exists q', dequeue_into n (Z.of_nat j) c q buf =
    (q', take j buf ++ take n (fifo_contents q) ++ drop (j + n) buf) /\
    fifo_wf q' /\ fifo_contents q' = drop n (fifo_contents q).
Proof.
  induction n as [|n IH]; intros j c q buf Hq Hn Hl.
  { exists q. split; [|done]. cbn [dequeue_into]. f_equal. rewrite take_0, Nat.add_0_r. cbn [app]. by rewrite take_drop. }
  destruct (fifo_contents q) as [|x l] eqn:E; [cbn in Hn; lia|].
  destruct (fifo_get_ok q x l Hq E) as (q1 & Eg & Hq1 & Hc1). cbn [dequeue_into]. rewrite Eg. change (default c (Some x)) with x.
  replace (Z.of_nat j + 1) with (Z.of_nat (S j)) by lia. cbn [length] in Hn.
  destruct (IH (S j) x q1 (wr buf (Z.of_nat j) x) Hq1) as (q2 & E2 & Hq2 & Hc2);
    [rewrite Hc1; lia|rewrite length_wr; lia|].
  exists q2. rewrite E2. split; [|split; [done|by rewrite Hc2, Hc1]].
  f_equal. rewrite Hc1. unfold wr. rewrite Nat2Z.id, drop_insert_lt by lia.
  rewrite (take_S_r _ _ x) by (by apply list_lookup_insert_eq; lia).
  rewrite take_insert_ge by lia. rewrite <- app_assoc. cbn [app].
  cbn [take app]. by replace (j + S n)%nat with (S j + n)%nat by lia.
Qed.

(** The drain loop handles the first half of the queue, rounded up. *)
Lemma drain_queue_spec {S : Type} (f : Z -> S -> S) : forall fuel i c q s,
  fifo_wf q -> (0 <= i) -> (length (fifo_contents q) < fuel + Z.to_nat i)%nat ->
  let n := Z.to_nat ((Z.of_nat (length (fifo_contents q)) - i + 1) / 2) in
  exists q', drain_queue f fuel i c q s = (q', foldl (fun s c => f c s) s (take n (fifo_contents q))) /\
    fifo_wf q' /\ fifo_contents q' = drop n (fifo_contents q).
Proof.
  induction fuel as [|fuel IH]; intros i c q s Hq Hi Hf n.
  { exists q. assert (n = 0)%nat as -> by (unfold n; Z.div_mod_to_equations; lia). by rewrite take_0, drop_0. }
  cbn [drain_queue]. rewrite fifo_size_spec by done. destruct (Z.ltb_spec i (Z.of_nat (length (fifo_contents q)))) as [Hlt|Hge].
  - destruct (fifo_contents q) as [|x l] eqn:E; [cbn in Hlt; lia|].
    destruct (fifo_get_ok q x l Hq E) as (q1 & -> & Hq1 & Hc1). cbn [length] in *.
    destruct (IH (i + 1) x q1 (f x s) Hq1) as (q2 & E2 & Hq2 & Hc2); [lia|rewrite Hc1; lia|].
    rewrite Hc1 in E2, Hc2.
    assert (n = Datatypes.S (Z.to_nat ((Z.of_nat (length l) - (i + 1) + 1) / 2))) as ->.
    { unfold n. Z.div_mod_to_equations. lia. }
    exists q2. change (default c (Some x)) with x. rewrite E2. cbn [take drop foldl]. done.
  - exists q. assert (n = 0)%nat as -> by (unfold n; Z.div_mod_to_equations; lia). by rewrite take_0, drop_0.
Qed.

(** A queue through which a stream goes in pieces of at most 64 bytes, with
    such a drain after each: [l] is what has come, of which [f] has been given
    the first [n] bytes. *)
Record half_drained (q : Q) (l : list Z) (n : nat) : Prop := {
  hd_wf : fifo_wf q;
  hd_bound : (n <= length l <= n + 64)%nat;
  hd_queue : fifo_contents q = drop n l;
}.

Lemma half_drain {S : Type} (f : Z -> S -> S) fuel c q s l n pt :
  half_drained q l n -> bytes pt -> (length pt <= 64)%nat -> 128 <= fifo_capacity -> (128 < fuel)%nat ->
  exists n' q',
    drain_queue f fuel 0 c (enqueue_all q pt) (foldl (fun s c => f c s) s (take n l)) =
      (q', foldl (fun s c => f c s) s (take n' (l ++ pt))) /\
    half_drained q' (l ++ pt) n' /\ (n <= n')%nat.
Proof.
  intros [Hwf Hn Hq] Hb Hp Hcap Hfuel.
  assert (length (drop n l) <= 64)%nat as Hd by (rewrite length_drop; lia).
  destruct (enqueue_all_spec pt q Hwf Hb) as [Hwf1 Hc1]; [rewrite Hq, length_app; lia|]. rewrite Hq in Hc1.
  set (q1 := enqueue_all q pt) in *. rewrite <- drop_app_le in Hc1 by lia.
  assert (length (drop n (l ++ pt)) <= 128)%nat as Hd1 by (rewrite drop_app_le, length_app by lia; lia).
  destruct (drain_queue_spec f fuel 0 c q1 (foldl (fun s c => f c s) s (take n l)) Hwf1) as (q2 & E & Hwf2 & Hc2);
    [done|rewrite Hc1; lia|].
  rewrite Hc1, Z.sub_0_r in E, Hc2. set (k := Z.to_nat _) in *.
  assert (k <= length (drop n (l ++ pt)) <= k + 64)%nat as Hk by (unfold k; Z.div_mod_to_equations; lia).
  rewrite length_drop in Hk. exists (n + k)%nat, q2. rewrite E. split; [|split; [split|]].
  - f_equal. rewrite <- foldl_app. f_equal. rewrite <- (take_app_le l pt) by lia.
    rewrite <- (take_drop n (take (n + k) (l ++ pt))), take_take, Nat.min_l by lia. f_equal.
    rewrite skipn_firstn_comm. f_equal. lia.
  - exact Hwf2.
  - rewrite length_app in *. lia.
  - by rewrite Hc2, drop_drop.
  - lia.
Qed.
End queues.

(** The queue of the key exchange and of the relays. *)
Lemma queue_enqueue_all q l :
  Queue.wf q -> bytes l -> Z.of_nat (length (Queue.contents q ++ l)) <= MAX_QUEUE_SIZE ->
  Queue.wf (enqueue_all q l) /\ Queue.contents (enqueue_all q l) = Queue.contents q ++ l.
Proof. exact (enqueue_all_spec l q). Qed.

Lemma queue_dequeue_into n c q buf :
  Queue.wf q -> (n <= length (Queue.contents q))%nat -> (n <= length buf)%nat ->
  exists q', dequeue_into n 0 c q buf = (q', take n (Queue.contents q) ++ drop n buf) /\
    Queue.wf q' /\ Queue.contents q' = drop n (Queue.contents q).
Proof. exact (dequeue_into_spec n 0 c q buf). Qed.

Lemma queue_drain {S : Type} (f : Z -> S -> S) c q s :
  Queue.wf q ->
  let n := Z.to_nat ((Z.of_nat (length (Queue.contents q)) + 1) / 2) in
  exists q', drain_queue f (Datatypes.S (Z.to_nat MAX_QUEUE_SIZE)) 0 c q s =
      (q', foldl (fun s c => f c s) s (take n (Queue.contents q))) /\
    Queue.wf q' /\ Queue.contents q' = drop n (Queue.contents q).
Proof.
  intros Hq. pose proof (drain_queue_spec f (Datatypes.S (Z.to_nat MAX_QUEUE_SIZE)) 0 c q s Hq) as Hd.
  cbn zeta in Hd. rewrite Z.sub_0_r in Hd. apply Hd; [done|].
  pose proof (Queue.length_contents q Hq) as Hl. cbn [fifo_contents queue_fifo]. destruct Hq as (_ & _ & _ & Hs).
  unfold MAX_QUEUE_SIZE in *. lia.
Qed.

(** ** Ciphertext frames *)

Definition GEC_CIPHERTEXT_FRAME_MAGIC : Z := 0x7e.
Definition GEC_CIPHERTEXT_FRAME_TAG : Z := 0.
Definition CT_LEN : nat := 80.

Definition frame (ct : list Z) : list Z := GEC_CIPHERTEXT_FRAME_MAGIC :: GEC_CIPHERTEXT_FRAME_TAG :: ct.

(** The loop of [read_ciphertext_frame] over [read_byte]: the [continue]
    after a wrong tag drops the byte that was read as the tag. *)
Fixpoint read_header (fuel : nat) (rb : ring_buffer_t) (h : Z) : option Z :=
  match fuel with
  | O => None
  | S fuel =>
      match ring_byte rb h with
      | None => None
      | Some (c, h) =>
          if c =? GEC_CIPHERTEXT_FRAME_MAGIC then
            match ring_byte rb h with
            | None => None
            | Some (c, h) =>
                if c =? GEC_CIPHERTEXT_FRAME_TAG then Some h else read_header fuel rb h
            end
          else read_header fuel rb h
      end
  end.

(** The same on the list of bytes. *)
Fixpoint after_header (l : list Z) : option (list Z) :=
  match l with
  | [] => None
  | c :: l =>
      if c =? GEC_CIPHERTEXT_FRAME_MAGIC then
        match l with
        | [] => None
        | t :: l => if t =? GEC_CIPHERTEXT_FRAME_TAG then Some l else after_header l
        end
      else after_header l
  end.

(** The ciphertext of the first frame and what follows it. *)
Definition find_frame (l : list Z) : option (list Z * list Z) :=
  match after_header l with
  | None => None
  | Some l => if (CT_LEN <=? length l)%nat then Some (take CT_LEN l, drop CT_LEN l) else None
  end.

Lemma read_header_spec fuel : forall rb h,
  in_ring h -> in_ring (rb_tail rb) -> (length (available rb h) < fuel)%nat ->
  match after_header (available rb h) with
  | None => read_header fuel rb h = None
  | Some l => exists h', read_header fuel rb h = Some h' /\ in_ring h' /\ available rb h' = l
  end.
Proof.
  induction fuel as [|fuel IH]; intros rb h Hh Ht Hf; [lia|]. cbn [read_header].
  pose proof (ring_byte_spec rb h Hh Ht) as H1. destruct (available rb h) as [|c l]; [by rewrite H1|].
  destruct H1 as (h1 & -> & Hh1 & <-). cbn [after_header length] in *.
  destruct (c =? GEC_CIPHERTEXT_FRAME_MAGIC); [|apply IH; [done|done|lia]].
  pose proof (ring_byte_spec rb h1 Hh1 Ht) as H2. destruct (available rb h1) as [|t l]; [by rewrite H2|].
  destruct H2 as (h2 & -> & Hh2 & <-). cbn [length] in Hf.
  destruct (t =? GEC_CIPHERTEXT_FRAME_TAG); [by exists h2|]. apply IH; [done|done|lia].
Qed.

(** Bytes without a magic byte are skipped. *)
Lemma after_header_skip g l :
  Forall (fun c => c <> GEC_CIPHERTEXT_FRAME_MAGIC) g -> after_header (g ++ l) = after_header l.
Proof.
  induction 1 as [|c g Hc _ IH]; [done|]. cbn [app after_header].
  destruct (Z.eqb_spec c GEC_CIPHERTEXT_FRAME_MAGIC); [done|exact IH].
Qed.

Lemma find_frame_frame g ct rest :
  Forall (fun c => c <> GEC_CIPHERTEXT_FRAME_MAGIC) g -> length ct = CT_LEN ->
  find_frame (g ++ frame ct ++ rest) = Some (ct, rest).
Proof.
  intros Hg Hl. unfold find_frame. rewrite after_header_skip by done. cbn [frame app after_header].
  rewrite !Z.eqb_refl, length_app, Hl.
  rewrite (proj2 (Nat.leb_le _ _)) by lia. by rewrite take_app_length', drop_app_length' by done.
Qed.

(** A frame is read from the ring when all of it is there. *)
Definition next_frame (rb : ring_buffer_t) (head : Z) : option (list Z * Z) :=
  match read_header (Z.to_nat RING_BUFFER_SIZE) rb head with
  | None => None
  | Some head => ring_bytes CT_LEN rb head
  end.

Lemma next_frame_spec rb head :
  in_ring head -> in_ring (rb_tail rb) ->
  match find_frame (available rb head) with
  | None => next_frame rb head = None
  | Some (ct, rest) =>
      exists h, next_frame rb head = Some (ct, h) /\ in_ring h /\ available rb h = rest
  end.
Proof.
  intros Hh Ht. unfold find_frame, next_frame.
  pose proof (read_header_spec (Z.to_nat RING_BUFFER_SIZE) rb head Hh Ht) as H1.
  pose proof (available_length rb head Hh Ht) as Hl. unfold RING_BUFFER_SIZE in *.
  specialize (H1 ltac:(lia)). destruct (after_header (available rb head)) as [l|]; [|by rewrite H1].
  destruct H1 as (h & -> & Hh' & Ha). pose proof (ring_bytes_spec CT_LEN rb h Hh' Ht) as H2. rewrite Ha in H2.
  destruct (CT_LEN <=? length l)%nat; exact H2.
Qed.

(** ** The parser of a component *)

Record parser := mk_parser { rx_buffer : mavlink_message_t; rx_status : mavlink_status_t }.

Section parsing.
Context (crcs : list mavlink_msg_entry_t).
Context (accept_unsigned : option (mavlink_status_t -> Z -> bool)).

(** [mavlink_frame_char_buffer] on the component's static variables, with the
    caller's [msg] and [status]. *)
Definition parse_frame_char (p : parser) (c : Z) (r_message : mavlink_message_t)
    (r_status : mavlink_status_t) : parser * mavlink_message_t * mavlink_status_t * Z :=
  let o := mavlink_frame_char_buffer crcs accept_unsigned (rx_buffer p) (rx_status p) c
             (Some r_message) (Some r_status) in
  (mk_parser (fo_rxmsg o) (fo_status o), default r_message (fo_r_message o),
   default r_status (fo_r_mavlink_status o), fo_result o).

Definition parser_ok (p : parser) : Prop := parser_inv (rx_buffer p) (rx_status p).

(** The wire image that [mavlink_msg_to_send_buffer] makes. *)
Definition wire_of (m : mavlink_message_t) : list Z := _mavlink_resend_uart (trimmed m).

Lemma wire_of_ok m :
  wf_message m -> bytes (wire_of m) /\ (length (wire_of m) <= 280)%nat.
Proof.
  intros Hm. pose proof (trimmed_wf m Hm) as Ht. split.
  - unfold wire_of, _mavlink_resend_uart. set (t := trimmed m) in *. destruct Ht.
    assert (bytes (take (Z.to_nat (m_len t)) (m_payload64 t))) by (by apply bytes_take).
    assert (bytes (ck_bytes t)) as Hck.
    { unfold ck_bytes. apply Forall_cons_2; [apply land_255_u8|]. apply Forall_cons_2; [by apply wrap_range|constructor]. }
    assert (is_u8 (Z.land (m_msgid t) 255)) by apply land_255_u8.
    assert (forall k, is_u8 (Z.land (Z.shiftr (m_msgid t) k) 255)) by (intros; apply land_255_u8).
    case_bool.
    + apply bytes_app; [unfold header_v1; repeat apply Forall_cons_2; done || constructor|by apply bytes_app].
    + apply bytes_app; [unfold header_v2; repeat apply Forall_cons_2; auto using Forall_nil_2|].
      apply bytes_app; [done|]. apply bytes_app; [done|]. case_bool; [constructor|done].
  - pose proof (send_buffer_bounds (replicate 280 0) m Hm ltac:(by rewrite length_replicate)) as Hs.
    rewrite (to_send_buffer_memcpy _ m Hm) in Hs. change MAVLINK_MAX_PACKET_LEN with 280 in Hs.
    unfold wire_of. lia.
Qed.

(** The parser keeps its invariant and reports messages of the right form,
    whatever was in [msg] before. *)
Lemma parse_frame_char_ok p c m st :
  parser_ok p -> is_u8 c -> wf_message m ->
  let '(p', m', _, _) := parse_frame_char p c m st in parser_ok p' /\ wf_message m'.
Proof.
  intros Hp Hc Hm. unfold parse_frame_char, parser_ok.
  pose proof (feed1_ok crcs accept_unsigned (rx_buffer p) (rx_status p) c Hp Hc) as Hf.
  pose proof (frame_char_feed1 crcs accept_unsigned (rx_buffer p) (rx_status p) c (Some m) (Some st)) as He.
  cbn zeta in He. rewrite He in Hf. destruct Hf as [Hinv _]. split; [exact Hinv|].
  clear He. unfold mavlink_frame_char_buffer in *.
  destruct (parse_switch crcs accept_unsigned (rx_buffer p)
    (set_s_msg_received MAVLINK_FRAMING_INCOMPLETE (rx_status p)) c) as [[rx st'] cp].
  cbn [fo_rxmsg fo_status fo_r_message] in *. pose proof (inv_msg _ _ Hinv) as Hrx.
  assert (forall m0, wf_message m0 -> wf_message (set_m_len (m_len rx) m0)) as Hlen.
  { intros m0 H0. pose proof (wf_len _ Hrx). destruct H0. by constructor. }
  assert (forall m0 ck, wf_message m0 -> is_u16 ck -> wf_message (set_m_checksum ck m0)) as Hck.
  { intros m0 ck H0 H1. destruct H0. by constructor. }
  assert (is_u16 (Z.lor (rd (m_ck rx) 0) (Z.shiftl (rd (m_ck rx) 1) 8))) as H16.
  { pose proof (rd_u8 (m_ck rx) 0 (wf_ck _ Hrx)) as H0. pose proof (rd_u8 (m_ck rx) 1 (wf_ck _ Hrx)) as H1.
    apply in_range_lor; [done|by apply (in_range_mono 8)|].
    rewrite Z.shiftl_mul_pow2 by done. unfold in_range in *. lia. }
  destruct cp; cbn [option_map];
    (case_bool; cbn [option_map default]; [apply Hck; [by apply Hlen|exact H16]|by apply Hlen]).
Qed.

(** ** What a component forwards

    [relayed] is the specification of every relay: it feeds the bytes to the
    parser and lists the wire images of the messages it reports, good or
    bad.  [msg] is what the stack holds when the parser does not fill the
    message in. *)
Definition relay_char (msg : mavlink_message_t) (st : mavlink_status_t) (p : parser) (c : Z)
    : parser * list (list Z) :=
  let '(p, m, _, r) := parse_frame_char p c msg st in (p, if r =? 0 then [] else [wire_of m]).

Fixpoint relayed (msg : mavlink_message_t) (st : mavlink_status_t) (p : parser) (bs : list Z)
    : parser * list (list Z) :=
  match bs with
  | [] => (p, [])
  | c :: bs =>
      let '(p, o) := relay_char msg st p c in
      let '(p, os) := relayed msg st p bs in (p, o ++ os)
  end.

Lemma relayed_cons msg st p c bs :
  relayed msg st p (c :: bs) =
  let '(p1, o) := relay_char msg st p c in let '(p2, os) := relayed msg st p1 bs in (p2, o ++ os).
Proof. reflexivity. Qed.

Lemma relayed_app msg st a b : forall p,
  relayed msg st p (a ++ b) =
  let '(p1, o1) := relayed msg st p a in
  let '(p2, o2) := relayed msg st p1 b in (p2, o1 ++ o2).
Proof.
  induction a as [|c a IH]; intros p; cbn [app relayed].
  { by destruct (relayed msg st p b). }
  destruct (relay_char msg st p c) as [p1 o]. rewrite IH.
  destruct (relayed msg st p1 a) as [p2 o1]. destruct (relayed msg st p2 b) as [p3 o2].
  by rewrite app_assoc.
Qed.

Lemma relay_char_ok msg st p c :
  parser_ok p -> is_u8 c -> wf_message msg ->
  let '(p', o) := relay_char msg st p c in
  parser_ok p' /\ Forall (fun w => bytes w /\ (length w <= 280)%nat) o /\ (length o <= 1)%nat.
Proof.
  intros Hp Hc Hm. unfold relay_char. pose proof (parse_frame_char_ok p c msg st Hp Hc Hm) as H1.
  destruct (parse_frame_char p c msg st) as [[[p' m] st'] r]. destruct H1 as [Hp' Hm'].
  split; [done|]. destruct (r =? 0); [split; [constructor|cbn; lia]|].
  split; [|cbn; lia]. apply Forall_cons_2; [by apply wire_of_ok|constructor].
Qed.

Lemma relayed_ok msg st bs : forall p,
  parser_ok p -> bytes bs -> wf_message msg ->
  let '(p', ws) := relayed msg st p bs in parser_ok p' /\ bytes (concat ws).
Proof.
  induction bs as [|c bs IH]; intros p Hp Hb Hm; [split; [done|constructor]|].
  rewrite relayed_cons. apply List.Forall_cons_iff in Hb as [Hc Hb].
  pose proof (relay_char_ok msg st p c Hp Hc Hm) as H1.
  destruct (relay_char msg st p c) as [p1 o]. destruct H1 as (Hp1 & Ho & _).
  specialize (IH p1 Hp1 Hb Hm). destruct (relayed msg st p1 bs) as [p2 os]. destruct IH as [Hp2 Hos].
  split; [done|]. rewrite concat_app. apply bytes_app; [|done].
  clear -Ho. induction Ho as [|w o [Hw _] _ IH]; cbn [concat]; [constructor|by apply bytes_app].
Qed.

(** A component that handles bytes one at a time: if [Inv] describes its
    state by what has been relayed and every byte takes [Inv] along, as far as
    [bound] allows, then so does a stream of bytes. *)
Lemma relay_run {S : Type} (handle : Z -> S -> S) (prs : S -> parser) (Inv : list (list Z) -> S -> Prop)
    (bound : list (list Z) -> Prop) msg st :
  wf_message msg -> (forall a b, bound (a ++ b) -> bound a) ->
  (forall ws s c, Inv ws s -> parser_ok (prs s) -> is_u8 c ->
     let '(p, o) := relay_char msg st (prs s) c in
     bound (ws ++ o) -> prs (handle c s) = p /\ Inv (ws ++ o) (handle c s)) ->
  forall bs ws s, Inv ws s -> parser_ok (prs s) -> bytes bs ->
  let '(p, os) := relayed msg st (prs s) bs in
  bound (ws ++ os) ->
  prs (foldl (fun s c => handle c s) s bs) = p /\ Inv (ws ++ os) (foldl (fun s c => handle c s) s bs).
Proof.
  intros Hm Hbound Hstep. induction bs as [|c bs IH]; intros ws s Hi Hp Hb.
  { cbn [relayed foldl]. by rewrite app_nil_r. }
  rewrite relayed_cons. cbn [foldl]. apply List.Forall_cons_iff in Hb as [Hc Hb].
  pose proof (Hstep ws s c Hi Hp Hc) as H1. pose proof (relay_char_ok msg st (prs s) c Hp Hc Hm) as H2.
  destruct (relay_char msg st (prs s) c) as [p1 o]. destruct H2 as [Hp1 _].
  specialize (IH (ws ++ o) (handle c s)).
  destruct (relayed msg st p1 bs) as [p2 os] eqn:E2. intros Hlim. rewrite app_assoc in Hlim |- *.
  destruct H1 as [H1 Hi1]; [by eapply Hbound|]. rewrite H1, E2 in IH. by apply IH.
Qed.

(** The same for a component whose [msg] and [status] outlive the call. *)
Fixpoint relayed_var (v : parser * mavlink_message_t * mavlink_status_t) (bs : list Z)
    : parser * mavlink_message_t * mavlink_status_t * list (list Z) :=
  match bs with
  | [] => (v, [])
  | c :: bs =>
      let '(p, m, st) := v in
      let '(v, r) := parse_frame_char p c m st in
      let '(v', os) := relayed_var v bs in
      (v', (if r =? 0 then [] else [wire_of v.1.2]) ++ os)
  end.

Lemma relayed_var_app a b : forall v,
  relayed_var v (a ++ b) =
  let '(v1, o1) := relayed_var v a in
  let '(v2, o2) := relayed_var v1 b in (v2, o1 ++ o2).
Proof.
  induction a as [|c a IH]; intros [[p m] st]; cbn [app relayed_var].
  { by destruct (relayed_var (p, m, st) b). }
  destruct (parse_frame_char p c m st) as [v r]. rewrite IH.
  destruct (relayed_var v a) as [v1 o1]. destruct (relayed_var v1 b) as [v2 o2].
  by rewrite app_assoc.
Qed.
End parsing.
