(* ===== verification/FrameStream.v ===== *)
(** * Frames through a parser

    What a component makes of a stream of whole unsigned frames: every frame
    is reported once, at its last byte, whatever the component does with the
    report.  [FrameHandler] is what is asked of the component; the relays are
    the first example, and turn out to hand frames on as they came. *)

From S2P Require Import Prelude Checksum MavlinkTypes Mavlink MavlinkParser MavlinkRoundTrip Ring Queue RingBuffer Relay.

Local Open Scope Z_scope.

(** How many of the pieces [ws] are whole in the first [n] bytes. *)
Fixpoint whole_frames (n : nat) (ws : list (list Z)) : nat :=
  match ws with
  | [] => O
  | w :: ws => if (length w <=? n)%nat then S (whole_frames (n - length w) ws) else O
  end.

Lemma whole_frames_spec ws : forall n,
  let k := whole_frames n ws in
  (k <= length ws)%nat /\ (length (concat (take k ws)) <= n)%nat /\
  (k = length ws \/ n < length (concat (take (S k) ws)))%nat.
Proof.
  induction ws as [|w ws IH]; intros n; cbn [whole_frames].
  { cbn. split_and!; auto with lia. }
  destruct (Nat.leb_spec (length w) n) as [Hl|Hl].
  - specialize (IH (n - length w)%nat). cbn zeta in IH. destruct IH as (H1 & H2 & H3). cbn [length take concat].
    rewrite !length_app. cbn [take concat] in H3. split_and!; [lia|lia|]. destruct H3; [left|right]; lia.
  - cbn [take concat length]. rewrite app_nil_r. split_and!; [lia|lia|by right].
Qed.

(** One more piece. *)
Lemma length_next_piece d (ws : list (list Z)) j :
  Forall (fun w => length w <= d)%nat ws -> (length (concat (take (S j) ws)) <= length (concat (take j ws)) + d)%nat.
Proof.
  intros Hws. revert j. induction Hws as [|w ws Hw _ IH]; intros j; [destruct j; cbn; lia|].
  destruct j as [|j]; cbn [take concat length]; [rewrite app_nil_r; lia|].
  specialize (IH j). rewrite !length_app. cbn [take] in IH. lia.
Qed.

(** With everything there. *)
Lemma whole_frames_all ws : whole_frames (length (concat ws)) ws = length ws.
Proof.
  induction ws as [|w ws IH]; [done|]. cbn [whole_frames concat length]. rewrite length_app.
  rewrite (proj2 (Nat.leb_le _ _)) by lia. f_equal. by replace (length w + _ - length w)%nat with (length (concat ws)) by lia.
Qed.

(** A list that grows at its end by something that depends on its length. *)
Lemma foldl_snoc_index {A B} (f : nat -> A -> B) l : forall a,
  foldl (fun ys x => ys ++ [f (length ys) x]) a l = a ++ imap (fun i => f (length a + i)%nat) l.
Proof.
  induction l as [|x l IH]; intros a; cbn [foldl]; [by rewrite app_nil_r|].
  rewrite IH, imap_cons, <- app_assoc, Nat.add_0_r. cbn [app]. do 2 f_equal. apply imap_ext.
  intros i y _. cbn [compose]. rewrite length_app. cbn [length]. unfold compose. f_equal. lia.
Qed.

Lemma foldl_snoc {A} (l : list A) a : foldl (fun ys x => ys ++ [x]) a l = a ++ l.
Proof. rewrite (foldl_snoc_index (fun _ x => x)). f_equal. induction l as [|x l IH]; [done|]. rewrite imap_cons. by f_equal. Qed.

(** All of one length. *)
Lemma whole_frames_equal d ws : forall n,
  (0 < d)%nat -> Forall (fun w => length w = d) ws -> whole_frames n ws = Nat.min (length ws) (n / d).
Proof.
  induction ws as [|w ws IH]; intros n Hd Hws; [done|]. apply List.Forall_cons_iff in Hws as [Hw Hws].
  cbn [whole_frames length]. rewrite Hw. destruct (Nat.leb_spec d n) as [Hl|Hl].
  - rewrite (IH _ Hd Hws). replace n with (n - d + 1 * d)%nat at 2 by lia. rewrite Nat.div_add by lia. lia.
  - rewrite Nat.div_small by lia. lia.
Qed.

Section stream.
Context (crcs : list mavlink_msg_entry_t).
Context (accept_unsigned : option (mavlink_status_t -> Z -> bool)).

(** A parser between two frames, on a channel without signing. *)
Definition between_frames (p : parser) : Prop :=
  parser_ok p /\ idle (rx_status p) /\ s_signing (rx_status p) = None.

Lemma switch_signing rx st c :
  s_signing st = None -> s_signing (parse_switch crcs accept_unsigned rx st c).1.2 = None.
Proof.
  intros H. unfold parse_switch.
  destruct (s_parse_state st);
    unfold on_idle, on_stx, on_length, on_incompat_flags, on_compat_flags, on_seq, on_sysid, on_compid,
      on_msgid1, on_msgid2, on_msgid3, on_payload, on_crc1, on_signature_wait, mavlink_signature_check;
    fields; rewrite ?H; cbn beta iota zeta; repeat (case_bool || case_match); fields; try done; try congruence.
Qed.

Lemma feed1_signing rx st c :
  s_signing st = None -> s_signing (feed1 crcs accept_unsigned (rx, st) c).1.2 = None.
Proof.
  intros H. unfold feed1, mavlink_frame_char_buffer. cbn [fst snd].
  pose proof (switch_signing rx (set_s_msg_received MAVLINK_FRAMING_INCOMPLETE st) c H) as Hs.
  destruct (parse_switch crcs accept_unsigned rx _ c) as [[rx' st'] cp]. cbn [fst snd fo_rxmsg fo_status] in *.
  unfold count_received. repeat case_bool; exact Hs.
Qed.

Lemma feed_signing bs : forall rx st,
  s_signing st = None -> s_signing (feed crcs accept_unsigned (rx, st) bs).1.2 = None.
Proof.
  induction bs as [|c bs IH]; intros rx st H; [done|]. rewrite feed_cons.
  pose proof (feed1_signing rx st c H) as H1. destruct (feed1 crcs accept_unsigned (rx, st) c) as [[rx1 st1] r].
  specialize (IH rx1 st1 H1). by destruct (feed crcs accept_unsigned (rx1, st1) bs) as [[rx2 st2] rs].
Qed.

Lemma wire_split_last m : exists front c, _mavlink_resend_uart m = front ++ [c].
Proof.
  destruct (exists_last (l := _mavlink_resend_uart m)) as (front & c & Hw); [|by exists front, c].
  unfold _mavlink_resend_uart. case_bool; intros Hn; apply (f_equal length) in Hn;
    rewrite length_app in Hn; cbn in Hn; lia.
Qed.

(** The verdict on an unsigned frame. *)
Definition verdict (m : mavlink_message_t) : Z :=
  if bool_decide (m_checksum m = frame_crc crcs m) then MAVLINK_FRAMING_OK else MAVLINK_FRAMING_BAD_CRC.

(** The parser's own variables, fed. *)
Definition fed (p : parser) (bs : list Z) : parser :=
  let '(rx, st) := (feed crcs accept_unsigned (rx_buffer p, rx_status p) bs).1 in mk_parser rx st.

Definition returned (p : parser) (bs : list Z) : list Z :=
  (feed crcs accept_unsigned (rx_buffer p, rx_status p) bs).2.

Lemma fed_app p a b : fed p (a ++ b) = fed (fed p a) b /\ returned p (a ++ b) = returned p a ++ returned (fed p a) b.
Proof.
  unfold fed, returned. rewrite feed_app. destruct (feed crcs accept_unsigned _ a) as [[rx st] rs].
  cbn [fst snd rx_buffer rx_status]. by destruct (feed crcs accept_unsigned (rx, st) b) as [[rx2 st2] rs2].
Qed.

Lemma length_returned p bs : length (returned p bs) = length bs.
Proof.
  unfold returned. generalize (rx_buffer p, rx_status p). induction bs as [|c bs IH]; intros x; [done|]. cbn [feed].
  destruct (feed1 _ _ x c) as [x1 r]. specialize (IH x1). destruct (feed _ _ x1 bs) as [x2 rs]. cbn [snd length] in *. by f_equal.
Qed.

Lemma parse_frame_char_fed p c rm rs :
  let '(p', _, _, r) := parse_frame_char crcs accept_unsigned p c rm rs in
  p' = fed p [c] /\ returned p [c] = [r].
Proof.
  pose proof (frame_char_feed1 crcs accept_unsigned (rx_buffer p) (rx_status p) c (Some rm) (Some rs)) as H1.
  cbn zeta in H1. unfold parse_frame_char, fed, returned. cbn [feed]. by rewrite H1.
Qed.

Lemma fed_ok p bs : parser_ok p -> bytes bs -> parser_ok (fed p bs).
Proof.
  intros Hp Hb. pose proof (feed_inv crcs accept_unsigned (rx_buffer p, rx_status p) bs Hp Hb) as H.
  unfold fed, parser_ok. by destruct (feed crcs accept_unsigned _ bs) as [[rx st] rs].
Qed.

(** One frame: nothing before its last byte, there the verdict and the
    message, and the parser is between two frames again. *)
Lemma fed_frame p m front c :
  between_frames p -> unsigned_message m -> _mavlink_resend_uart m = front ++ [c] -> bytes (front ++ [c]) ->
  returned p front = replicate (length front) 0 /\ parser_ok (fed p front) /\ between_frames (fed p (front ++ [c])) /\
  forall rm rs,
    let o := mavlink_frame_char_buffer crcs accept_unsigned (rx_buffer (fed p front)) (rx_status (fed p front)) c
               (Some rm) rs in
    fo_result o = verdict m /\ fo_r_message o = Some (received crcs (rx_buffer p) m).
Proof.
  intros (Hp & Hi & Hs) Hm Hw Hb. apply List.Forall_app in Hb as [Hbf Hbc].
  pose proof (fed_ok p front Hp Hbf) as Hok. pose proof (fed_ok _ [c] Hok Hbc) as Hok2.
  pose proof (feed_signing (front ++ [c]) (rx_buffer p) (rx_status p) Hs) as Hsig.
  rewrite (proj1 (fed_app p front [c])).
  pose proof (fun rm rs => frame_received crcs accept_unsigned (rx_buffer p) (rx_status p) m rm rs front c Hp Hi Hs Hm Hw) as Hf.
  rewrite feed_app in Hsig. unfold returned, fed in *.
  destruct (feed crcs accept_unsigned (rx_buffer p, rx_status p) front) as [[rx2 st2] rets]. cbn [fst snd rx_buffer rx_status] in *.
  destruct (Hf blank_message None) as (-> & _ & _ & Hidle).
  split; [done|]. split; [exact Hok|]. split; [|intros rm rs; destruct (Hf rm rs) as (_ & H1 & H2 & _); exact (conj H1 H2)].
  cbn [feed] in *. pose proof (frame_char_feed1 crcs accept_unsigned rx2 st2 c (Some blank_message) None) as H1.
  cbn zeta in H1. rewrite H1 in Hok2, Hsig |- *. cbn [fst snd] in *. split; [exact Hok2|]. split; [by left|exact Hsig].
Qed.

Lemma frame_message_wf p m front c :
  between_frames p -> unsigned_message m -> _mavlink_resend_uart m = front ++ [c] -> bytes (front ++ [c]) ->
  wf_message (received crcs (rx_buffer p) m).
Proof.
  intros Hp Hm Hw Hb. destruct (fed_frame p m front c Hp Hm Hw Hb) as (_ & Hok & _ & Ho).
  apply List.Forall_app in Hb as [_ Hc]. apply List.Forall_cons_iff in Hc as [Hc _].
  pose proof (parse_frame_char_ok crcs accept_unsigned _ c blank_message blank_status Hok Hc blank_message_ok) as H.
  unfold parse_frame_char in H. rewrite (proj2 (Ho blank_message (Some blank_status))) in H. exact (proj2 H).
Qed.

(** ** A component that handles frames

    [prs] is its parser, [view] what it has made of the reports, and [on] what
    a report with an acceptable verdict does to that. *)
Class FrameHandler {S V : Type} (handle : Z -> S -> S) (prs : S -> parser) (view : S -> V)
    (accepts : Z -> Prop) (on : Z -> mavlink_message_t -> V -> V) : Prop := {
  fh_quiet : forall s c, returned (prs s) [c] = [0] -> prs (handle c s) = fed (prs s) [c] /\ view (handle c s) = view s;
  fh_report : forall s c r m, accepts r -> wf_message m ->
    (forall rm rs,
      let o := mavlink_frame_char_buffer crcs accept_unsigned (rx_buffer (prs s)) (rx_status (prs s)) c (Some rm) rs in
      fo_result o = r /\ fo_r_message o = Some m) ->
    prs (handle c s) = fed (prs s) [c] /\ view (handle c s) = on r m (view s);
  fh_received : forall r rx m v, wf_message rx -> unsigned_message m -> on r (received crcs rx m) v = on r m v;
}.

Section handler.
Context {S V : Type} (handle : Z -> S -> S) (prs : S -> parser) (view : S -> V).
Context (accepts : Z -> Prop) (on : Z -> mavlink_message_t -> V -> V).
Context `{!FrameHandler handle prs view accepts on}.

#[local] Abbreviation handle_all := (foldl (fun s c => handle c s)).

Lemma quiet_bytes bs : forall s,
  returned (prs s) bs = replicate (length bs) 0 ->
  prs (handle_all s bs) = fed (prs s) bs /\ view (handle_all s bs) = view s.
Proof.
  induction bs as [|c bs IH]; intros s Hr; cbn [foldl].
  { split; [|done]. unfold fed. cbn. by destruct (prs s). }
  change (c :: bs) with ([c] ++ bs) in Hr |- *. destruct (fed_app (prs s) [c] bs) as [-> Hr2].
  rewrite Hr2 in Hr. cbn [length replicate app] in Hr.
  assert (exists x, returned (prs s) [c] = [x]) as [x Hx].
  { unfold returned. cbn [feed]. destruct (feed1 _ _ _ c) as [s1 r]. by exists r. }
  rewrite Hx in Hr. injection Hr as -> Hr. destruct (fh_quiet s c Hx) as [Hp Hv].
  rewrite <- Hp in Hr |- *. destruct (IH _ Hr) as [-> ->]. by rewrite Hv.
Qed.

(** A stream of frames. *)
Definition good_frame (m : mavlink_message_t) : Prop :=
  unsigned_message m /\ accepts (verdict m) /\ bytes (_mavlink_resend_uart m).

Lemma handle_frame s m :
  between_frames (prs s) -> good_frame m ->
  between_frames (prs (handle_all s (_mavlink_resend_uart m))) /\
  view (handle_all s (_mavlink_resend_uart m)) = on (verdict m) m (view s).
Proof.
  intros Hs (Hm & Ha & Hb). destruct (wire_split_last m) as (front & c & Hw). rewrite Hw in Hb |- *.
  destruct (fed_frame (prs s) m front c Hs Hm Hw Hb) as (Hr & Hok & Hbt & Ho). rewrite foldl_app. cbn [foldl].
  pose proof (frame_message_wf (prs s) m front c Hs Hm Hw Hb) as Hwf.
  destruct (quiet_bytes front s Hr) as [Hp Hv]. rewrite <- Hp in Ho.
  destruct (fh_report (handle_all s front) c (verdict m) _ Ha Hwf Ho) as [Hp' ->].
  rewrite Hp', Hp, <- (proj1 (fed_app _ _ _)), Hv. split; [done|]. apply fh_received; [apply Hs|done].
Qed.

Lemma handle_frames ms : forall s,
  between_frames (prs s) -> Forall good_frame ms ->
  between_frames (prs (handle_all s (concat (map _mavlink_resend_uart ms)))) /\
  view (handle_all s (concat (map _mavlink_resend_uart ms))) = foldl (fun v m => on (verdict m) m v) (view s) ms.
Proof.
  induction ms as [|m ms IH]; intros s Hs Hms; [done|]. apply List.Forall_cons_iff in Hms as [Hm Hms].
  cbn [map concat foldl]. rewrite foldl_app. destruct (handle_frame s m Hs Hm) as [Hs' <-]. by apply IH.
Qed.

(** The beginning of a frame changes nothing yet. *)
Lemma handle_front s m a b :
  between_frames (prs s) -> good_frame m -> _mavlink_resend_uart m = a ++ b -> b <> [] ->
  view (handle_all s a) = view s.
Proof.
  intros Hs (Hm & _ & Hby) Hw Hb. destruct (exists_last Hb) as (b' & c & ->). rewrite app_assoc in Hw.
  rewrite Hw in Hby. destruct (fed_frame (prs s) m (a ++ b') c Hs Hm Hw Hby) as (Hr & _).
  apply quiet_bytes. rewrite (proj2 (fed_app _ _ _)), length_app, replicate_add in Hr.
  apply app_inj_1 in Hr as [-> _]; [done|].
  by rewrite length_returned, length_replicate.
Qed.

(** The first [n] bytes of a stream of frames: what counts is the frames that
    are whole. *)
Lemma handle_prefix ms : forall n s,
  between_frames (prs s) -> Forall good_frame ms ->
  view (handle_all s (take n (concat (map _mavlink_resend_uart ms)))) =
  foldl (fun v m => on (verdict m) m v) (view s) (take (whole_frames n (map _mavlink_resend_uart ms)) ms).
Proof.
  induction ms as [|m ms IH]; intros n s Hs Hms; cbn [map concat whole_frames]; [by rewrite take_nil|].
  apply List.Forall_cons_iff in Hms as [Hm Hms]. destruct (Nat.leb_spec (length (_mavlink_resend_uart m)) n) as [Hl|Hl].
  - rewrite take_app_ge, foldl_app by lia. destruct (handle_frame s m Hs Hm) as [Hs' Hv]. cbn [take foldl].
    rewrite <- Hv. by apply IH.
  - rewrite take_app_le by lia. cbn [take foldl].
    apply (handle_front s m _ (drop n (_mavlink_resend_uart m)) Hs Hm); [by rewrite take_drop|].
    intros E. apply (f_equal length) in E. rewrite length_drop in E. cbn in E. lia.
Qed.
End handler.

(** ** The relays hand frames on *)

Lemma take_memset_at l o n v : take o (memset_at l o n v) = take o l.
Proof.
  apply list_eq. intros i. destruct (decide (i < o)%nat); [|by rewrite !lookup_take_ge by lia].
  rewrite !lookup_take_lt by done. unfold memset_at. by rewrite list_lookup_inserts_lt.
Qed.

Lemma received_trim rx m :
  wf_message rx -> unsigned_message m ->
  let p := m_payload64 (received crcs rx m) in
  _mav_trim_payload p (m_len m) = _mav_trim_payload (m_payload64 m) (m_len m) /\
  take (Z.to_nat (m_len m)) p = payload_of m.
Proof.
  intros Hrx (Hm & _). pose proof (wf_len _ Hm) as Hl. pose proof (wf_payload_len _ Hm) as Hp.
  pose proof (wf_payload_len _ Hrx) as Hpr. unfold PAYLOAD_BYTES, in_range in *. cbv zeta.
  assert (length (payload_of m) = Z.to_nat (m_len m)) as Hlp by (unfold payload_of; rewrite length_take; lia).
  assert (take (Z.to_nat (m_len m)) (m_payload64 (received crcs rx m)) = payload_of m) as Ht.
  { cbn [received m_payload64]. unfold zero_fill. rewrite memcpy_at_spec by lia. rewrite take_0, app_nil_l.
    destruct (mavlink_get_msg_entry crcs (m_msgid m)) as [e|]; [case_bool|]; [|by apply take_app_length'..].
    rewrite take_memset_at. by apply take_app_length'. }
  split; [|exact Ht]. unfold _mav_trim_payload. apply trim_loop_ext. intros i Hi.
  assert (forall l, rd l i = rd (take (Z.to_nat (m_len m)) l) i) as Hrd.
  { intros l. unfold rd. by rewrite lookup_take_lt by lia. }
  rewrite Hrd, Ht. unfold payload_of. by rewrite <- Hrd.
Qed.

Lemma wire_of_received rx m :
  wf_message rx -> unsigned_message m -> wire_of (received crcs rx m) = wire_of m.
Proof.
  intros Hrx Hm. destruct (received_trim rx m Hrx Hm) as [Htr Htk]. pose proof (proj1 (proj2 Hm)) as Hi.
  unfold wire_of, trimmed. cbn [received m_magic m_len]. rewrite Htr.
  set (len := _mav_trim_payload (m_payload64 m) (m_len m)).
  assert (forall n, (n <= Z.to_nat (m_len m))%nat ->
    take n (m_payload64 (received crcs rx m)) = take n (m_payload64 m)) as Hn.
  { intros n Hle. rewrite <- (Nat.min_l n (Z.to_nat (m_len m))), <- !take_take, Htk by done. reflexivity. }
  pose proof (wf_len _ (proj1 Hm)) as Hl. unfold in_range in Hl.
  assert (len <= m_len m) as Hle by (apply trim_spec; lia).
  clearbody len. clear Htr Htk. unfold received in *. set (pl := zero_fill _ _ _ _) in *. clearbody pl. fields in *.
  unfold _mavlink_resend_uart. destruct (m_magic m =? MAVLINK_STX_MAVLINK1) eqn:E; fields; rewrite E, Hn by lia; [done|].
  unfold header_v2. fields. by rewrite Hi.
Qed.

Lemma verdict_nonzero m : verdict m <> 0.
Proof. unfold verdict. by case_bool_decide. Qed.

(** Frames that the relays may be given: of whatever checksum. *)
Definition relayable (m : mavlink_message_t) : Prop :=
  unsigned_message m /\ trimmed m = m /\ bytes (_mavlink_resend_uart m).

Lemma relayable_good ms :
  Forall relayable ms -> Forall (good_frame (fun r => r <> 0)) ms /\ map wire_of ms = map _mavlink_resend_uart ms.
Proof.
  induction 1 as [|m ms (Hm & Ht & Hb) _ [IH1 IH2]]; [split; [constructor|done]|]. split.
  - apply Forall_cons_2; [|done]. split; [done|]. split; [apply verdict_nonzero|done].
  - cbn [map]. rewrite IH2. unfold wire_of at 1. by rewrite Ht.
Qed.

Lemma foldl_wires ms : forall ws, foldl (fun v m => v ++ [wire_of m]) ws ms = ws ++ map wire_of ms.
Proof. induction ms as [|m ms IH]; intros ws; cbn [foldl map]; [by rewrite app_nil_r|]. by rewrite IH, <- app_assoc. Qed.

Lemma relayable_short ms : Forall relayable ms -> Forall (fun w => length w <= 280)%nat (map _mavlink_resend_uart ms).
Proof.
  induction 1 as [|m ms (Hm & Ht & _) _ IH]; [constructor|]. apply Forall_cons_2; [|exact IH].
  destruct (wire_of_ok m (proj1 Hm)) as [_ Hl]. unfold wire_of in Hl. by rewrite Ht in Hl.
Qed.

(** A component that writes what is reported: [put] says what a frame adds to
    what has been written, [msg] and [st] are where the parser puts the
    message. *)
Section forwarder.
Context {S : Type} (handle : Z -> S -> S) (prs : S -> parser) (out : S -> list (list Z)).
Context (msg : S -> mavlink_message_t) (st : S -> mavlink_status_t).
Context (put : list (list Z) -> list Z -> list (list Z)).

Definition forwards : Prop := forall s c,
  let '(p, m, _, r) := parse_frame_char crcs accept_unsigned (prs s) c (msg s) (st s) in
  prs (handle c s) = p /\ (r = 0 -> out (handle c s) = out s) /\
  (r <> 0 -> wf_message m -> out (handle c s) = put (out s) (wire_of m)).

Lemma forwards_handler :
  forwards -> FrameHandler handle prs out (fun r => r <> 0) (fun _ m ws => put ws (wire_of m)).
Proof.
  intros Hf. split.
  - intros s c Hr. specialize (Hf s c). unfold parse_frame_char, returned, fed in *. cbn [feed] in *.
    pose proof (frame_char_feed1 crcs accept_unsigned (rx_buffer (prs s)) (rx_status (prs s)) c (Some (msg s)) (Some (st s))) as H1.
    cbn zeta in H1. rewrite H1 in Hr |- *. cbn [fst snd] in *. injection Hr as Hr.
    destruct Hf as (Hp & H0 & _). exact (conj Hp (H0 Hr)).
  - intros s c r m Hr Hm Ho. specialize (Hf s c). unfold parse_frame_char, fed in *. cbn [feed] in *.
    destruct (Ho (msg s) (Some (st s))) as [H2 H3].
    pose proof (frame_char_feed1 crcs accept_unsigned (rx_buffer (prs s)) (rx_status (prs s)) c (Some (msg s)) (Some (st s))) as H1.
    cbn zeta in H1. rewrite H1. rewrite H2, H3 in Hf. cbn [fst snd default] in *.
    destruct Hf as (Hp & _ & H0). exact (conj Hp (H0 Hr Hm)).
  - intros _ rx m ws Hrx Hm. by rewrite wire_of_received.
Qed.

(** What it has written after the first [n] bytes of a stream of frames. *)
Lemma forwarded_prefix ms n s :
  forwards -> between_frames (prs s) -> Forall relayable ms ->
  let ws := map _mavlink_resend_uart ms in
  out (foldl (fun s c => handle c s) s (take n (concat ws))) = foldl put (out s) (take (whole_frames n ws) ws).
Proof.
  intros Hf Hs Hms ws. destruct (relayable_good ms Hms) as [Hg Hw]. pose proof (forwards_handler Hf) as Hh.
  unfold ws. rewrite (handle_prefix handle prs out _ _ ms n s Hs Hg). rewrite <- Hw, firstn_map.
  generalize (take (whole_frames n (map wire_of ms)) ms), (out s). clear.
  intros ms. induction ms as [|m ms IH]; intros o; [done|]. cbn [map foldl]. apply IH.
Qed.
End forwarder.
(** [relayed], one byte at a time. *)
Definition relay_step (msg : mavlink_message_t) (st : mavlink_status_t) (c : Z) (s : parser * list (list Z))
    : parser * list (list Z) :=
  let '(p, o) := relay_char crcs accept_unsigned msg st s.1 c in (p, s.2 ++ o).

Lemma relayed_steps msg st bs : forall p ws,
  foldl (fun s c => relay_step msg st c s) (p, ws) bs =
  let '(p', os) := relayed crcs accept_unsigned msg st p bs in (p', ws ++ os).
Proof.
  induction bs as [|c bs IH]; intros p ws; cbn [foldl relayed]; [by rewrite app_nil_r|].
  unfold relay_step at 2. cbn [fst snd]. destruct (relay_char crcs accept_unsigned msg st p c) as [p1 o].
  rewrite IH. destruct (relayed crcs accept_unsigned msg st p1 bs) as [p2 os]. by rewrite app_assoc.
Qed.

#[export] Instance relay_handler msg st :
  FrameHandler (relay_step msg st) fst snd (fun r => r <> 0) (fun _ m ws => ws ++ [wire_of m]).
Proof.
  apply (forwards_handler _ _ _ (fun _ => msg) (fun _ => st) (fun ws w => ws ++ [w])).
  intros [p ws] c. unfold relay_step, relay_char. cbn [fst snd].
  destruct (parse_frame_char crcs accept_unsigned p c msg st) as [[[p1 m] st1] r]. cbn [fst snd].
  destruct (Z.eqb_spec r 0); split_and!; try done. intros _. apply app_nil_r.
Qed.

(** The same for a component whose [msg] and [status] outlive the call. *)
#[local] Abbreviation vars := (parser * mavlink_message_t * mavlink_status_t)%type.

Definition relay_var_step (c : Z) (s : vars * list (list Z)) : vars * list (list Z) :=
  let '(v, o) := relayed_var crcs accept_unsigned s.1 [c] in (v, s.2 ++ o).

Lemma relayed_var_steps bs : forall v ws,
  foldl (fun s c => relay_var_step c s) (v, ws) bs =
  let '(v', os) := relayed_var crcs accept_unsigned v bs in (v', ws ++ os).
Proof.
  induction bs as [|c bs IH]; intros v ws; cbn [foldl]; [cbn; by rewrite app_nil_r|].
  unfold relay_var_step at 2. cbn [fst snd]. change (c :: bs) with ([c] ++ bs). rewrite relayed_var_app.
  destruct (relayed_var crcs accept_unsigned v [c]) as [v1 o].
  rewrite IH. destruct (relayed_var crcs accept_unsigned v1 bs) as [v2 os]. by rewrite app_assoc.
Qed.

#[export] Instance relay_var_handler :
  FrameHandler relay_var_step (fun s => s.1.1.1) snd (fun r => r <> 0) (fun _ m ws => ws ++ [wire_of m]).
Proof.
  apply (forwards_handler _ _ _ (fun s => s.1.1.2) (fun s => s.1.2) (fun ws w => ws ++ [w])).
  intros [[[p msg] st] ws] c. unfold relay_var_step. cbn [fst snd relayed_var].
  destruct (parse_frame_char crcs accept_unsigned p c msg st) as [[[p1 m] st1] r]. cbn [fst snd app].
  destruct (Z.eqb_spec r 0); split_and!; try done. intros _. apply app_nil_r.
Qed.

(** What a relay forwards of the first [n] bytes of a stream of frames. *)
Lemma relayed_var_prefix v ms n :
  between_frames v.1.1 -> Forall relayable ms ->
  (relayed_var crcs accept_unsigned v (take n (concat (map _mavlink_resend_uart ms)))).2 =
  take (whole_frames n (map _mavlink_resend_uart ms)) (map _mavlink_resend_uart ms).
Proof.
  intros Hp Hms. destruct (relayable_good ms Hms) as [Hg Hw].
  pose proof (handle_prefix relay_var_step (fun s => s.1.1.1) snd _ _ ms n (v, []) Hp Hg) as H.
  rewrite relayed_var_steps in H. destruct (relayed_var crcs accept_unsigned v _) as [v' ws].
  cbn [snd app] in H |- *. rewrite H, foldl_wires. cbn [app]. rewrite <- firstn_map. by rewrite Hw.
Qed.

Lemma relayed_whole msg st p ms :
  between_frames p -> Forall relayable ms ->
  let '(p', ws) := relayed crcs accept_unsigned msg st p (concat (map _mavlink_resend_uart ms)) in
  between_frames p' /\ ws = map _mavlink_resend_uart ms.
Proof.
  intros Hp Hms. destruct (relayable_good ms Hms) as [Hg Hw].
  destruct (handle_frames (relay_step msg st) fst snd _ _ ms (p, []) Hp Hg) as [H1 H2].
  rewrite relayed_steps in H1, H2. destruct (relayed crcs accept_unsigned msg st p _) as [p' ws].
  cbn [fst snd app] in H1, H2. split; [done|]. by rewrite H2, foldl_wires, <- Hw.
Qed.

End stream.
