(* ===== verification/Heartbeat.v ===== *)
(** * The heartbeat message

    mavlink/include/mavlink/v2.0/minimal/mavlink_msg_heartbeat.h, the one
    message that the applications make themselves, as it is compiled on a
    little-endian machine: packing, encoding on a channel, the accessors and
    decoding.  The theorems give the bytes on the wire and the round trip
    through the parser. *)

From S2P Require Import Prelude Checksum MavlinkTypes Mavlink MavlinkParser MavlinkRoundTrip Ring Queue RingBuffer Relay FrameStream.

Local Open Scope Z_scope.

Record mavlink_heartbeat_t := mk_heartbeat {
  hb_custom_mode : Z;
  hb_type : Z;
  hb_autopilot : Z;
  hb_base_mode : Z;
  hb_system_status : Z;
  hb_mavlink_version : Z;
}.

Definition MAVLINK_MSG_ID_HEARTBEAT : Z := 0.
Definition MAVLINK_MSG_ID_HEARTBEAT_LEN : Z := 9.
Definition MAVLINK_MSG_ID_HEARTBEAT_MIN_LEN : Z := 9.
Definition MAVLINK_MSG_ID_HEARTBEAT_CRC : Z := 50.

(** The first nine bytes of the structure, and back. *)
Definition heartbeat_bytes (h : mavlink_heartbeat_t) : list Z :=
  le_bytes 4 (hb_custom_mode h) ++
  [hb_type h; hb_autopilot h; hb_base_mode h; hb_system_status h; hb_mavlink_version h].

Definition heartbeat_of_bytes (l : list Z) : mavlink_heartbeat_t :=
  mk_heartbeat (le_word (take 4 l)) (rd l 4) (rd l 5) (rd l 6) (rd l 7) (rd l 8).

(** ** Packing and encoding

    [status] is the status of the channel; the functions without [chan] are
    those with [MAVLINK_COMM_0]. *)
Definition mavlink_msg_heartbeat_pack_chan (system_id component_id : Z) (status : mavlink_status_t)
    (msg : mavlink_message_t) (type autopilot base_mode custom_mode system_status : Z)
    : mavlink_message_t * mavlink_status_t * Z :=
  let packet := mk_heartbeat custom_mode type autopilot base_mode system_status 3 in
  let msg := set_m_payload64 (memcpy_at (m_payload64 msg) 0 (heartbeat_bytes packet)) msg in
  let msg := set_m_msgid MAVLINK_MSG_ID_HEARTBEAT msg in
  mavlink_finalize_message_buffer msg system_id component_id status
    MAVLINK_MSG_ID_HEARTBEAT_MIN_LEN MAVLINK_MSG_ID_HEARTBEAT_LEN MAVLINK_MSG_ID_HEARTBEAT_CRC.

Definition mavlink_msg_heartbeat_pack (system_id component_id : Z) (comm_0 : mavlink_status_t)
    (msg : mavlink_message_t) (type autopilot base_mode custom_mode system_status : Z)
    : mavlink_message_t * mavlink_status_t * Z :=
  mavlink_msg_heartbeat_pack_chan system_id component_id comm_0 msg type autopilot base_mode custom_mode system_status.

Definition mavlink_msg_heartbeat_encode_chan (system_id component_id : Z) (status : mavlink_status_t)
    (msg : mavlink_message_t) (heartbeat : mavlink_heartbeat_t) : mavlink_message_t * mavlink_status_t * Z :=
  mavlink_msg_heartbeat_pack_chan system_id component_id status msg (hb_type heartbeat) (hb_autopilot heartbeat)
    (hb_base_mode heartbeat) (hb_custom_mode heartbeat) (hb_system_status heartbeat).

Definition mavlink_msg_heartbeat_encode (system_id component_id : Z) (comm_0 : mavlink_status_t)
    (msg : mavlink_message_t) (heartbeat : mavlink_heartbeat_t) : mavlink_message_t * mavlink_status_t * Z :=
  mavlink_msg_heartbeat_pack system_id component_id comm_0 msg (hb_type heartbeat) (hb_autopilot heartbeat)
    (hb_base_mode heartbeat) (hb_custom_mode heartbeat) (hb_system_status heartbeat).

(** ** Accessors and decoding *)

Definition _MAV_RETURN_uint8_t (msg : mavlink_message_t) (wire_offset : Z) : Z := rd (m_payload64 msg) wire_offset.
Definition _MAV_RETURN_uint32_t (msg : mavlink_message_t) (ofs : nat) : Z := le_word (slice ofs 4 (m_payload64 msg)).

Definition mavlink_msg_heartbeat_get_type (msg : mavlink_message_t) : Z := _MAV_RETURN_uint8_t msg 4.
Definition mavlink_msg_heartbeat_get_autopilot (msg : mavlink_message_t) : Z := _MAV_RETURN_uint8_t msg 5.
Definition mavlink_msg_heartbeat_get_base_mode (msg : mavlink_message_t) : Z := _MAV_RETURN_uint8_t msg 6.
Definition mavlink_msg_heartbeat_get_custom_mode (msg : mavlink_message_t) : Z := _MAV_RETURN_uint32_t msg 0.
Definition mavlink_msg_heartbeat_get_system_status (msg : mavlink_message_t) : Z := _MAV_RETURN_uint8_t msg 7.
Definition mavlink_msg_heartbeat_get_mavlink_version (msg : mavlink_message_t) : Z := _MAV_RETURN_uint8_t msg 8.

(** The structure is cleared before the copy, so that nothing of it is left. *)
Definition mavlink_msg_heartbeat_decode (msg : mavlink_message_t) : mavlink_heartbeat_t :=
  let len := if m_len msg <? MAVLINK_MSG_ID_HEARTBEAT_LEN then m_len msg else MAVLINK_MSG_ID_HEARTBEAT_LEN in
  heartbeat_of_bytes (memcpy_at (replicate (Z.to_nat MAVLINK_MSG_ID_HEARTBEAT_LEN) 0) 0
    (take (Z.to_nat len) (m_payload64 msg))).

(** ** The fields and their bytes *)

Record heartbeat_ok (h : mavlink_heartbeat_t) : Prop := {
  ok_custom_mode : is_u32 (hb_custom_mode h);
  ok_type : is_u8 (hb_type h);
  ok_autopilot : is_u8 (hb_autopilot h);
  ok_base_mode : is_u8 (hb_base_mode h);
  ok_system_status : is_u8 (hb_system_status h);
  ok_version : is_u8 (hb_mavlink_version h);
}.

Lemma heartbeat_bytes_ok h : heartbeat_ok h -> bytes (heartbeat_bytes h) /\ length (heartbeat_bytes h) = 9%nat.
Proof.
  intros []. split; [|unfold heartbeat_bytes; by rewrite length_app, length_le_bytes].
  apply bytes_app; [apply bytes_le_bytes|]. repeat (apply Forall_cons_2; [done|]). constructor.
Qed.

Lemma heartbeat_bytes_inv h : heartbeat_ok h -> heartbeat_of_bytes (heartbeat_bytes h) = h.
Proof.
  intros [Hc]. unfold heartbeat_of_bytes, heartbeat_bytes.
  rewrite take_app_length' by (by rewrite length_le_bytes). rewrite le_word_le_bytes. change (8 * Z.of_nat 4) with 32.
  rewrite wrap_id by exact Hc. by destruct h.
Qed.

(** Decoding looks at the first nine bytes only, and agrees with the
    accessors on messages that have them. *)
Lemma decode_long msg :
  9 <= m_len msg -> (9 <= length (m_payload64 msg))%nat ->
  mavlink_msg_heartbeat_decode msg = heartbeat_of_bytes (take 9 (m_payload64 msg)).
Proof.
  intros Hl Hp. unfold mavlink_msg_heartbeat_decode, MAVLINK_MSG_ID_HEARTBEAT_LEN.
  replace (if m_len msg <? 9 then m_len msg else 9) with 9 by (destruct (Z.ltb_spec (m_len msg) 9); lia).
  change (Z.to_nat 9) with 9%nat. rewrite memcpy_at_spec by (rewrite length_replicate, length_take; lia).
  rewrite length_take, Nat.min_l by lia. cbn [take app Nat.add]. by rewrite drop_ge, app_nil_r by done.
Qed.

(** ** The frame on the wire *)

(** A frame of version 2, from the MAVLink documentation: the header, the
    payload and the checksum over both and the extra byte of the message. *)
Definition heartbeat_frame (sysid compid seq : Z) (h : mavlink_heartbeat_t) : list Z :=
  let payload :=
    le_bytes 4 (hb_custom_mode h) ++ [hb_type h; hb_autopilot h; hb_base_mode h; hb_system_status h; 3] in
  let body := [9; 0; 0; seq; sysid; compid; 0; 0; 0] ++ payload in
  let crc := crc_accumulate 50 (crc_calculate body) in
  0xFD :: body ++ [Z.land crc 255; Z.shiftr crc 8].

Lemma length_heartbeat_frame sysid compid seq h : length (heartbeat_frame sysid compid seq h) = 21%nat.
Proof. unfold heartbeat_frame. cbn [length app]. rewrite !length_app, length_le_bytes. done. Qed.

(** A channel that sends version 2 without signatures. *)
Record sends_plain (st : mavlink_status_t) : Prop := {
  sp_seq : is_u8 (s_current_tx_seq st);
  sp_signs : signs_outgoing st = false;
  sp_v2 : out_mavlink1 st = false;
}.

Lemma sends_plain_next st : sends_plain st -> sends_plain (set_s_current_tx_seq (u8 (s_current_tx_seq st + 1)) st).
Proof. intros [_ H1 H2]. split; [by apply wrap_range|exact H1|exact H2]. Qed.

Lemma finalize_v2 m sys comp st mn l ex :
  out_mavlink1 st = false -> signs_outgoing st = false ->
  let m' := (mavlink_finalize_message_buffer m sys comp st mn l ex).1.1 in
  m_magic m' = MAVLINK_STX /\ m_compat_flags m' = 0.
Proof. intros H1 H2. unfold mavlink_finalize_message_buffer. rewrite H1, H2. done. Qed.

(** What is left in a message that holds a heartbeat. *)
Record holds_heartbeat (crcs : list mavlink_msg_entry_t) (sysid compid seq : Z) (h : mavlink_heartbeat_t)
    (m : mavlink_message_t) : Prop := {
  hm_relayable : relayable m;
  hm_verdict : verdict crcs m = MAVLINK_FRAMING_OK;
  hm_wire : _mavlink_resend_uart m = heartbeat_frame sysid compid seq h;
  hm_header : m_msgid m = 0 /\ m_sysid m = sysid /\ m_compid m = compid /\ m_seq m = seq /\ m_len m = 9;
  hm_payload : payload_of m = heartbeat_bytes (mk_heartbeat (hb_custom_mode h) (hb_type h) (hb_autopilot h)
                 (hb_base_mode h) (hb_system_status h) 3);
}.

Lemma encode_spec crcs sys comp st msg h :
  crc_extra_of crcs 0 = 50 -> wf_message msg -> is_u8 sys -> is_u8 comp -> heartbeat_ok h -> sends_plain st ->
  let '(m, st', n) := mavlink_msg_heartbeat_encode sys comp st msg h in
  holds_heartbeat crcs sys comp (s_current_tx_seq st) h m /\ n = 21 /\
  st' = set_s_current_tx_seq (u8 (s_current_tx_seq st + 1)) st.
Proof.
  intros Hex Hm Hsys Hcomp Hh [Hseq Hsig Hv2]. unfold mavlink_msg_heartbeat_encode, mavlink_msg_heartbeat_pack,
    mavlink_msg_heartbeat_pack_chan. set (h3 := mk_heartbeat _ _ _ _ _ 3).
  assert (heartbeat_ok h3) as Hh3 by (destruct Hh; by split).
  destruct (heartbeat_bytes_ok h3 Hh3) as [Hb Hl]. pose proof (wf_payload_len _ Hm) as Hpl.
  set (msg1 := set_m_msgid _ _).
  change (mavlink_finalize_message_buffer msg1 _ _ _ _ _ _) with (mavlink_finalize_message_buffer msg1 sys comp st 9 9 50).
  assert (m_payload64 msg1 = heartbeat_bytes h3 ++ drop 9 (m_payload64 msg)) as Hp1.
  { unfold msg1. fields. rewrite memcpy_at_spec by (rewrite Hl, Hpl; unfold PAYLOAD_BYTES; lia). by rewrite Hl, take_0. }
  assert (wf_message msg1) as Hm1.
  { destruct Hm. constructor; try done; change (m_payload64 msg1) with (memcpy_at (m_payload64 msg) 0 (heartbeat_bytes h3)).
    - auto with words.
    - by rewrite length_memcpy_at. }
  destruct (finalize_v2 msg1 sys comp st 9 9 50 Hv2 Hsig) as [Hmagic Hcompat].
  pose proof (finalize_spec crcs msg1 sys comp st 9 9 50 Hm1 Hsys Hcomp ltac:(done) ltac:(done) Hseq Hsig
    ltac:(symmetry; exact Hex) ltac:(by rewrite Hv2)) as H.
  destruct (mavlink_finalize_message_buffer msg1 sys comp st 9 9 50) as [[m st'] n]. cbn [fst] in Hmagic, Hcompat.
  destruct H as (Hu & Ht & Hck & Hn & Hid & Hsys' & Hcomp' & Hseq' & Hlen & Hpay & Hst).
  rewrite Hv2 in Hlen.
  assert (m_len m = 9) as Hlen9.
  { rewrite Hlen. destruct (trim_spec (m_payload64 msg1) 9) as (H1 & _ & H3 & _); [done|].
    set (r := _mav_trim_payload (m_payload64 msg1) 9) in *. clearbody r.
    destruct (decide (r = 9)) as [E|E]; [exact E|]. exfalso.
    specialize (H3 8 ltac:(lia)). rewrite Hp1 in H3. unfold rd in H3.
    rewrite lookup_app_l in H3 by (rewrite Hl; cbn; lia). done. }
  rewrite Hlen9, Hp1, take_app_length' in Hpay by (by rewrite Hl).
  assert (n = 21) as Hn21.
  { rewrite Hn. unfold mavlink_msg_get_send_buffer_length. rewrite Hmagic, (proj1 (proj2 Hu)), Hlen9. done. }
  assert (_mavlink_resend_uart m = heartbeat_frame sys comp (s_current_tx_seq st) h) as Hw.
  { unfold _mavlink_resend_uart. rewrite Hmagic, (proj1 (proj2 Hu)). fold (payload_of m). rewrite Hpay.
    change (MAVLINK_STX =? MAVLINK_STX_MAVLINK1) with false. cbn [Z.land Z.eqb]. rewrite app_nil_r.
    unfold ck_bytes, header_v2, heartbeat_frame. rewrite Hck. unfold frame_crc. rewrite Hmagic, Hpay.
    change (MAVLINK_STX =? MAVLINK_STX_MAVLINK1) with false. unfold header_v2.
    rewrite Hmagic, (proj1 (proj2 Hu)), Hlen9, Hcompat, Hseq', Hsys', Hcomp', Hid. change (m_msgid msg1) with 0. rewrite Hex.
    change (Z.land 0 255) with 0. change (Z.land (Z.shiftr 0 8) 255) with 0. change (Z.land (Z.shiftr 0 16) 255) with 0.
    cbn [drop]. rewrite crc_calculate_app. change (le_bytes 4 (hb_custom_mode h) ++ _) with (heartbeat_bytes h3).
    set (crc := crc_accumulate 50 _). assert (is_u16 crc) as Hcrc by apply crc_accumulate_u16.
    rewrite (wrap_id 8 (Z.shiftr crc 8)); [by rewrite <- app_assoc|].
    rewrite Z.shiftr_div_pow2 by done. unfold in_range in *. Z.div_mod_to_equations; lia. }
  split; [|exact (conj Hn21 Hst)]. split; [split; [done|split; [done|]]| |exact Hw| |exact Hpay].
  - destruct (wire_of_ok m (proj1 Hu)) as [H _]. unfold wire_of in H. by rewrite Ht in H.
  - unfold verdict. by rewrite bool_decide_eq_true_2.
  - split_and!; done.
Qed.

(** What a receiver makes of it. *)
Lemma decode_received crcs rx sys comp seq h m :
  wf_message rx -> heartbeat_ok h -> holds_heartbeat crcs sys comp seq h m ->
  mavlink_msg_heartbeat_decode (received crcs rx m) =
  mk_heartbeat (hb_custom_mode h) (hb_type h) (hb_autopilot h) (hb_base_mode h) (hb_system_status h) 3.
Proof.
  intros Hrx Hh [(Hu & _ & _) _ _ (_ & _ & _ & _ & Hl) Hp].
  destruct (received_trim crcs rx m Hrx Hu) as [_ Ht]. rewrite Hl, Hp in Ht. change (Z.to_nat 9) with 9%nat in Ht.
  set (h3 := mk_heartbeat _ _ _ _ _ 3) in *. assert (heartbeat_ok h3) as Hh3 by (destruct Hh; by split).
  destruct (heartbeat_bytes_ok h3 Hh3) as [_ Hl9]. rewrite decode_long, Ht by
    first [cbn [received m_len]; lia | rewrite <- Ht, length_take in Hl9; lia].
  by apply heartbeat_bytes_inv.
Qed.

(** C11. A heartbeat encoded on an unsigned version-2 channel: its frame is the
    one of the MAVLink documentation, with the channel's sequence number,
    which moves on by one modulo 256; received byte by byte between two
    frames it is reported good at its last byte only, and decodes to the
    structure it was made from, with version 3. *)
Theorem heartbeat_roundtrip crcs accept_unsigned sys comp st msg h p :
  crc_extra_of crcs 0 = 50 -> wf_message msg -> is_u8 sys -> is_u8 comp -> heartbeat_ok h -> sends_plain st ->
  between_frames p ->
  let '(m, st', n) := mavlink_msg_heartbeat_encode sys comp st msg h in
  let '(buf, len) := mavlink_msg_to_send_buffer (replicate 21 0) m in
  n = 21 /\ len = 21 /\ buf = heartbeat_frame sys comp (s_current_tx_seq st) h /\
  s_current_tx_seq st' = (s_current_tx_seq st + 1) mod 256 /\
  exists front c r, buf = front ++ [c] /\
    returned crcs accept_unsigned p front = replicate 20 MAVLINK_FRAMING_INCOMPLETE /\
    (forall rm rs,
      let q := fed crcs accept_unsigned p front in
      let o := mavlink_frame_char_buffer crcs accept_unsigned (rx_buffer q) (rx_status q) c (Some rm) rs in
      fo_result o = MAVLINK_FRAMING_OK /\ fo_r_message o = Some r) /\
    mavlink_msg_heartbeat_decode r =
    mk_heartbeat (hb_custom_mode h) (hb_type h) (hb_autopilot h) (hb_base_mode h) (hb_system_status h) 3.
Proof.
  intros Hex Hm Hsys Hcomp Hh Hst Hp. pose proof (encode_spec crcs sys comp st msg h Hex Hm Hsys Hcomp Hh Hst) as He.
  destruct (mavlink_msg_heartbeat_encode sys comp st msg h) as [[m st'] n]. destruct He as (He & -> & ->).
  pose proof He as [(Hu & Ht & Hb) Hv Hw _ _]. rewrite (to_send_buffer_memcpy _ m (proj1 Hu)), Ht, Hw.
  rewrite length_heartbeat_frame, memcpy_at_spec by (by rewrite length_heartbeat_frame).
  rewrite length_heartbeat_frame, drop_ge, app_nil_r by done. cbn [take app].
  split; [done|]. split; [done|]. split; [done|]. split; [done|].
  destruct (wire_split_last m) as (front & c & Hf). pose proof Hf as Hf'. rewrite Hw in Hf'. rewrite Hf in Hb.
  destruct (fed_frame crcs accept_unsigned p m front c Hp Hu Hf Hb) as (Hr & _ & _ & Ho).
  exists front, c, (received crcs (rx_buffer p) m). split; [done|]. split; [|split].
  - rewrite Hr. f_equal. apply (f_equal length) in Hf'. rewrite length_heartbeat_frame, length_app in Hf'. cbn in Hf'. lia.
  - intros rm rs. destruct (Ho rm rs) as [-> ->]. by rewrite Hv.
  - apply (decode_received crcs _ sys comp (s_current_tx_seq st)); [apply Hp|done|exact He].
Qed.

Definition sample_heartbeat : mavlink_heartbeat_t := mk_heartbeat 0 2 3 81 0 3.

Lemma blank_sends_plain : sends_plain blank_status.
Proof. by split. Qed.

Lemma sample_heartbeat_ok : heartbeat_ok sample_heartbeat.
Proof. split; decide_true. Qed.

Lemma ardupilotmega_heartbeat : crc_extra_of ardupilotmega_crcs 0 = 50.
Proof. vm_compute. reflexivity. Qed.

Lemma heartbeat_roundtrip_witness :
  let '(m, st', n) := mavlink_msg_heartbeat_encode 1 0 blank_status blank_message sample_heartbeat in
  let '(buf, len) := mavlink_msg_to_send_buffer (replicate 21 0) m in
  let p := mk_parser blank_message blank_status in
  n = 21 /\ len = 21 /\ buf = heartbeat_frame 1 0 0 sample_heartbeat /\
  s_current_tx_seq st' = 1 /\
  exists front c r, buf = front ++ [c] /\
    returned ardupilotmega_crcs None p front = replicate 20 MAVLINK_FRAMING_INCOMPLETE /\
    (forall rm rs,
      let q := fed ardupilotmega_crcs None p front in
      let o := mavlink_frame_char_buffer ardupilotmega_crcs None (rx_buffer q) (rx_status q) c (Some rm) rs in
      fo_result o = MAVLINK_FRAMING_OK /\ fo_r_message o = Some r) /\
    mavlink_msg_heartbeat_decode r = sample_heartbeat.
Proof.
  refine (heartbeat_roundtrip ardupilotmega_crcs None 1 0 blank_status blank_message sample_heartbeat
    (mk_parser blank_message blank_status) ardupilotmega_heartbeat blank_message_ok _ _ sample_heartbeat_ok
    blank_sends_plain _).
  - done.
  - done.
  - split; [exact blank_parser_ok|]. split; [by right|done].
Defined.
