(* ===== verification/SealedStream.v ===== *)
(** * A byte stream sealed in frames

    What crosses the link between Encrypt and Decrypt: the plaintext stream
    is cut into blocks of 64 bytes, each sealed with the next counter and put
    in a frame. *)

From S2P Require Import Prelude Ring Queue RingBuffer MavlinkTypes Mavlink MavlinkParser.
From S2P Require Import Aes Gf128 Gcm GcmSpec AesModes Gec Relay.

Local Open Scope Z_scope.

(** The frames of the first [n] blocks of [l], after counter [c]. *)
Fixpoint sealed (key s : list Z) (c : Z) (n : nat) (l : list Z) : list (list Z) :=
  match n with
  | O => []
  | S n => frame (box key s (c + 1) (take GEC_PT_LEN l)) :: sealed key s (c + 1) n (drop GEC_PT_LEN l)
  end.

Definition full_blocks (l : list Z) : nat := (length l / GEC_PT_LEN)%nat.

Lemma full_blocks_spec l :
  (GEC_PT_LEN * full_blocks l <= length l < GEC_PT_LEN * full_blocks l + GEC_PT_LEN)%nat.
Proof.
  unfold full_blocks. change GEC_PT_LEN with 64%nat.
  pose proof (Nat.div_mod_eq (length l) 64). pose proof (Nat.mod_upper_bound (length l) 64). lia.
Qed.

Lemma sealed_prefix key s n : forall c l r,
  (GEC_PT_LEN * n <= length l)%nat -> sealed key s c n (l ++ r) = sealed key s c n l.
Proof.
  induction n as [|n IH]; intros c l r Hl; [done|]. cbn [sealed].
  rewrite take_app_le, drop_app_le by lia. f_equal. apply IH. rewrite length_drop. lia.
Qed.

Lemma sealed_add key s m n : forall c l,
  sealed key s c (m + n) l = sealed key s c m l ++ sealed key s (c + Z.of_nat m) n (drop (GEC_PT_LEN * m) l).
Proof.
  induction m as [|m IH]; intros c l.
  { rewrite Nat.mul_0_r, drop_0. cbn [sealed app Nat.add]. f_equal. lia. }
  cbn [sealed Nat.add app]. f_equal. rewrite IH. f_equal. rewrite drop_drop. f_equal; [lia|]. f_equal. lia.
Qed.

(** Adding the bytes [w] to a stream of which the full blocks are sealed. *)
Lemma full_blocks_app l w :
  full_blocks (l ++ w) =
  (full_blocks l + full_blocks (drop (GEC_PT_LEN * full_blocks l) l ++ w))%nat.
Proof.
  pose proof (full_blocks_spec l) as Hl. unfold full_blocks. rewrite !length_app, length_drop.
  fold (full_blocks l). change GEC_PT_LEN with 64%nat in *.
  replace (length l + length w)%nat with (length l - 64 * full_blocks l + length w + full_blocks l * 64)%nat by lia.
  rewrite Nat.div_add by lia. lia.
Qed.

Lemma sealed_app key s c l w :
  sealed key s c (full_blocks (l ++ w)) (l ++ w) =
  sealed key s c (full_blocks l) l ++
  sealed key s (c + Z.of_nat (full_blocks l)) (full_blocks (drop (GEC_PT_LEN * full_blocks l) l ++ w))
    (drop (GEC_PT_LEN * full_blocks l) l ++ w).
Proof.
  pose proof (full_blocks_spec l) as Hl. rewrite full_blocks_app, sealed_add. f_equal.
  - apply sealed_prefix. lia.
  - by rewrite drop_app_le by lia.
Qed.

(** What the C stack holds in variables that the code does not initialise,
    and the alignment of its buffers. *)
Record stack := mk_stack {
  st_msg : mavlink_message_t;
  st_status : mavlink_status_t;
  st_byte : Z;
  st_buf : list Z;
  st_frame : list Z;
  st_pt : list Z;
  st_places : places;
}.

Record stack_ok (u : stack) : Prop := {
  ok_msg : wf_message (st_msg u);
  ok_buf : length (st_buf u) = 280%nat;
  ok_frame : length (st_frame u) = 82%nat;
  ok_pt : length (st_pt u) = GEC_PT_LEN;
}.

(** ** Sealing *)

(** The limit of the counter of a key. *)
Definition counter_limit : Z := UINT32_MAX - 15.

Definition header : list Z := [GEC_CIPHERTEXT_FRAME_MAGIC; GEC_CIPHERTEXT_FRAME_TAG].

(** What is left of the stream [l] when its full blocks are sealed: the queue,
    the key and what has been written. *)
Record sealing (key sl : list Z) (c0 : Z) (l : list Z) (q : Queue.queue_t) (k : gec_sym_key)
    (out : list (list Z)) : Prop := {
  se_wf : Queue.wf q;
  se_queue : Queue.contents q = drop (GEC_PT_LEN * full_blocks l) l;
  se_keyed : gec_keyed key sl k;
  se_ctr : ctr k = c0 + Z.of_nat (full_blocks l);
  se_out : out = sealed key sl c0 (full_blocks l) l;
}.

(** The loop of a component that seals [n] blocks from the queue, with its
    plaintext and frame buffers, and writes the frames. *)
Definition block_loop : Type :=
  nat -> list Z -> list Z -> Queue.queue_t -> gec_sym_key -> list (list Z) ->
  Queue.queue_t * gec_sym_key * list (list Z).

(** What the relays require of such a loop. *)
Class BlockSealer (key sl : list Z) (blocks : block_loop) : Prop := {
  seals_blocks : forall n buf ct_buf q k out,
    Queue.wf q -> (GEC_PT_LEN * n <= length (Queue.contents q))%nat -> (GEC_PT_LEN <= length buf)%nat ->
    length ct_buf = 82%nat -> take 2 ct_buf = header ->
    gec_keyed key sl k -> ctr k + Z.of_nat n <= counter_limit ->
    exists q' k',
      blocks n buf ct_buf q k out = (q', k', out ++ sealed key sl (ctr k) n (Queue.contents q)) /\
      Queue.wf q' /\ Queue.contents q' = drop (GEC_PT_LEN * n) (Queue.contents q) /\
      gec_keyed key sl k' /\ ctr k' = ctr k + Z.of_nat n;
}.

(** One block: the frame buffer holds the frame afterwards. *)
Lemma sealed_block key sl at_ k blk buf ct_buf :
  block key -> is_salt sl -> gec_keyed key sl k -> bytes blk -> length blk = GEC_PT_LEN ->
  take GEC_PT_LEN buf = blk -> length ct_buf = 82%nat -> take 2 ct_buf = header -> ctr k + 1 <= counter_limit ->
  exists k', gec_encrypt at_ k buf (drop 2 ct_buf) = (GEC_SUCCESS, box key sl (ctr k + 1) blk, k') /\
    gec_keyed key sl k' /\ ctr k' = ctr k + 1 /\
    take 2 ct_buf ++ box key sl (ctr k + 1) blk = frame (box key sl (ctr k + 1) blk).
Proof.
  intros Hkey Hsl Hk Hbb Hbl Hbuf Hc H2 Hctr. rewrite gec_encrypt_take, Hbuf.
  destruct (gec_encrypt_spec key sl Hkey Hsl at_ k blk (drop 2 ct_buf) Hk Hbb Hbl) as (k1 & -> & Hk1 & Hck1);
    [rewrite length_drop, Hc; done|unfold counter_limit in Hctr; lia|].
  exists k1. split; [done|]. split; [done|]. split; [done|]. by rewrite H2.
Qed.

#[local] Opaque gcm_encrypt_message.
Lemma length_gec_encrypt at_ k pt ct : length (gec_encrypt at_ k pt ct).1.2 = length ct.
Proof.
  unfold gec_encrypt. case_bool; [done|].
  destruct (gcm_encrypt_message _ _ _ _ _ _ _ _) as [[[r msg] tag] g].
  case_bool; cbn [fst snd]; unfold memset_at, memcpy_at; rewrite !length_inserts, length_app;
    unfold _write_word32_be; cbn [foldl fst]; rewrite !length_wr; cbn; rewrite ?drop_0; done.
Qed.

Lemma sealed_frame_length key sl c blk ct_buf :
  block key -> is_salt sl -> length blk = GEC_PT_LEN -> take 2 ct_buf = header ->
  length (take 2 ct_buf ++ box key sl c blk) = 82%nat.
Proof. intros Hkey Hsl Hl ->. by rewrite length_app, (box_layout key sl Hkey Hsl). Qed.

(** The loops differ in how they get a block from the queue into the
    buffer. *)
Section loop.
Context (at_ : places) (get : Queue.queue_t -> list Z -> Queue.queue_t * list Z).

Fixpoint seal_loop (loop : nat) (buf ct_buf : list Z) (q : Queue.queue_t) (k : gec_sym_key)
    (out : list (list Z)) : Queue.queue_t * gec_sym_key * list (list Z) :=
  match loop with
  | O => (q, k, out)
  | S loop =>
      let '(q, buf) := get q buf in
      let '(r, ct, k) := gec_encrypt at_ k buf (drop 2 ct_buf) in
      let ct_buf := take 2 ct_buf ++ ct in
      let out := if negb (r =? GEC_SUCCESS) then out else out ++ [ct_buf] in
      seal_loop loop buf ct_buf q k out
  end.

Definition gets_blocks : Prop := forall q buf,
  Queue.wf q -> (GEC_PT_LEN <= length (Queue.contents q))%nat -> (GEC_PT_LEN <= length buf)%nat ->
  exists q', get q buf = (q', take GEC_PT_LEN (Queue.contents q) ++ drop GEC_PT_LEN buf) /\
    Queue.wf q' /\ Queue.contents q' = drop GEC_PT_LEN (Queue.contents q).

Lemma seal_loop_seals key sl :
  block key -> is_salt sl -> gets_blocks -> BlockSealer key sl seal_loop.
Proof.
  intros Hkey Hsl Hget. split. induction n as [|n IH]; intros buf ct_buf q k out Hq Hn Hb Hc H2 Hk Hctr.
  { exists q, k. cbn [seal_loop sealed]. rewrite app_nil_r, Nat.mul_0_r, drop_0. split_and!; done || lia. }
  cbn [seal_loop]. destruct (Hget q buf Hq) as (q1 & -> & Hq1 & Hc1); [lia|lia|].
  set (blk := take GEC_PT_LEN (Queue.contents q)) in *.
  assert (length blk = GEC_PT_LEN) as Hbl by (unfold blk; rewrite length_take; lia).
  destruct (sealed_block key sl at_ k blk (blk ++ drop GEC_PT_LEN buf) ct_buf Hkey Hsl)
    as (k1 & -> & Hk1 & Hck1 & Hf);
    [done|by apply bytes_take, Queue.contents_bytes|done|by apply take_app_length'|done|done|lia|].
  change (GEC_SUCCESS =? GEC_SUCCESS) with true. cbn [negb]. rewrite Hf.
  destruct (IH (blk ++ drop GEC_PT_LEN buf) (frame (box key sl (ctr k + 1) blk)) q1 k1
    (out ++ [frame (box key sl (ctr k + 1) blk)])) as (q2 & k2 & E2 & Hq2 & Hc2 & Hk2 & Hck2);
    [done| | | | |done|lia|].
  - rewrite Hc1, length_drop. lia.
  - rewrite length_app. lia.
  - rewrite <- Hf. by apply sealed_frame_length.
  - done.
  - exists q2, k2. rewrite E2. split; [|split; [done|]].
    + f_equal. rewrite <- app_assoc. f_equal. rewrite Hc1, Hck1. reflexivity.
    + rewrite Hc2, Hc1, drop_drop. split; [f_equal; lia|]. split; [done|]. lia.
Qed.

Lemma sealer_of_loop key sl (blocks : block_loop) :
  block key -> is_salt sl -> gets_blocks ->
  (forall n buf ct_buf q k out, blocks n buf ct_buf q k out = seal_loop n buf ct_buf q k out) ->
  BlockSealer key sl blocks.
Proof.
  intros Hkey Hsl Hget He. destruct (seal_loop_seals key sl Hkey Hsl Hget) as [H].
  split. intros n buf ct_buf q k out. rewrite He. apply H.
Qed.
End loop.

Lemma full_blocks_mono l w : (full_blocks l <= full_blocks (l ++ w))%nat.
Proof. rewrite full_blocks_app. lia. Qed.

Lemma header_written ct : length ct = 82%nat ->
  let ct := wr (wr ct 0 GEC_CIPHERTEXT_FRAME_MAGIC) 1 GEC_CIPHERTEXT_FRAME_TAG in
  length ct = 82%nat /\ take 2 ct = header.
Proof.
  intros Hl. cbv zeta. rewrite !length_wr. split; [done|]. unfold wr.
  change (Z.to_nat 0) with 0%nat. change (Z.to_nat 1) with 1%nat. by destruct ct as [|a [|b r]].
Qed.

(** A message of the parser joins the stream: it is serialised into [buf],
    queued, and the blocks that are full are sealed. *)
Lemma sealing_message {blocks} key sl `{!BlockSealer key sl blocks} c0 l q k out msg buf0 ct_buf :
  sealing key sl c0 l q k out -> wf_message msg -> length buf0 = 280%nat ->
  length ct_buf = 82%nat -> take 2 ct_buf = header ->
  c0 + Z.of_nat (full_blocks (l ++ wire_of msg)) <= counter_limit ->
  let '(buf, len) := mavlink_msg_to_send_buffer buf0 msg in
  let q1 := enqueue_all q (take (Z.to_nat len) buf) in
  let '(q', k', out') := blocks (Z.to_nat (Queue.size q1 / Z.of_nat GEC_PT_LEN)) buf ct_buf q1 k out in
  sealing key sl c0 (l ++ wire_of msg) q' k' out'.
Proof.
  intros [Hwf Hq Hk Hctr Hs] Hm Hb0 Hc82 Hc2 Hlim.
  destruct (wire_of_ok msg Hm) as [Hwb Hwl]. pose proof (full_blocks_spec l) as Hfl.
  rewrite (to_send_buffer_memcpy _ msg Hm). fold (wire_of msg). rewrite Nat2Z.id.
  rewrite memcpy_at_spec by (rewrite Hb0; lia). rewrite take_0, app_nil_l, take_app_length.
  set (rest := drop (GEC_PT_LEN * full_blocks l) l) in *. change GEC_PT_LEN with 64%nat in *.
  assert (length rest < 64)%nat as Hr by (unfold rest; rewrite length_drop; lia).
  destruct (queue_enqueue_all q (wire_of msg) Hwf Hwb) as [Hwf1 Hc1].
  { rewrite Hq, length_app. unfold MAX_QUEUE_SIZE. lia. }
  rewrite Hq in Hc1. cbv zeta. set (q1 := enqueue_all q (wire_of msg)) in *.
  assert (Z.to_nat (Queue.size q1 / Z.of_nat 64) = full_blocks (rest ++ wire_of msg)) as ->.
  { rewrite <- (Queue.length_contents q1 Hwf1), Hc1, <- Nat2Z.inj_div, Nat2Z.id. done. }
  set (n := full_blocks (rest ++ wire_of msg)) in *.
  assert (full_blocks (l ++ wire_of msg) = (full_blocks l + n)%nat) as Hfa by apply full_blocks_app.
  pose proof (full_blocks_spec (rest ++ wire_of msg)) as Hfn. fold n in Hfn. change GEC_PT_LEN with 64%nat in Hfn.
  set (buf := wire_of msg ++ _).
  destruct (seals_blocks n buf ct_buf q1 k out Hwf1) as (q2 & k2 & -> & Hq2 & Hcq2 & Hk2 & Hck2);
    change GEC_PT_LEN with 64%nat; [rewrite Hc1; lia| |done|done|done|lia|].
  { unfold buf. rewrite length_app, length_drop, Hb0. lia. }
  change GEC_PT_LEN with 64%nat in *.
  split; [done| |done|lia|]; change GEC_PT_LEN with 64%nat.
  - rewrite Hcq2, Hc1, Hfa. unfold rest. rewrite <- drop_app_le, drop_drop by lia. f_equal. lia.
  - rewrite Hs, Hc1, Hctr. symmetry. apply sealed_app.
Qed.

(** A component that handles bytes by parsing them, and seals what the parser
    reports; [view] is its queue, its key and what it has written. *)
Section component.
Context (crcs : list mavlink_msg_entry_t).
Context (accept_unsigned : option (mavlink_status_t -> Z -> bool)).
Context (u : stack) (Hu : stack_ok u).
Context {S : Type} (handle : Z -> S -> S) (prs : S -> parser).
Context (view : S -> Queue.queue_t * gec_sym_key * list (list Z)) (blocks : block_loop).

Definition seals_reports : Prop := forall s c,
  let '(p, msg, _, r) := parse_frame_char crcs accept_unsigned (prs s) c (st_msg u) (st_status u) in
  prs (handle c s) = p /\
  view (handle c s) =
    if r =? 0 then view s
    else
      let '(q, k, out) := view s in
      let '(buf, len) := mavlink_msg_to_send_buffer (st_buf u) msg in
      let q := enqueue_all q (take (Z.to_nat len) buf) in
      blocks (Z.to_nat (Queue.size q / Z.of_nat GEC_PT_LEN)) buf
        (wr (wr (st_frame u) 0 GEC_CIPHERTEXT_FRAME_MAGIC) 1 GEC_CIPHERTEXT_FRAME_TAG) q k out.

Context (key sl : list Z) `{!BlockSealer key sl blocks} (Hrep : seals_reports).

Definition sealing_state (c0 : Z) (ws : list (list Z)) (s : S) : Prop :=
  let '(q, k, out) := view s in sealing key sl c0 (concat ws) q k out.

Lemma sealing_char c0 ws s c :
  sealing_state c0 ws s -> parser_ok (prs s) -> is_u8 c ->
  let '(p, o) := relay_char crcs accept_unsigned (st_msg u) (st_status u) (prs s) c in
  c0 + Z.of_nat (full_blocks (concat (ws ++ o))) <= counter_limit ->
  prs (handle c s) = p /\ sealing_state c0 (ws ++ o) (handle c s).
Proof.
  intros He Hok Hc. unfold relay_char, sealing_state in *. pose proof (Hrep s c) as Hv.
  pose proof (parse_frame_char_ok crcs accept_unsigned (prs s) c (st_msg u) (st_status u) Hok Hc (ok_msg u Hu)) as H1.
  destruct (parse_frame_char crcs accept_unsigned (prs s) c (st_msg u) (st_status u)) as [[[p m] st'] r].
  destruct H1 as [_ Hm]. destruct Hv as [-> ->]. destruct (view s) as [[q k] out].
  destruct (r =? 0); intros Hlim; [by rewrite app_nil_r|]. split; [done|].
  rewrite concat_app in Hlim |- *. cbn [concat] in Hlim |- *. rewrite app_nil_r in Hlim |- *.
  destruct (header_written (st_frame u) (ok_frame u Hu)) as [H82 H2].
  pose proof (sealing_message key sl c0 (concat ws) q k out m (st_buf u) _ He Hm (ok_buf u Hu) H82 H2 Hlim) as H1.
  by destruct (mavlink_msg_to_send_buffer (st_buf u) m) as [buf len].
Qed.

(** The loop over the ring: the stream of reported messages is sealed. *)
Lemma sealing_turn c0 rb head s :
  in_ring head -> in_ring (rb_tail rb) -> bytes (available rb head) ->
  sealing_state c0 [] s -> parser_ok (prs s) ->
  let '(p, ws) := relayed crcs accept_unsigned (st_msg u) (st_status u) (prs s) (available rb head) in
  c0 + Z.of_nat (full_blocks (concat ws)) <= counter_limit ->
  let '(head', s') := drain_ring handle (Z.to_nat RING_BUFFER_SIZE) rb head (rb_tail rb) s in
  head' = rb_tail rb /\ prs s' = p /\ sealing_state c0 ws s'.
Proof.
  intros Hh Ht Hb He Hp.
  rewrite drain_ring_spec by (done || (pose proof (available_length rb head Hh Ht); unfold RING_BUFFER_SIZE; lia)).
  pose proof (relay_run crcs accept_unsigned handle prs (sealing_state c0)
    (fun ws => c0 + Z.of_nat (full_blocks (concat ws)) <= counter_limit) (st_msg u) (st_status u) (ok_msg u Hu)) as H.
  specialize (H ltac:(intros a b; cbv beta; rewrite concat_app; pose proof (full_blocks_mono (concat a) (concat b)); lia)
    (sealing_char c0) (available rb head) [] s He Hp Hb).
  destruct (relayed crcs accept_unsigned (st_msg u) (st_status u) (prs s) (available rb head)) as [p ws].
  intros Hlim. by destruct (H Hlim).
Qed.
End component.

Lemma sealing_nothing key sl q k :
  Queue.wf q -> Queue.contents q = [] -> gec_keyed key sl k -> sealing key sl (ctr k) [] q k [].
Proof. intros Hq Hq0 Hk. split; [done|exact Hq0|done|cbn; lia|done]. Qed.

(** ** Opening *)

Section opening.
Context (key sl : list Z) (Hkey : block key) (Hsl : is_salt sl).

(** What a ciphertext contributes to the plaintext stream. *)
Definition opened (ct : list Z) : list Z :=
  let E := Fips.cipher key in
  let iv := take 4 ct ++ sl in
  if bool_decide (drop 68 ct = Sp800_38D.tag E GEC_TAG_LEN iv [] (slice 4 64 ct))
  then Sp800_38D.ciphertext E iv (slice 4 64 ct) else [].

Definition is_ct (ct : list Z) : Prop := bytes ct /\ length ct = GEC_CT_LEN.

Lemma opened_ok ct : is_ct ct -> bytes (opened ct) /\ (length (opened ct) <= 64)%nat.
Proof.
  intros [Hb Hl]. unfold opened. case_bool_decide; [|split; [constructor|cbn; lia]].
  assert (length (slice 4 64 ct) = 64%nat) as Hs by (apply length_slice; rewrite Hl; cbn; lia).
  assert (block (Sp800_38D.J0 (Fips.cipher key) (take 4 ct ++ sl))) as HJ.
  { assert (bytes (take 4 ct ++ sl)) as Hvb by (by apply bytes_app; [apply bytes_take|apply Hsl]).
    assert (length (take 4 ct ++ sl) = 12%nat) as Hvl by (by rewrite length_app, length_take, (proj2 Hsl), Hl).
    unfold Sp800_38D.J0. rewrite decide_True by done.
    split; [apply bytes_app; [done|decide_true]|rewrite length_app, Hvl; done]. }
  split.
  - apply GCTR_bytes; [exact (E_block key Hkey)|by apply inc32_block|by apply bytes_slice].
  - rewrite (ciphertext_length key Hkey) by done. lia.
Qed.

(** [gec_decrypt] on any ciphertext, whatever the counter. *)
Lemma gec_decrypt_opened at_ k ct pt0 :
  gec_keyed key sl k -> is_ct ct -> length pt0 = GEC_PT_LEN ->
  exists k' pt r, gec_decrypt at_ k ct pt0 = (r, pt, k') /\
    gec_keyed key sl k' /\ (if negb (r =? 0) then [] else take GEC_PT_LEN pt) = opened ct.
Proof.
  intros Hk [Hb Hl] Hpt.
  destruct (gec_decrypt_spec key sl Hkey Hsl at_ k ct pt0 Hk Hb Hl Hpt) as (g & Hg & E).
  cbv zeta in E. destruct (opened_ok ct (conj Hb Hl)) as [Hob Hol]. unfold opened in *. cbn zeta.
  case_bool_decide; rewrite E; do 3 eexists; (split; [reflexivity|]); cbn [negb Z.eqb GEC_SUCCESS GEC_ERROR_DECRYPT_AUTH_FAILED].
  - split; [split; [exact Hg|done|by apply (wrap_range 32)]|]. by apply take_ge.
  - split; [split; [exact Hg|done|exact (gec_ctr _ _ _ Hk)]|done].
Qed.

End opening.

(** The boxes of a sealed stream open to its blocks. *)
Section link.
Context (key sl : list Z) (Hkey : block key) (Hsl : is_salt sl).

Fixpoint boxes (c : Z) (n : nat) (l : list Z) : list (list Z) :=
  match n with
  | O => []
  | S n => box key sl (c + 1) (take GEC_PT_LEN l) :: boxes (c + 1) n (drop GEC_PT_LEN l)
  end.

Lemma sealed_boxes n : forall c l, sealed key sl c n l = map frame (boxes c n l).
Proof. induction n as [|n IH]; intros c l; [done|]. cbn [sealed boxes map]. by rewrite IH. Qed.

Lemma length_boxes n : forall c l, length (boxes c n l) = n.
Proof. induction n as [|n IH]; intros c l; [done|]. cbn [boxes length]. by rewrite IH. Qed.

Lemma opened_box c pt : bytes pt -> length pt = GEC_PT_LEN ->
  is_ct (box key sl c pt) /\ opened key sl (box key sl c pt) = pt.
Proof.
  intros Hp Hl. pose proof (box_bytes key sl Hkey Hsl c pt Hp) as Hb.
  split; [split; [exact Hb|by apply box_layout]|].
  destruct (box_opens key sl Hkey Hsl c pt Hl) as (Ht & Hd & _).
  unfold opened. rewrite bool_decide_eq_true_2 by exact Ht. exact Hd.
Qed.

Lemma length_sealed n : forall c l,
  (GEC_PT_LEN * n <= length l)%nat -> length (concat (sealed key sl c n l)) = (82 * n)%nat.
Proof.
  induction n as [|n IH]; intros c l Hl; [done|]. cbn [sealed concat]. unfold frame at 1.
  rewrite length_app, IH by (rewrite length_drop; lia). cbn [length].
  rewrite (box_layout key sl Hkey Hsl) by (rewrite length_take; lia). change GEC_CT_LEN with 80%nat. lia.
Qed.

(** The blocks of a stream. *)
Fixpoint chunks (n : nat) (l : list Z) : list (list Z) :=
  match n with
  | O => []
  | S n => take GEC_PT_LEN l :: chunks n (drop GEC_PT_LEN l)
  end.

Lemma concat_chunks n : forall l, concat (chunks n l) = take (GEC_PT_LEN * n) l.
Proof.
  induction n as [|n IH]; intros l; cbn [chunks concat].
  { by rewrite Nat.mul_0_r, take_0. }
  rewrite IH, take_drop_commute. replace (GEC_PT_LEN + GEC_PT_LEN * n)%nat with (GEC_PT_LEN * S n)%nat by lia.
  rewrite <- (take_drop GEC_PT_LEN (take (GEC_PT_LEN * S n) l)) at 2. f_equal. rewrite take_take. f_equal. lia.
Qed.

Lemma boxes_open_chunks n : forall c l,
  bytes l -> (GEC_PT_LEN * n <= length l)%nat ->
  Forall is_ct (boxes c n l) /\ map (opened key sl) (boxes c n l) = chunks n l.
Proof.
  induction n as [|n IH]; intros c l Hb Hl; cbn [boxes map chunks]; [by split; [constructor|]|].
  destruct (opened_box (c + 1) (take GEC_PT_LEN l)) as [H1 ->]; [by apply bytes_take|rewrite length_take; lia|].
  destruct (IH (c + 1) (drop GEC_PT_LEN l)) as [H2 ->]; [by apply bytes_drop|rewrite length_drop; lia|].
  split; [by apply Forall_cons_2|done].
Qed.

Lemma boxes_open n c l :
  bytes l -> (GEC_PT_LEN * n <= length l)%nat ->
  Forall is_ct (boxes c n l) /\ concat (map (opened key sl) (boxes c n l)) = take (GEC_PT_LEN * n) l.
Proof. intros Hb Hl. destruct (boxes_open_chunks n c l Hb Hl) as [H ->]. by rewrite concat_chunks. Qed.
End link.
