(* ===== verification/LinkSample.v ===== *)
(** * A link to try the theorems on

    Concrete values for the witnesses of the application files: a stack, a
    parser that has seen nothing, rings that hold given bytes, six heartbeat
    messages, and the sample channel of Gec.v. *)

From S2P Require Import Prelude Ring Queue RingBuffer MavlinkTypes Mavlink MavlinkParser.
From S2P Require Import Aes Gf128 Gcm GcmSpec AesModes Gec Relay FrameStream SealedStream.

Local Open Scope Z_scope.

Definition sample_stack : stack :=
  mk_stack blank_message blank_status 0 (replicate 280 0) (replicate 82 0) (replicate 64 0) (mk_places 0 1 2).

Lemma sample_stack_ok : stack_ok sample_stack.
Proof. split; [exact blank_message_ok|done|done|done]. Qed.

Definition idle_parser : parser := mk_parser blank_message blank_status.
Definition empty_queue : Queue.queue_t := Queue.queue_init (Queue.mk_queue [] 0 0).

(** A ring that holds [l], from index 0 on. *)
Definition ring_of (l : list Z) : ring_buffer_t :=
  {| rb_buffer := l ++ replicate (2048 - length l) 0; rb_head := 0; rb_tail := Z.of_nat (length l) |}.

(** Six heartbeats, 78 bytes. *)
Definition heartbeats : list Z := concat (replicate 6 [253; 1; 0; 0; 0; 1; 2; 0; 0; 0; 0; 168; 32]).

(** The message of one of them. *)
Definition heartbeat_message : mavlink_message_t :=
  mk_message 8360 MAVLINK_STX 1 0 0 0 1 2 0 (replicate PAYLOAD_BYTES 0) [0; 0] (replicate 13 0).

Lemma heartbeat_relayable : relayable heartbeat_message /\ heartbeats = concat (map _mavlink_resend_uart (replicate 6 heartbeat_message)).
Proof.
  split; [|vm_compute; reflexivity]. split; [|split; [vm_compute; reflexivity|decide_true]].
  split; [split; decide_true|]. split; [done|by left].
Qed.

Lemma idle_parser_between : between_frames idle_parser.
Proof. split; [exact blank_parser_ok|]. split; [by right|done]. Qed.

Lemma sample_key_ok :
  block (take 16 sample_raw) /\ is_salt (slice 16 8 sample_raw) /\
  gec_keyed (take 16 sample_raw) (slice 16 8 sample_raw) (sample_chan 0).
Proof. destruct (sample_keyed 0 ltac:(lia)) as (Hk & Hb & Hs). exact (conj Hb (conj Hs Hk)). Qed.

Lemma empty_queue_ok : Queue.wf empty_queue /\ Queue.contents empty_queue = [].
Proof. apply Queue.queue_init_wf. Qed.

Lemma ring_read_id l r : forall n pre,
  l = pre ++ drop (length pre) l -> (length pre + n = length l)%nat -> Z.of_nat (length l) < 2048 ->
  ring_read 2048 (l ++ r) (Z.of_nat (length pre)) n = drop (length pre) l.
Proof.
  induction n as [|n IH]; intros pre Hp Hn Hl.
  { symmetry. by apply drop_ge; lia. }
  destruct (lookup_lt_is_Some_2 l (length pre)) as [x Hx]; [lia|].
  cbn [ring_read]. rewrite (drop_S l x (length pre) Hx).
  rewrite Z.mod_small by lia. f_equal.
  - unfold rd. rewrite Nat2Z.id, lookup_app_l by lia. by rewrite Hx.
  - specialize (IH (pre ++ [x])). rewrite length_app in IH. cbn [length] in IH.
    replace (Z.of_nat (length pre) + 1) with (Z.of_nat (length pre + 1)) by lia.
    rewrite Nat.add_1_r in IH |- *. apply IH; [|lia|done].
    rewrite <- app_assoc. cbn [app]. rewrite <- (drop_S l x (length pre) Hx). exact Hp.
Qed.

Lemma ring_of_tail l : (length l < 2048)%nat -> in_ring (rb_tail (ring_of l)).
Proof. unfold in_ring, ring_of, RING_BUFFER_SIZE. cbn [rb_tail]. lia. Qed.

Lemma available_ring_of l : (length l < 2048)%nat -> available (ring_of l) 0 = l.
Proof.
  intros Hl. unfold available, ring_of, RING_BUFFER_SIZE. cbn [rb_buffer rb_tail].
  rewrite Z.sub_0_r, Z.mod_small, Nat2Z.id by lia.
  apply (ring_read_id l _ (length l) []); [done|done|lia].
Qed.

Lemma ring_of_ok l : (length l < 2048)%nat ->
  in_ring (rb_head (ring_of l)) /\ in_ring (rb_tail (ring_of l)) /\ available (ring_of l) (rb_head (ring_of l)) = l.
Proof. intros Hl. split; [by split|]. split; [by apply ring_of_tail|by apply available_ring_of]. Qed.
