(* ===== verification/KeyExchangeRelay.v ===== *)
(** * The key-exchange application: Encrypt and Decrypt

    apps/key-exchange/components/Encrypt and Decrypt.  Encrypt reads MAVLink
    bytes from the ring that Pixhawk fills, serialises the messages its parser
    reports into the queue, and seals the queue 64 bytes at a time; Decrypt
    finds the ciphertext frames in the ring that Telemetry fills, opens them
    and parses the result again.  The theorems say what crosses the link. *)

From S2P Require Import Prelude Ring Queue RingBuffer MavlinkTypes Mavlink MavlinkParser.
From S2P Require Import Aes Gf128 Gcm GcmSpec AesModes Gec Relay FrameStream SealedStream LinkSample.

Local Open Scope Z_scope.

Module Encrypt.
Section component.
Context (crcs : list mavlink_msg_entry_t).
Context (accept_unsigned : option (mavlink_status_t -> Z -> bool)).
Context (u : stack).

(** [serial] lists the arguments of the successive [ps_cdev_write]. *)
Record state := mk_state {
  prs : parser;
  queue : Queue.queue_t;
  symkey_chan2 : gec_sym_key;
  key_ready : Z;
  serial : list (list Z);
}.

Definition my_mavlink_parse_char (p : parser) (c : Z) (r_message : mavlink_message_t)
    (r_mavlink_status : mavlink_status_t) : parser * mavlink_message_t * mavlink_status_t * Z :=
  parse_frame_char crcs accept_unsigned p c r_message r_mavlink_status.

(** The loop over the full blocks of the queue. *)
Fixpoint encrypt_blocks (loop : nat) (buf ct_buf : list Z) (q : Queue.queue_t) (k : gec_sym_key)
    (out : list (list Z)) : Queue.queue_t * gec_sym_key * list (list Z) :=
  match loop with
  | O => (q, k, out)
  | S loop =>
      let '(q, buf) := dequeue_into GEC_PT_LEN 0 (st_byte u) q buf in
      let '(r, ct, k) := gec_encrypt (st_places u) k buf (drop 2 ct_buf) in
      let ct_buf := take 2 ct_buf ++ ct in
      let out := if negb (r =? GEC_SUCCESS) then out else out ++ [ct_buf] in
      encrypt_blocks loop buf ct_buf q k out
  end.

Definition encrypt_to_frame (s : state) (msg : mavlink_message_t) : state :=
  let '(buf, len) := mavlink_msg_to_send_buffer (st_buf u) msg in
  let q := enqueue_all (queue s) (take (Z.to_nat len) buf) in
  let loop := Z.to_nat (Queue.size q / Z.of_nat GEC_PT_LEN) in
  let ct_buf := wr (wr (st_frame u) 0 GEC_CIPHERTEXT_FRAME_MAGIC) 1 GEC_CIPHERTEXT_FRAME_TAG in
  let '(q, k, out) := encrypt_blocks loop buf ct_buf q (symkey_chan2 s) (serial s) in
  mk_state (prs s) q k (key_ready s) out.

Definition handle_char (c : Z) (s : state) : state :=
  let '(p, msg, _, result) := my_mavlink_parse_char (prs s) c (st_msg u) (st_status u) in
  let s := mk_state p (queue s) (symkey_chan2 s) (key_ready s) (serial s) in
  if result =? 0 then s else encrypt_to_frame s msg.

Definition key_send (symkey : gec_sym_key) (s : state) : state :=
  mk_state (prs s) (queue s) symkey 1 (serial s).

Definition pre_init (s : state) : state :=
  mk_state (prs s) (Queue.queue_init (queue s)) (symkey_chan2 s) (key_ready s) (serial s).

(** One turn of [while (1)] in [run], which waits for the key first; [head]
    is a local variable. *)
Definition run_turn (rb : ring_buffer_t) (head : Z) (s : state) : Z * state :=
  if key_ready s =? 0 then (head, s)
  else drain_ring handle_char (Z.to_nat RING_BUFFER_SIZE) rb head (rb_tail rb) s.
End component.
End Encrypt.

Module Decrypt.
Section component.
Context (crcs : list mavlink_msg_entry_t).
Context (accept_unsigned : option (mavlink_status_t -> Z -> bool)).
Context (u : stack).

(** [msg] and [status] are variables of [run], outside its loop. *)
Record state := mk_state {
  prs : parser;
  queue : Queue.queue_t;
  symkey_chan1 : gec_sym_key;
  key_ready : Z;
  msg : mavlink_message_t;
  status : mavlink_status_t;
  serial : list (list Z);
}.

Definition my_mavlink_parse_char (p : parser) (c : Z) (r_message : mavlink_message_t)
    (r_mavlink_status : mavlink_status_t) : parser * mavlink_message_t * mavlink_status_t * Z :=
  parse_frame_char crcs accept_unsigned p c r_message r_mavlink_status.

Definition pre_init (s : state) : state :=
  mk_state (prs s) (Queue.queue_init (queue s)) (symkey_chan1 s) (key_ready s) (msg s) (status s) (serial s).

Definition key_send (symkey : gec_sym_key) (s : state) : state :=
  mk_state (prs s) (queue s) symkey 1 (msg s) (status s) (serial s).

Definition read_byte (rb : ring_buffer_t) (head : Z) : option (Z * Z) := ring_byte rb head.

Definition read_buffer (len : nat) (rb : ring_buffer_t) (head : Z) : option (list Z * Z) :=
  ring_bytes len rb head.

(** The loop of [read_ciphertext_frame] is [read_header] of Relay.v over
    [read_byte]. *)
Definition read_ciphertext_frame (rb : ring_buffer_t) (head : Z) : option (list Z * Z) :=
  match read_header (Z.to_nat RING_BUFFER_SIZE) rb head with
  | None => None
  | Some head => read_buffer CT_LEN rb head
  end.

Lemma read_ciphertext_frame_next rb head : read_ciphertext_frame rb head = next_frame rb head.
Proof. unfold read_ciphertext_frame, next_frame, read_buffer. done. Qed.

(** The body of the loop over the queue. *)
Definition handle_char (c : Z) (s : state) : state :=
  let '(p, m, st, result) := my_mavlink_parse_char (prs s) c (msg s) (status s) in
  let out :=
    if result =? 0 then serial s
    else let '(buf, len) := mavlink_msg_to_send_buffer (st_buf u) m in
         serial s ++ [take (Z.to_nat len) buf] in
  mk_state p (queue s) (symkey_chan1 s) (key_ready s) m st out.

Definition set_queue (q : Queue.queue_t) (s : state) : state :=
  mk_state (prs s) q (symkey_chan1 s) (key_ready s) (msg s) (status s) (serial s).
Definition set_key (k : gec_sym_key) (s : state) : state :=
  mk_state (prs s) (queue s) k (key_ready s) (msg s) (status s) (serial s).

(** [while (1)] after [read_ciphertext_frame]; [c] keeps its last value in the
    code, which is never used when the queue is empty. *)
Definition handle_frame (ct : list Z) (s : state) : state :=
  let '(r, pt, k) := gec_decrypt (st_places u) (symkey_chan1 s) ct (st_pt u) in
  let s := set_key k s in
  let s := if negb (r =? 0) then s else set_queue (enqueue_all (queue s) (take GEC_PT_LEN pt)) s in
  let '(q, s) := drain_queue handle_char (S (Z.to_nat MAX_QUEUE_SIZE)) 0 (st_byte u) (queue s) s in
  set_queue q s.

(** One turn of [run]: nothing happens before the key is there or while the
    frame is incomplete. *)
Definition run_turn (rb : ring_buffer_t) (head : Z) (s : state) : Z * state :=
  if key_ready s =? 0 then (head, s)
  else match read_ciphertext_frame rb head with
       | None => (head, s)
       | Some (ct, head) => (head, handle_frame ct s)
       end.
End component.
End Decrypt.

(** ** What Encrypt writes *)

#[export] Instance encrypt_blocks_seals u key sl (Hkey : block key) (Hsl : is_salt sl) :
  BlockSealer key sl (Encrypt.encrypt_blocks u).
Proof.
  apply (sealer_of_loop (st_places u) (dequeue_into GEC_PT_LEN 0 (st_byte u))); [done|done| |].
  - intros q buf Hq Hn Hb. by apply queue_dequeue_into.
  - induction n as [|n IH]; intros buf ct_buf q k out; [done|]. cbn [Encrypt.encrypt_blocks seal_loop].
    destruct (dequeue_into GEC_PT_LEN 0 (st_byte u) q buf) as [q1 b1].
    destruct (gec_encrypt (st_places u) k b1 (drop 2 ct_buf)) as [[r ct] k1]. apply IH.
Qed.

Definition encrypt_view (s : Encrypt.state) : Queue.queue_t * gec_sym_key * list (list Z) :=
  (Encrypt.queue s, Encrypt.symkey_chan2 s, Encrypt.serial s).

Lemma encrypt_seals_reports crcs accept_unsigned u :
  seals_reports crcs accept_unsigned u (Encrypt.handle_char crcs accept_unsigned u) Encrypt.prs encrypt_view
    (Encrypt.encrypt_blocks u).
Proof.
  intros s c. unfold Encrypt.handle_char, Encrypt.my_mavlink_parse_char, Encrypt.encrypt_to_frame, encrypt_view.
  destruct (parse_frame_char _ _ _ _ _ _) as [[[p m] st'] r]. destruct (r =? 0); [done|].
  cbn [Encrypt.queue Encrypt.symkey_chan2 Encrypt.serial].
  destruct (mavlink_msg_to_send_buffer (st_buf u) m) as [buf len].
  by destruct (Encrypt.encrypt_blocks u _ _ _ _ _ _) as [[q k] out].
Qed.

Lemma encrypt_turn_spec crcs accept_unsigned u key sl rb head p q k rdy :
  stack_ok u -> block key -> is_salt sl -> gec_keyed key sl k -> rdy <> 0 ->
  parser_ok p -> Queue.wf q -> Queue.contents q = [] ->
  in_ring head -> in_ring (rb_tail rb) -> bytes (available rb head) ->
  let '(p', ws) := relayed crcs accept_unsigned (st_msg u) (st_status u) p (available rb head) in
  ctr k + Z.of_nat (full_blocks (concat ws)) <= counter_limit ->
  let '(head', s) := Encrypt.run_turn crcs accept_unsigned u rb head (Encrypt.mk_state p q k rdy []) in
  head' = rb_tail rb /\ Encrypt.prs s = p' /\ sealing_state encrypt_view key sl (ctr k) ws s.
Proof.
  intros Hu Hkey Hsl Hk Hr Hp Hq Hq0 Hh Ht Hb. unfold Encrypt.run_turn. cbn [Encrypt.key_ready].
  destruct (Z.eqb_spec rdy 0); [done|]. pose proof (encrypt_blocks_seals u key sl Hkey Hsl) as Hseal.
  exact (sealing_turn crcs accept_unsigned u Hu _ _ encrypt_view _ key sl (encrypt_seals_reports crcs accept_unsigned u)
    (ctr k) rb head (Encrypt.mk_state p q k rdy []) Hh Ht Hb (sealing_nothing key sl q k Hq Hq0 Hk) Hp).
Qed.

(** Encrypt, on the bytes in the ring: it writes to the telemetry port
    exactly the frames of the full 64-byte blocks of the wire images of the
    messages its parser reports, in order, each under the next counter; the
    incomplete block stays in the queue for the next turn, and the local
    index has caught up with the receiver. *)
Theorem encrypt_seals_relayed_stream crcs accept_unsigned u key sl rb head p q k rdy :
  stack_ok u -> block key -> is_salt sl -> gec_keyed key sl k -> rdy <> 0 ->
  parser_ok p -> Queue.wf q -> Queue.contents q = [] ->
  in_ring head -> in_ring (rb_tail rb) -> bytes (available rb head) ->
  let '(p', ws) := relayed crcs accept_unsigned (st_msg u) (st_status u) p (available rb head) in
  let l := concat ws in
  ctr k + Z.of_nat (full_blocks l) <= counter_limit ->
  let '(head', s) := Encrypt.run_turn crcs accept_unsigned u rb head (Encrypt.mk_state p q k rdy []) in
  head' = rb_tail rb /\
  Encrypt.serial s = sealed key sl (ctr k) (full_blocks l) l /\
  Queue.contents (Encrypt.queue s) = drop (GEC_PT_LEN * full_blocks l) l /\
  Encrypt.prs s = p' /\ ctr (Encrypt.symkey_chan2 s) = ctr k + Z.of_nat (full_blocks l).
Proof.
  intros Hu Hkey Hsl Hk Hr Hp Hq Hq0 Hh Ht Hb.
  pose proof (encrypt_turn_spec crcs accept_unsigned u key sl rb head p q k rdy Hu Hkey Hsl Hk Hr Hp Hq Hq0 Hh Ht Hb) as H.
  destruct (relayed crcs accept_unsigned (st_msg u) (st_status u) p (available rb head)) as [p' ws].
  intros l Hlim. specialize (H Hlim). destruct (Encrypt.run_turn _ _ _ _ _ _) as [head' s].
  destruct H as (-> & Hp' & [H1 H2 H3 H4 H5]). done.
Qed.

(** ** What Decrypt writes *)

Section decrypt.
Context (crcs : list mavlink_msg_entry_t).
Context (accept_unsigned : option (mavlink_status_t -> Z -> bool)).
Context (u : stack) (Hu : stack_ok u).
Context (key sl : list Z) (Hkey : block key) (Hsl : is_salt sl).
Import Decrypt.

#[local] Abbreviation relay := (relayed_var crcs accept_unsigned).

(** The state after the plaintext stream [l], of which the first [n] bytes
    have gone through the parser. *)
Record decrypted (v0 : parser * mavlink_message_t * mavlink_status_t) (l : list Z) (n : nat) (s : state) : Prop := {
  de_parser : parser_ok (prs s);
  de_msg : wf_message (msg s);
  de_wf : Queue.wf (queue s);
  de_keyed : gec_keyed key sl (symkey_chan1 s);
  de_bytes : bytes l;
  de_n : (n <= length l <= n + 64)%nat;
  de_queue : Queue.contents (queue s) = drop n l;
  de_out : relay v0 (take n l) = (prs s, msg s, status s, serial s);
}.

Lemma handle_char_relay c s :
  parser_ok (prs s) -> wf_message (msg s) -> is_u8 c ->
  let s' := handle_char crcs accept_unsigned u c s in
  parser_ok (prs s') /\ wf_message (msg s') /\ symkey_chan1 s' = symkey_chan1 s /\
  exists o, relay (prs s, msg s, status s) [c] = (prs s', msg s', status s', o) /\ serial s' = serial s ++ o.
Proof.
  intros Hp Hm Hc. unfold handle_char, my_mavlink_parse_char. cbn [relayed_var].
  pose proof (parse_frame_char_ok crcs accept_unsigned (prs s) c (msg s) (status s) Hp Hc Hm) as H1.
  destruct (parse_frame_char crcs accept_unsigned (prs s) c (msg s) (status s)) as [[[p' m] st'] r].
  destruct H1 as [Hp' Hm']. rewrite (to_send_buffer_memcpy _ m Hm'). fold (wire_of m). rewrite Nat2Z.id.
  destruct (wire_of_ok m Hm') as [_ Hl].
  rewrite memcpy_at_spec by (rewrite (ok_buf u Hu); lia). rewrite take_0, app_nil_l, take_app_length.
  cbn [fst snd]. destruct (r =? 0); cbn [prs msg symkey_chan1 status serial app]; split_and!; try done.
  - exists []. by rewrite app_nil_r.
  - by exists [wire_of m].
Qed.

Lemma handle_chars_relay bs : forall s,
  parser_ok (prs s) -> wf_message (msg s) -> bytes bs ->
  let s' := foldl (fun s c => handle_char crcs accept_unsigned u c s) s bs in
  parser_ok (prs s') /\ wf_message (msg s') /\ symkey_chan1 s' = symkey_chan1 s /\
  exists o, relay (prs s, msg s, status s) bs = (prs s', msg s', status s', o) /\ serial s' = serial s ++ o.
Proof.
  induction bs as [|c bs IH]; intros s Hp Hm Hb.
  { cbn [foldl relayed_var]. split_and!; try done. exists []. by rewrite app_nil_r. }
  apply List.Forall_cons_iff in Hb as [Hc Hb]. cbn [foldl].
  destruct (handle_char_relay c s Hp Hm Hc) as (Hp1 & Hm1 & Hk1 & o1 & E1 & Ho1).
  destruct (IH _ Hp1 Hm1 Hb) as (Hp2 & Hm2 & Hk2 & o2 & E2 & Ho2).
  split; [done|]. split; [done|]. split; [by rewrite Hk2|]. exists (o1 ++ o2).
  change (c :: bs) with ([c] ++ bs). rewrite relayed_var_app, E1, E2. split; [done|].
  by rewrite Ho2, Ho1, app_assoc.
Qed.

(** One frame: the plaintext joins the stream, and the drain loop takes half
    of the queue. *)
Lemma handle_frame_spec v0 l n s ct :
  decrypted v0 l n s -> is_ct ct ->
  exists n', decrypted v0 (l ++ opened key sl ct) n' (handle_frame crcs accept_unsigned u ct s) /\ (n <= n')%nat.
Proof.
  intros [Hp Hm Hwf Hk Hbl Hn Hq Ho] [Hb Hl]. unfold handle_frame.
  destruct (opened_ok key sl Hkey Hsl ct (conj Hb Hl)) as [Hob Hol].
  destruct (gec_decrypt_opened key sl Hkey Hsl (st_places u) (symkey_chan1 s) ct (st_pt u) Hk (conj Hb Hl) (ok_pt u Hu))
    as (k' & pt & r & -> & Hk' & Hpt).
  set (q1 := enqueue_all (queue s) (opened key sl ct)).
  assert (length (drop n l) <= 64)%nat as Hd by (rewrite length_drop; lia).
  destruct (queue_enqueue_all (queue s) (opened key sl ct) Hwf Hob) as [Hwf1 Hc1].
  { rewrite Hq, length_app. unfold MAX_QUEUE_SIZE. lia. }
  fold q1 in Hwf1, Hc1. rewrite Hq in Hc1. cbn [set_key queue].
  set (s1 := if negb (r =? 0) then _ else _).
  assert (queue s1 = q1 /\ prs s1 = prs s /\ msg s1 = msg s /\ status s1 = status s /\ serial s1 = serial s /\
          symkey_chan1 s1 = k') as (Hq1 & Hp1 & Hm1 & Hst1 & Hs1 & Hk1).
  { unfold s1, q1. rewrite <- Hpt. by destruct (negb (r =? 0)). }
  clearbody s1. rewrite Hq1.
  destruct (queue_drain (handle_char crcs accept_unsigned u) (st_byte u) q1 s1 Hwf1) as (q2 & -> & Hwf2 & Hc2).
  rewrite Hc1 in Hc2 |- *. set (k := Z.to_nat ((Z.of_nat (length (drop n l ++ opened key sl ct)) + 1) / 2)) in *.
  assert (bytes (drop n l ++ opened key sl ct)) as Hbs by (by apply bytes_app; [apply bytes_drop|]).
  destruct (handle_chars_relay (take k (drop n l ++ opened key sl ct)) s1) as (Hp2 & Hm2 & Hk2 & o & E2 & Ho2);
    [by rewrite Hp1|by rewrite Hm1|by apply bytes_take|].
  set (s2 := foldl _ s1 _) in *. clearbody s2.
  assert (length (drop n l ++ opened key sl ct) <= 128)%nat as Hlen by (rewrite length_app; lia).
  assert (k <= length (drop n l ++ opened key sl ct) <= k + 64)%nat as Hk12 by (unfold k; Z.div_mod_to_equations; lia).
  rewrite length_app, length_drop in Hk12.
  assert (drop n l ++ opened key sl ct = drop n (l ++ opened key sl ct)) as Happ by (by rewrite drop_app_le by lia).
  exists (n + k)%nat. split; [|lia]. split; cbn [set_queue prs msg queue symkey_chan1 status serial]; try done.
  - by rewrite Hk2, Hk1.
  - by apply bytes_app.
  - rewrite length_app. lia.
  - by rewrite Hc2, Happ, drop_drop.
  - assert (take (n + k) (l ++ opened key sl ct) = take n l ++ take k (drop n (l ++ opened key sl ct))) as ->.
    { rewrite <- (take_app_le l (opened key sl ct)) by lia. rewrite <- (take_drop n (take (n + k) (l ++ opened key sl ct))).
      rewrite take_take, Nat.min_l by lia. f_equal. by rewrite take_drop_commute. }
    rewrite relayed_var_app, Ho, <- Happ. rewrite Hp1, Hm1, Hst1 in E2. rewrite E2. by rewrite Ho2, Hs1.
Qed.

Lemma handle_frames_spec v0 cts : forall l n s,
  decrypted v0 l n s -> Forall is_ct cts ->
  exists n', decrypted v0 (l ++ concat (map (opened key sl) cts)) n'
    (foldl (fun s ct => handle_frame crcs accept_unsigned u ct s) s cts).
Proof.
  induction cts as [|ct cts IH]; intros l n s Hd Hc; cbn [map concat foldl].
  { exists n. by rewrite app_nil_r. }
  apply List.Forall_cons_iff in Hc as [Hc Hcs].
  destruct (handle_frame_spec v0 l n s ct Hd Hc) as (n1 & H1 & _).
  destruct (IH _ n1 _ H1 Hcs) as (n2 & H2). exists n2. by rewrite app_assoc.
Qed.

(** [n] turns of [run] on the same contents of the ring. *)
Fixpoint run_turns (n : nat) (rb : ring_buffer_t) (head : Z) (s : state) : Z * state :=
  match n with
  | O => (head, s)
  | S n => let '(head, s) := run_turn crcs accept_unsigned u rb head s in run_turns n rb head s
  end.

Lemma handle_frame_ready ct s : key_ready (handle_frame crcs accept_unsigned u ct s) = key_ready s.
Proof.
  assert (forall fuel i c (q : Queue.queue_t) s,
    key_ready (drain_queue (handle_char crcs accept_unsigned u) fuel i c q s).2 = key_ready s) as Hd.
  { induction fuel as [|fuel IH]; intros i c q s1; [done|]. cbn [drain_queue].
    destruct (i <? fifo_size q); [|done]. destruct (fifo_get q) as [r q']. rewrite IH.
    unfold handle_char, my_mavlink_parse_char.
    by destruct (parse_frame_char crcs accept_unsigned (prs s1) (default c r) (msg s1) (status s1)) as [[[p m] st] x]. }
  unfold handle_frame. destruct (gec_decrypt _ _ _ _) as [[r pt] k]. set (s1 := if negb (r =? 0) then _ else _).
  assert (key_ready s1 = key_ready s) as <- by (unfold s1; by destruct (negb (r =? 0))).
  specialize (Hd (S (Z.to_nat MAX_QUEUE_SIZE)) 0 (st_byte u) (queue s1) s1).
  by destruct (drain_queue _ _ _ _ _ s1) as [q s2].
Qed.

Lemma run_turns_frames cts : forall rb head s rest,
  in_ring head -> in_ring (rb_tail rb) -> key_ready s <> 0 ->
  Forall (fun ct => length ct = CT_LEN) cts ->
  available rb head = concat (map frame cts) ++ rest ->
  exists h, run_turns (length cts) rb head s =
      (h, foldl (fun s ct => handle_frame crcs accept_unsigned u ct s) s cts) /\
    in_ring h /\ available rb h = rest.
Proof.
  induction cts as [|ct cts IH]; intros rb head s rest Hh Ht Hr Hc Ha; [by exists head|].
  apply List.Forall_cons_iff in Hc as [Hc Hcs]. cbn [length run_turns map concat foldl] in *.
  pose proof (next_frame_spec rb head Hh Ht) as H1. rewrite <- app_assoc in Ha. rewrite Ha in H1.
  rewrite (find_frame_frame [] ct _ (Forall_nil_2 _) Hc : find_frame (frame ct ++ _) = _) in H1.
  destruct H1 as (h & E & Hh' & Ha'). unfold run_turn. destruct (Z.eqb_spec (key_ready s) 0); [done|].
  rewrite read_ciphertext_frame_next, E. apply IH; [done|done|by rewrite handle_frame_ready|done|done].
Qed.
End decrypt.

(** The state of Decrypt before the first frame. *)
Record decrypt_fresh (key sl : list Z) (s : Decrypt.state) : Prop := {
  df_parser : parser_ok (Decrypt.prs s);
  df_msg : wf_message (Decrypt.msg s);
  df_wf : Queue.wf (Decrypt.queue s);
  df_empty : Queue.contents (Decrypt.queue s) = [];
  df_keyed : gec_keyed key sl (Decrypt.symkey_chan1 s);
  df_ready : Decrypt.key_ready s <> 0;
  df_serial : Decrypt.serial s = [];
}.

Definition parser_vars (s : Decrypt.state) : parser * mavlink_message_t * mavlink_status_t :=
  (Decrypt.prs s, Decrypt.msg s, Decrypt.status s).

Lemma fresh_decrypted crcs accept_unsigned key sl s :
  decrypt_fresh key sl s -> decrypted crcs accept_unsigned key sl (parser_vars s) [] 0 s.
Proof. intros [? ? ? ? ? ? Hs]. split; try done; cbn; [constructor|lia|by rewrite Hs]. Qed.

Lemma decrypt_run crcs accept_unsigned u key sl rb head s cts rest :
  stack_ok u -> block key -> is_salt sl -> decrypt_fresh key sl s ->
  in_ring head -> in_ring (rb_tail rb) -> Forall is_ct cts ->
  available rb head = concat (map frame cts) ++ rest ->
  let l := concat (map (opened key sl) cts) in
  exists h s' n, run_turns crcs accept_unsigned u (length cts) rb head s = (h, s') /\
    available rb h = rest /\ (n <= length l <= n + 64)%nat /\
    Queue.contents (Decrypt.queue s') = drop n l /\
    relayed_var crcs accept_unsigned (parser_vars s) (take n l) =
      (Decrypt.prs s', Decrypt.msg s', Decrypt.status s', Decrypt.serial s').
Proof.
  intros Hu Hkey Hsl Hs Hh Ht Hc Ha l.
  destruct (run_turns_frames crcs accept_unsigned u cts rb head s rest Hh Ht (df_ready _ _ _ Hs)) as (h & E & _ & Hr);
    [eapply Forall_impl; [|exact Hc]; by intros ct [_ Hl]|done|].
  destruct (handle_frames_spec crcs accept_unsigned u Hu key sl Hkey Hsl (parser_vars s) cts [] 0 s
    (fresh_decrypted _ _ _ _ _ Hs) Hc) as (n & [? ? ? ? ? Hn Hq Ho]).
  rewrite E. do 2 eexists. exists n. split; [reflexivity|]. exact (conj Hr (conj Hn (conj Hq Ho))).
Qed.

(** Decrypt, on a ring that holds the frames [cts] followed by anything:
    a turn takes exactly one frame; the bytes that have gone through the
    parser are a prefix of the plaintexts of the ciphertexts whose tag
    verifies (the others contribute nothing), in order, each byte once; what
    the parser reports is all that is written, and at most 64 bytes of the
    plaintext wait in the queue. *)
Theorem decrypt_opens_stream crcs accept_unsigned u key sl rb head s cts rest :
  stack_ok u -> block key -> is_salt sl -> decrypt_fresh key sl s ->
  in_ring head -> in_ring (rb_tail rb) -> Forall is_ct cts ->
  available rb head = concat (map frame cts) ++ rest ->
  let l := concat (map (opened key sl) cts) in
  exists h s' n, run_turns crcs accept_unsigned u (length cts) rb head s = (h, s') /\
    available rb h = rest /\ (n <= length l <= n + 64)%nat /\
    Queue.contents (Decrypt.queue s') = drop n l /\
    relayed_var crcs accept_unsigned (parser_vars s) (take n l) =
      (Decrypt.prs s', Decrypt.msg s', Decrypt.status s', Decrypt.serial s').
Proof. exact (decrypt_run crcs accept_unsigned u key sl rb head s cts rest). Qed.

Lemma link_run crcs accept_unsigned ue ud key sl rbe he p q k rdy rbd hd sd rest :
  stack_ok ue -> stack_ok ud -> block key -> is_salt sl ->
  gec_keyed key sl k -> rdy <> 0 -> parser_ok p -> Queue.wf q -> Queue.contents q = [] ->
  in_ring he -> in_ring (rb_tail rbe) -> bytes (available rbe he) ->
  decrypt_fresh key sl sd -> in_ring hd -> in_ring (rb_tail rbd) ->
  let l := concat (relayed crcs accept_unsigned (st_msg ue) (st_status ue) p (available rbe he)).2 in
  ctr k + Z.of_nat (full_blocks l) <= counter_limit ->
  let se := (Encrypt.run_turn crcs accept_unsigned ue rbe he (Encrypt.mk_state p q k rdy [])).2 in
  available rbd hd = concat (Encrypt.serial se) ++ rest ->
  exists h s n, run_turns crcs accept_unsigned ud (length (Encrypt.serial se)) rbd hd sd = (h, s) /\
    available rbd h = rest /\ (n <= length l < n + 128)%nat /\
    (relayed_var crcs accept_unsigned (parser_vars sd) (take n l)).2 = Decrypt.serial s.
Proof.
  intros Hue Hud Hkey Hsl Hk Hrdy Hp Hq Hq0 Hhe Hte Hb Hsd Hhd Htd l Hlim se Ha.
  assert (bytes l /\ Encrypt.serial se = map frame (boxes key sl (ctr k) (full_blocks l) l)) as [Hbl Hse].
  { pose proof (encrypt_turn_spec crcs accept_unsigned ue key sl rbe he p q k rdy Hue Hkey Hsl Hk Hrdy Hp Hq Hq0 Hhe Hte Hb) as H.
    pose proof (relayed_ok crcs accept_unsigned (st_msg ue) (st_status ue) (available rbe he) p Hp Hb (ok_msg ue Hue)) as Hok.
    subst l. unfold se.
    destruct (relayed crcs accept_unsigned (st_msg ue) (st_status ue) p (available rbe he)) as [p' ws].
    specialize (H Hlim). destruct (Encrypt.run_turn _ _ _ _ _ _) as [head' s'].
    split; [apply Hok|]. rewrite <- sealed_boxes. destruct H as (_ & _ & H). exact (se_out _ _ _ _ _ _ _ H). }
  clearbody se. rewrite Hse in *. clear Hse.
  pose proof (full_blocks_spec l) as Hfl.
  destruct (boxes_open key sl Hkey Hsl (full_blocks l) (ctr k) l Hbl) as [Hct Hop]; [lia|].
  destruct (decrypt_run crcs accept_unsigned ud key sl rbd hd sd _ rest Hud Hkey Hsl Hsd Hhd Htd Hct Ha)
    as (h & s & n & E & Hr & Hn & _ & Ho).
  rewrite Hop in Hn, Ho. rewrite length_map. exists h, s, n.
  rewrite length_take, Nat.min_l in Hn by lia. rewrite take_take, Nat.min_l in Ho by lia.
  split; [exact E|]. split; [done|]. split; [change GEC_PT_LEN with 64%nat in *; lia|]. by rewrite Ho.
Qed.

(** C1. The two ends of the link together.  What Encrypt writes for the
    relayed stream [l] is put, unchanged, in the ring of a Decrypt that holds
    the same key (at any counter): after one turn per frame, what Decrypt
    writes to the flight controller is what its parser reports on a prefix of
    [l] that is less than 128 bytes short of it. *)
Theorem encrypt_decrypt_link crcs accept_unsigned ue ud key sl rbe he p q k rdy rbd hd sd rest :
  stack_ok ue -> stack_ok ud -> block key -> is_salt sl ->
  gec_keyed key sl k -> rdy <> 0 -> parser_ok p -> Queue.wf q -> Queue.contents q = [] ->
  in_ring he -> in_ring (rb_tail rbe) -> bytes (available rbe he) ->
  decrypt_fresh key sl sd -> in_ring hd -> in_ring (rb_tail rbd) ->
  let l := concat (relayed crcs accept_unsigned (st_msg ue) (st_status ue) p (available rbe he)).2 in
  ctr k + Z.of_nat (full_blocks l) <= counter_limit ->
  let se := (Encrypt.run_turn crcs accept_unsigned ue rbe he (Encrypt.mk_state p q k rdy [])).2 in
  available rbd hd = concat (Encrypt.serial se) ++ rest ->
  exists h s n, run_turns crcs accept_unsigned ud (length (Encrypt.serial se)) rbd hd sd = (h, s) /\
    available rbd h = rest /\ (n <= length l < n + 128)%nat /\
    (relayed_var crcs accept_unsigned (parser_vars sd) (take n l)).2 = Decrypt.serial s.
Proof. apply link_run. Qed.

(** C2. End to end on whole frames: when the flight controller has sent
    unsigned frames in their canonical form, whatever their checksums, what
    Decrypt writes at the other end is those frames, unchanged and in order;
    less than 408 bytes of them have not come out yet. *)
Theorem frames_cross_link crcs accept_unsigned ue ud key sl rbe he p q k rdy rbd hd sd rest ms :
  stack_ok ue -> stack_ok ud -> block key -> is_salt sl ->
  gec_keyed key sl k -> rdy <> 0 -> between_frames p -> Queue.wf q -> Queue.contents q = [] ->
  in_ring he -> in_ring (rb_tail rbe) -> Forall relayable ms ->
  available rbe he = concat (map _mavlink_resend_uart ms) ->
  decrypt_fresh key sl sd -> between_frames (Decrypt.prs sd) -> in_ring hd -> in_ring (rb_tail rbd) ->
  let l := concat (map _mavlink_resend_uart ms) in
  ctr k + Z.of_nat (full_blocks l) <= counter_limit ->
  let se := (Encrypt.run_turn crcs accept_unsigned ue rbe he (Encrypt.mk_state p q k rdy [])).2 in
  available rbd hd = concat (Encrypt.serial se) ++ rest ->
  exists h s j, run_turns crcs accept_unsigned ud (length (Encrypt.serial se)) rbd hd sd = (h, s) /\
    available rbd h = rest /\ Decrypt.serial s = take j (map _mavlink_resend_uart ms) /\
    (length l < length (concat (Decrypt.serial s)) + 408)%nat.
Proof.
  intros Hue Hud Hkey Hsl Hk Hrdy Hp Hq Hq0 Hhe Hte Hms Hav Hsd Hpd Hhd Htd l Hlim se Ha.
  assert (bytes l) as Hb.
  { unfold l. clear -Hms. induction Hms as [|m ms (_ & _ & Hb) _ IH]; cbn [map concat]; [constructor|by apply bytes_app]. }
  pose proof (relayed_whole crcs accept_unsigned (st_msg ue) (st_status ue) p ms Hp Hms) as Hr.
  pose proof (link_run crcs accept_unsigned ue ud key sl rbe he p q k rdy rbd hd sd rest Hue Hud Hkey Hsl Hk Hrdy
    (proj1 Hp) Hq Hq0 Hhe Hte) as H. rewrite Hav in H. specialize (H Hb Hsd Hhd Htd). cbv zeta in H. fold l in H, Hr.
  destruct (relayed crcs accept_unsigned (st_msg ue) (st_status ue) p l) as [p' ws]. destruct Hr as [_ ->].
  cbn [snd] in H. destruct (H Hlim Ha) as (h & s & n & E & Hrest & Hn & Ho). clear H. fold l in Hn, Ho. exists h, s.
  unfold l in Ho. rewrite (relayed_var_prefix crcs accept_unsigned (parser_vars sd) ms n Hpd Hms) in Ho.
  eexists. split; [exact E|]. split; [exact Hrest|]. split; [by rewrite <- Ho|].
  rewrite <- Ho. destruct (whole_frames_spec (map _mavlink_resend_uart ms) n) as (Hj & _ & Hlast).
  set (j := whole_frames n _) in *. destruct Hlast as [-> | Hlast].
  { rewrite take_ge by lia. fold l. lia. }
  pose proof (length_next_piece 280 _ j (relayable_short ms Hms)). lia.
Qed.

(** ** The theorems on the sample link *)

#[local] Abbreviation sample_relayed :=
  (relayed ardupilotmega_crcs None (st_msg sample_stack) (st_status sample_stack) idle_parser
    (available (ring_of heartbeats) 0)).

Lemma sample_relayed_length : full_blocks (concat sample_relayed.2) = 1%nat.
Proof. vm_compute. reflexivity. Qed.

Lemma encrypt_seals_relayed_stream_witness :
  let '(p', ws) := sample_relayed in
  let l := concat ws in
  let '(head', s) := Encrypt.run_turn ardupilotmega_crcs None sample_stack (ring_of heartbeats) 0
    (Encrypt.mk_state idle_parser empty_queue (sample_chan 0) 1 []) in
  head' = 78 /\
  Encrypt.serial s = sealed (take 16 sample_raw) (slice 16 8 sample_raw) 0 (full_blocks l) l /\
  Queue.contents (Encrypt.queue s) = drop (GEC_PT_LEN * full_blocks l) l /\
  Encrypt.prs s = p' /\ ctr (Encrypt.symkey_chan2 s) = 0 + Z.of_nat (full_blocks l).
Proof.
  destruct sample_key_ok as (Hb & Hs & Hk). destruct empty_queue_ok as [Hq Hq0].
  pose proof (encrypt_seals_relayed_stream ardupilotmega_crcs None sample_stack _ _ (ring_of heartbeats) 0 idle_parser
    empty_queue (sample_chan 0) 1 sample_stack_ok Hb Hs Hk ltac:(done) blank_parser_ok Hq Hq0
    ltac:(done) ltac:(done) ltac:(decide_true)) as H.
  pose proof sample_relayed_length as Hn. destruct sample_relayed as [p' ws]. cbn [snd] in Hn.
  apply H. rewrite Hn. done.
Defined.

(** A Decrypt that has just been given the key. *)
Definition sample_decrypt : Decrypt.state :=
  Decrypt.mk_state idle_parser empty_queue (sample_chan 0) 1 blank_message blank_status [].

Lemma sample_decrypt_fresh : decrypt_fresh (take 16 sample_raw) (slice 16 8 sample_raw) sample_decrypt.
Proof.
  destruct sample_key_ok as (_ & _ & Hk). destruct empty_queue_ok as [Hq Hq0].
  split; [exact blank_parser_ok|exact blank_message_ok|exact Hq|exact Hq0|exact Hk|done|done].
Qed.

(** Two frames of zeros, then one more byte. *)
Lemma decrypt_opens_stream_witness :
  let cts := replicate 2 (replicate 80 0) in
  let l := concat (map (opened (take 16 sample_raw) (slice 16 8 sample_raw)) cts) in
  exists h s' n,
    run_turns ardupilotmega_crcs None sample_stack 2 (ring_of (concat (map frame cts) ++ [1])) 0 sample_decrypt = (h, s') /\
    available (ring_of (concat (map frame cts) ++ [1])) h = [1] /\ (n <= length l <= n + 64)%nat /\
    Queue.contents (Decrypt.queue s') = drop n l /\
    relayed_var ardupilotmega_crcs None (parser_vars sample_decrypt) (take n l) =
      (Decrypt.prs s', Decrypt.msg s', Decrypt.status s', Decrypt.serial s').
Proof.
  destruct sample_key_ok as (Hb & Hs & Hk). intros cts l.
  refine (decrypt_opens_stream ardupilotmega_crcs None sample_stack _ _ (ring_of (concat (map frame cts) ++ [1])) 0
    sample_decrypt cts [1] sample_stack_ok Hb Hs sample_decrypt_fresh _ _ _ _); [done|done| |].
  - apply Forall_replicate. split; [decide_true|done].
  - vm_compute. reflexivity.
Defined.

#[local] Abbreviation sample_sender :=
  (Encrypt.run_turn ardupilotmega_crcs None sample_stack (ring_of heartbeats) 0
    (Encrypt.mk_state idle_parser empty_queue (sample_chan 0) 1 [])).2.

Lemma sample_serial_length :
  length (Encrypt.serial sample_sender) = 1%nat /\ length (concat (Encrypt.serial sample_sender)) = 82%nat.
Proof. vm_compute. by split. Qed.

(** The frame of the first 64 bytes of the heartbeats, received in one turn. *)
Lemma encrypt_decrypt_link_witness :
  let l := concat sample_relayed.2 in
  let rbd := ring_of (concat (Encrypt.serial sample_sender) ++ [1]) in
  exists h s n, run_turns ardupilotmega_crcs None sample_stack 1 rbd 0 sample_decrypt = (h, s) /\
    available rbd h = [1] /\ (n <= length l < n + 128)%nat /\
    (relayed_var ardupilotmega_crcs None (parser_vars sample_decrypt) (take n l)).2 = Decrypt.serial s.
Proof.
  destruct sample_key_ok as (Hb & Hs & Hk). destruct empty_queue_ok as [Hq Hq0].
  assert (in_ring 0 /\ in_ring (rb_tail (ring_of heartbeats)) /\ bytes (available (ring_of heartbeats) 0)) as (R0 & Rt & Rb).
  { split; [done|]. split; [done|]. decide_true. }
  pose proof (encrypt_decrypt_link ardupilotmega_crcs None sample_stack sample_stack _ _ (ring_of heartbeats) 0 idle_parser
    empty_queue (sample_chan 0) 1 (ring_of (concat (Encrypt.serial sample_sender) ++ [1])) 0 sample_decrypt [1]
    sample_stack_ok sample_stack_ok Hb Hs Hk ltac:(discriminate) blank_parser_ok Hq Hq0 R0 Rt Rb sample_decrypt_fresh R0) as H.
  pose proof sample_serial_length as [H1 H82].
  cbv zeta in H. rewrite sample_relayed_length, H1 in H. apply H.
  - apply ring_of_tail. rewrite length_app, H82. apply Nat.ltb_lt. reflexivity.
  - exact (fun E => ltac:(discriminate E)).
  - apply available_ring_of. rewrite length_app, H82. apply Nat.ltb_lt. reflexivity.
Defined.

Lemma frames_cross_link_witness :
  let ms := replicate 6 heartbeat_message in
  let l := concat (map _mavlink_resend_uart ms) in
  let rbd := ring_of (concat (Encrypt.serial sample_sender) ++ [1]) in
  exists h s j, run_turns ardupilotmega_crcs None sample_stack 1 rbd 0 sample_decrypt = (h, s) /\
    available rbd h = [1] /\ Decrypt.serial s = take j (map _mavlink_resend_uart ms) /\
    (length l < length (concat (Decrypt.serial s)) + 408)%nat.
Proof.
  destruct sample_key_ok as (Hb & Hs & Hk). destruct empty_queue_ok as [Hq Hq0].
  destruct heartbeat_relayable as [Hr Hl].
  assert (in_ring 0 /\ in_ring (rb_tail (ring_of heartbeats)) /\ available (ring_of heartbeats) 0 = heartbeats) as (R0 & Rt & Ra).
  { split; [done|]. split; [done|]. vm_compute. reflexivity. }
  pose proof (frames_cross_link ardupilotmega_crcs None sample_stack sample_stack _ _ (ring_of heartbeats) 0 idle_parser
    empty_queue (sample_chan 0) 1 (ring_of (concat (Encrypt.serial sample_sender) ++ [1])) 0 sample_decrypt [1]
    (replicate 6 heartbeat_message) sample_stack_ok sample_stack_ok Hb Hs Hk ltac:(discriminate) idle_parser_between Hq Hq0
    R0 Rt ltac:(by apply Forall_replicate) ltac:(rewrite Ra; exact Hl) sample_decrypt_fresh idle_parser_between R0) as H.
  pose proof sample_serial_length as [H1 H82]. cbv zeta in H. rewrite <- Hl, H1 in H. cbv zeta. rewrite <- Hl. apply H.
  - apply ring_of_tail. rewrite length_app, H82. apply Nat.ltb_lt. reflexivity.
  - assert (full_blocks heartbeats = 1%nat) as -> by (vm_compute; reflexivity). exact (fun E => ltac:(discriminate E)).
  - apply available_ring_of. rewrite length_app, H82. apply Nat.ltb_lt. reflexivity.
Defined.
