(* ===== verification/Receiver.v ===== *)
(** * The receivers of the key-exchange application

    Pixhawk and Telemetry of apps/key-exchange have the same code: bytes from
    the serial port go to the buffer of KeyExchange until the notification
    [switch] arrives, then to the buffer of Encrypt or Decrypt.  The
    notification is handled by another thread, at any moment.  The theorem
    says what ends up in which buffer. *)

From S2P Require Import Prelude Ring RingBuffer.

Local Open Scope Z_scope.

Definition EOF : Z := -1.

(** Where [run] is. *)
Inductive run_pc :=
  | KeyTop        (** [while (use_ringbuffer_key)] *)
  | KeyPoll       (** [while (use_ringbuffer_key && (c = ps_cdev_getchar(serial)) == EOF)] *)
  | KeyStore      (** after it *)
  | AppPoll.      (** [while ((c = ps_cdev_getchar(serial)) == EOF)] *)

Record receiver := mk_receiver {
  pc : run_pc;
  use_ringbuffer_key : Z;
  c : Z;
  ring_buffer_key : ring_buffer_t;
  ring_buffer : ring_buffer_t;
}.

(** [static uint8_t use_ringbuffer_key = 1;], and [c] is not initialised. *)
Definition pre_init (c0 : Z) (key app : ring_buffer_t) : receiver :=
  mk_receiver KeyTop 1 c0 (rb_reset key) (rb_reset app).

Definition switch_callback (s : receiver) : receiver :=
  mk_receiver (pc s) 0 (c s) (ring_buffer_key s) (ring_buffer s).

(** What [ps_cdev_getchar] returns is a byte or [EOF]; the label of a step is
    the byte it takes from the port. *)
Inductive step : receiver -> option Z -> receiver -> Prop :=
  | step_callback s : step s None (switch_callback s)
  | step_top u x k a :
      u <> 0 -> step (mk_receiver KeyTop u x k a) None (mk_receiver KeyPoll u x k a)
  | step_leave u x k a :
      u = 0 -> step (mk_receiver KeyTop u x k a) None (mk_receiver AppPoll u x k a)
  | step_poll_switched u x k a :
      u = 0 -> step (mk_receiver KeyPoll u x k a) None (mk_receiver KeyStore u x k a)
  | step_poll_eof u x k a :
      u <> 0 -> step (mk_receiver KeyPoll u x k a) None (mk_receiver KeyPoll u EOF k a)
  | step_poll_byte u x k a b :
      u <> 0 -> is_u8 b -> step (mk_receiver KeyPoll u x k a) (Some b) (mk_receiver KeyStore u b k a)
  | step_store u x k a :
      step (mk_receiver KeyStore u x k a) None (mk_receiver KeyTop u x (rb_put k x) a)
  | step_app_eof u x k a :
      step (mk_receiver AppPoll u x k a) None (mk_receiver AppPoll u EOF k a)
  | step_app_byte u x k a b :
      is_u8 b -> step (mk_receiver AppPoll u x k a) (Some b) (mk_receiver AppPoll u b k (rb_put a b)).

(** The bytes taken from the port by a sequence of steps. *)
Inductive steps : receiver -> list Z -> receiver -> Prop :=
  | steps_refl s : steps s [] s
  | steps_step s1 l s2 o s3 : steps s1 l s2 -> step s2 o s3 -> steps s1 (l ++ option_list o) s3.

Definition put_all (rb : ring_buffer_t) (l : list Z) : ring_buffer_t := foldl rb_put rb l.

Lemma put_all_snoc rb l x : put_all rb (l ++ [x]) = rb_put (put_all rb l) x.
Proof. unfold put_all. by rewrite foldl_app. Qed.

(** The bytes [l] were taken: [key] and then [stale] went to one buffer, [app]
    to the other. *)
Record routed (k0 a0 : ring_buffer_t) (l key stale app : list Z) (s : receiver) : Prop := {
  ro_key : ring_buffer_key s = put_all k0 (key ++ stale);
  ro_app : ring_buffer s = put_all a0 app;
  ro_stale : stale = [] \/ use_ringbuffer_key s = 0 /\ exists x, stale = [x];
  ro_taken :
    match pc s with
    | KeyTop => l = key /\ app = []
    | KeyPoll => l = key /\ app = [] /\ stale = []
    | KeyStore => app = [] /\ stale = [] /\ (l = key ++ [c s] \/ l = key /\ use_ringbuffer_key s = 0)
    | AppPoll => l = key ++ app
    end;
}.

Lemma routed_callback k0 a0 l key stale app s :
  routed k0 a0 l key stale app s -> routed k0 a0 l key stale app (switch_callback s).
Proof.
  intros [H1 H2 H3 H4]. split; try done.
  - destruct H3 as [?|[_ ?]]; [by left|by right].
  - unfold switch_callback. cbn [pc c use_ringbuffer_key]. destruct (pc s); try done.
    destruct H4 as (? & ? & [?|[? _]]); split_and!; auto.
Qed.

Lemma routed_step k0 a0 l s o s' key stale app :
  step s o s' -> routed k0 a0 l key stale app s ->
  exists key' stale' app', routed k0 a0 (l ++ option_list o) key' stale' app' s'.
Proof.
  intros Hs Hr. destruct Hs as [s|u x k a Hu|u x k a Hu|u x k a Hu|u x k a Hu|u x k a b Hu Hb|u x k a|u x k a|u x k a b Hb];
    [apply routed_callback in Hr; rewrite app_nil_r; by exists key, stale, app| | | | | | | |];
    destruct Hr as [H1 H2 H3 H4]; cbn [pc use_ringbuffer_key c ring_buffer_key ring_buffer] in *; subst k a;
    cbn [option_list]; rewrite ?app_nil_r.
  - destruct H3 as [->|[? _]]; [|done]. destruct H4. exists key, [], app. split; [done|done|by left|by split_and!].
  - destruct H4 as [-> ->]. exists key, stale, []. split; [done|done|done|]. cbn. by rewrite app_nil_r.
  - destruct H4 as (-> & -> & ->). exists key, [], []. split; [done|done|by left|]. cbn. auto.
  - exists key, stale, app. by split.
  - destruct H4 as (-> & -> & ->). exists key, [], []. split; [done|done|by left|]. cbn. auto.
  - destruct H4 as (-> & -> & [->| [-> Hu]]).
    + exists (key ++ [x]), [], []. rewrite !app_nil_r. split; [cbn; by rewrite app_nil_r, put_all_snoc|done|by left|done].
    + exists key, [x], []. split; [cbn; by rewrite app_nil_r, put_all_snoc|done|right; by eauto|done].
  - exists key, stale, app. by split.
  - exists key, stale, (app ++ [b]). split; [done|cbn; by rewrite put_all_snoc|done|]. cbn. rewrite H4. by rewrite app_assoc.
Qed.

Lemma steps_routed k0 a0 s l s' :
  steps s l s' -> (exists key stale app, routed k0 a0 [] key stale app s) ->
  exists key stale app, routed k0 a0 l key stale app s'.
Proof.
  induction 1 as [s|s1 l s2 o s3 _ IH Hs]; [done|].
  intros H0. destruct (IH H0) as (key & stale & app & Hr). by eapply routed_step.
Qed.

(** C25. No byte is lost or reordered by the switch: whenever the receiver has
    left its first loop, the bytes it has taken from the port are those in the
    buffer of the key exchange followed by those in the buffer of the
    application.  The buffer of the key exchange may hold one byte more at its
    end: the notification ends the inner loop with what [c] held before. *)
Theorem receiver_switch_splits_stream c0 key0 app0 l s :
  steps (pre_init c0 key0 app0) l s -> pc s = AppPoll ->
  exists key stale app, l = key ++ app /\ (length stale <= 1)%nat /\
    ring_buffer_key s = put_all (rb_reset key0) (key ++ stale) /\
    ring_buffer s = put_all (rb_reset app0) app.
Proof.
  intros Hs Hpc. destruct (steps_routed (rb_reset key0) (rb_reset app0) _ _ _ Hs) as (key & stale & app & [H1 H2 H3 H4]).
  { exists [], [], []. split; [done|done|by left|done]. }
  rewrite Hpc in H4. exists key, stale, app. split_and!; try done.
  destruct H3 as [->|[_ [x ->]]]; cbn; lia.
Qed.

(** The byte 5, the notification while the port is polled, then the byte 7. *)
Lemma receiver_switch_splits_stream_witness :
  let s := mk_receiver AppPoll 0 7 (rb_put (rb_put (rb_reset blank_rb) 5) 5) (rb_put (rb_reset blank_rb) 7) in
  exists key stale app, [5; 7] = key ++ app /\ (length stale <= 1)%nat /\
    ring_buffer_key s = put_all (rb_reset blank_rb) (key ++ stale) /\
    ring_buffer s = put_all (rb_reset blank_rb) app.
Proof.
  intros s. refine (receiver_switch_splits_stream 0 blank_rb blank_rb [5; 7] s _ eq_refl).
  refine (steps_step _ [5] _ (Some 7) _ _ (step_app_byte _ _ _ _ _ _)); [|done].
  refine (steps_step _ [5] _ None _ _ (step_leave _ _ _ _ eq_refl)).
  refine (steps_step _ [5] _ None _ _ (step_store _ _ _ _)).
  refine (steps_step _ [5] _ None _ _ (step_poll_switched _ _ _ _ eq_refl)).
  refine (steps_step _ [5] _ None _ _ (step_callback (mk_receiver KeyPoll 1 5 _ _))).
  refine (steps_step _ [5] _ None _ _ (step_top _ _ _ _ _)); [|done].
  refine (steps_step _ [5] _ None _ _ (step_store _ _ _ _)).
  refine (steps_step _ [] _ (Some 5) _ _ (step_poll_byte _ 0 _ _ _ _ _)); [|done|done].
  refine (steps_step _ [] _ None _ _ (step_top _ _ _ _ _)); [|done].
  constructor.
Defined.
