(* ===== verification/KeyExchangeSeed.v ===== *)
(** * Seeding the key exchange

    The first half of apps/key-exchange/components/KeyExchange: the messages
    of the flight controller are read until one gives a value for the seed,
    the seed starts the C library's generator, and the generator gives the
    ephemeral secret.  [fabsf], [srand] and [rand] are those of
    projects/musllibc.  The theorems say which message is looked at, and what
    the seed is made of. *)

From Stdlib Require Import Floats.SpecFloat.
From S2P Require Import Prelude Ring RingBuffer MavlinkTypes Mavlink MavlinkParser MavlinkRoundTrip Relay FrameStream LinkSample.

Local Open Scope Z_scope.

(** ** projects/musllibc *)

(** prng/rand.c: the static variable [seed]. *)
Definition srand (s : Z) : Z := u64 (u32 (s - 1)).

Definition rand (seed : Z) : Z * Z :=
  let seed := u64 (6364136223846793005 * seed + 1) in
  (Z.shiftr seed 33, seed).

(** math/fabsf.c, on the representation of the argument. *)
Definition fabsf (x : Z) : Z := Z.land x 0x7fffffff.

(** ** Floating point *)

(** The value of a [binary32] representation. *)
Definition float_of_bits (b : Z) : spec_float :=
  let s := Z.testbit b 31 in
  let e := Z.land (Z.shiftr b 23) 0xff in
  let m := Z.land b 0x7fffff in
  if e =? 0 then
    match m with Zpos p => S754_finite s p (-149) | _ => S754_zero s end
  else if e =? 255 then
    if m =? 0 then S754_infinity s else S754_nan
  else
    match m + 0x800000 with Zpos p => S754_finite s p (e - 150) | _ => S754_zero s end.

(** The constant [0.00000001f]. *)
Definition small : spec_float := float_of_bits 0x322bcc77.

(** The constant [1e10], a [double]. *)
Definition e10 : spec_float := S754_finite false 10000000000 0.

(** The conversion of a [double] to [unsigned int]: truncation; C leaves the
    result of a value that does not fit open, [ub] is what the machine does. *)
Definition unsigned_of_double (ub : spec_float -> Z) (x : spec_float) : Z :=
  match x with
  | S754_zero _ => 0
  | S754_finite false m e =>
      let v := if 0 <=? e then Zpos m * 2 ^ e else Zpos m / 2 ^ (- e) in
      if v <? 2 ^ 32 then v else u32 (ub x)
  | _ => u32 (ub x)
  end.

(** ** mavlink_msg_attitude.h, mavlink_msg_battery_status.h, protocol.h *)

Definition MAVLINK_MSG_ID_ATTITUDE : Z := 30.
Definition MAVLINK_MSG_ID_BATTERY_STATUS : Z := 147.

(** The accessors on a little-endian machine; a [float] is its
    representation. *)
Definition _MAV_RETURN_float (msg : mavlink_message_t) (ofs : nat) : Z := le_word (slice ofs 4 (m_payload64 msg)).

Definition _MAV_RETURN_uint16_t_array (msg : mavlink_message_t) (array_length wire_offset : nat) : list Z :=
  map (fun i => le_word (slice (wire_offset + 2 * i) 2 (m_payload64 msg))) (seq 0 array_length).

Definition mavlink_msg_attitude_get_pitchspeed (msg : mavlink_message_t) : Z := _MAV_RETURN_float msg 20.

Definition mavlink_msg_battery_status_get_voltages (msg : mavlink_message_t) : list Z :=
  _MAV_RETURN_uint16_t_array msg 10 10.

(** ** KeyExchange.c *)

Section component.
Context (crcs : list mavlink_msg_entry_t).
Context (accept_unsigned : option (mavlink_status_t -> Z -> bool)).
(** The [status] that [read_message] finds on its stack. *)
Context (stale_status : mavlink_status_t).
Context (ub : spec_float -> Z).

Definition my_mavlink_parse_char (p : parser) (c : Z) (r_message : mavlink_message_t)
    (r_mavlink_status : mavlink_status_t) : parser * mavlink_message_t * mavlink_status_t * Z :=
  parse_frame_char crcs accept_unsigned p c r_message r_mavlink_status.

(** The inner loop of [read_message], up to its [return] ([true]) or the end
    of what has arrived. *)
Fixpoint read_message (fuel : nat) (rb : ring_buffer_t) (head tail : Z) (p : parser) (msg : mavlink_message_t)
    (status : mavlink_status_t) : Z * parser * mavlink_message_t * mavlink_status_t * bool :=
  match fuel with
  | O => (head, p, msg, status, false)
  | S fuel =>
      if head =? tail then (head, p, msg, status, false)
      else
        let '(p, msg, status, result) := my_mavlink_parse_char p (rd (rb_buffer rb) head) msg status in
        if result =? MAVLINK_FRAMING_OK then (head, p, msg, status, true)
        else read_message fuel rb (u32 (head + 1) mod RING_BUFFER_SIZE) tail p msg status
  end.

(** The variables of [seed_from_uav], and those of the [read_message] it is
    in; [pitchspeed] and [voltages] are not initialised. *)
Record seeding := mk_seeding {
  sd_head : Z;
  sd_prs : parser;
  sd_msg : mavlink_message_t;
  sd_status : mavlink_status_t;
  pitchspeed : Z;
  voltages : list Z;
  got_pitchspeed : bool;
  got_voltage : bool;
}.

(** The [switch], on the message that was read. *)
Definition on_message (s : seeding) : seeding :=
  let msg := sd_msg s in
  if m_msgid msg =? MAVLINK_MSG_ID_ATTITUDE then
    if negb (got_pitchspeed s) then
      let x := mavlink_msg_attitude_get_pitchspeed msg in
      let got := SFltb small (float_of_bits (fabsf x)) in
      mk_seeding (sd_head s) (sd_prs s) msg (sd_status s) x (voltages s) got (got_voltage s)
    else s
  else if m_msgid msg =? MAVLINK_MSG_ID_BATTERY_STATUS then
    if negb (got_voltage s) then
      let v := mavlink_msg_battery_status_get_voltages msg in
      mk_seeding (sd_head s) (sd_prs s) msg (sd_status s) (pitchspeed s) v (got_pitchspeed s)
        (negb (rd v 0 =? 0))
    else s
  else s.

Definition seed_of (pitchspeed voltage : Z) : Z :=
  u32 (unsigned_of_double ub (SFmul 53 1024 (SFabs (float_of_bits pitchspeed)) e10) * voltage).

(** The entry of [seed_from_uav], with what its stack holds. *)
Definition seed_start (rb : ring_buffer_t) (p : parser) (msg : mavlink_message_t) (pitch : Z) (volts : list Z) : seeding :=
  mk_seeding (rb_head rb) p msg stale_status pitch volts false false.

(** One turn of the [do] loop: [inl] when it goes on, [inr] with the seed.
    A [read_message] that has taken all there is is resumed where it was. *)
Definition seed_turn (rb : ring_buffer_t) (s : seeding) : seeding + Z :=
  let '(head, p, msg, status, found) :=
    read_message (Z.to_nat RING_BUFFER_SIZE) rb (sd_head s) (rb_tail rb) (sd_prs s) (sd_msg s) (sd_status s) in
  let s := mk_seeding head p msg status (pitchspeed s) (voltages s) (got_pitchspeed s) (got_voltage s) in
  if negb found then inl s
  else
    let s := on_message s in
    if negb (got_pitchspeed s) && negb (got_voltage s) then
      inl (mk_seeding (rb_head rb) (sd_prs s) (sd_msg s) stale_status (pitchspeed s) (voltages s)
        (got_pitchspeed s) (got_voltage s))
    else inr (seed_of (pitchspeed s) (rd (voltages s) 0)).

Fixpoint seed_turns (n : nat) (rb : ring_buffer_t) (s : seeding) : seeding + Z :=
  match n with
  | O => inl s
  | S n => match seed_turn rb s with inl s => seed_turns n rb s | inr z => inr z end
  end.
End component.

(** [for (i = 0; i < RANDOM_DATA_LEN; i++) random_data[i] = rand();] *)
Fixpoint random_bytes (n : nat) (seed : Z) : list Z * Z :=
  match n with
  | O => ([], seed)
  | S n =>
      let '(r, seed) := rand seed in
      let '(l, seed) := random_bytes n seed in
      (u8 r :: l, seed)
  end.

(** ** Reading one message *)

Section reading.
Context (crcs : list mavlink_msg_entry_t).
Context (accept_unsigned : option (mavlink_status_t -> Z -> bool)).

(** The loop over the ring takes the bytes of a frame one by one and returns
    at its last byte, with the index still on it. *)
Lemma read_message_front front : forall fuel rb head p msg status rest rx2 st2,
  in_ring head -> in_ring (rb_tail rb) -> available rb head = front ++ rest -> rest <> [] ->
  feed crcs accept_unsigned (rx_buffer p, rx_status p) front = (rx2, st2, replicate (length front) 0) ->
  exists head' msg' status', in_ring head' /\ available rb head' = rest /\
    read_message crcs accept_unsigned (length front + fuel) rb head (rb_tail rb) p msg status =
    read_message crcs accept_unsigned fuel rb head' (rb_tail rb) (mk_parser rx2 st2) msg' status'.
Proof.
  induction front as [|c front IH]; intros fuel rb head p msg status rest rx2 st2 Hh Ht Ha Hr Hf.
  { cbn [feed] in Hf. injection Hf as <- <-. exists head, msg, status. destruct p. by split_and!. }
  rewrite feed_cons in Hf. destruct (decide (rb_tail rb = head)) as [E|E].
  { rewrite available_nil in Ha by done. discriminate Ha. }
  destruct (available_cons rb head Hh Ht E) as [Ha1 Hh1]. rewrite Ha in Ha1. injection Ha1 as Hc Ha1.
  cbn [length Nat.add read_message]. destruct (Z.eqb_spec head (rb_tail rb)) as [Eq|_]; [by rewrite Eq in E|].
  rewrite <- Hc. unfold my_mavlink_parse_char, parse_frame_char.
  pose proof (frame_char_feed1 crcs accept_unsigned (rx_buffer p) (rx_status p) c (Some msg) (Some status)) as H1.
  cbn zeta in H1. rewrite H1 in Hf. set (o := mavlink_frame_char_buffer _ _ _ _ _ _ _) in *.
  destruct (feed crcs accept_unsigned (fo_rxmsg o, fo_status o) front) as [[rx3 st3] rs] eqn:Ef.
  cbn [length replicate] in Hf. injection Hf as <- <- Hres Hrs. rewrite Hres. change (0 =? MAVLINK_FRAMING_OK) with false.
  rewrite Hrs in Ef. by apply (IH fuel rb _ (mk_parser (fo_rxmsg o) (fo_status o))).
Qed.

(** A message on the wire at the index: it is returned, and the parser is
    between two frames again; the index stays inside the frame. *)
Lemma read_message_frame rb head p msg status m rest :
  in_ring head -> in_ring (rb_tail rb) -> between_frames p ->
  unsigned_message m -> m_checksum m = frame_crc crcs m ->
  available rb head = _mavlink_resend_uart m ++ rest -> bytes (available rb head) ->
  exists head' p' status',
    read_message crcs accept_unsigned (Z.to_nat RING_BUFFER_SIZE) rb head (rb_tail rb) p msg status =
      (head', p', received crcs (rx_buffer p) m, status', true) /\ between_frames p'.
Proof.
  intros Hh Ht Hp Hm Hck Ha Hb. destruct (wire_split_last m) as (front & c & Hw).
  rewrite Hw, <- app_assoc in Ha. cbn [app] in Ha. rewrite Ha in Hb.
  assert (bytes (front ++ [c])) as Hbw.
  { change (front ++ c :: rest) with (front ++ ([c] ++ rest)) in Hb. rewrite app_assoc in Hb.
    by apply List.Forall_app in Hb as [Hb _]. }
  destruct (fed_frame crcs accept_unsigned p m front c Hp Hm Hw Hbw) as (Hr & _ & Hbt & Ho).
  rewrite (proj1 (fed_app _ _ _ _ _)) in Hbt. unfold returned in Hr. unfold fed at 2 in Hbt. unfold fed in Ho.
  destruct (feed crcs accept_unsigned (rx_buffer p, rx_status p) front) as [[rx2 st2] rets] eqn:Ef.
  cbn [fst snd rx_buffer rx_status] in Hr, Hbt, Ho. rewrite Hr in Ef.
  destruct (read_message_front front (S (2047 - length front)) rb head p msg status (c :: rest) rx2 st2 Hh Ht Ha
    ltac:(discriminate) Ef) as (head' & msg' & status' & Hh' & Ha' & E).
  assert (length front + S (2047 - length front) = Z.to_nat RING_BUFFER_SIZE)%nat as El.
  { pose proof (available_length rb head Hh Ht) as Hl. rewrite Ha, length_app in Hl. unfold RING_BUFFER_SIZE. lia. }
  rewrite El in E. rewrite E. clear El E.
  destruct (decide (rb_tail rb = head')) as [Et|Et]; [by rewrite available_nil in Ha'|].
  destruct (available_cons rb head' Hh' Ht Et) as [Ha1 _]. rewrite Ha' in Ha1. injection Ha1 as Hcr _.
  cbn [read_message]. destruct (Z.eqb_spec head' (rb_tail rb)) as [Eq|_]; [by rewrite Eq in Et|].
  rewrite <- Hcr. unfold my_mavlink_parse_char, parse_frame_char. cbn [rx_buffer rx_status].
  destruct (Ho msg' (Some status')) as [Hres Hmsg]. unfold verdict in Hres. rewrite bool_decide_eq_true_2 in Hres by exact Hck.
  pose proof (frame_char_feed1 crcs accept_unsigned rx2 st2 c (Some msg') (Some status')) as H1. cbn zeta in H1.
  rewrite Hres, Hmsg. change (MAVLINK_FRAMING_OK =? MAVLINK_FRAMING_OK) with true. cbn [default].
  do 3 eexists. split; [reflexivity|]. unfold fed in Hbt. cbn [feed rx_buffer rx_status] in Hbt. by rewrite H1 in Hbt.
Qed.
End reading.

(** ** What the seed is made of *)

Section seed.
Context (crcs : list mavlink_msg_entry_t).
Context (accept_unsigned : option (mavlink_status_t -> Z -> bool)).
Context (stale_status : mavlink_status_t).
Context (ub : spec_float -> Z).

(** [seed_from_uav] at the top of its loop. *)
Record at_top (rb : ring_buffer_t) (s : seeding) : Prop := {
  top_head : sd_head s = rb_head rb;
  top_prs : between_frames (sd_prs s);
  top_pitch : got_pitchspeed s = false;
  top_volt : got_voltage s = false;
}.

(** The seed that a message gives, if any, when [pitch] and [volt] are in the
    variables. *)
Definition seed_by (msg : mavlink_message_t) (pitch volt : Z) : option Z :=
  if m_msgid msg =? MAVLINK_MSG_ID_ATTITUDE then
    let x := mavlink_msg_attitude_get_pitchspeed msg in
    if SFltb small (float_of_bits (fabsf x)) then Some (seed_of ub x volt) else None
  else if m_msgid msg =? MAVLINK_MSG_ID_BATTERY_STATUS then
    let v := rd (mavlink_msg_battery_status_get_voltages msg) 0 in
    if v =? 0 then None else Some (seed_of ub pitch v)
  else None.

(** The frame of [m] is the first thing in the ring. *)
Record first_in_ring (rb : ring_buffer_t) (m : mavlink_message_t) (rest : list Z) : Prop := {
  fr_head : in_ring (rb_head rb);
  fr_tail : in_ring (rb_tail rb);
  fr_msg : unsigned_message m;
  fr_crc : m_checksum m = frame_crc crcs m;
  fr_ring : available rb (rb_head rb) = _mavlink_resend_uart m ++ rest;
  fr_bytes : bytes (available rb (rb_head rb));
}.

Lemma seed_turn_spec rb s m rest :
  at_top rb s -> first_in_ring rb m rest ->
  match seed_by (received crcs (rx_buffer (sd_prs s)) m) (pitchspeed s) (rd (voltages s) 0) with
  | Some z => seed_turn crcs accept_unsigned stale_status ub rb s = inr z
  | None => exists s', seed_turn crcs accept_unsigned stale_status ub rb s = inl s' /\ at_top rb s'
  end.
Proof.
  intros [Hh Hp Hgp Hgv] [Hr Ht Hm Hc Ha Hb]. unfold seed_turn. rewrite Hh.
  destruct (read_message_frame crcs accept_unsigned rb (rb_head rb) (sd_prs s) (sd_msg s) (sd_status s) m rest Hr Ht Hp Hm Hc Ha Hb)
    as (head & p & status & -> & Hp').
  cbn [negb]. unfold on_message, seed_by. cbn [sd_msg sd_head sd_prs sd_status pitchspeed voltages got_pitchspeed got_voltage].
  rewrite Hgp, Hgv. set (msg := received crcs (rx_buffer (sd_prs s)) m). cbn [negb].
  destruct (m_msgid msg =? MAVLINK_MSG_ID_ATTITUDE); [|destruct (m_msgid msg =? MAVLINK_MSG_ID_BATTERY_STATUS)];
    cbv zeta; cbn [sd_msg sd_head sd_prs sd_status pitchspeed voltages got_pitchspeed got_voltage];
    rewrite ?Hgp, ?Hgv; cbn [negb andb].
  - destruct (SFltb _ _); cbn [negb andb]; [done|]. eexists. split; [reflexivity|]. by split.
  - destruct (rd _ 0 =? 0); cbn [negb andb]; [|done]. eexists. split; [reflexivity|]. by split.
  - eexists. split; [reflexivity|]. by split.
Qed.

(** With a whole frame first in the ring, one turn of the loop decides on
    that frame alone: an attitude gives a seed of its pitch rate and of what
    the uninitialised [voltages] held, a battery status one of its first
    voltage and of the uninitialised [pitchspeed]; a message without a usable
    value leaves the loop where it was, at the index of the shared buffer. *)
Theorem seed_from_first_message rb s m rest :
  at_top rb s -> first_in_ring rb m rest ->
  match seed_by (received crcs (rx_buffer (sd_prs s)) m) (pitchspeed s) (rd (voltages s) 0) with
  | Some z => seed_turn crcs accept_unsigned stale_status ub rb s = inr z
  | None => exists s', seed_turn crcs accept_unsigned stale_status ub rb s = inl s' /\ at_top rb s'
  end.
Proof. apply seed_turn_spec. Qed.

Lemma seed_stuck rb m rest n : forall s,
  at_top rb s -> first_in_ring rb m rest ->
  m_msgid m <> MAVLINK_MSG_ID_ATTITUDE -> m_msgid m <> MAVLINK_MSG_ID_BATTERY_STATUS ->
  exists s', seed_turns crcs accept_unsigned stale_status ub n rb s = inl s' /\ at_top rb s'.
Proof.
  induction n as [|n IH]; intros s Hs Hm Ha Hb; [by exists s|]. cbn [seed_turns].
  pose proof (seed_turn_spec rb s m rest Hs Hm) as H1. unfold seed_by in H1.
  change (m_msgid (received crcs (rx_buffer (sd_prs s)) m)) with (m_msgid m) in H1.
  destruct (Z.eqb_spec (m_msgid m) MAVLINK_MSG_ID_ATTITUDE) as [E|_]; [destruct (Ha E)|].
  destruct (Z.eqb_spec (m_msgid m) MAVLINK_MSG_ID_BATTERY_STATUS) as [E|_]; [destruct (Hb E)|].
  destruct H1 as (s' & -> & Hs'). by apply IH.
Qed.

(** C26. [read_message] returns without writing its index back, so that it is
    never called on what follows: when the first message in the ring is
    neither an attitude nor a battery status, no number of turns gets a
    seed. *)
Theorem seed_never_past_first rb s m rest n :
  at_top rb s -> first_in_ring rb m rest ->
  m_msgid m <> MAVLINK_MSG_ID_ATTITUDE -> m_msgid m <> MAVLINK_MSG_ID_BATTERY_STATUS ->
  exists s', seed_turns crcs accept_unsigned stale_status ub n rb s = inl s' /\ sd_head s' = rb_head rb.
Proof.
  intros Hs Hm Ha Hb. destruct (seed_stuck rb m rest n s Hs Hm Ha Hb) as (s' & E & [? _ _ _]). by exists s'.
Qed.
End seed.

(** ** The theorems on sample messages *)

(** An attitude with a pitch rate of 0.1. *)
Definition attitude_payload : list Z := replicate 20 0 ++ [0xcd; 0xcc; 0xcc; 0x3d] ++ replicate (PAYLOAD_BYTES - 24) 0.
Definition attitude_message : mavlink_message_t :=
  mk_message 32310 MAVLINK_STX 24 0 0 0 1 2 30 attitude_payload [0; 0] (replicate 13 0).

Definition sample_seeding (rb : ring_buffer_t) : seeding :=
  seed_start blank_status rb idle_parser blank_message 0 (replicate 10 12000).

Lemma sample_at_top rb : at_top rb (sample_seeding rb).
Proof. split; [done|exact idle_parser_between|done|done]. Qed.

Lemma sample_first m rest (l := _mavlink_resend_uart m ++ rest) :
  (length l < 2048)%nat -> bytes l -> unsigned_message m -> m_checksum m = frame_crc ardupilotmega_crcs m ->
  first_in_ring ardupilotmega_crcs (ring_of l) m rest.
Proof.
  intros Hl Hb Hm Hc. pose proof (available_ring_of l Hl) as Ha.
  split; [done|by apply ring_of_tail|exact Hm|exact Hc|exact Ha|].
  change (bytes (available (ring_of l) 0)). by rewrite Ha.
Qed.

Lemma attitude_first : first_in_ring ardupilotmega_crcs (ring_of (_mavlink_resend_uart attitude_message ++ [1])) attitude_message [1].
Proof.
  apply sample_first.
  - apply Nat.ltb_lt. vm_compute. reflexivity.
  - decide_true.
  - split; [split; decide_true|]. split; [done|by left].
  - vm_compute. reflexivity.
Qed.

Lemma seed_from_first_message_witness :
  let rb := ring_of (_mavlink_resend_uart attitude_message ++ [1]) in
  seed_turn ardupilotmega_crcs None blank_status (fun _ => 0) rb (sample_seeding rb) = inr 4156510272.
Proof.
  intros rb.
  pose proof (seed_from_first_message ardupilotmega_crcs None blank_status (fun _ => 0) rb (sample_seeding rb)
    attitude_message [1] (sample_at_top rb) attitude_first) as H.
  assert (seed_by (fun _ => 0) (received ardupilotmega_crcs blank_message attitude_message) 0 12000 = Some 4156510272) as E
    by (vm_compute; reflexivity).
  cbn [sample_seeding seed_start sd_prs pitchspeed voltages idle_parser rx_buffer] in H.
  change (rd (replicate 10 12000) 0) with 12000 in H. by rewrite E in H.
Defined.

Lemma seed_never_past_first_witness :
  let rb := ring_of (_mavlink_resend_uart heartbeat_message ++ _mavlink_resend_uart attitude_message) in
  exists s', seed_turns ardupilotmega_crcs None blank_status (fun _ => 0) 1000 rb (sample_seeding rb) = inl s' /\
    sd_head s' = 0.
Proof.
  intros rb. refine (seed_never_past_first ardupilotmega_crcs None blank_status (fun _ => 0) rb (sample_seeding rb)
    heartbeat_message (_mavlink_resend_uart attitude_message) 1000 (sample_at_top rb) _ _ _); [|discriminate|discriminate].
  apply sample_first.
  - apply Nat.ltb_lt. vm_compute. reflexivity.
  - decide_true.
  - split; [split; decide_true|]. split; [done|by left].
  - vm_compute. reflexivity.
Defined.
