(* ===== verification/KeyExchangeApp.v ===== *)
(** * The key-exchange application: KeyExchange

    The component that runs the second party of the protocol once: it seeds
    its generator, makes the key pairs, answers the first message of the
    ground station, takes the third, and hands the two channels to Decrypt and
    Encrypt.  The theorems say what the other components are given after an
    honest run and after a failed one. *)

From Stdlib Require Import Floats.SpecFloat.
From S2P Require Import Prelude Ring Queue RingBuffer MavlinkTypes Mavlink MavlinkParser Aes Gf128 Gcm GcmSpec AesModes Gec.
From S2P Require Import GecKe Relay SealedStream LinkSample KeyExchangeRelay KeyExchangeSeed.

Local Open Scope Z_scope.

Definition our_keypair_seed : list Z := seqZ 1 32.
Definition their_keypair_seed : list Z := rev (seqZ 1 32).

(** What the component does to the others, in order. *)
Inductive output :=
  | SerialWrite (l : list Z)
  | KeyDecryptSend (k : gec_sym_key)
  | KeyEncryptSend (k : gec_sym_key)
  | SwitchPixhawk
  | SwitchTelemetry.

(** Where [run] is: in [seed_from_uav], or in one of the two calls of
    [read_from_telemetry], or at its end. *)
Inductive phase := Seeding (sd : seeding) | ReadMsg1 | ReadMsg3 | Finished.

Section component.
Context (crcs : list mavlink_msg_entry_t).
Context (accept_unsigned : option (mavlink_status_t -> Z -> bool)).
Context (stale_status : mavlink_status_t).
Context (ub : spec_float -> Z).
(** The alignment of the buffers of the signatures. *)
Context (al : bool).
Context `{Curve}.

(** The static variables, the generator of the C library, and the outputs so
    far. *)
Record exchange := mk_exchange {
  at_phase : phase;
  ctx : gec_sts_ctx;
  our_privkey : gec_privkey;
  our_pubkey : gec_pubkey;
  their_privkey : gec_privkey;
  their_pubkey : gec_pubkey;
  random_data : list Z;
  msg1 : list Z;
  msg2 : list Z;
  msg3 : list Z;
  key_material : list Z;
  symkey_chan1 : gec_sym_key;
  symkey_chan2 : gec_sym_key;
  rand_seed : Z;
  outputs : list output;
}.

(** [None] while the bytes are not all there; the index is written back at
    the end. *)
Definition read_from_telemetry (rb : ring_buffer_t) (len : nat) : option (list Z * ring_buffer_t) :=
  match ring_bytes len rb (rb_head rb) with
  | None => None
  | Some (l, head) => Some (l, set_head rb head)
  end.

(** From the seed to the first message. *)
Definition prepare (seed : Z) (s : exchange) : exchange :=
  let '(ours, our_pub) := generate our_keypair_seed (our_privkey s) (our_pubkey s) in
  let '(theirs, their_pub) := generate their_keypair_seed (their_privkey s) (their_pubkey s) in
  let c := init_context (ctx s) our_pub ours their_pub in
  mk_exchange ReadMsg1 c ours our_pub theirs their_pub (random_data s) (msg1 s) (msg2 s) (msg3 s)
    (key_material s) (symkey_chan1 s) (symkey_chan2 s) (srand seed) (outputs s).

(** [respond_sts]; a failure is only logged. *)
Definition on_msg1 (m1 : list Z) (s : exchange) : exchange :=
  let '(random, seed) := random_bytes RANDOM_DATA_LEN (rand_seed s) in
  let '(_, m2, c) := respond_sts al m1 (msg2 s) (ctx s) random in
  mk_exchange ReadMsg3 c (our_privkey s) (our_pubkey s) (their_privkey s) (their_pubkey s) random m1 m2 (msg3 s)
    (key_material s) (symkey_chan1 s) (symkey_chan2 s) seed (outputs s ++ [SerialWrite m2]).

(** [finish_sts]; a failure is only logged. *)
Definition on_msg3 (m3 : list Z) (s : exchange) : exchange :=
  let '(_, km, c) := finish_sts al m3 (ctx s) (key_material s) in
  let '(k1, k2) := gec_key_material_to_2_channels (symkey_chan1 s) (symkey_chan2 s) km in
  mk_exchange Finished c (our_privkey s) (our_pubkey s) (their_privkey s) (their_pubkey s) (random_data s)
    (msg1 s) (msg2 s) m3 km k1 k2 (rand_seed s)
    (outputs s ++ [KeyDecryptSend k1; KeyEncryptSend k2; SwitchPixhawk; SwitchTelemetry]).

Definition set_phase (p : phase) (s : exchange) : exchange :=
  mk_exchange p (ctx s) (our_privkey s) (our_pubkey s) (their_privkey s) (their_pubkey s) (random_data s)
    (msg1 s) (msg2 s) (msg3 s) (key_material s) (symkey_chan1 s) (symkey_chan2 s) (rand_seed s) (outputs s).

(** [run], up to where it has to wait next, on the buffers of Pixhawk and
    Telemetry; the first is only read. *)
Definition run_turn (pixhawk telemetry : ring_buffer_t) (s : exchange) : ring_buffer_t * exchange :=
  match at_phase s with
  | Seeding sd =>
      match seed_turn crcs accept_unsigned stale_status ub pixhawk sd with
      | inl sd => (telemetry, set_phase (Seeding sd) s)
      | inr seed => (telemetry, prepare seed s)
      end
  | ReadMsg1 =>
      match read_from_telemetry telemetry MSG_1_LEN with
      | None => (telemetry, s)
      | Some (m1, telemetry) => (telemetry, on_msg1 m1 s)
      end
  | ReadMsg3 =>
      match read_from_telemetry telemetry MSG_3_LEN with
      | None => (telemetry, s)
      | Some (m3, telemetry) => (telemetry, on_msg3 m3 s)
      end
  | Finished => (telemetry, s)
  end.

(** ** The static variables have the sizes of their types *)
Record wf_exchange (s : exchange) : Prop := {
  wx_ctx : wf_sts (ctx s);
  wx_msg2 : length (msg2 s) = MSG_2_LEN;
  wx_material : length (key_material s) = KEY_MATERIAL_LEN;
  wx_chan1 : wf_sym_key (symkey_chan1 s);
  wx_chan2 : wf_sym_key (symkey_chan2 s);
}.
End component.

Lemma random_bytes_ok n : forall seed, bytes (random_bytes n seed).1 /\ length (random_bytes n seed).1 = n.
Proof.
  induction n as [|n IH]; intros seed; [split; [constructor|done]|]. cbn [random_bytes].
  destruct (rand seed) as [r s]. specialize (IH s). destruct (random_bytes n s) as [l s']. cbn [fst] in *.
  destruct IH as [Hb Hl]. split; [|cbn; by rewrite Hl]. apply Forall_cons_2; [by apply (wrap_range 8)|done].
Qed.

Lemma keypair_seeds_ok : key32 our_keypair_seed /\ key32 their_keypair_seed.
Proof. split; split; decide_true. Qed.

(** A message that is all in the ring is read whole. *)
Lemma read_from_telemetry_message rb m rest :
  in_ring (rb_head rb) -> in_ring (rb_tail rb) -> available rb (rb_head rb) = m ++ rest ->
  exists h, read_from_telemetry rb (length m) = Some (m, set_head rb h) /\ available rb h = rest.
Proof.
  intros Hh Ht Ha. unfold read_from_telemetry. pose proof (ring_bytes_spec (length m) rb (rb_head rb) Hh Ht) as H.
  rewrite Ha, length_app, (proj2 (Nat.leb_le _ _)) in H by lia. rewrite take_app_length, drop_app_length in H.
  destruct H as (h & -> & _ & Hr). by exists h.
Qed.

Section theorems.
Context (crcs : list mavlink_msg_entry_t).
Context (accept_unsigned : option (mavlink_status_t -> Z -> bool)).
Context (stale_status : mavlink_status_t).
Context (ub : spec_float -> Z).
Context (al : bool).
Context `{CurveLaws}.

#[local] Abbreviation turn := (run_turn crcs accept_unsigned stale_status ub al).

(** The key pairs that both ends make of the constant seeds. *)
Definition our_public : gec_pubkey := mk_pubkey (ed25519_publickey our_keypair_seed).
Definition their_public : gec_pubkey := mk_pubkey (ed25519_publickey their_keypair_seed).

(** The context of the ground station before the exchange. *)
Definition station_ctx (c : gec_sts_ctx) : gec_sts_ctx :=
  init_context c their_public (mk_privkey their_keypair_seed (pub their_public)) our_public.

(** The turns that change the phase. *)
Lemma turn_seed pixhawk t s sd z :
  at_phase s = Seeding sd -> seed_turn crcs accept_unsigned stale_status ub pixhawk sd = inr z ->
  turn pixhawk t s = (t, prepare z s).
Proof. intros Hp Hz. unfold run_turn. by rewrite Hp, Hz. Qed.

Lemma turn_msg1 pixhawk t s m rest :
  at_phase s = ReadMsg1 -> length m = MSG_1_LEN -> in_ring (rb_head t) -> in_ring (rb_tail t) ->
  available t (rb_head t) = m ++ rest -> (turn pixhawk t s).2 = on_msg1 al m s.
Proof.
  intros Hp Hm Hh Ht Ha. destruct (read_from_telemetry_message t m rest Hh Ht Ha) as (h & E & _).
  unfold run_turn. by rewrite Hp, <- Hm, E.
Qed.

Lemma turn_msg3 pixhawk t s m rest :
  at_phase s = ReadMsg3 -> length m = MSG_3_LEN -> in_ring (rb_head t) -> in_ring (rb_tail t) ->
  available t (rb_head t) = m ++ rest -> (turn pixhawk t s).2 = on_msg3 al m s.
Proof.
  intros Hp Hm Hh Ht Ha. destruct (read_from_telemetry_message t m rest Hh Ht Ha) as (h & E & _).
  unfold run_turn. by rewrite Hp, <- Hm, E.
Qed.

Lemma on_msg1_spec m z s m2 c r :
  respond_sts al m (msg2 s) (init_context (ctx s) our_public (mk_privkey our_keypair_seed (pub our_public)) their_public)
    (random_bytes RANDOM_DATA_LEN (srand z)).1 = (r, m2, c) ->
  let s2 := on_msg1 al m (prepare z s) in
  at_phase s2 = ReadMsg3 /\ ctx s2 = c /\ msg2 s2 = m2 /\ key_material s2 = key_material s /\
  symkey_chan1 s2 = symkey_chan1 s /\ symkey_chan2 s2 = symkey_chan2 s /\
  outputs s2 = outputs s ++ [SerialWrite m2].
Proof.
  intros E. unfold on_msg1. change (rand_seed (prepare z s)) with (srand z).
  destruct (random_bytes RANDOM_DATA_LEN (srand z)) as [l sd]. cbn [fst] in E.
  change (ctx (prepare z s)) with (init_context (ctx s) our_public (mk_privkey our_keypair_seed (pub our_public)) their_public).
  change (msg2 (prepare z s)) with (msg2 s). rewrite E. by split_and!.
Qed.

Lemma on_msg3_spec m s r km c k1 k2 :
  finish_sts al m (ctx s) (key_material s) = (r, km, c) ->
  gec_key_material_to_2_channels (symkey_chan1 s) (symkey_chan2 s) km = (k1, k2) ->
  outputs (on_msg3 al m s) = outputs s ++ [KeyDecryptSend k1; KeyEncryptSend k2; SwitchPixhawk; SwitchTelemetry].
Proof. intros E1 E2. unfold on_msg3. by rewrite E1, E2. Qed.

(** C9. An honest run: when the ring of the flight controller gives a seed, and
    the two messages of the ground station arrive in the other ring, the
    ground station accepts what is written to the port, and Decrypt and
    Encrypt are given, in this order and before the receivers are switched,
    the other ends of the ground station's two channels. *)
Theorem exchange_pairs_channels pixhawk t0 t1 t2 s sd z ca ra buf1 buf3 bufk g1 g2 rest1 rest2 :
  wf_exchange s -> at_phase s = Seeding sd -> outputs s = [] ->
  seed_turn crcs accept_unsigned stale_status ub pixhawk sd = inr z ->
  wf_sts ca -> key32 ra -> length buf1 = MSG_1_LEN -> length buf3 = MSG_3_LEN -> length bufk = KEY_MATERIAL_LEN ->
  wf_sym_key g1 -> wf_sym_key g2 ->
  Forall in_ring [rb_head t1; rb_tail t1; rb_head t2; rb_tail t2] ->
  let s1 := (turn pixhawk t0 s).2 in
  let '(_, m1, a1) := initiate_sts buf1 (station_ctx ca) ra in
  available t1 (rb_head t1) = m1 ++ rest1 ->
  let s2 := (turn pixhawk t1 s1).2 in
  let '(r, m3, km, _) := response_ack_sts al al (msg2 s2) buf3 a1 bufk in
  available t2 (rb_head t2) = m3 ++ rest2 ->
  let s3 := (turn pixhawk t2 s2).2 in
  let '(p1, p2) := gec_key_material_to_2_channels g1 g2 km in
  r = 0 /\ exists k1 k2,
    outputs s3 = [SerialWrite (msg2 s2); KeyDecryptSend k1; KeyEncryptSend k2; SwitchPixhawk; SwitchTelemetry] /\
    paired k1 p1 /\ paired k2 p2.
Proof.
  intros [Hc Hm2 Hkm Hk1 Hk2] Hph Hout Hseed Ha Hra L1 L3 Lk Hg1 Hg2 Hr.
  apply List.Forall_cons_iff in Hr as [R1 Hr]. apply List.Forall_cons_iff in Hr as [R2 Hr].
  apply List.Forall_cons_iff in Hr as [R3 Hr]. apply List.Forall_cons_iff in Hr as [R4 _].
  destruct keypair_seeds_ok as [Ho Ht]. pose proof (random_bytes_ok RANDOM_DATA_LEN (srand z)) as Hrb.
  pose proof (sts_run al ca (ctx s) their_keypair_seed our_keypair_seed ra (random_bytes RANDOM_DATA_LEN (srand z)).1
    buf1 (msg2 s) buf3 bufk (key_material s) Ha Hc Ht Ho Hra Hrb L1 Hm2 L3 Lk Hkm) as Hrun.
  cbv zeta in Hrun. fold our_public their_public in Hrun. fold (station_ctx ca) in Hrun.
  rewrite (turn_seed pixhawk t0 s sd z Hph Hseed). cbn [snd].
  destruct (initiate_sts buf1 (station_ctx ca) ra) as [[r1 m1] a1]. intros Ha1.
  destruct (respond_sts al m1 _ _ _) as [[r2 m2] b1] eqn:E2.
  destruct (response_ack_sts al al m2 buf3 a1 bufk) as [[[r3 m3] km] a2] eqn:E3.
  destruct (finish_sts al m3 b1 (key_material s)) as [[r4 kb] b2] eqn:E4.
  destruct Hrun as (Hl & Hres & <- & Hkb & Hkl & _). injection Hl as Hl1 Hl3. injection Hres as -> -> -> ->.
  rewrite (turn_msg1 pixhawk t1 (prepare z s) m1 rest1 eq_refl Hl1 R1 R2 Ha1).
  pose proof (on_msg1_spec m1 z s m2 b1 _ E2) as Hs2. cbv zeta in Hs2 |- *.
  set (s2 := on_msg1 al m1 (prepare z s)) in *. clearbody s2.
  destruct Hs2 as (Hp2 & <- & <- & Hkm2 & Hc1 & Hc2 & Ho2). rewrite E3. intros Ha2.
  rewrite (turn_msg3 pixhawk t2 s2 m3 rest2 Hp2 Hl3 R3 R4 Ha2).
  pose proof (channels_paired (symkey_chan1 s) (symkey_chan2 s) g1 g2 km Hk1 Hk2 Hg1 Hg2 Hkb Hkl) as Hpair.
  destruct (gec_key_material_to_2_channels (symkey_chan1 s) (symkey_chan2 s) km) as [k1 k2] eqn:Ek.
  destruct (gec_key_material_to_2_channels g1 g2 km) as [p1 p2]. split; [done|]. exists k1, k2.
  rewrite <- Hkm2 in E4. rewrite <- Hc1, <- Hc2 in Ek.
  rewrite (on_msg3_spec m3 s2 _ km b2 k1 k2 E4 Ek), Ho2, Hout. split; [done|]. by destruct Hpair as (? & ? & _).
Qed.

Lemma finish_fails m c km : (finish_sts al m c km).1.1 <> 0 -> (finish_sts al m c km).1.2 = km.
Proof.
  unfold finish_sts. destruct (decide _); [|done]. destruct (verify al c _) as [r c'].
  by destruct (negb (r =? 0)).
Qed.

(** What both channels run under after the key material has stayed zero. *)
Definition zero_cipher_key : list Z := replicate 16 0.
Definition zero_salt : list Z := replicate 8 0.

Lemma zero_material_keyed k : wf_sym_key k ->
  (gec_keyed zero_cipher_key zero_salt (gec_init_sym_key_conf_auth k (replicate KEY_MATERIAL_LEN 0)) /\
   ctr (gec_init_sym_key_conf_auth k (replicate KEY_MATERIAL_LEN 0)) = 0) /\
  (gec_keyed zero_cipher_key zero_salt (gec_init_sym_key_conf_auth k (drop GEC_RAW_KEY_LEN (replicate KEY_MATERIAL_LEN 0))) /\
   ctr (gec_init_sym_key_conf_auth k (drop GEC_RAW_KEY_LEN (replicate KEY_MATERIAL_LEN 0))) = 0) /\
  block zero_cipher_key /\ is_salt zero_salt.
Proof.
  intros Hk.
  destruct (init_auth_keyed k (replicate KEY_MATERIAL_LEN 0) Hk) as (H1 & H2 & H3 & H4); [decide_true|decide_true|].
  destruct (init_auth_keyed k (drop GEC_RAW_KEY_LEN (replicate KEY_MATERIAL_LEN 0)) Hk) as (H5 & H6 & _); [decide_true|decide_true|].
  by split_and!.
Qed.

(** C24. A failed exchange, for any third message that [finish_sts] refuses:
    nothing tells the failure to the other components; they are given
    channels made of the key material as it was, and when that is still zero,
    Encrypt goes on to seal everything it relays under the zero key and salt,
    which anybody can open. *)
Theorem failed_exchange_installs_zero_key pixhawk t s m3 rest :
  at_phase s = ReadMsg3 -> wf_sym_key (symkey_chan1 s) -> wf_sym_key (symkey_chan2 s) ->
  key_material s = replicate KEY_MATERIAL_LEN 0 ->
  in_ring (rb_head t) -> in_ring (rb_tail t) -> length m3 = MSG_3_LEN -> available t (rb_head t) = m3 ++ rest ->
  (finish_sts al m3 (ctx s) (key_material s)).1.1 <> 0 ->
  exists k1 k2,
    outputs (turn pixhawk t s).2 = outputs s ++ [KeyDecryptSend k1; KeyEncryptSend k2; SwitchPixhawk; SwitchTelemetry] /\
    gec_keyed zero_cipher_key zero_salt k1 /\
    forall u rb head enc,
      stack_ok u -> parser_ok (Encrypt.prs enc) -> Queue.wf (Encrypt.queue enc) ->
      Queue.contents (Encrypt.queue enc) = [] -> Encrypt.serial enc = [] ->
      in_ring head -> in_ring (rb_tail rb) -> bytes (available rb head) ->
      let l := concat (relayed crcs accept_unsigned (st_msg u) (st_status u) (Encrypt.prs enc) (available rb head)).2 in
      Z.of_nat (full_blocks l) <= counter_limit ->
      Encrypt.serial (Encrypt.run_turn crcs accept_unsigned u rb head (Encrypt.key_send k2 enc)).2 =
        sealed zero_cipher_key zero_salt 0 (full_blocks l) l.
Proof.
  intros Hp Hk1 Hk2 Hz Hh Ht Hm Ha Hf. rewrite (turn_msg3 pixhawk t s m3 rest Hp Hm Hh Ht Ha).
  apply finish_fails in Hf. destruct (finish_sts al m3 (ctx s) (key_material s)) as [[r km] c] eqn:E.
  cbn [fst snd] in Hf. rewrite Hz in Hf. subst km.
  destruct (gec_key_material_to_2_channels (symkey_chan1 s) (symkey_chan2 s) (replicate KEY_MATERIAL_LEN 0)) as [k1 k2] eqn:Ek.
  exists k1, k2. split; [exact (on_msg3_spec m3 s r _ c k1 k2 E Ek)|].
  unfold gec_key_material_to_2_channels in Ek. injection Ek as <- <-.
  destruct (zero_material_keyed _ Hk1) as ((H1 & _) & _ & Hkey & Hsl).
  destruct (zero_material_keyed _ Hk2) as (_ & (H2 & Hctr) & _). split; [exact H1|].
  intros u rb head enc Hu Hpe Hq Hq0 Hs Hhe Hte Hb l Hl. unfold Encrypt.key_send. rewrite Hs.
  pose proof (encrypt_turn_spec crcs accept_unsigned u zero_cipher_key zero_salt rb head (Encrypt.prs enc)
    (Encrypt.queue enc) _ 1 Hu Hkey Hsl H2 ltac:(discriminate) Hpe Hq Hq0 Hhe Hte Hb) as He.
  rewrite Hctr in He. subst l.
  destruct (relayed crcs accept_unsigned (st_msg u) (st_status u) (Encrypt.prs enc) (available rb head)) as [p' ws].
  specialize (He Hl). destruct (Encrypt.run_turn _ _ _ _ _ _) as [h s']. destruct He as (_ & _ & He). apply He.
Qed.
End theorems.

(** ** The theorems on a sample exchange, on the toy curve *)

Import (hints) Toy.

Definition sample_exchange (p : phase) (c : gec_sts_ctx) : exchange :=
  let blank_priv := mk_privkey (replicate 32 0) (replicate 32 0) in
  let blank_pub := mk_pubkey (replicate 32 0) in
  let zero_key := mk_sym_key blank_ctx (replicate 8 0) 0 in
  mk_exchange p c blank_priv blank_pub blank_priv blank_pub (replicate 32 0) (replicate 32 0) (replicate 96 0)
    (replicate 64 0) (replicate 48 0) zero_key zero_key 0 [].

Lemma sample_exchange_wf p : wf_exchange (sample_exchange p Toy.blank).
Proof. split; [exact Toy.blank_ok|done|done|exact blank_ctx_wf|exact blank_ctx_wf]. Qed.

#[local] Abbreviation sample_turn := (run_turn ardupilotmega_crcs None blank_status (fun _ => 0) true).

Definition sample_pixhawk : ring_buffer_t := ring_of (_mavlink_resend_uart attitude_message).

Definition sample_started : exchange := sample_exchange (Seeding (sample_seeding sample_pixhawk)) Toy.blank.

Lemma sample_seeded :
  seed_turn ardupilotmega_crcs None blank_status (fun _ => 0) sample_pixhawk (sample_seeding sample_pixhawk) = inr 4156510272.
Proof. vm_compute. reflexivity. Qed.

(** One message of the ground station in the ring, then one more byte. *)
Definition arriving (m : list Z) : ring_buffer_t := ring_of (m ++ [1]).

Lemma arriving_ok m : (length m < 2000)%nat ->
  in_ring (rb_head (arriving m)) /\ in_ring (rb_tail (arriving m)) /\ available (arriving m) (rb_head (arriving m)) = m ++ [1].
Proof. intros Hm. apply ring_of_ok. rewrite length_app. cbn [length]. lia. Qed.

Lemma sample_message_lengths :
  let '(_, m1, a1) := initiate_sts (replicate 32 0) (station_ctx Toy.blank) (seqZ 9 32) in
  let s1 := (sample_turn sample_pixhawk blank_rb sample_started).2 in
  let s2 := (sample_turn sample_pixhawk (arriving m1) s1).2 in
  length m1 = 32%nat /\
  length (response_ack_sts true true (msg2 s2) (replicate 64 0) a1 (replicate 48 0)).1.1.2 = 64%nat.
Proof. vm_compute. by split. Qed.

#[local] Opaque arriving sample_started sample_pixhawk run_turn initiate_sts response_ack_sts.

Lemma exchange_pairs_channels_witness :
  let zero_key := mk_sym_key blank_ctx (replicate 8 0) 0 in
  let s1 := (sample_turn sample_pixhawk blank_rb sample_started).2 in
  let '(_, m1, a1) := initiate_sts (replicate 32 0) (station_ctx Toy.blank) (seqZ 9 32) in
  let s2 := (sample_turn sample_pixhawk (arriving m1) s1).2 in
  let '(r, m3, km, _) := response_ack_sts true true (msg2 s2) (replicate 64 0) a1 (replicate 48 0) in
  let s3 := (sample_turn sample_pixhawk (arriving m3) s2).2 in
  let '(p1, p2) := gec_key_material_to_2_channels zero_key zero_key km in
  r = 0 /\ exists k1 k2,
    outputs s3 = [SerialWrite (msg2 s2); KeyDecryptSend k1; KeyEncryptSend k2; SwitchPixhawk; SwitchTelemetry] /\
    paired k1 p1 /\ paired k2 p2.
Proof.
  intros zero_key s1. pose proof sample_message_lengths as HL. cbv zeta in HL. fold s1 in HL.
  pose proof (fun t1 t2 => exchange_pairs_channels ardupilotmega_crcs None blank_status (fun _ => 0) true sample_pixhawk blank_rb
    t1 t2 sample_started (sample_seeding sample_pixhawk) 4156510272 Toy.blank (seqZ 9 32) (replicate 32 0)
    (replicate 64 0) (replicate 48 0) zero_key zero_key [1] [1] (sample_exchange_wf _) eq_refl eq_refl sample_seeded
    Toy.blank_ok ltac:(split; decide_true) eq_refl eq_refl eq_refl blank_ctx_wf blank_ctx_wf) as H.
  cbv zeta in H. fold s1 in H.
  destruct (initiate_sts (replicate 32 0) (station_ctx Toy.blank) (seqZ 9 32)) as [[r1 m1] a1].
  cbv zeta. set (s2 := (sample_turn sample_pixhawk (arriving m1) s1).2) in *. destruct HL as [L1 L3].
  destruct (arriving_ok m1) as (R1 & R2 & A1); [rewrite L1; apply Nat.ltb_lt; reflexivity|].
  specialize (fun t2 Hr => H (arriving m1) t2 Hr A1). fold s2 in H.
  destruct (response_ack_sts true true (msg2 s2) (replicate 64 0) a1 (replicate 48 0)) as [[[r3 m3] km] a2].
  cbn [fst snd] in L3. destruct (arriving_ok m3) as (R3 & R4 & A2); [rewrite L3; apply Nat.ltb_lt; reflexivity|].
  apply (H (arriving m3)); [|exact A2]. exact (Forall_cons_2 _ _ _ R1 (Forall_cons_2 _ _ _ R2 (Forall_cons_2 _ _ _ R3 (Forall_cons_2 _ _ _ R4 (Forall_nil_2 _))))).
Defined.

(** The third message replaced by zeros. *)
Lemma failed_exchange_installs_zero_key_witness :
  let t := ring_of (replicate 64 0 ++ [1]) in
  let s := sample_exchange ReadMsg3 Toy.waiting in
  exists k1 k2,
    outputs (sample_turn sample_pixhawk t s).2 = [KeyDecryptSend k1; KeyEncryptSend k2; SwitchPixhawk; SwitchTelemetry] /\
    gec_keyed zero_cipher_key zero_salt k1 /\
    let enc := Encrypt.mk_state idle_parser empty_queue k1 0 [] in
    let rb := ring_of heartbeats in
    let l := concat (relayed ardupilotmega_crcs None blank_message blank_status idle_parser (available rb 0)).2 in
    Encrypt.serial (Encrypt.run_turn ardupilotmega_crcs None sample_stack rb 0 (Encrypt.key_send k2 enc)).2 =
      sealed zero_cipher_key zero_salt 0 1 l.
Proof.
  intros t s.
  assert (available t (rb_head t) = replicate 64 0 ++ [1]) as Ha.
  { apply available_ring_of. apply Nat.ltb_lt. reflexivity. }
  assert ((finish_sts true (replicate 64 0) (ctx s) (key_material s)).1.1 = -1) as Hf by (vm_compute; reflexivity).
  destruct (failed_exchange_installs_zero_key ardupilotmega_crcs None blank_status (fun _ => 0) true sample_pixhawk t s
    (replicate 64 0) [1] eq_refl blank_ctx_wf blank_ctx_wf eq_refl ltac:(by split) ltac:(by split) eq_refl Ha
    ltac:(rewrite Hf; discriminate)) as (k1 & k2 & Ho & Hk & He).
  exists k1, k2. split; [exact Ho|]. split; [exact Hk|]. intros enc rb l.
  assert (full_blocks l = 1%nat) as Hl by (vm_compute; reflexivity).
  specialize (He sample_stack rb 0 enc sample_stack_ok blank_parser_ok (proj1 empty_queue_ok) (proj2 empty_queue_ok)
    eq_refl ltac:(by split) ltac:(by split) ltac:(decide_true)).
  change (concat (relayed ardupilotmega_crcs None (st_msg sample_stack) (st_status sample_stack) (Encrypt.prs enc)
    (available rb 0)).2) with l in He. cbv zeta in He. rewrite Hl in He. apply He. done.
Defined.
