(* ===== verification/Limbs.v ===== *)
(** * Field arithmetic in limbs

    GEC-block/src/curve25519-donna.c, up to [fsquare]: elements of the field
    of 2^255 - 19 elements as signed 64-bit limbs of 26 and 25 bits in turn.
    Every signed operation of the code is wrapped; the theorems show that the
    wrapping never does anything for limbs in the ranges that the comments of
    the code announce, and that the operations are those of the field. *)

From Stdlib Require Import Setoid Morphisms.
From S2P Require Import Prelude.

Local Open Scope Z_scope.

(** ** Signed integers *)

Definition swrap (w x : Z) : Z := wrap w (x + 2 ^ (w - 1)) - 2 ^ (w - 1).

Abbreviation s64 := (swrap 64).
Abbreviation s32 := (swrap 32).

Definition add64 (x y : Z) : Z := s64 (x + y).
Definition sub64 (x y : Z) : Z := s64 (x - y).
Definition mul64 (x y : Z) : Z := s64 (x * y).
Definition shl64 (x n : Z) : Z := s64 (Z.shiftl x n).

Declare Scope limb_scope.
Delimit Scope limb_scope with limb.
Arguments add64 (x y)%_limb.
Arguments sub64 (x y)%_limb.
Arguments mul64 (x y)%_limb.
Notation "x + y" := (add64 x y) : limb_scope.
Notation "x - y" := (sub64 x y) : limb_scope.
Notation "x * y" := (mul64 x y) : limb_scope.

(** ** The operations

    An array of limbs is a list; the code gives the arrays 10 or 19 elements
    and uses the first ten as the value. *)

(** The loops over ten limbs. *)
Definition on_limbs (f : Z -> Z -> Z) (output input : list Z) : list Z :=
  zip_with f (take 10 output) (take 10 input) ++ drop 10 output.

Definition fsum (output input : list Z) : list Z := on_limbs add64 output input.

Definition fdifference (output input : list Z) : list Z := on_limbs (fun o i => sub64 i o) output input.

Definition fscalar_product (output input : list Z) (scalar : Z) : list Z :=
  on_limbs (fun _ i => mul64 i scalar) output input.

(** All nineteen limbs of the output are written. *)
Definition fproduct (in2 input : list Z) : list Z :=
  let a i := s32 (rd in2 i) in
  let b i := s32 (rd input i) in
  [(a 0 * b 0)%limb;
   (a 0 * b 1 + a 1 * b 0)%limb;
   (2 * a 1 * b 1 + a 0 * b 2 + a 2 * b 0)%limb;
   (a 1 * b 2 + a 2 * b 1 + a 0 * b 3 + a 3 * b 0)%limb;
   (a 2 * b 2 + 2 * (a 1 * b 3 + a 3 * b 1) + a 0 * b 4 + a 4 * b 0)%limb;
   (a 2 * b 3 + a 3 * b 2 + a 1 * b 4 + a 4 * b 1 + a 0 * b 5 + a 5 * b 0)%limb;
   (2 * (a 3 * b 3 + a 1 * b 5 + a 5 * b 1) + a 2 * b 4 + a 4 * b 2 + a 0 * b 6 + a 6 * b 0)%limb;
   (a 3 * b 4 + a 4 * b 3 + a 2 * b 5 + a 5 * b 2 + a 1 * b 6 + a 6 * b 1 + a 0 * b 7 + a 7 * b 0)%limb;
   (a 4 * b 4 + 2 * (a 3 * b 5 + a 5 * b 3 + a 1 * b 7 + a 7 * b 1) + a 2 * b 6 + a 6 * b 2 + a 0 * b 8 + a
     8 * b 0)%limb;
   (a 4 * b 5 + a 5 * b 4 + a 3 * b 6 + a 6 * b 3 + a 2 * b 7 + a 7 * b 2 + a 1 * b 8 + a 8 * b 1 + a 0 * b
     9 + a 9 * b 0)%limb;
   (2 * (a 5 * b 5 + a 3 * b 7 + a 7 * b 3 + a 1 * b 9 + a 9 * b 1) + a 4 * b 6 + a 6 * b 4 + a 2 * b 8 + a
     8 * b 2)%limb;
   (a 5 * b 6 + a 6 * b 5 + a 4 * b 7 + a 7 * b 4 + a 3 * b 8 + a 8 * b 3 + a 2 * b 9 + a 9 * b 2)%limb;
   (a 6 * b 6 + 2 * (a 5 * b 7 + a 7 * b 5 + a 3 * b 9 + a 9 * b 3) + a 4 * b 8 + a 8 * b 4)%limb;
   (a 6 * b 7 + a 7 * b 6 + a 5 * b 8 + a 8 * b 5 + a 4 * b 9 + a 9 * b 4)%limb;
   (2 * (a 7 * b 7 + a 5 * b 9 + a 9 * b 5) + a 6 * b 8 + a 8 * b 6)%limb;
   (a 7 * b 8 + a 8 * b 7 + a 6 * b 9 + a 9 * b 6)%limb;
   (a 8 * b 8 + 2 * (a 7 * b 9 + a 9 * b 7))%limb;
   (a 8 * b 9 + a 9 * b 8)%limb;
   (2 * a 9 * b 9)%limb].

Definition fsquare_inner (input : list Z) : list Z :=
  let a i := s32 (rd input i) in
  [(a 0 * a 0)%limb;
   (2 * a 0 * a 1)%limb;
   (2 * (a 1 * a 1 + a 0 * a 2))%limb;
   (2 * (a 1 * a 2 + a 0 * a 3))%limb;
   (a 2 * a 2 + 4 * a 1 * a 3 + 2 * a 0 * a 4)%limb;
   (2 * (a 2 * a 3 + a 1 * a 4 + a 0 * a 5))%limb;
   (2 * (a 3 * a 3 + a 2 * a 4 + a 0 * a 6 + 2 * a 1 * a 5))%limb;
   (2 * (a 3 * a 4 + a 2 * a 5 + a 1 * a 6 + a 0 * a 7))%limb;
   (a 4 * a 4 + 2 * (a 2 * a 6 + a 0 * a 8 + 2 * (a 1 * a 7 + a 3 * a 5)))%limb;
   (2 * (a 4 * a 5 + a 3 * a 6 + a 2 * a 7 + a 1 * a 8 + a 0 * a 9))%limb;
   (2 * (a 5 * a 5 + a 4 * a 6 + a 2 * a 8 + 2 * (a 3 * a 7 + a 1 * a 9)))%limb;
   (2 * (a 5 * a 6 + a 4 * a 7 + a 3 * a 8 + a 2 * a 9))%limb;
   (a 6 * a 6 + 2 * (a 4 * a 8 + 2 * (a 5 * a 7 + a 3 * a 9)))%limb;
   (2 * (a 6 * a 7 + a 5 * a 8 + a 4 * a 9))%limb;
   (2 * (a 7 * a 7 + a 6 * a 8 + 2 * a 5 * a 9))%limb;
   (2 * (a 7 * a 8 + a 6 * a 9))%limb;
   (a 8 * a 8 + 4 * a 7 * a 9)%limb;
   (2 * a 8 * a 9)%limb;
   (2 * a 9 * a 9)%limb].

(** [output[i] += output[10 + i] << 4; ... << 1; ...;] *)
Definition fold_limb (output : list Z) (i : Z) : list Z :=
  let output := wr output i (add64 (rd output i) (shl64 (rd output (10 + i)) 4)) in
  let output := wr output i (add64 (rd output i) (shl64 (rd output (10 + i)) 1)) in
  wr output i (add64 (rd output i) (rd output (10 + i))).

Definition freduce_degree (output : list Z) : list Z := foldl fold_limb output [8; 7; 6; 5; 4; 3; 2; 1; 0].

Definition div_by_2_26 (v : Z) : Z :=
  let highword := u32 (Z.shiftr (u64 v) 32) in
  let sign := Z.shiftr (s32 highword) 31 in
  let roundoff := Z.shiftr (u32 sign) 6 in
  Z.shiftr (add64 v roundoff) 26.

Definition div_by_2_25 (v : Z) : Z :=
  let highword := u32 (Z.shiftr (u64 v) 32) in
  let sign := Z.shiftr (s32 highword) 31 in
  let roundoff := Z.shiftr (u32 sign) 7 in
  Z.shiftr (add64 v roundoff) 25.

(** [over = div(output[i]); output[i] -= over << w; output[i+1] += over;] *)
Definition carry (div : Z -> Z) (w : Z) (output : list Z) (i : Z) : list Z :=
  let over := div (rd output i) in
  let output := wr output i (sub64 (rd output i) (shl64 over w)) in
  wr output (i + 1) (add64 (rd output (i + 1)) over).

Definition carries (output : list Z) (i : Z) : list Z :=
  carry div_by_2_25 25 (carry div_by_2_26 26 output i) (i + 1).

Definition freduce_coefficients (output : list Z) : list Z :=
  let output := wr output 10 0 in
  let output := foldl carries output [0; 2; 4; 6; 8] in
  let output := wr output 0 (add64 (rd output 0) (shl64 (rd output 10) 4)) in
  let output := wr output 0 (add64 (rd output 0) (shl64 (rd output 10) 1)) in
  let output := wr output 0 (add64 (rd output 0) (rd output 10)) in
  let output := wr output 10 0 in
  carry div_by_2_26 26 output 0.

(** [memcpy(output, t, sizeof(limb) * 10)] *)
Definition copy_limbs (output t : list Z) : list Z := memcpy_at output 0 (take 10 t).

Definition fmul (output input in2 : list Z) : list Z :=
  let t := fproduct input in2 in
  let t := freduce_degree t in
  let t := freduce_coefficients t in
  copy_limbs output t.

Definition fsquare (output input : list Z) : list Z :=
  let t := fsquare_inner input in
  let t := freduce_degree t in
  let t := freduce_coefficients t in
  copy_limbs output t.

(** ** Signed wrapping *)

Lemma swrap_id w x : 0 < w -> - 2 ^ (w - 1) <= x < 2 ^ (w - 1) -> swrap w x = x.
Proof.
  intros Hw Hx. unfold swrap. rewrite wrap_id; [lia|]. unfold in_range.
  replace (2 ^ w) with (2 * 2 ^ (w - 1)); [lia|]. rewrite <- Z.pow_succ_r by lia. f_equal. lia.
Qed.

Lemma swrap_mod w x : 0 < w -> wrap w (swrap w x) = wrap w x.
Proof. intros Hw. unfold swrap, wrap. rewrite Zminus_mod_idemp_l. f_equal. lia. Qed.

Lemma swrap_range w x : 0 < w -> - 2 ^ (w - 1) <= swrap w x < 2 ^ (w - 1).
Proof.
  intros Hw. unfold swrap. pose proof (wrap_range w (x + 2 ^ (w - 1)) ltac:(lia)) as H. unfold in_range in H.
  replace (2 ^ w) with (2 * 2 ^ (w - 1)) in H; [lia|]. rewrite <- Z.pow_succ_r by lia. f_equal. lia.
Qed.

(** *** Evaluating expressions without overflow

    [ev e v B]: the wrapped expression [e] has the exact value [v], which is at
    most [B] in absolute value.  The rules follow the expression; their side
    conditions are closed comparisons. *)
Definition ev (e v B : Z) : Prop := e = v /\ Z.abs v <= B.

Lemma ev_atom x B : Z.abs x <= B -> ev x x B.
Proof. by split. Qed.

Lemma s64_id x B : Z.abs x <= B -> (B <? 2 ^ 63) = true -> s64 x = x.
Proof. intros Hx HB. apply Z.ltb_lt in HB. apply swrap_id; lia. Qed.

Lemma ev_add e1 v1 B1 e2 v2 B2 :
  ev e1 v1 B1 -> ev e2 v2 B2 -> (B1 + B2 <? 2 ^ 63) = true -> ev (add64 e1 e2) (v1 + v2) (B1 + B2).
Proof. intros [-> H1] [-> H2] HB. split; [|lia]. apply (s64_id _ (B1 + B2)); [lia|done]. Qed.

Lemma ev_mul e1 v1 B1 e2 v2 B2 :
  ev e1 v1 B1 -> ev e2 v2 B2 -> (B1 * B2 <? 2 ^ 63) = true -> ev (mul64 e1 e2) (v1 * v2) (B1 * B2).
Proof.
  intros [-> H1] [-> H2] HB. assert (Z.abs (v1 * v2) <= B1 * B2) as H.
  { rewrite Z.abs_mul. apply Z.mul_le_mono_nonneg; lia. }
  split; [|done]. by apply (s64_id _ (B1 * B2)).
Qed.

Lemma ev_shl e v B n :
  ev e v B -> (0 <=? n) && (B * 2 ^ n <? 2 ^ 63) = true -> ev (shl64 e n) (v * 2 ^ n) (B * 2 ^ n).
Proof.
  intros [-> H] HB. apply andb_prop in HB as [Hn HB]. apply Z.leb_le in Hn.
  assert (0 < 2 ^ n) by (by apply Z.pow_pos_nonneg).
  assert (Z.abs (v * 2 ^ n) <= B * 2 ^ n) as H1.
  { rewrite Z.abs_mul, (Z.abs_eq (2 ^ n)) by lia. apply Z.mul_le_mono_nonneg_r; lia. }
  split; [|done]. unfold shl64. rewrite Z.shiftl_mul_pow2 by done. by apply (s64_id _ (B * 2 ^ n)).
Qed.

Lemma ev_within e v B C : ev e v B -> (B <=? C) = true -> e = v /\ Z.abs v <= C.
Proof. intros [-> H] HC. apply Z.leb_le in HC. split; [done|lia]. Qed.

(** ** The value of an array of limbs *)

Definition p25519 : Z := 2 ^ 255 - 19.

(** Limb [i] counts 2^(25.5 i), rounded up. *)
Definition weight (i : Z) : Z := 2 ^ ((51 * i + 1) / 2).

Fixpoint eval (i : Z) (l : list Z) : Z :=
  match l with
  | [] => 0
  | x :: l => x * weight i + eval (i + 1) l
  end.

Definition value (l : list Z) : Z := eval 0 (take 10 l).

(** Congruence modulo the prime, in which the equations of the field are
    rewritten. *)
Definition eqp (a b : Z) : Prop := a mod p25519 = b mod p25519.
Infix "=p" := eqp (at level 70) : Z_scope.

#[export] Instance eqp_equiv : Equivalence eqp.
Proof. split; [by intros x|by intros x y; symmetry|intros x y z; unfold eqp; congruence]. Qed.
#[export] Instance eqp_add : Proper (eqp ==> eqp ==> eqp) Z.add.
Proof. intros a b H c d H'. unfold eqp in *. by rewrite Z.add_mod, H, H', <- Z.add_mod by done. Qed.
#[export] Instance eqp_mul : Proper (eqp ==> eqp ==> eqp) Z.mul.
Proof. intros a b H c d H'. unfold eqp in *. by rewrite Z.mul_mod, H, H', <- Z.mul_mod by done. Qed.
#[export] Instance eqp_sub : Proper (eqp ==> eqp ==> eqp) Z.sub.
Proof. intros a b H c d H'. unfold eqp in *. by rewrite Zminus_mod, H, H', <- Zminus_mod. Qed.

Lemma eqp_multiple a b k : a = b + k * p25519 -> a =p b.
Proof. intros ->. unfold eqp. by rewrite Z_mod_plus_full. Qed.

Lemma eval_wr l : forall k i v,
  0 <= i < Z.of_nat (length l) -> eval k (wr l i v) = eval k l + (v - rd l i) * weight (k + i).
Proof.
  induction l as [|x l IH]; intros k i v Hi; cbn [length] in Hi; [lia|].
  destruct (decide (i = 0)) as [->|Hne].
  - unfold wr, rd. change (Z.to_nat 0) with 0%nat. cbn [insert list_insert lookup list_lookup default eval].
    change (id x) with x. rewrite Z.add_0_r. ring.
  - assert (wr (x :: l) i v = x :: wr l (i - 1) v) as ->.
    { unfold wr. replace (Z.to_nat i) with (S (Z.to_nat (i - 1))) by lia. done. }
    assert (rd (x :: l) i = rd l (i - 1)) as ->.
    { unfold rd. replace (Z.to_nat i) with (S (Z.to_nat (i - 1))) by lia. done. }
    cbn [eval]. rewrite IH by lia. replace (k + 1 + (i - 1)) with (k + i) by lia. ring.
Qed.

(** ** Products *)

(** Limbs within [B]. *)
Definition within (B : Z) (l : list Z) : Prop := Forall (fun x => Z.abs x <= B) (take 10 l).

Lemma within_rd B l i : 0 <= B -> within B l -> 0 <= i < 10 -> Z.abs (rd l i) <= B.
Proof.
  intros HB Hl Hi. unfold within in Hl. rewrite Forall_lookup in Hl. unfold rd.
  destruct (l !! Z.to_nat i) as [x|] eqn:E; cbn [default]; [|cbn; lia].
  apply (Hl (Z.to_nat i)). rewrite lookup_take_lt by lia. done.
Qed.

Lemma value_rd l : (10 <= length l)%nat ->
  value l = rd l 0 * weight 0 + (rd l 1 * weight 1 + (rd l 2 * weight 2 + (rd l 3 * weight 3 + (rd l 4 * weight 4 +
    (rd l 5 * weight 5 + (rd l 6 * weight 6 + (rd l 7 * weight 7 + (rd l 8 * weight 8 + (rd l 9 * weight 9 + 0))))))))).
Proof. intros Hl. do 10 (destruct l as [|? l]; [cbn in Hl; lia|]). reflexivity. Qed.

Lemma ev_s32 x : Z.abs x <= 2 ^ 27 -> ev (s32 x) x (2 ^ 27).
Proof. intros Hx. split; [|done]. apply swrap_id; lia. Qed.

Ltac evaluate :=
  lazymatch goal with
  | |- ev (add64 _ _) _ _ => eapply ev_add; [evaluate|evaluate|vm_compute; reflexivity]
  | |- ev (mul64 _ _) _ _ => eapply ev_mul; [evaluate|evaluate|vm_compute; reflexivity]
  | |- ev (shl64 _ _) _ _ => eapply ev_shl; [evaluate|vm_compute; reflexivity]
  | |- ev (swrap 32 ?x) _ _ => match goal with H : Z.abs x <= _ |- _ => exact (ev_s32 x H) end
  | |- ev ?c _ _ =>
      match goal with H : Z.abs c <= _ |- _ => exact (ev_atom c _ H) | _ => exact (ev_atom c (Z.abs c) (Z.le_refl _)) end
  end.

(** Weights, evaluated. *)
Ltac weights :=
  repeat match goal with |- context [weight ?i] => let w := eval vm_compute in (weight i) in change (weight i) with w end.

(** The list of wrapped expressions on the left is the list of exact values,
    all within the bound. *)
Definition evaluates (C : Z) (es vs : list Z) : Prop := Forall2 (fun e v => e = v /\ Z.abs v <= C) es vs.

Lemma evaluates_eq C es vs : evaluates C es vs -> es = vs /\ Forall (fun x => Z.abs x <= C) vs.
Proof.
  induction 1 as [|e v es vs [-> Hv] _ [-> IH]]; [done|]. split; [done|]. by apply Forall_cons_2.
Qed.

Lemma evaluates_nil C : evaluates C [] [].
Proof. constructor. Qed.

Lemma evaluates_cons C e es v vs B :
  ev e v B -> (B <=? C) = true -> evaluates C es vs -> evaluates C (e :: es) (v :: vs).
Proof. intros He HB Hes. constructor; [by apply (ev_within e v B)|done]. Qed.

Ltac evaluate_list :=
  match goal with
  | |- evaluates _ [] _ => apply evaluates_nil
  | |- evaluates _ (_ :: _) _ => eapply evaluates_cons; [evaluate|vm_compute; reflexivity|evaluate_list]
  end.

Ltac ten_bounds H :=
  pose proof (H 0 ltac:(lia)); pose proof (H 1 ltac:(lia)); pose proof (H 2 ltac:(lia)); pose proof (H 3 ltac:(lia));
  pose proof (H 4 ltac:(lia)); pose proof (H 5 ltac:(lia)); pose proof (H 6 ltac:(lia)); pose proof (H 7 ltac:(lia));
  pose proof (H 8 ltac:(lia)); pose proof (H 9 ltac:(lia)); clear H.

Definition limb_list (n : nat) (B : Z) (l : list Z) : Prop := length l = n /\ Forall (fun x => Z.abs x <= B) l.

Lemma fproduct_spec a b :
  (10 <= length a)%nat -> (10 <= length b)%nat -> within (2 ^ 27) a -> within (2 ^ 27) b ->
  limb_list 19 (14 * 2 ^ 54) (fproduct a b) /\ eval 0 (fproduct a b) = value a * value b.
Proof.
  intros La Lb Ha Hb. rewrite (value_rd a La), (value_rd b Lb).
  pose proof (fun i => within_rd (2 ^ 27) a i ltac:(done) Ha) as HA. pose proof (fun i => within_rd (2 ^ 27) b i ltac:(done) Hb) as HB.
  ten_bounds HA. ten_bounds HB.
  match goal with |- _ /\ eval 0 _ = ?r =>
    assert (exists vs, evaluates (14 * 2 ^ 54) (fproduct a b) vs /\ (length vs = 19%nat /\ eval 0 vs = r)) as (vs & Hvs & Hl & He)
  end.
  { unfold fproduct. cbv beta zeta. eexists. split; [evaluate_list|]. split; [reflexivity|].
    cbn [eval Z.add Pos.add Pos.succ]. weights. ring. }
  apply evaluates_eq in Hvs as [-> Hvs]. by split.
Qed.

Lemma fsquare_inner_spec a :
  (10 <= length a)%nat -> within (2 ^ 27) a ->
  limb_list 19 (14 * 2 ^ 54) (fsquare_inner a) /\ eval 0 (fsquare_inner a) = value a * value a.
Proof.
  intros La Ha. rewrite (value_rd a La). pose proof (fun i => within_rd (2 ^ 27) a i ltac:(done) Ha) as HA. ten_bounds HA.
  match goal with |- _ /\ eval 0 _ = ?r =>
    assert (exists vs, evaluates (14 * 2 ^ 54) (fsquare_inner a) vs /\ (length vs = 19%nat /\ eval 0 vs = r)) as (vs & Hvs & Hl & He)
  end.
  { unfold fsquare_inner. cbv beta zeta. eexists. split; [evaluate_list|]. split; [reflexivity|].
    cbn [eval Z.add Pos.add Pos.succ]. weights. ring. }
  apply evaluates_eq in Hvs as [-> Hvs]. by split.
Qed.

(** ** Reduction of the degree *)

Lemma length_freduce_degree l : length (freduce_degree l) = length l.
Proof.
  unfold freduce_degree. generalize [8; 7; 6; 5; 4; 3; 2; 1; 0]. intros js. revert l.
  induction js as [|j js IH]; intros l; [done|]. cbn [foldl]. rewrite IH. unfold fold_limb. by rewrite !length_wr.
Qed.

Lemma freduce_degree_spec l :
  limb_list 19 (14 * 2 ^ 54) l ->
  let l' := freduce_degree l in
  length l' = 19%nat /\ within (280 * 2 ^ 54) l' /\ value l' =p eval 0 l.
Proof.
  intros [Hl Hb] l'. assert (length l' = 19%nat) as Hl'.
  { unfold l'. by rewrite length_freduce_degree. }
  split; [done|]. unfold value, within.
  destruct l as [|z0 [|z1 [|z2 [|z3 [|z4 [|z5 [|z6 [|z7 [|z8 [|z9 l]]]]]]]]]]; try discriminate Hl.
  destruct l as [|y0 [|y1 [|y2 [|y3 [|y4 [|y5 [|y6 [|y7 [|y8 [|? ?]]]]]]]]]]; try discriminate Hl.
  rewrite !List.Forall_cons_iff in Hb. destruct_and! Hb.
  match goal with |- _ /\ _ =p ?r =>
    assert (exists vs, evaluates (280 * 2 ^ 54) (take 10 l') vs /\ (eval 0 vs =p r)) as (vs & Hvs & He)
  end.
  { unfold l'. match goal with |- context [freduce_degree ?x] =>
      let r := eval cbv -[add64 shl64] in (freduce_degree x) in change (freduce_degree x) with r end.
    cbn [take firstn]. eexists. split; [evaluate_list|].
    apply (eqp_multiple _ _ (- (y0 * weight 0 + y1 * weight 1 + y2 * weight 2 + y3 * weight 3 + y4 * weight 4 +
      y5 * weight 5 + y6 * weight 6 + y7 * weight 7 + y8 * weight 8))).
    cbn [eval Z.add Pos.add Pos.succ]. weights. let p := eval vm_compute in p25519 in change p25519 with p. ring. }
  apply evaluates_eq in Hvs as [-> Hvs]. by split.
Qed.

(** ** Carrying *)

Lemma within_of_rd B l : (10 <= length l)%nat -> (forall j, 0 <= j < 10 -> Z.abs (rd l j) <= B) -> within B l.
Proof.
  intros Hl H. unfold within. apply Forall_lookup. intros j x Hx. apply lookup_take_Some in Hx as [Hx Hj].
  specialize (H (Z.of_nat j)). unfold rd in H. rewrite Nat2Z.id, Hx in H. cbn [default] in H. apply H. lia.
Qed.

Definition s64_range (v : Z) : Prop := - 2 ^ 63 <= v < 2 ^ 63.

(** The division without a division. *)
Lemma div_by_sign n v : s64_range v -> 0 <= n < 32 ->
  Z.shiftr (u32 (Z.shiftr (s32 (u32 (Z.shiftr (u64 v) 32))) 31)) n = if v <? 0 then 2 ^ (32 - n) - 1 else 0.
Proof.
  intros Hv Hn. unfold s64_range in Hv. rewrite !Z.shiftr_div_pow2 by lia. destruct (Z.ltb_spec v 0) as [H0|H0].
  - assert (u64 v = v + 2 ^ 64) as ->.
    { unfold wrap. symmetry. apply (Z.mod_unique_pos v (2 ^ 64) (-1)); lia. }
    assert (2 ^ 31 <= (v + 2 ^ 64) / 2 ^ 32 < 2 ^ 32) as Hd by (Z.div_mod_to_equations; lia).
    rewrite (wrap_id 32 ((v + 2 ^ 64) / 2 ^ 32)) by (unfold in_range; lia).
    assert (s32 ((v + 2 ^ 64) / 2 ^ 32) = (v + 2 ^ 64) / 2 ^ 32 - 2 ^ 32) as ->.
    { unfold swrap, wrap. rewrite <- (Z.mod_unique_pos _ (2 ^ 32) 1 ((v + 2 ^ 64) / 2 ^ 32 - 2 ^ 31)); lia. }
    assert (((v + 2 ^ 64) / 2 ^ 32 - 2 ^ 32) / 2 ^ 31 = -1) as -> by (Z.div_mod_to_equations; lia).
    assert (0 < 2 ^ n) by (apply Z.pow_pos_nonneg; lia).
    assert (2 ^ (32 - n) * 2 ^ n = 2 ^ 32) as Hp by (rewrite <- Z.pow_add_r by lia; f_equal; lia).
    change (u32 (-1)) with (2 ^ 32 - 1). symmetry.
    apply (Z.div_unique_pos _ _ _ (2 ^ n - 1)); lia.
  - rewrite (wrap_id 64 v) by (unfold in_range; lia).
    assert (0 <= v / 2 ^ 32 < 2 ^ 31) as Hd by (Z.div_mod_to_equations; lia).
    rewrite (wrap_id 32 (v / 2 ^ 32)) by (unfold in_range; lia). rewrite swrap_id by lia. rewrite (Z.div_small _ (2 ^ 31)) by lia.
    change (u32 0) with 0. apply Z.div_0_l. assert (0 < 2 ^ n) by (apply Z.pow_pos_nonneg; lia). lia.
Qed.

Lemma quot_floor v m : 0 < m -> Z.quot v m = if v <? 0 then (v + (m - 1)) / m else v / m.
Proof.
  intros Hm. destruct (Z.ltb_spec v 0).
  - rewrite <- (Z.opp_involutive v) at 1. rewrite Z.quot_opp_l, Z.quot_div_nonneg by lia.
    Z.div_mod_to_equations. nia.
  - by rewrite Z.quot_div_nonneg by lia.
Qed.

Lemma div_by_2_26_quot v : s64_range v -> div_by_2_26 v = Z.quot v (2 ^ 26).
Proof.
  intros Hv. unfold div_by_2_26. rewrite (div_by_sign 6 v Hv), quot_floor by lia. rewrite Z.shiftr_div_pow2 by lia.
  unfold add64, s64_range in *. destruct (Z.ltb_spec v 0); rewrite swrap_id by lia; f_equal; lia.
Qed.

Lemma div_by_2_25_quot v : s64_range v -> div_by_2_25 v = Z.quot v (2 ^ 25).
Proof.
  intros Hv. unfold div_by_2_25. rewrite (div_by_sign 7 v Hv), quot_floor by lia. rewrite Z.shiftr_div_pow2 by lia.
  unfold add64, s64_range in *. destruct (Z.ltb_spec v 0); rewrite swrap_id by lia; f_equal; lia.
Qed.

Lemma carry_exact div w l i :
  (forall v, s64_range v -> div v = Z.quot v (2 ^ w)) -> 0 < w < 63 -> 0 <= i ->
  s64_range (rd l i) -> s64_range (rd l (i + 1) + Z.quot (rd l i) (2 ^ w)) ->
  carry div w l i =
    wr (wr l i (Z.rem (rd l i) (2 ^ w))) (i + 1) (rd l (i + 1) + Z.quot (rd l i) (2 ^ w)).
Proof.
  intros Hdiv Hw Hi Hr Hr1. unfold carry. rewrite Hdiv by done.
  assert (0 < 2 ^ w) by (apply Z.pow_pos_nonneg; lia).
  assert (shl64 (Z.quot (rd l i) (2 ^ w)) w = Z.quot (rd l i) (2 ^ w) * 2 ^ w) as ->.
  { unfold shl64. rewrite Z.shiftl_mul_pow2 by lia. apply swrap_id; [lia|]. unfold s64_range in Hr.
    destruct (Z_le_gt_dec 0 (rd l i)) as [H0|H0].
    - pose proof (Z.mul_quot_le (rd l i) (2 ^ w) H0 ltac:(lia)). lia.
    - pose proof (Z.mul_quot_ge (rd l i) (2 ^ w) ltac:(lia) ltac:(lia)). lia. }
  assert (sub64 (rd l i) (Z.quot (rd l i) (2 ^ w) * 2 ^ w)%Z = Z.rem (rd l i) (2 ^ w)) as ->.
  { unfold sub64. rewrite (Z.quot_rem' (rd l i) (2 ^ w)) at 1.
    replace (2 ^ w * Z.quot (rd l i) (2 ^ w) + Z.rem (rd l i) (2 ^ w) - Z.quot (rd l i) (2 ^ w) * 2 ^ w)
      with (Z.rem (rd l i) (2 ^ w)) by ring.
    pose proof (Z.rem_bound_abs (rd l i) (2 ^ w) ltac:(lia)).
    assert (2 ^ w <= 2 ^ 62) by (apply Z.pow_le_mono_r; lia). apply swrap_id; lia. }
  rewrite rd_wr_ne by lia. unfold add64. by rewrite swrap_id.
Qed.

Definition width (i : Z) : Z := if Z.even i then 26 else 25.

Lemma width_range i : 25 <= width i <= 26.
Proof. unfold width. destruct (Z.even i); lia. Qed.

Lemma weight_succ i : 0 <= i < 10 -> weight (i + 1) = weight i * 2 ^ width i.
Proof. intros Hi. assert (i ∈ seqZ 0 10) as H by (apply elem_of_seqZ; lia). cbv in H.
  repeat (apply elem_of_cons in H as [->|H]; [reflexivity|]). by apply elem_of_nil in H. Qed.

(** The first eleven limbs, among which the carries go. *)
Definition value11 (l : list Z) : Z := eval 0 (take 11 l).

Lemma value11_wr l i v : (11 <= length l)%nat -> 0 <= i < 11 ->
  value11 (wr l i v) = value11 l + (v - rd l i) * weight i.
Proof.
  intros Hl Hi. unfold value11. replace (take 11 (wr l i v)) with (wr (take 11 l) i v).
  - rewrite eval_wr by (rewrite length_take; lia). f_equal. f_equal. f_equal.
    unfold rd. by rewrite lookup_take_lt by lia.
  - unfold wr. symmetry. apply take_insert_lt. lia.
Qed.

Lemma value11_value l : (11 <= length l)%nat -> value11 l = value l + rd l 10 * weight 10.
Proof.
  intros Hl. rewrite value_rd by lia.
  transitivity (rd l 0 * weight 0 + (rd l 1 * weight 1 + (rd l 2 * weight 2 + (rd l 3 * weight 3 + (rd l 4 * weight 4 +
    (rd l 5 * weight 5 + (rd l 6 * weight 6 + (rd l 7 * weight 7 + (rd l 8 * weight 8 + (rd l 9 * weight 9 +
    (rd l 10 * weight 10 + 0))))))))))); [|ring].
  do 11 (destruct l as [|? l]; [cbn in Hl; lia|]). reflexivity.
Qed.

Definition div_by (w : Z) : Z -> Z := if w =? 26 then div_by_2_26 else div_by_2_25.

Lemma div_by_quot i v : s64_range v -> div_by (width i) v = Z.quot v (2 ^ width i).
Proof. unfold div_by, width. destruct (Z.even i); [apply div_by_2_26_quot|apply div_by_2_25_quot]. Qed.

Lemma quot_small v B w C : Z.abs v <= B -> 0 <= w -> B <= C * 2 ^ w -> Z.abs (Z.quot v (2 ^ w)) <= C.
Proof.
  intros Hv Hw HB. assert (0 < 2 ^ w) by (apply Z.pow_pos_nonneg; lia).
  rewrite <- Z.quot_abs, (Z.abs_eq (2 ^ _)) by lia. rewrite Z.quot_div_nonneg by lia.
  apply Z.div_le_upper_bound; lia.
Qed.

(** One carry out of limb [i]. *)
Definition carry_at (l : list Z) (i : Z) : list Z := carry (div_by (width i)) (width i) l i.

Lemma carry_spec i l :
  (11 <= length l)%nat -> 0 <= i < 10 -> Z.abs (rd l i) <= 281 * 2 ^ 54 -> Z.abs (rd l (i + 1)) <= 280 * 2 ^ 54 ->
  let l' := carry_at l i in
  length l' = length l /\ value11 l' = value11 l /\
  Z.abs (rd l' i) < 2 ^ width i /\ rd l' (i + 1) = rd l (i + 1) + Z.quot (rd l i) (2 ^ width i) /\
  (forall j, 0 <= j -> j <> i -> j <> i + 1 -> rd l' j = rd l j).
Proof.
  intros Hl Hi H0 H1 l'. pose proof (width_range i) as Hw.
  assert (2 ^ 25 <= 2 ^ width i) as Hp by (apply Z.pow_le_mono_r; lia).
  pose proof (quot_small (rd l i) _ (width i) (281 * 2 ^ 29) H0 ltac:(lia) ltac:(lia)) as Hq.
  assert (l' = wr (wr l i (Z.rem (rd l i) (2 ^ width i))) (i + 1) (rd l (i + 1) + Z.quot (rd l i) (2 ^ width i))) as ->.
  { apply carry_exact; [intros v; apply div_by_quot|lia|lia| |]; unfold s64_range; lia. }
  rewrite !length_wr. split; [done|]. split.
  { rewrite value11_wr by (rewrite ?length_wr; lia). rewrite value11_wr by lia. rewrite rd_wr_ne, weight_succ by lia.
    pose proof (Z.quot_rem' (rd l i) (2 ^ width i)). nia. }
  rewrite rd_wr_ne by lia. rewrite !rd_wr_eq by (rewrite ?length_wr; lia). split; [|split; [done|]].
  - pose proof (Z.rem_bound_abs (rd l i) (2 ^ width i) ltac:(lia)). lia.
  - intros j Hj Hne Hne'. by rewrite !rd_wr_ne by lia.
Qed.

(** Limbs [0 .. k - 1] are reduced, limb [k] has taken a carry. *)
Record carried (l0 : list Z) (k : Z) (l : list Z) : Prop := {
  carried_length : length l = length l0;
  carried_value : value11 l = value11 l0;
  carried_below : forall j, 0 <= j < k -> Z.abs (rd l j) < 2 ^ width j;
  carried_limb : Z.abs (rd l k) <= if k =? 10 then 281 * 2 ^ 29 else 281 * 2 ^ 54;
  carried_above : forall j, k < j <= 10 -> Z.abs (rd l j) <= if j =? 10 then 0 else 280 * 2 ^ 54 }.

Lemma carried_step l0 k l :
  (11 <= length l0)%nat -> 0 <= k < 10 -> carried l0 k l -> carried l0 (k + 1) (carry_at l k).
Proof.
  intros Hl Hk [L V B C A]. rewrite (proj2 (Z.eqb_neq k 10)) in C by lia.
  pose proof (A (k + 1) ltac:(lia)) as Ck1. pose proof (width_range k) as Hw.
  pose proof (quot_small (rd l k) _ (width k) (281 * 2 ^ 29) C ltac:(lia)
    ltac:(assert (2 ^ 25 <= 2 ^ width k) by (apply Z.pow_le_mono_r; lia); lia)) as Hq.
  destruct (carry_spec k l) as (L' & V' & B' & C' & F'); [lia|lia|lia|destruct (k + 1 =? 10); lia|].
  split; [congruence|congruence| | |].
  - intros j Hj. destruct (decide (j = k)) as [->|]; [done|]. rewrite F' by lia. apply B. lia.
  - rewrite C'. destruct (k + 1 =? 10); lia.
  - intros j Hj. rewrite F' by lia. apply A. lia.
Qed.

Lemma carries_at l i : Z.even i = true -> carries l i = carry_at (carry_at l i) (i + 1).
Proof. intros H. unfold carries, carry_at, width. by rewrite Z.even_add, H. Qed.

Lemma carried_chain l0 : (11 <= length l0)%nat -> carried l0 0 l0 ->
  carried l0 10 (foldl carries l0 [0; 2; 4; 6; 8]).
Proof.
  intros Hl H. assert (foldl carries l0 [0; 2; 4; 6; 8] = foldl carry_at l0 (seqZ 0 (Z.of_nat 10))) as ->.
  { change (seqZ 0 (Z.of_nat 10)) with [0; 1; 2; 3; 4; 5; 6; 7; 8; 9]. cbn [foldl].
    rewrite !carries_at by reflexivity. reflexivity. }
  assert (forall n, (n <= 10)%nat -> carried l0 (Z.of_nat n) (foldl carry_at l0 (seqZ 0 (Z.of_nat n)))) as Hn.
  { induction n as [|n IH]; intros Hn; [done|].
    replace (Z.of_nat (S n)) with (Z.of_nat n + 1) by lia. rewrite seqZ_app, foldl_app by lia.
    apply carried_step; [done|lia|]. apply IH. lia. }
  exact (Hn 10%nat (Nat.le_refl _)).
Qed.

(** Limb 10 goes back to limb 0, times 19. *)
Lemma fold_top l :
  (11 <= length l)%nat -> Z.abs (rd l 0) < 2 ^ 26 -> Z.abs (rd l 10) <= 281 * 2 ^ 29 ->
  let l' := wr l 0 (add64 (rd l 0) (shl64 (rd l 10) 4)) in
  let l' := wr l' 0 (add64 (rd l' 0) (shl64 (rd l' 10) 1)) in
  wr l' 0 (add64 (rd l' 0) (rd l' 10)) = wr l 0 (rd l 0 + 19 * rd l 10).
Proof.
  intros Hl B0 B10 l1 l2. unfold l2, l1. rewrite !rd_wr_eq, !(rd_wr_ne _ 0 10) by (rewrite ?length_wr; lia).
  unfold wr at 1 2 3. rewrite !list_insert_insert_eq. unfold wr. f_equal.
  assert (ev (rd l 0) (rd l 0) (2 ^ 26)) as E0 by (apply ev_atom; lia). pose proof (ev_atom (rd l 10) _ B10) as E10.
  replace (rd l 0 + 19 * rd l 10) with (rd l 0 + rd l 10 * 2 ^ 4 + rd l 10 * 2 ^ 1 + rd l 10) by ring.
  match goal with |- ?e = ?v => assert (exists B, ev e v B) as (B & HE & _); [|exact HE] end.
  pose proof (ev_shl _ _ _ 4 E10 eq_refl) as E4. pose proof (ev_shl _ _ _ 1 E10 eq_refl) as E1.
  eexists. exact (ev_add _ _ _ _ _ _ (ev_add _ _ _ _ _ _ (ev_add _ _ _ _ _ _ E0 E4 eq_refl) E1 eq_refl) E10 eq_refl).
Qed.

Lemma freduce_coefficients_spec l :
  (11 <= length l)%nat -> within (280 * 2 ^ 54) l ->
  let l' := freduce_coefficients l in
  length l' = length l /\ within (2 ^ 26 - 1) l' /\ value l' =p value l.
Proof.
  intros Hl Hb l'. pose proof (fun i => within_rd (280 * 2 ^ 54) l i ltac:(done) Hb) as HB.
  set (l0 := wr l 10 0). assert (length l0 = length l) as L0 by apply length_wr.
  assert (carried l0 0 l0) as C0.
  { split; [done|done|intros; lia| |]; unfold l0.
    - rewrite rd_wr_ne by lia. pose proof (HB 0 ltac:(lia)). cbn [Z.eqb]. lia.
    - intros j Hj. destruct (Z.eqb_spec j 10) as [->|]; [by rewrite rd_wr_eq by lia|].
      rewrite rd_wr_ne by lia. apply HB. lia. }
  apply carried_chain in C0; [|lia]. set (l1 := foldl carries l0 _) in C0. destruct C0 as [L1 V1 B1 C1 _].
  cbn [Z.eqb Pos.eqb] in C1. pose proof (B1 0 ltac:(lia)) as B10. change (width 0) with 26 in B10.
  assert (l' = carry_at (wr (wr l1 0 (rd l1 0 + 19 * rd l1 10)) 10 0) 0) as ->.
  { unfold l', freduce_coefficients. fold l0. cbv zeta. fold l1. unfold carry_at. change (div_by (width 0)) with div_by_2_26.
    change (width 0) with 26. f_equal. f_equal.
    apply (fold_top l1); lia. }
  set (l2 := wr (wr l1 0 _) 10 0).
  assert (length l2 = length l) as L2 by (unfold l2; rewrite !length_wr; lia).
  assert (rd l2 0 = rd l1 0 + 19 * rd l1 10) as R0.
  { unfold l2. rewrite rd_wr_ne, rd_wr_eq by (rewrite ?length_wr; lia). done. }
  assert (forall j, 1 <= j < 10 -> rd l2 j = rd l1 j) as R.
  { intros j Hj. unfold l2. by rewrite !rd_wr_ne by lia. }
  pose proof (B1 1 ltac:(lia)) as B11. change (width 1) with 25 in B11.
  destruct (carry_spec 0 l2) as (L3 & V3 & B3 & C3 & F3); [lia|lia|lia|change (0 + 1) with 1; rewrite R by lia; lia|].
  change (width 0) with 26 in *. change (0 + 1) with 1 in *.
  split; [congruence|]. split.
  - apply within_of_rd; [lia|]. intros j Hj. destruct (decide (j = 0)) as [->|]; [lia|]. destruct (decide (j = 1)) as [->|].
    + rewrite C3, R by lia. assert (Z.abs (rd l2 0) <= 2 ^ 44) by (rewrite R0; lia). pose proof (quot_small (rd l2 0) (2 ^ 44) 26 (2 ^ 18) ltac:(lia) ltac:(lia) ltac:(lia)). lia.
    + rewrite F3, R by lia. pose proof (B1 j ltac:(lia)) as Bj. pose proof (width_range j).
      assert (2 ^ width j <= 2 ^ 26) by (apply Z.pow_le_mono_r; lia). lia.
  - apply (eqp_multiple _ _ (- rd l1 10)).
    assert (rd l2 10 = 0) as R10 by (unfold l2; rewrite rd_wr_eq by (rewrite ?length_wr; lia); done).
    pose proof (value11_value (carry_at l2 0) ltac:(lia)) as E3. rewrite F3, R10 in E3 by lia.
    pose proof (value11_value l ltac:(lia)) as E. unfold l0 in V1. rewrite value11_wr in V1 by lia.
    unfold l2 in V3 at 2. rewrite !value11_wr in V3 by (rewrite ?length_wr; lia). rewrite rd_wr_ne in V3 by lia.
    change (weight 0) with 1 in V3. change p25519 with (weight 10 - 19). lia.
Qed.

(** ** The field operations *)

(** The first ten limbs of [l] are within [B] and stand for [v]. *)
Definition rep (B : Z) (l : list Z) (v : Z) : Prop := (10 <= length l)%nat /\ within B l /\ value l =p v.

#[export] Instance rep_proper B l : Proper (eqp ==> iff) (rep B l).
Proof. intros v w H. unfold rep. by rewrite H. Qed.

Lemma rep_weaken B C l v : B <= C -> rep B l v -> rep C l v.
Proof. intros HB (Hl & Hb & Hv). split; [done|]. split; [|done]. eapply List.Forall_impl; [|exact Hb]. cbn. lia. Qed.

(** Only the first ten limbs matter. *)
Lemma rep_take B l l' v : take 10 l = take 10 l' -> (10 <= length l')%nat -> rep B l v -> rep B l' v.
Proof. intros E Hl' (Hl & Hb & Hv). split; [done|]. unfold within, value in *. by rewrite <- E. Qed.

Lemma length_copy_limbs output t : length (copy_limbs output t) = length output.
Proof. apply length_memcpy_at. Qed.

Lemma take_copy_limbs output t :
  (10 <= length output)%nat -> (10 <= length t)%nat -> take 10 (copy_limbs output t) = take 10 t.
Proof.
  intros Ho Ht. unfold copy_limbs. rewrite memcpy_at_spec by (rewrite length_take; lia).
  rewrite take_0, app_nil_l. apply take_app_length'. rewrite length_take. lia.
Qed.

Lemma copy_limbs_rep B output t v : (10 <= length output)%nat -> rep B t v -> rep B (copy_limbs output t) v.
Proof.
  intros Ho Ht. apply (rep_take B t); [|by rewrite length_copy_limbs|done].
  symmetry. apply take_copy_limbs; [done|apply Ht].
Qed.

Lemma length_on_limbs f output input : (10 <= length output)%nat -> (10 <= length input)%nat ->
  length (on_limbs f output input) = length output.
Proof. intros Ho Hi. unfold on_limbs. rewrite length_app, length_zip_with, length_drop, !length_take. lia. Qed.

Lemma take_on_limbs f output input : (10 <= length output)%nat -> (10 <= length input)%nat ->
  take 10 (on_limbs f output input) = zip_with f (take 10 output) (take 10 input).
Proof. intros Ho Hi. unfold on_limbs. apply take_app_length'. rewrite length_zip_with, !length_take. lia. Qed.

(** A linear operation on the limbs is one on the values. *)
Lemma on_limbs_spec f o i A B C a b : forall k,
  length o = length i -> (forall x y, Z.abs x <= A -> Z.abs y <= B -> f x y = a * x + b * y /\ Z.abs (f x y) <= C) ->
  Forall (fun x => Z.abs x <= A) o -> Forall (fun x => Z.abs x <= B) i ->
  Forall (fun x => Z.abs x <= C) (zip_with f o i) /\ eval k (zip_with f o i) = a * eval k o + b * eval k i.
Proof.
  revert i. induction o as [|x o IH]; intros [|y i] k Hl Hf Ho Hi; try discriminate Hl; cbn [zip_with eval].
  - split; [constructor|lia].
  - apply List.Forall_cons_iff in Ho as [Hx Ho]. apply List.Forall_cons_iff in Hi as [Hy Hi].
    destruct (IH i (k + 1) ltac:(cbn in Hl; lia) Hf Ho Hi) as [IHb IHe]. destruct (Hf x y Hx Hy) as [Ef Hc].
    split; [by apply Forall_cons_2|]. rewrite IHe, Ef. ring.
Qed.

Lemma on_limbs_rep f o i A B C a b x y :
  (forall x y, Z.abs x <= A -> Z.abs y <= B -> f x y = a * x + b * y /\ Z.abs (f x y) <= C) ->
  rep A o x -> rep B i y -> rep C (on_limbs f o i) (a * x + b * y).
Proof.
  intros Hf (Lo & Bo & Vo) (Li & Bi & Vi).
  destruct (on_limbs_spec f (take 10 o) (take 10 i) A B C a b 0) as [Hb He]; [rewrite !length_take; lia|done..|].
  split; [by rewrite length_on_limbs|]. unfold within, value. rewrite take_on_limbs by done. split; [done|].
  rewrite He. fold (value o) (value i). by rewrite Vo, Vi.
Qed.

Lemma fsum_rep A B a b x y : rep A a x -> rep B b y -> A + B < 2 ^ 63 -> rep (A + B) (fsum a b) (x + y).
Proof.
  intros Ha Hb HAB. replace (x + y) with (1 * x + 1 * y) by ring. apply (on_limbs_rep _ _ _ A B); [|done..].
  intros u v Hu Hv. unfold add64. rewrite (s64_id _ (A + B)) by (try apply Z.ltb_lt; lia). lia.
Qed.

Lemma fdifference_rep A B a b x y : rep A a x -> rep B b y -> A + B < 2 ^ 63 -> rep (A + B) (fdifference a b) (y - x).
Proof.
  intros Ha Hb HAB. replace (y - x) with (-1 * x + 1 * y) by ring. apply (on_limbs_rep _ _ _ A B); [|done..].
  intros u v Hu Hv. unfold sub64. rewrite (s64_id _ (A + B)) by (try apply Z.ltb_lt; lia). lia.
Qed.

Lemma fscalar_product_rep A B a b x y s : rep A a x -> rep B b y -> 0 <= s -> B * s < 2 ^ 63 ->
  rep (B * s) (fscalar_product a b s) (y * s).
Proof.
  intros Ha Hb Hs HB. replace (y * s) with (0 * x + s * y) by ring. apply (on_limbs_rep _ _ _ A B); [|done..].
  intros u v Hu Hv. assert (Z.abs (v * s) <= B * s) as H by (rewrite Z.abs_mul, (Z.abs_eq s) by lia; nia).
  unfold mul64. rewrite (s64_id _ (B * s)) by (try apply Z.ltb_lt; lia). lia.
Qed.

Lemma freduce_rep t v : limb_list 19 (14 * 2 ^ 54) t -> eval 0 t =p v ->
  rep (2 ^ 26 - 1) (freduce_coefficients (freduce_degree t)) v.
Proof.
  intros Ht Hv. destruct (freduce_degree_spec t Ht) as (L1 & B1 & V1).
  destruct (freduce_coefficients_spec (freduce_degree t)) as (L2 & B2 & V2); [lia|done|].
  split; [lia|]. split; [done|]. by rewrite V2, V1.
Qed.

Lemma fproduct_reduced A B a b x y : rep A a x -> rep B b y -> A <= 2 ^ 27 -> B <= 2 ^ 27 ->
  rep (2 ^ 26 - 1) (freduce_coefficients (freduce_degree (fproduct a b))) (x * y).
Proof.
  intros Ha Hb HA HB. apply (rep_weaken A _ _ _ HA) in Ha as (La & Ba & Va). apply (rep_weaken B _ _ _ HB) in Hb as (Lb & Bb & Vb).
  destruct (fproduct_spec a b La Lb Ba Bb) as [Ht He]. apply freduce_rep; [done|]. by rewrite He, Va, Vb.
Qed.

Lemma fmul_rep A B out a b x y : (10 <= length out)%nat -> rep A a x -> rep B b y ->
  A <= 2 ^ 27 -> B <= 2 ^ 27 -> rep (2 ^ 26 - 1) (fmul out a b) (x * y).
Proof. intros Ho Ha Hb HA HB. apply copy_limbs_rep; [done|]. by apply (fproduct_reduced A B). Qed.

Lemma fsquare_rep A out a x : (10 <= length out)%nat -> rep A a x -> A <= 2 ^ 27 -> rep (2 ^ 26 - 1) (fsquare out a) (x * x).
Proof.
  intros Ho Ha HA. apply copy_limbs_rep; [done|]. apply (rep_weaken A _ _ _ HA) in Ha as (La & Ba & Va).
  destruct (fsquare_inner_spec a La Ba) as [Ht He]. apply freduce_rep; [done|]. by rewrite He, Va.
Qed.

Lemma length_fmul out a b : length (fmul out a b) = length out.
Proof. apply length_copy_limbs. Qed.

Lemma length_fsquare out a : length (fsquare out a) = length out.
Proof. apply length_copy_limbs. Qed.

(** C37. Multiplication and squaring never overflow: for ten limbs of at most
    2^27 in absolute value, all wrapping additions, multiplications and shifts
    on 64 bits are exact, the result is within 2^26, ready to be an operand
    again, and it is the product modulo the prime. *)
Theorem fmul_fsquare_exact output a b :
  (10 <= length output)%nat -> (10 <= length a)%nat -> (10 <= length b)%nat -> within (2 ^ 27) a -> within (2 ^ 27) b ->
  (within (2 ^ 26 - 1) (fmul output a b) /\ value (fmul output a b) mod p25519 = (value a * value b) mod p25519) /\
  (within (2 ^ 26 - 1) (fsquare output a) /\ value (fsquare output a) mod p25519 = (value a * value a) mod p25519).
Proof.
  intros Ho La Lb Ha Hb. assert (rep (2 ^ 27) a (value a)) as Ra by done. assert (rep (2 ^ 27) b (value b)) as Rb by done.
  destruct (fmul_rep _ _ output _ _ _ _ Ho Ra Rb) as (_ & Hm & Vm); [done..|].
  destruct (fsquare_rep _ output _ _ Ho Ra) as (_ & Hs & Vs); [done..|]. by repeat split.
Qed.

Lemma fmul_fsquare_exact_witness :
  value (fmul (replicate 10 7) (replicate 10 (2 ^ 27)) (replicate 10 (- 2 ^ 27))) mod p25519 =
  (value (replicate 10 (2 ^ 27)) * value (replicate 10 (- 2 ^ 27))) mod p25519.
Proof.
  assert (forall v : Z, (10 <= length (replicate 10 v))%nat) as Hl by (cbn; lia).
  assert (within (2 ^ 27) (replicate 10 (2 ^ 27)) /\ within (2 ^ 27) (replicate 10 (- 2 ^ 27))) as [Ha Hb].
  { split; repeat constructor; cbn; lia. }
  exact (proj2 (proj1 (fmul_fsquare_exact (replicate 10 7) _ _ (Hl 7) (Hl _) (Hl _) Ha Hb))).
Defined.
