(* ===== verification/LimbBytes.v ===== *)
(** * Field elements as bytes

    GEC-block/src/curve25519-donna.c, [fexpand] to [fcontract]: the 32 bytes of
    a number as limbs, and the limbs of any representative as the bytes of the
    least one, without a branch on the limbs. *)

From S2P Require Import Prelude Limbs.

Local Open Scope Z_scope.

(** ** From bytes *)

(** [F(n, start, shift, mask)] of fexpand *)
Definition expand_limb (input : list Z) (start shift mask : Z) : Z :=
  Z.land (Z.shiftr (Z.lor (Z.lor (Z.lor (rd input start) (shl64 (rd input (start + 1)) 8))
    (shl64 (rd input (start + 2)) 16)) (shl64 (rd input (start + 3)) 24)) shift) mask.

Definition fexpand (output input : list Z) : list Z :=
  let output := wr output 0 (expand_limb input 0 0 0x3ffffff) in
  let output := wr output 1 (expand_limb input 3 2 0x1ffffff) in
  let output := wr output 2 (expand_limb input 6 3 0x3ffffff) in
  let output := wr output 3 (expand_limb input 9 5 0x1ffffff) in
  let output := wr output 4 (expand_limb input 12 6 0x3ffffff) in
  let output := wr output 5 (expand_limb input 16 0 0x1ffffff) in
  let output := wr output 6 (expand_limb input 19 1 0x3ffffff) in
  let output := wr output 7 (expand_limb input 22 3 0x1ffffff) in
  let output := wr output 8 (expand_limb input 25 4 0x3ffffff) in
  wr output 9 (expand_limb input 28 6 0x1ffffff).

(** ** To bytes *)

Definition add32 (x y : Z) : Z := s32 (x + y).
Definition sub32 (x y : Z) : Z := s32 (x - y).
Definition mul32 (x y : Z) : Z := s32 (x * y).
Definition shl32 (x n : Z) : Z := s32 (Z.shiftl x n).

Definition s32_eq (a b : Z) : Z :=
  let a := Z.lnot (Z.lxor a b) in
  let a := Z.land a (shl32 a 16) in
  let a := Z.land a (shl32 a 8) in
  let a := Z.land a (shl32 a 4) in
  let a := Z.land a (shl32 a 2) in
  let a := Z.land a (shl32 a 1) in
  Z.shiftr a 31.

Definition s32_gte (a b : Z) : Z :=
  let a := sub32 a b in
  Z.lnot (Z.shiftr a 31).

(** [mask = input[i] >> 31; carry = -((input[i] & mask) >> w)] *)
Definition borrow_carry (w : Z) (input : list Z) (i : Z) : Z :=
  let mask := Z.shiftr (rd input i) 31 in
  s32 (- Z.shiftr (Z.land (rd input i) mask) w).

(** The body of the loops on [i]: 26 bits where [i] is even, 25 where it is
    odd. *)
Definition borrow (input : list Z) (i : Z) : list Z :=
  let w := if Z.land i 1 =? 1 then 25 else 26 in
  let carry := borrow_carry w input i in
  let input := wr input i (add32 (rd input i) (shl32 carry w)) in
  wr input (i + 1) (sub32 (rd input (i + 1)) carry).

(** One iteration of the loop on [j] *)
Definition borrow_pass (input : list Z) : list Z :=
  let input := foldl borrow input (seqZ 0 9) in
  let carry := borrow_carry 25 input 9 in
  let input := wr input 9 (add32 (rd input 9) (shl32 carry 25)) in
  wr input 0 (sub32 (rd input 0) (mul32 carry 19)).

Definition carry32 (input : list Z) (i : Z) : list Z :=
  let w := if Z.land i 1 =? 1 then 25 else 26 in
  let mask := if Z.land i 1 =? 1 then 0x1ffffff else 0x3ffffff in
  let carry := Z.shiftr (rd input i) w in
  let input := wr input i (Z.land (rd input i) mask) in
  wr input (i + 1) (add32 (rd input (i + 1)) carry).

Definition carry_pass (input : list Z) : list Z :=
  let input := foldl carry32 input (seqZ 0 9) in
  let carry := Z.shiftr (rd input 9) 25 in
  let input := wr input 9 (Z.land (rd input 9) 0x1ffffff) in
  wr input 0 (add32 (rd input 0) (mul32 19 carry)).

(** All ones when the limbs are those of the prime or more. *)
Definition prime_mask (input : list Z) : Z :=
  foldl (fun mask i => Z.land mask (s32_eq (rd input i) (if Z.land i 1 =? 1 then 0x1ffffff else 0x3ffffff)))
    (s32_gte (rd input 0) 0x3ffffed) (seqZ 1 9).

Definition subtract_prime (input : list Z) (mask : Z) : list Z :=
  let input := wr input 0 (sub32 (rd input 0) (Z.land mask 0x3ffffed)) in
  foldl (fun input i =>
    wr input i (sub32 (rd input i) (Z.land mask (if Z.land i 1 =? 1 then 0x1ffffff else 0x3ffffff))))
    input (seqZ 1 9).

(** [F(i, s)] of fcontract *)
Definition contract_limb (input : list Z) (output : list Z) (i s : Z) : list Z :=
  let output := wr output (s + 0) (u8 (Z.lor (rd output (s + 0)) (Z.land (rd input i) 0xff))) in
  let output := wr output (s + 1) (Z.land (Z.shiftr (rd input i) 8) 0xff) in
  let output := wr output (s + 2) (Z.land (Z.shiftr (rd input i) 16) 0xff) in
  wr output (s + 3) (Z.land (Z.shiftr (rd input i) 24) 0xff).

Definition shift_limb (input : list Z) (i n : Z) : list Z := wr input i (shl32 (rd input i) n).

Definition pack (output input : list Z) : list Z :=
  let input := shift_limb input 1 2 in
  let input := shift_limb input 2 3 in
  let input := shift_limb input 3 5 in
  let input := shift_limb input 4 6 in
  let input := shift_limb input 6 1 in
  let input := shift_limb input 7 3 in
  let input := shift_limb input 8 4 in
  let input := shift_limb input 9 6 in
  let output := wr output 0 0 in
  let output := wr output 16 0 in
  foldl (fun output f => contract_limb input output f.1 f.2) output
    [(0, 0); (1, 3); (2, 6); (3, 9); (4, 12); (5, 16); (6, 19); (7, 22); (8, 25); (9, 28)].

Definition fcontract (output input_limbs : list Z) : list Z :=
  let input := map s32 (take 10 input_limbs) in
  let input := borrow_pass (borrow_pass input) in
  let carry := borrow_carry 26 input 0 in
  let input := wr input 0 (add32 (rd input 0) (shl32 carry 26)) in
  let input := wr input 1 (sub32 (rd input 1) carry) in
  let input := carry_pass (carry_pass input) in
  let mask := prime_mask input in
  let input := subtract_prime input mask in
  pack output input.

(** ** The limbs of a number *)

Lemma lor_add a b n : 0 <= n -> in_range n a -> Z.lor a (b * 2 ^ n) = a + b * 2 ^ n.
Proof.
  intros Hn Ha. assert (Z.land a (b * 2 ^ n) = 0) as H0.
  { rewrite <- Z.shiftl_mul_pow2 by done. bit_ext i. rewrite Z.land_spec, Z.bits_0. destruct (decide (i < n)).
    - by rewrite Z.shiftl_spec_low, andb_false_r by lia.
    - by rewrite (in_range_testbit_high n a) by (done || lia). }
  by rewrite Z.add_nocarry_lxor, Z.lxor_lor by done.
Qed.

Lemma rd_le_bytes n N k : 0 <= k < Z.of_nat n -> rd (le_bytes n N) k = (N / 2 ^ (8 * k)) mod 2 ^ 8.
Proof.
  revert N k. induction n as [|n IH]; intros N k Hk; [lia|]. cbn [le_bytes]. destruct (decide (k = 0)) as [->|Hne].
  - unfold rd. cbn. change 255 with (Z.ones 8). rewrite Z.land_ones by lia. change (2 ^ (8 * 0)) with 1. by rewrite Z.div_1_r.
  - transitivity (rd (le_bytes n (Z.shiftr N 8)) (k - 1)).
    + unfold rd. replace (Z.to_nat k) with (S (Z.to_nat (k - 1))) by lia. done.
    + rewrite IH by lia. rewrite Z.shiftr_div_pow2, Z.div_div by (try apply pow2_pos; lia).
      rewrite <- Z.pow_add_r by lia. do 3 f_equal. lia.
Qed.

Lemma expand_limb_spec N start shift w :
  0 <= start < 29 -> 0 <= shift -> 0 <= w -> shift + w <= 32 ->
  expand_limb (le_bytes 32 N) start shift (2 ^ w - 1) = (N / 2 ^ (8 * start + shift)) mod 2 ^ w.
Proof.
  intros Hs Hsh Hw Hsw. unfold expand_limb. rewrite !rd_le_bytes by lia.
  set (M := N / 2 ^ (8 * start)). assert (forall j, 0 <= j -> N / 2 ^ (8 * (start + j)) = M / 2 ^ (8 * j)) as HM.
  { intros j Hj. unfold M. rewrite Z.div_div by (try apply pow2_pos; lia). rewrite <- Z.pow_add_r by lia. do 2 f_equal. lia. }
  rewrite !HM by lia. fold M. unfold shl64. rewrite !Z.shiftl_mul_pow2 by lia.
  rewrite !swrap_id by (try lia; mod_lia).
  rewrite (lor_add (M mod 2 ^ 8) _ 8), (lor_add _ _ 16), (lor_add _ _ 24) by (unfold in_range; mod_lia).
  replace (M mod 2 ^ 8 + _ + _ + _) with (M mod 2 ^ 32) by mod_lia.
  replace (2 ^ w - 1) with (Z.ones w) by (rewrite Z.ones_equiv; lia).
  rewrite <- !Z.land_ones by lia. transitivity (Z.land (Z.shiftr N (8 * start + shift)) (Z.ones w)).
  - unfold M. rewrite <- Z.shiftr_div_pow2 by lia. bit_ext i. rewrite !Z.land_spec, !Z.shiftr_spec, Z.land_spec, Z.shiftr_spec by lia.
    destruct (decide (i < w)).
    + rewrite (Z.ones_spec_low 32) by lia. rewrite andb_true_r. f_equal. f_equal. lia.
    + by rewrite (Z.ones_spec_high w), !andb_false_r by lia.
  - by rewrite Z.shiftr_div_pow2 by lia.
Qed.

Lemma length_fexpand output input : length (fexpand output input) = length output.
Proof. unfold fexpand. by rewrite !length_wr. Qed.

Lemma mod_split N e w : 0 <= e -> 0 <= w -> N mod 2 ^ (e + w) = N mod 2 ^ e + (N / 2 ^ e) mod 2 ^ w * 2 ^ e.
Proof.
  intros He Hw. rewrite Z.pow_add_r by lia. pose proof (pow2_pos e He). pose proof (pow2_pos w Hw).
  rewrite Z.rem_mul_r by lia. ring.
Qed.

Lemma take_fexpand output input : (10 <= length output)%nat ->
  take 10 (fexpand output input) =
    [expand_limb input 0 0 0x3ffffff; expand_limb input 3 2 0x1ffffff; expand_limb input 6 3 0x3ffffff;
     expand_limb input 9 5 0x1ffffff; expand_limb input 12 6 0x3ffffff; expand_limb input 16 0 0x1ffffff;
     expand_limb input 19 1 0x3ffffff; expand_limb input 22 3 0x1ffffff; expand_limb input 25 4 0x3ffffff;
     expand_limb input 28 6 0x1ffffff].
Proof. intros Ho. do 10 (destruct output as [|? output]; [cbn in Ho; lia|]). reflexivity. Qed.

Lemma fexpand_spec output input :
  (10 <= length output)%nat -> bytes input -> length input = 32%nat ->
  within (2 ^ 26 - 1) (fexpand output input) /\ value (fexpand output input) = le_word input mod 2 ^ 255.
Proof.
  intros Ho Hb Hl. set (N := le_word input). rewrite <- (le_bytes_le_word input Hb), Hl. fold N.
  unfold within, value. rewrite take_fexpand by done.
  pose proof (fun start shift => expand_limb_spec N start shift 26) as E26.
  pose proof (fun start shift => expand_limb_spec N start shift 25) as E25.
  change (2 ^ 26 - 1) with 0x3ffffff in *. change (2 ^ 25 - 1) with 0x1ffffff in *.
  rewrite !E26, !E25 by lia. split.
  - repeat constructor; match goal with |- Z.abs (?x mod ?m) <= _ => pose proof (Z.mod_pos_bound x m ltac:(done)) end; lia.
  - assert (forall e w, 0 <= e -> 0 <= w -> N mod 2 ^ (e + w) = N mod 2 ^ e + (N / 2 ^ e) mod 2 ^ w * 2 ^ e) as S by (intros; by apply mod_split).
    rewrite (S 230 25 ltac:(done) ltac:(done) : N mod 2 ^ 255 = _).
    rewrite (S 204 26 ltac:(done) ltac:(done) : N mod 2 ^ 230 = _).
    rewrite (S 179 25 ltac:(done) ltac:(done) : N mod 2 ^ 204 = _).
    rewrite (S 153 26 ltac:(done) ltac:(done) : N mod 2 ^ 179 = _).
    rewrite (S 128 25 ltac:(done) ltac:(done) : N mod 2 ^ 153 = _).
    rewrite (S 102 26 ltac:(done) ltac:(done) : N mod 2 ^ 128 = _).
    rewrite (S 77 25 ltac:(done) ltac:(done) : N mod 2 ^ 102 = _).
    rewrite (S 51 26 ltac:(done) ltac:(done) : N mod 2 ^ 77 = _).
    rewrite (S 26 25 ltac:(done) ltac:(done) : N mod 2 ^ 51 = _).
    rewrite (S 0 26 ltac:(done) ltac:(done) : N mod 2 ^ 26 = _).
    change (2 ^ 0) with 1 at 1. rewrite Z.mod_1_r. cbn [eval Z.add Pos.add Pos.succ Pos.add_carry Z.mul Pos.mul]. weights.
    repeat match goal with |- context [8 * ?a + ?b] =>
      let c := eval vm_compute in (8 * a + b) in change (8 * a + b) with c end.
    ring.
Qed.

(** ** Moving a multiple of the width to the next limb

    Every step of the two kinds of passes is one of these two moves. *)

Definition move (l : list Z) (i c : Z) : list Z :=
  wr (wr l i (rd l i - c * 2 ^ width i)) (i + 1) (rd l (i + 1) + c).

Definition move_top (l : list Z) (c : Z) : list Z := wr (wr l 9 (rd l 9 - c * 2 ^ 25)) 0 (rd l 0 + 19 * c).

Lemma move_spec l i c : length l = 10%nat -> 0 <= i < 9 ->
  let l' := move l i c in
  length l' = 10%nat /\ eval 0 l' = eval 0 l /\ rd l' i = rd l i - c * 2 ^ width i /\ rd l' (i + 1) = rd l (i + 1) + c /\
  (forall j, 0 <= j -> j <> i -> j <> i + 1 -> rd l' j = rd l j).
Proof.
  intros Hl Hi l'. unfold l', move. rewrite !length_wr. split; [done|]. split.
  { rewrite !eval_wr by (rewrite ?length_wr; lia). rewrite rd_wr_ne, !Z.add_0_l, weight_succ by lia. ring. }
  rewrite rd_wr_ne by lia. rewrite !rd_wr_eq by (rewrite ?length_wr; lia). split; [done|]. split; [done|].
  intros j Hj Hne Hne'. by rewrite !rd_wr_ne by lia.
Qed.

Lemma move_top_spec l c : length l = 10%nat ->
  let l' := move_top l c in
  length l' = 10%nat /\ eval 0 l' =p eval 0 l /\ rd l' 9 = rd l 9 - c * 2 ^ 25 /\ rd l' 0 = rd l 0 + 19 * c /\
  (forall j, 1 <= j < 9 -> rd l' j = rd l j).
Proof.
  intros Hl l'. unfold l', move_top. rewrite !length_wr. split; [done|]. split.
  { apply (eqp_multiple _ _ (- c)). rewrite !eval_wr by (rewrite ?length_wr; lia). rewrite rd_wr_ne, !Z.add_0_l by lia.
    change (weight 9) with (2 ^ 230). change (weight 0) with 1. unfold p25519. ring. }
  rewrite rd_wr_ne by lia. rewrite !rd_wr_eq by (rewrite ?length_wr; lia). split; [done|]. split; [done|].
  intros j Hj. by rewrite !rd_wr_ne by lia.
Qed.

Lemma width_land i : 0 <= i -> (if Z.land i 1 =? 1 then 25 else 26) = width i.
Proof.
  intros Hi. unfold width. change 1 with (Z.ones 1). rewrite Z.land_ones by lia. change (2 ^ 1) with 2.
  rewrite Zmod_even. by destruct (Z.even i).
Qed.

Lemma s32_small x : - 2 ^ 31 <= x < 2 ^ 31 -> s32 x = x.
Proof. intros. apply swrap_id; lia. Qed.

(** What a negative limb borrows, as a negative number. *)
Definition borrowed (w v : Z) : Z := if v <? 0 then v / 2 ^ w else 0.

Lemma borrowed_neg w v : v < 0 -> 25 <= w <= 26 ->
  0 <= v - borrowed w v * 2 ^ w < 2 ^ w /\ borrowed w v < 0.
Proof.
  intros Hv Hw. unfold borrowed. rewrite (proj2 (Z.ltb_lt v 0)) by done. pose proof (pow2_pos w ltac:(lia)).
  pose proof (Z.div_mod v (2 ^ w) ltac:(lia)). pose proof (Z.mod_pos_bound v (2 ^ w) ltac:(lia)). split; [lia|].
  apply Z.div_lt_upper_bound; lia.
Qed.

Lemma borrowed_nonneg w v : 0 <= v -> borrowed w v = 0.
Proof. intros Hv. unfold borrowed. by rewrite (proj2 (Z.ltb_ge v 0)). Qed.

Lemma borrow_carry_eq w l i : 25 <= w <= 26 -> - 2 ^ 27 <= rd l i < 2 ^ 27 ->
  borrow_carry w l i = - borrowed w (rd l i) /\ -4 <= borrowed w (rd l i) <= 0.
Proof.
  intros Hw Hv. unfold borrow_carry, borrowed. rewrite !Z.shiftr_div_pow2 by lia.
  assert (2 ^ 25 <= 2 ^ w) as Hp by (apply Z.pow_le_mono_r; lia). destruct (Z.ltb_spec (rd l i) 0) as [H|H].
  - replace (rd l i / 2 ^ 31) with (-1) by mod_lia. rewrite Z.land_m1_r.
    assert (-4 <= rd l i / 2 ^ w <= 0).
    { split; [apply Z.div_le_lower_bound; lia|apply Z.div_le_upper_bound; lia]. }
    by rewrite s32_small by lia.
  - rewrite (Z.div_small (rd l i)) by lia. rewrite Z.land_0_r. by rewrite Z.div_0_l by lia.
Qed.

Lemma borrow_move l i : length l = 10%nat -> 0 <= i < 9 -> - 2 ^ 27 <= rd l i < 2 ^ 27 -> - 2 ^ 27 <= rd l (i + 1) < 2 ^ 27 ->
  borrow l i = move l i (borrowed (width i) (rd l i)).
Proof.
  intros Hl Hi H0 H1. pose proof (width_range i) as Hw. unfold borrow. rewrite width_land by lia.
  destruct (borrow_carry_eq (width i) l i Hw H0) as [-> Hb]. assert (2 ^ width i <= 2 ^ 26) by (apply Z.pow_le_mono_r; lia).
  unfold move, add32, sub32, shl32. rewrite Z.shiftl_mul_pow2, rd_wr_ne by lia. 
  rewrite (s32_small (- _ * _)) by nia. rewrite !s32_small by nia. f_equal; [f_equal|]; lia.
Qed.

Lemma foldl_seqZ_ind {A} (P : Z -> A -> Prop) (f : A -> Z -> A) a n :
  P 0 a -> (forall k a, 0 <= k < Z.of_nat n -> P k a -> P (k + 1) (f a k)) -> P (Z.of_nat n) (foldl f a (seqZ 0 (Z.of_nat n))).
Proof.
  intros H0 Hs. induction n as [|n IH]; [done|]. replace (Z.of_nat (S n)) with (Z.of_nat n + 1) by lia.
  rewrite seqZ_app, foldl_app by lia. apply Hs; [lia|]. apply IH. intros k b Hk. apply Hs. lia.
Qed.

(** *** The borrows *)

Lemma borrow_spec l k :
  length l = 10%nat -> 0 <= k < 9 -> - 2 ^ 27 <= rd l k < 2 ^ 26 -> - 2 ^ 27 <= rd l (k + 1) < 2 ^ 26 ->
  let c := borrowed (width k) (rd l k) in
  length (borrow l k) = 10%nat /\ eval 0 (borrow l k) = eval 0 l /\
  rd (borrow l k) k = rd l k - c * 2 ^ width k /\ 0 <= rd (borrow l k) k < 2 ^ 26 /\
  rd (borrow l k) (k + 1) = rd l (k + 1) + c /\ -4 <= c <= 0 /\
  (forall j, 0 <= j -> j <> k -> j <> k + 1 -> rd (borrow l k) j = rd l j).
Proof.
  intros Hl Hk H0 H1 c. pose proof (width_range k) as Hw. rewrite borrow_move by lia. fold c.
  destruct (borrow_carry_eq (width k) l k Hw ltac:(lia)) as [_ Hc]. fold c in Hc.
  destruct (move_spec l k c Hl Hk) as (L & E & R0 & R1 & F). do 3 (split; [done|]). split; [|done].
  assert (2 ^ width k <= 2 ^ 26) by (apply Z.pow_le_mono_r; lia). rewrite R0. destruct (Z.lt_ge_cases (rd l k) 0).
  - pose proof (borrowed_neg (width k) (rd l k) ltac:(done) Hw). lia.
  - unfold c. rewrite borrowed_nonneg by done. lia.
Qed.

Lemma borrow_top_spec l :
  length l = 10%nat -> - 2 ^ 27 <= rd l 9 < 2 ^ 26 -> - 2 ^ 27 <= rd l 0 < 2 ^ 26 ->
  let c := borrowed 25 (rd l 9) in
  let l' := wr (wr l 9 (add32 (rd l 9) (shl32 (borrow_carry 25 l 9) 25))) 0
              (sub32 (rd (wr l 9 (add32 (rd l 9) (shl32 (borrow_carry 25 l 9) 25))) 0) (mul32 (borrow_carry 25 l 9) 19)) in
  length l' = 10%nat /\ eval 0 l' =p eval 0 l /\ 0 <= rd l' 9 < 2 ^ 26 /\ rd l' 0 = rd l 0 + 19 * c /\ -4 <= c <= 0 /\
  (forall j, 1 <= j < 9 -> rd l' j = rd l j).
Proof.
  intros Hl H9 H0 c l'. destruct (borrow_carry_eq 25 l 9 ltac:(lia) ltac:(lia)) as [Hb Hc]. fold c in Hb, Hc.
  assert (l' = move_top l c) as ->.
  { unfold l', move_top. rewrite Hb, rd_wr_ne by lia. unfold add32, sub32, mul32, shl32. rewrite Z.shiftl_mul_pow2 by lia.
    rewrite (s32_small (- c * 2 ^ 25)), (s32_small (- c * 19)) by lia. rewrite !s32_small by lia. f_equal; [f_equal|]; lia. }
  destruct (move_top_spec l c Hl) as (L & E & R9 & R0 & F). do 2 (split; [done|]). split; [|done]. rewrite R9.
  destruct (Z.lt_ge_cases (rd l 9) 0).
  - pose proof (borrowed_neg 25 (rd l 9) ltac:(done) ltac:(lia)). lia.
  - unfold c. rewrite borrowed_nonneg by done. lia.
Qed.

(** The first pass makes all limbs but the lowest non-negative. *)
Lemma borrow_pass_first l :
  length l = 10%nat -> within (2 ^ 26 - 1) l ->
  let l' := borrow_pass l in
  length l' = 10%nat /\ eval 0 l' =p eval 0 l /\ -76 <= rd l' 0 < 2 ^ 26 /\ (forall j, 1 <= j < 10 -> 0 <= rd l' j < 2 ^ 26).
Proof.
  intros Hl Hb. pose proof (fun j => within_rd (2 ^ 26 - 1) l j ltac:(lia) Hb) as Hw. clear Hb.
  pose (P k l' := length l' = 10%nat /\ eval 0 l' = eval 0 l /\ (forall j, 0 <= j < k -> 0 <= rd l' j < 2 ^ 26) /\
    - 2 ^ 26 - 4 <= rd l' k < 2 ^ 26 /\ (forall j, k < j < 10 -> Z.abs (rd l' j) < 2 ^ 26)).
  assert (P (Z.of_nat 9) (foldl borrow l (seqZ 0 (Z.of_nat 9)))) as (L1 & V1 & B1 & C1 & _).
  { apply foldl_seqZ_ind.
    - do 2 (split; [done|]). split; [lia|]. split; [specialize (Hw 0 ltac:(lia)); lia|]. intros j Hj. specialize (Hw j ltac:(lia)). lia.
    - intros k a Hk (L & E & B & C & A). pose proof (A (k + 1) ltac:(lia)) as A1.
      destruct (borrow_spec a k) as (L' & E' & _ & R0 & R1 & Hc & F); [lia..|].
      split; [done|]. split; [congruence|]. split; [|split; [lia|]].
      + intros j Hj. destruct (decide (j = k)) as [->|]; [lia|]. rewrite F by lia. apply B. lia.
      + intros j Hj. rewrite F by lia. apply A. lia. }
  change (Z.of_nat 9) with 9 in *. unfold borrow_pass. cbv zeta. set (l1 := foldl borrow l (seqZ 0 9)) in *.
  pose proof (B1 0 ltac:(lia)) as B10. destruct (borrow_top_spec l1) as (L2 & E2 & R9 & R0 & Hc & F); [lia..|].
  split; [done|]. split; [by rewrite E2, V1|]. split; [lia|].
  intros j Hj. destruct (decide (j = 9)) as [->|]; [done|]. rewrite F by lia. apply B1. lia.
Qed.

(** The second pass does it for the lowest limb too: it can only borrow from
    above when all others are zero, and then it has become large before. *)
Lemma borrow_pass_second l :
  length l = 10%nat -> -76 <= rd l 0 < 2 ^ 26 -> (forall j, 1 <= j < 10 -> 0 <= rd l j < 2 ^ 26) ->
  let l' := borrow_pass l in
  length l' = 10%nat /\ eval 0 l' =p eval 0 l /\ (forall j, 0 <= j < 10 -> 0 <= rd l' j < 2 ^ 26).
Proof.
  intros Hl H0 Hw.
  pose (P k l' := length l' = 10%nat /\ eval 0 l' = eval 0 l /\ (forall j, 0 <= j < k -> 0 <= rd l' j < 2 ^ 26) /\
    -76 <= rd l' k < 2 ^ 26 /\ (0 < k -> -1 <= rd l' k /\ (rd l' k < 0 -> 2 ^ 25 <= rd l' 0)) /\
    (forall j, k < j < 10 -> 0 <= rd l' j < 2 ^ 26)).
  assert (P (Z.of_nat 9) (foldl borrow l (seqZ 0 (Z.of_nat 9)))) as (L1 & V1 & B1 & C1 & N1 & _).
  { apply foldl_seqZ_ind.
    - do 2 (split; [done|]). split; [lia|]. split; [done|]. split; [lia|]. intros j Hj. apply Hw. lia.
    - intros k a Hk (L & E & B & C & N & A). pose proof (A (k + 1) ltac:(lia)) as A1.
      destruct (borrow_spec a k) as (L' & E' & R & R0 & R1 & Hc & F); [lia..|].
      set (c := borrowed (width k) (rd a k)) in *. pose proof (width_range k) as Hwk.
      assert (2 ^ 25 <= 2 ^ width k) by (apply Z.pow_le_mono_r; lia).
      assert (rd a k < 0 \/ c = 0) as Hcase.
      { destruct (Z.lt_ge_cases (rd a k) 0); [by left|]. right. unfold c. by apply borrowed_nonneg. }
      assert (-1 <= c /\ (c < 0 -> rd (borrow a k) k = rd a k + 2 ^ width k)) as [Hc1 Hcr].
      { destruct Hcase as [Hneg| ->]; [|lia]. pose proof (borrowed_neg (width k) (rd a k) Hneg Hwk) as [Hr Hlt]. fold c in Hr, Hlt.
        assert (c = -1) as -> by nia. lia. }
      split; [done|]. split; [congruence|]. split; [|split; [lia|split; [|]]].
      + intros j Hj. destruct (decide (j = k)) as [->|]; [lia|]. rewrite F by lia. apply B. lia.
      + intros _. split; [lia|]. intros Hneg. assert (c < 0) as Hcn by lia. destruct (decide (k = 0)) as [->|Hne].
        * rewrite Hcr by done. change (width 0) with 26. lia.
        * rewrite F by lia. apply N; lia.
      + intros j Hj. rewrite F by lia. apply A. lia. }
  change (Z.of_nat 9) with 9 in *. unfold borrow_pass. cbv zeta. set (l1 := foldl borrow l (seqZ 0 9)) in *.
  pose proof (B1 0 ltac:(lia)) as B10. destruct (borrow_top_spec l1) as (L2 & E2 & R9 & R0 & Hc & F); [lia..|].
  split; [done|]. split; [by rewrite E2, V1|].
  intros j Hj. destruct (decide (j = 9)) as [->|]; [done|]. destruct (decide (j = 0)) as [->|]; [|rewrite F by lia; apply B1; lia].
  destruct (Z.lt_ge_cases (rd l1 9) 0) as [Hneg|Hnn]; [specialize (N1 ltac:(lia)); lia|].
  rewrite R0, borrowed_nonneg by done. lia.
Qed.

(** *** The carries *)

Lemma land_mask x w : 0 <= w -> Z.land x (2 ^ w - 1) = x mod 2 ^ w.
Proof. intros Hw. rewrite <- Z.land_ones, Z.ones_equiv by done. done. Qed.

Lemma carry32_spec l k :
  length l = 10%nat -> 0 <= k < 9 -> 0 <= rd l k < 2 ^ 27 -> 0 <= rd l (k + 1) < 2 ^ 27 ->
  let c := rd l k / 2 ^ width k in
  length (carry32 l k) = 10%nat /\ eval 0 (carry32 l k) = eval 0 l /\
  rd (carry32 l k) k = rd l k - c * 2 ^ width k /\ 0 <= rd (carry32 l k) k < 2 ^ width k /\
  rd (carry32 l k) (k + 1) = rd l (k + 1) + c /\ 0 <= c <= 3 /\
  (forall j, 0 <= j -> j <> k -> j <> k + 1 -> rd (carry32 l k) j = rd l j).
Proof.
  intros Hl Hk H0 H1 c. pose proof (width_range k) as Hw. assert (2 ^ 25 <= 2 ^ width k) as Hp by (apply Z.pow_le_mono_r; lia).
  pose proof (Z.div_mod (rd l k) (2 ^ width k) ltac:(lia)) as Hdm. pose proof (Z.mod_pos_bound (rd l k) (2 ^ width k) ltac:(lia)) as Hm.
  fold c in Hdm. assert (0 <= c <= 3) as Hc by nia.
  assert (carry32 l k = move l k c) as ->.
  { unfold carry32, move. rewrite width_land by lia.
    replace (if Z.land k 1 =? 1 then 33554431 else 67108863) with (2 ^ width k - 1)
      by (rewrite <- width_land by lia; by destruct (Z.land k 1 =? 1)).
    rewrite land_mask, rd_wr_ne, Z.shiftr_div_pow2 by lia. fold c. unfold add32. rewrite s32_small by lia.
    f_equal. f_equal. lia. }
  destruct (move_spec l k c Hl Hk) as (L & E & R0 & R1 & F). do 3 (split; [done|]). split; [lia|done].
Qed.

Lemma carry_top_spec l :
  length l = 10%nat -> 0 <= rd l 9 < 2 ^ 27 -> 0 <= rd l 0 < 2 ^ 27 ->
  let c := rd l 9 / 2 ^ 25 in
  let l' := wr (wr l 9 (Z.land (rd l 9) 0x1ffffff)) 0
              (add32 (rd (wr l 9 (Z.land (rd l 9) 0x1ffffff)) 0) (mul32 19 (Z.shiftr (rd l 9) 25))) in
  length l' = 10%nat /\ eval 0 l' =p eval 0 l /\ 0 <= rd l' 9 < 2 ^ 25 /\ rd l' 0 = rd l 0 + 19 * c /\ 0 <= c <= 3 /\
  (forall j, 1 <= j < 9 -> rd l' j = rd l j).
Proof.
  intros Hl H9 H0 c l'. pose proof (Z.div_mod (rd l 9) (2 ^ 25) ltac:(lia)) as Hdm. fold c in Hdm.
  pose proof (Z.mod_pos_bound (rd l 9) (2 ^ 25) ltac:(lia)) as Hm. assert (0 <= c <= 3) as Hc by lia.
  assert (l' = move_top l c) as ->.
  { unfold l', move_top. change 0x1ffffff with (2 ^ 25 - 1). rewrite land_mask, rd_wr_ne, Z.shiftr_div_pow2 by lia. fold c.
    unfold add32, mul32. rewrite (s32_small (19 * c)), s32_small by lia. f_equal. f_equal. lia. }
  destruct (move_top_spec l c Hl) as (L & E & R9 & R0 & F). do 2 (split; [done|]). split; [lia|done].
Qed.

Lemma carry_pass_first l :
  length l = 10%nat -> (forall j, 0 <= j < 10 -> 0 <= rd l j < 2 ^ 26) ->
  let l' := carry_pass l in
  length l' = 10%nat /\ eval 0 l' =p eval 0 l /\ 0 <= rd l' 0 < 2 ^ 26 + 64 /\
  (forall j, 1 <= j < 10 -> 0 <= rd l' j < 2 ^ width j).
Proof.
  intros Hl Hw.
  pose (P k l' := length l' = 10%nat /\ eval 0 l' = eval 0 l /\ (forall j, 0 <= j < k -> 0 <= rd l' j < 2 ^ width j) /\
    0 <= rd l' k < 2 ^ 26 + 4 /\ (forall j, k < j < 10 -> 0 <= rd l' j < 2 ^ 26)).
  assert (P (Z.of_nat 9) (foldl carry32 l (seqZ 0 (Z.of_nat 9)))) as (L1 & V1 & B1 & C1 & _).
  { apply foldl_seqZ_ind.
    - do 2 (split; [done|]). split; [lia|]. split; [specialize (Hw 0 ltac:(lia)); lia|]. intros j Hj. apply Hw. lia.
    - intros k a Hk (L & E & B & C & A). pose proof (A (k + 1) ltac:(lia)) as A1.
      destruct (carry32_spec a k) as (L' & E' & _ & R0 & R1 & Hc & F); [lia..|].
      split; [done|]. split; [congruence|]. split; [|split; [lia|]].
      + intros j Hj. destruct (decide (j = k)) as [->|]; [done|]. rewrite F by lia. apply B. lia.
      + intros j Hj. rewrite F by lia. apply A. lia. }
  change (Z.of_nat 9) with 9 in *. unfold carry_pass. cbv zeta. set (l1 := foldl carry32 l (seqZ 0 9)) in *.
  pose proof (B1 0 ltac:(lia)) as B10. change (width 0) with 26 in B10.
  destruct (carry_top_spec l1) as (L2 & E2 & R9 & R0 & Hc & F); [lia..|].
  split; [done|]. split; [by rewrite E2, V1|]. split; [lia|].
  intros j Hj. destruct (decide (j = 9)) as [->|]; [done|]. rewrite F by lia. apply B1. lia.
Qed.

(** A carry out of limb 9 in the second pass has gone through all limbs, and
    has left the lowest one small. *)
Lemma carry_pass_second l :
  length l = 10%nat -> 0 <= rd l 0 < 2 ^ 26 + 64 -> (forall j, 1 <= j < 10 -> 0 <= rd l j < 2 ^ width j) ->
  let l' := carry_pass l in
  length l' = 10%nat /\ eval 0 l' =p eval 0 l /\ (forall j, 0 <= j < 10 -> 0 <= rd l' j < 2 ^ width j).
Proof.
  intros Hl H0 Hw.
  pose (P k l' := length l' = 10%nat /\ eval 0 l' = eval 0 l /\ (forall j, 0 <= j < k -> 0 <= rd l' j < 2 ^ width j) /\
    0 <= rd l' k < 2 ^ 26 + 64 /\ (0 < k -> rd l' k <= 2 ^ width k /\ (rd l' k = 2 ^ width k -> rd l' 0 < 64)) /\
    (forall j, k < j < 10 -> 0 <= rd l' j < 2 ^ width j)).
  assert (P (Z.of_nat 9) (foldl carry32 l (seqZ 0 (Z.of_nat 9)))) as (L1 & V1 & B1 & C1 & N1 & _).
  { apply foldl_seqZ_ind.
    - do 2 (split; [done|]). split; [lia|]. split; [done|]. split; [lia|]. intros j Hj. apply Hw. lia.
    - intros k a Hk (L & E & B & C & N & A). pose proof (A (k + 1) ltac:(lia)) as A1.
      pose proof (width_range k) as Hwk. pose proof (width_range (k + 1)) as Hwk1.
      assert (2 ^ width (k + 1) <= 2 ^ 26) by (apply Z.pow_le_mono_r; lia).
      destruct (carry32_spec a k) as (L' & E' & R & R0 & R1 & Hc & F); [lia..|].
      set (c := rd a k / 2 ^ width k) in *. assert (2 ^ 25 <= 2 ^ width k) by (apply Z.pow_le_mono_r; lia).
      assert (rd a k < 2 * 2 ^ width k) as Hlt.
      { destruct (decide (k = 0)) as [->|]; [change (width 0) with 26; lia|]. specialize (N ltac:(lia)). lia. }
      assert (c <= 1) as Hc1 by nia.
      split; [done|]. split; [congruence|]. split; [|split; [lia|split; [|]]].
      + intros j Hj. destruct (decide (j = k)) as [->|]; [done|]. rewrite F by lia. apply B. lia.
      + intros _. split; [lia|]. intros Heq. assert (c = 1) as Hcn by lia. destruct (decide (k = 0)) as [->|Hne].
        * change (width 0) with 26 in *. lia.
        * rewrite F by lia. apply N; lia.
      + intros j Hj. rewrite F by lia. apply A. lia. }
  change (Z.of_nat 9) with 9 in *. unfold carry_pass. cbv zeta. set (l1 := foldl carry32 l (seqZ 0 9)) in *.
  pose proof (B1 0 ltac:(lia)) as B10. change (width 0) with 26 in B10. specialize (N1 ltac:(lia)). change (width 9) with 25 in N1.
  destruct (carry_top_spec l1) as (L2 & E2 & R9 & R0 & Hc & F); [lia..|].
  split; [done|]. split; [by rewrite E2, V1|].
  intros j Hj. destruct (decide (j = 9)) as [->|]; [done|]. destruct (decide (j = 0)) as [->|]; [|rewrite F by lia; apply B1; lia].
  change (width 0) with 26. rewrite R0. destruct (decide (rd l1 9 = 2 ^ 25)); [lia|]. rewrite Z.div_small by lia. lia.
Qed.

(** *** The prime *)

Lemma s32_testbit x i : 0 <= i < 32 -> Z.testbit (s32 x) i = Z.testbit x i.
Proof.
  intros Hi. pose proof (f_equal (fun y => Z.testbit y i) (swrap_mod 32 x ltac:(done))) as H. cbn beta in H.
  rewrite !wrap_testbit, bool_decide_eq_true_2, !andb_true_r in H by lia. done.
Qed.

Lemma and_shift_testbit x n i : 0 <= n <= i -> i < 32 ->
  Z.testbit (Z.land x (shl32 x n)) i = Z.testbit x i && Z.testbit x (i - n).
Proof. intros Hn Hi. unfold shl32. rewrite Z.land_spec, s32_testbit, Z.shiftl_spec by lia. done. Qed.

(** Sign-extended from bit 31. *)
Definition extended (z : Z) : Prop := Z.shiftr z 31 = if Z.testbit z 31 then -1 else 0.

Lemma extended_range z : - 2 ^ 31 <= z < 2 ^ 31 -> extended z.
Proof.
  intros Hz. unfold extended. pose proof (Z.shiftr_spec z 31 0 ltac:(done)) as H. rewrite Z.add_0_l in H. rewrite <- H.
  rewrite Z.shiftr_div_pow2 by lia. destruct (Z.lt_ge_cases z 0).
  - by replace (z / 2 ^ 31) with (-1) by mod_lia.
  - by rewrite Z.div_small by lia.
Qed.

Lemma extended_land x y : extended x -> extended y -> extended (Z.land x y).
Proof.
  unfold extended. intros Hx Hy. rewrite Z.shiftr_land, Hx, Hy, Z.land_spec.
  by destruct (Z.testbit x 31), (Z.testbit y 31).
Qed.

Lemma extended_shl32 x n : extended (shl32 x n).
Proof. apply extended_range. apply (swrap_range 32). lia. Qed.

(** One of the [n] highest bits is zero; each step halves their number. *)
Definition zero_within (n x : Z) : Prop :=
  extended x /\ exists d, 0 <= d < n /\ d < 32 /\ Z.testbit x (31 - d) = false.

Lemma zero_within_step n x : 0 < n -> zero_within (2 * n) x -> zero_within n (Z.land x (shl32 x n)).
Proof.
  intros Hn (He & d & Hd & Hd' & Hx). split; [apply extended_land; [exact He|apply extended_shl32]|].
  destruct (Z.lt_ge_cases d n).
  - exists d. split; [lia|]. split; [lia|]. by rewrite Z.land_spec, Hx.
  - exists (d - n). split; [lia|]. split; [lia|]. rewrite and_shift_testbit by lia.
    replace (31 - (d - n) - n) with (31 - d) by lia. by rewrite Hx, andb_false_r.
Qed.

Lemma differing_bit a b : in_range 31 a -> in_range 31 b -> a <> b ->
  exists i, 0 <= i < 31 /\ Z.testbit (Z.lnot (Z.lxor a b)) i = false.
Proof.
  intros Ha Hb Hne. destruct (decide (Exists (fun i => Z.testbit (Z.lnot (Z.lxor a b)) i = false) (seqZ 0 31))) as [H|H].
  { apply Exists_exists in H as (i & Hi & Hbit). exists i. by rewrite <- list_elem_of_In, elem_of_seqZ in Hi. }
  destruct Hne. rewrite <- Forall_Exists_neg, Forall_forall in H. bit_ext i. destruct (decide (i < 31)).
  - specialize (H i). rewrite <- list_elem_of_In, elem_of_seqZ, Z.lnot_spec, Z.lxor_spec in H by lia.
    destruct (Z.testbit a i), (Z.testbit b i); try done; destruct H; done || lia.
  - by rewrite !(in_range_testbit_high 31) by (done || lia).
Qed.

Lemma s32_eq_spec a b : in_range 31 a -> in_range 31 b -> s32_eq a b = if a =? b then -1 else 0.
Proof.
  intros Ha Hb. destruct (Z.eqb_spec a b) as [->|Hne].
  { unfold s32_eq. rewrite Z.lxor_nilpotent. vm_compute. reflexivity. }
  destruct (differing_bit a b Ha Hb Hne) as (i & Hi & Hbit).
  assert (in_range 31 (Z.lxor a b)) as Hx by (apply in_range_lxor; done || lia).
  unfold s32_eq. set (x := Z.lnot (Z.lxor a b)) in *. assert (extended x) as He.
  { apply extended_range. unfold in_range in Hx. unfold x. rewrite Z.lnot_eq_pred_opp. lia. }
  cbv zeta. assert (zero_within (2 * 16) x) as H.
  { split; [exact He|]. exists (31 - i). split; [lia|]. split; [lia|]. by replace (31 - (31 - i)) with i by lia. }
  clearbody x. apply (zero_within_step 16) in H; [|lia]. apply (zero_within_step 8) in H; [|lia].
  apply (zero_within_step 4) in H; [|lia]. apply (zero_within_step 2) in H; [|lia].
  apply (zero_within_step 1) in H; [|lia]. destruct H as (E & d & Hd & _ & Hz).
  rewrite E. replace (31 - d) with 31 in Hz by lia. by rewrite Hz.
Qed.

Lemma s32_gte_spec a b : in_range 31 a -> in_range 31 b -> s32_gte a b = if b <=? a then -1 else 0.
Proof.
  unfold in_range. intros Ha Hb. unfold s32_gte, sub32. rewrite s32_small by lia. rewrite Z.shiftr_div_pow2 by lia.
  destruct (Z.leb_spec b a).
  - by rewrite Z.div_small by lia.
  - replace ((a - b) / 2 ^ 31) with (-1) by mod_lia. done.
Qed.

(** Limbs of their widths. *)
Definition reduced (l : list Z) : Prop := length l = 10%nat /\ forall j, 0 <= j < 10 -> 0 <= rd l j < 2 ^ width j.

Lemma reduced_list l : reduced l -> exists l0 l1 l2 l3 l4 l5 l6 l7 l8 l9,
  l = [l0; l1; l2; l3; l4; l5; l6; l7; l8; l9] /\
  (in_range 26 l0 /\ in_range 25 l1 /\ in_range 26 l2 /\ in_range 25 l3 /\ in_range 26 l4) /\
  (in_range 25 l5 /\ in_range 26 l6 /\ in_range 25 l7 /\ in_range 26 l8 /\ in_range 25 l9).
Proof.
  intros [Hl H]. destruct l as [|l0 [|l1 [|l2 [|l3 [|l4 [|l5 [|l6 [|l7 [|l8 [|l9 [|]]]]]]]]]]]; try discriminate Hl.
  exists l0, l1, l2, l3, l4, l5, l6, l7, l8, l9. split; [done|]. ten_bounds H.
  repeat match goal with |- _ /\ _ => split end; assumption.
Qed.

Lemma list_reduced l0 l1 l2 l3 l4 l5 l6 l7 l8 l9 :
  in_range 26 l0 -> in_range 25 l1 -> in_range 26 l2 -> in_range 25 l3 -> in_range 26 l4 ->
  in_range 25 l5 -> in_range 26 l6 -> in_range 25 l7 -> in_range 26 l8 -> in_range 25 l9 ->
  reduced [l0; l1; l2; l3; l4; l5; l6; l7; l8; l9].
Proof.
  intros. split; [done|]. intros j Hj. assert (j ∈ seqZ 0 10) as Hin by (apply elem_of_seqZ; lia). cbv in Hin.
  repeat (apply elem_of_cons in Hin as [->|Hin]; [assumption|]). by apply elem_of_nil in Hin.
Qed.

(** Reads of explicit lists. *)
Ltac reads :=
  repeat match goal with
  | |- context [rd (?x :: ?l) ?i] => let r := eval hnf in (rd (x :: l) i) in change (rd (x :: l) i) with r
  | H : context [rd (?x :: ?l) ?i] |- _ => let r := eval hnf in (rd (x :: l) i) in change (rd (x :: l) i) with r in H
  end.

Lemma mask_and (b c : bool) : Z.land (if b then -1 else 0) (if c then -1 else 0) = if b && c then -1 else 0.
Proof. by destruct b, c. Qed.

(** The limbs are those of the prime or more. *)
Definition at_least_p (l : list Z) : bool :=
  (0x3ffffed <=? rd l 0) && (rd l 1 =? 0x1ffffff) && (rd l 2 =? 0x3ffffff) && (rd l 3 =? 0x1ffffff) &&
  (rd l 4 =? 0x3ffffff) && (rd l 5 =? 0x1ffffff) && (rd l 6 =? 0x3ffffff) && (rd l 7 =? 0x1ffffff) &&
  (rd l 8 =? 0x3ffffff) && (rd l 9 =? 0x1ffffff).

Lemma prime_mask_spec l : reduced l -> prime_mask l = if at_least_p l then -1 else 0.
Proof.
  intros Hr. assert (forall j, 0 <= j < 10 -> in_range 31 (rd l j)) as Hj.
  { intros j Hj. destruct Hr as [_ Hr]. specialize (Hr j Hj). pose proof (width_range j).
    assert (2 ^ width j <= 2 ^ 31) by (apply Z.pow_le_mono_r; lia). unfold in_range. lia. }
  assert (prime_mask l = Z.land (Z.land (Z.land (Z.land (Z.land (Z.land (Z.land (Z.land (Z.land (s32_gte (rd l 0) 0x3ffffed)
    (s32_eq (rd l 1) 0x1ffffff)) (s32_eq (rd l 2) 0x3ffffff)) (s32_eq (rd l 3) 0x1ffffff)) (s32_eq (rd l 4) 0x3ffffff))
    (s32_eq (rd l 5) 0x1ffffff)) (s32_eq (rd l 6) 0x3ffffff)) (s32_eq (rd l 7) 0x1ffffff)) (s32_eq (rd l 8) 0x3ffffff))
    (s32_eq (rd l 9) 0x1ffffff)) as -> by reflexivity.
  rewrite s32_gte_spec, !s32_eq_spec by (try apply Hj; try done; lia). by rewrite !mask_and.
Qed.

Lemma sub32_0 x : in_range 31 x -> sub32 x 0 = x.
Proof. unfold in_range. intros Hx. unfold sub32. rewrite s32_small; lia. Qed.

Lemma subtract_prime_spec l : reduced l ->
  let l' := subtract_prime l (prime_mask l) in reduced l' /\ eval 0 l' = eval 0 l mod p25519.
Proof.
  intros Hr l'. unfold l'. rewrite prime_mask_spec by done. clear l'.
  apply reduced_list in Hr as (l0 & l1 & l2 & l3 & l4 & l5 & l6 & l7 & l8 & l9 & -> & (B0 & B1 & B2 & B3 & B4) & (B5 & B6 & B7 & B8 & B9)).
  destruct (at_least_p _) eqn:E.
  - unfold at_least_p in E. reads. bool_to_prop. subst.
    match goal with |- context [subtract_prime ?l _] => assert (subtract_prime l (-1) = [sub32 l0 0x3ffffed; 0; 0; 0; 0; 0; 0; 0; 0; 0]) as -> by reflexivity end.
    unfold in_range, sub32 in *. rewrite s32_small by lia. split; [apply list_reduced; unfold in_range; lia|].
    cbn [eval Z.add Pos.add Pos.succ Pos.add_carry]. weights. let p := eval vm_compute in p25519 in change p25519 with p.
    match goal with |- ?x = ?y mod ?m => rewrite <- (Z.mod_unique_pos y m 1 x) end; lia.
  - match goal with |- context [subtract_prime ?l _] => assert (subtract_prime l 0 = map (fun x => sub32 x 0) l) as -> by reflexivity end.
    cbn [map]. rewrite !sub32_0 by (eapply in_range_mono; [|eassumption]; lia). split; [by apply list_reduced|].
    cbn [eval Z.add Pos.add Pos.succ Pos.add_carry]. weights. symmetry. apply Z.mod_small.
    unfold at_least_p in E. reads. unfold in_range in *. let p := eval vm_compute in p25519 in change p25519 with p.
    split; [lia|]. rewrite !andb_false_iff, !Z.eqb_neq, Z.leb_gt in E. 
    repeat destruct E as [E|E]; lia.
Qed.

(** ** Packing *)

Lemma byte_shl32 x n j : 0 <= n -> 0 <= j <= 24 ->
  Z.land (Z.shiftr (shl32 x n) j) 0xff = (x * 2 ^ n / 2 ^ j) mod 2 ^ 8.
Proof.
  intros Hn Hj. change 0xff with (Z.ones 8). rewrite <- Z.land_ones, <- Z.shiftl_mul_pow2, <- Z.shiftr_div_pow2 by lia.
  bit_ext i. rewrite !Z.land_spec. destruct (decide (i < 8)); [|by rewrite Z.ones_spec_high, !andb_false_r by lia].
  rewrite !Z.shiftr_spec by lia. unfold shl32. by rewrite s32_testbit by lia.
Qed.

Lemma byte_shiftr x j : 0 <= j -> Z.land (Z.shiftr x j) 0xff = (x / 2 ^ j) mod 2 ^ 8.
Proof. intros Hj. change 0xff with (Z.ones 8). by rewrite Z.land_ones, Z.shiftr_div_pow2 by lia. Qed.

Lemma low_byte x : Z.land x 0xff = x mod 2 ^ 8.
Proof. change 0xff with (Z.ones 8). by rewrite Z.land_ones by lia. Qed.

Lemma low_byte_shl32 x n : 0 <= n -> Z.land (shl32 x n) 0xff = (x * 2 ^ n) mod 2 ^ 8.
Proof. intros Hn. rewrite <- (Z.shiftr_0_r (shl32 x n)), byte_shl32, Z.div_1_r by lia. done. Qed.

Lemma le_word_sum l : bytes l -> le_word l = foldr (fun b r => b + r * 2 ^ 8) 0 l.
Proof.
  induction 1 as [|b l Hb Hl IH]; [done|]. cbn [le_word foldr]. rewrite Z.shiftl_mul_pow2, IH by lia. by apply lor_add.
Qed.

Lemma four_bytes L : in_range 32 L ->
  L = L mod 2 ^ 8 + (L / 2 ^ 8) mod 2 ^ 8 * 2 ^ 8 + (L / 2 ^ 16) mod 2 ^ 8 * 2 ^ 16 + (L / 2 ^ 24) mod 2 ^ 8 * 2 ^ 24.
Proof. intros HL. mod_lia. Qed.

(** The byte that two limbs share. *)
Lemma shared_byte a y n : 0 <= n <= 8 -> in_range n a -> 
  u8 (Z.lor a ((y * 2 ^ n) mod 2 ^ 8)) = a + (y * 2 ^ n) mod 2 ^ 8.
Proof.
  intros Hn Ha. assert ((y * 2 ^ n) mod 2 ^ 8 = y mod 2 ^ (8 - n) * 2 ^ n) as E.
  { replace (2 ^ 8) with (2 ^ (8 - n) * 2 ^ n) by (rewrite <- Z.pow_add_r by lia; f_equal; lia).
    pose proof (pow2_pos n ltac:(lia)). pose proof (pow2_pos (8 - n) ltac:(lia)). apply Z.mul_mod_distr_r; lia. }
  rewrite wrap_id.
  - rewrite E. apply lor_add; [lia|done].
  - apply in_range_lor; [lia|eapply in_range_mono; [|done]; lia|apply wrap_range; lia].
Qed.

Lemma pack_spec output l : length output = 32%nat -> reduced l -> pack output l = le_bytes 32 (eval 0 l).
Proof.
  intros Ho Hr. apply reduced_list in Hr as (l0 & l1 & l2 & l3 & l4 & l5 & l6 & l7 & l8 & l9 & -> & (B0 & B1 & B2 & B3 & B4) & (B5 & B6 & B7 & B8 & B9)).
  do 32 (destruct output as [|? output]; [discriminate Ho|]). destruct output; [|discriminate Ho]. clear Ho.
  match goal with |- ?p = _ => let r := eval cbv -[Z.lor Z.land Z.shiftr shl32 wrap] in p in change p with r end.
  match goal with |- ?p = _ => assert (bytes p) as Hb
    by (repeat (apply List.Forall_cons; [first [apply land_255_u8|by apply wrap_range]|]); apply List.Forall_nil) end.
  rewrite <- (le_bytes_le_word _ Hb). rewrite (le_word_sum _ Hb). cbn [length]. f_equal. clear Hb.
  rewrite !Z.lor_0_l, !byte_shl32, !low_byte_shl32, !byte_shiftr, !low_byte by lia.
  rewrite !(wrap_id 8 (_ mod _)) by (apply Z.mod_pos_bound; done).
  unfold in_range in *.
  rewrite !shared_byte by (try lia; unfold in_range; mod_lia).
  pose proof (four_bytes l0 ltac:(clear - B0; unfold in_range; lia)) as E0.
  pose proof (four_bytes (l1 * 2 ^ 2) ltac:(clear - B1; unfold in_range; lia)) as E1.
  pose proof (four_bytes (l2 * 2 ^ 3) ltac:(clear - B2; unfold in_range; lia)) as E2.
  pose proof (four_bytes (l3 * 2 ^ 5) ltac:(clear - B3; unfold in_range; lia)) as E3.
  pose proof (four_bytes (l4 * 2 ^ 6) ltac:(clear - B4; unfold in_range; lia)) as E4.
  pose proof (four_bytes l5 ltac:(clear - B5; unfold in_range; lia)) as E5.
  pose proof (four_bytes (l6 * 2 ^ 1) ltac:(clear - B6; unfold in_range; lia)) as E6.
  pose proof (four_bytes (l7 * 2 ^ 3) ltac:(clear - B7; unfold in_range; lia)) as E7.
  pose proof (four_bytes (l8 * 2 ^ 4) ltac:(clear - B8; unfold in_range; lia)) as E8.
  pose proof (four_bytes (l9 * 2 ^ 6) ltac:(clear - B9; unfold in_range; lia)) as E9.
  cbn [foldr eval Z.add Pos.add Pos.succ Pos.add_carry]. weights. clear B0 B1 B2 B3 B4 B5 B6 B7 B8 B9.
  revert E0 E1 E2 E3 E4 E5 E6 E7 E8 E9.
  repeat match goal with |- context [?x mod ?m] => generalize (x mod m); intros ? end. intros. lia.
Qed.

Lemma third_borrow l : length l = 10%nat -> 0 <= rd l 0 < 2 ^ 26 -> 0 <= rd l 1 < 2 ^ 26 ->
  let carry := borrow_carry 26 l 0 in
  let l' := wr l 0 (add32 (rd l 0) (shl32 carry 26)) in
  wr l' 1 (sub32 (rd l' 1) carry) = l.
Proof.
  intros Hl H0 H1 c l'. destruct (borrow_carry_eq 26 l 0 ltac:(lia) ltac:(lia)) as [Hc _]. fold c in Hc.
  rewrite borrowed_nonneg in Hc by lia. unfold l'. rewrite Hc. unfold add32, sub32, shl32.
  change (s32 (Z.shiftl (- 0) 26)) with 0. rewrite rd_wr_ne, !s32_small by lia. rewrite Z.add_0_r. change (- 0) with 0. rewrite Z.sub_0_r.
  do 2 (destruct l as [|? l]; [discriminate Hl|]). reflexivity.
Qed.

(** The bytes of the least non-negative representative. *)
Lemma fcontract_spec output l :
  length output = 32%nat -> (10 <= length l)%nat -> within (2 ^ 26 - 1) l ->
  fcontract output l = le_bytes 32 (value l mod p25519).
Proof.
  intros Ho Hl Hb. unfold fcontract. cbv zeta.
  assert (map s32 (take 10 l) = take 10 l) as ->.
  { rewrite <- (map_id (take 10 l)) at 2. apply map_ext_in. intros x Hx. unfold within in Hb. rewrite Forall_forall in Hb.
    specialize (Hb x Hx). cbn beta in Hb. apply s32_small. lia. }
  set (l0 := take 10 l). assert (length l0 = 10%nat) as L0 by (unfold l0; rewrite length_take; lia).
  assert (within (2 ^ 26 - 1) l0) as B0 by (unfold within, l0; by rewrite take_idemp).
  destruct (borrow_pass_first l0 L0 B0) as (L1 & E1 & B1 & B1'). destruct (borrow_pass_second _ L1 B1 B1') as (L2 & E2 & B2).
  rewrite third_borrow by (done || apply B2; lia).
  destruct (carry_pass_first _ L2 B2) as (L3 & E3 & B3 & B3'). destruct (carry_pass_second _ L3 B3 B3') as (L4 & E4 & B4).
  destruct (subtract_prime_spec _ (conj L4 B4)) as [B5 E5]. rewrite pack_spec by done. f_equal. rewrite E5.
  unfold value. fold l0. by rewrite <- E1, <- E2, <- E3, <- E4.
Qed.

(** Bytes of a number below the prime come back as they are. *)
Lemma fcontract_fexpand output limbs input :
  length output = 32%nat -> (10 <= length limbs)%nat -> bytes input -> length input = 32%nat -> le_word input < p25519 ->
  fcontract output (fexpand limbs input) = input.
Proof.
  intros Ho Hl Hb Hi Hp. destruct (fexpand_spec limbs input Hl Hb Hi) as [Hw Hv].
  rewrite fcontract_spec by (rewrite ?length_fexpand; done). rewrite Hv.
  pose proof (le_word_range input Hb) as Hr. unfold in_range in Hr. pose proof (eq_refl : p25519 = 2 ^ 255 - 19).
  rewrite (Z.mod_small _ (2 ^ 255)), Z.mod_small by lia. rewrite <- Hi. by apply le_bytes_le_word.
Qed.

(** [fcontract] writes the 32 bytes of the least non-negative
    representative of what any ten limbs within 2^26 stand for, positive and
    negative alike: neither its two borrowing nor its two carrying passes leave
    a limb out of its width, and the masked subtraction of the prime happens
    exactly when it is due. *)
Theorem fcontract_canonical output input_limbs :
  length output = 32%nat -> (10 <= length input_limbs)%nat -> within (2 ^ 26 - 1) input_limbs ->
  fcontract output input_limbs = le_bytes 32 (value input_limbs mod p25519).
Proof. apply fcontract_spec. Qed.

Lemma fcontract_canonical_witness : fcontract (replicate 32 7) (-1 :: replicate 9 0) = 0xec :: replicate 30 0xff ++ [0x7f].
Proof.
  rewrite fcontract_canonical; [vm_compute; reflexivity|reflexivity|cbn; lia|repeat constructor; cbn; lia].
Defined.

(** Expanding the bytes of a number below the prime into limbs and
    contracting them gives the bytes back; the highest bit of the input is
    dropped, and the limbs are within 2^26. *)
Theorem fexpand_fcontract output limbs input :
  length output = 32%nat -> (10 <= length limbs)%nat -> bytes input -> length input = 32%nat ->
  within (2 ^ 26 - 1) (fexpand limbs input) /\ value (fexpand limbs input) = le_word input mod 2 ^ 255 /\
  (le_word input < p25519 -> fcontract output (fexpand limbs input) = input).
Proof.
  intros Ho Hl Hb Hi. destruct (fexpand_spec limbs input Hl Hb Hi) as [Hw Hv]. split; [done|]. split; [done|].
  intros Hp. by apply fcontract_fexpand.
Qed.

Lemma fexpand_fcontract_witness :
  fcontract (replicate 32 7) (fexpand (replicate 10 (-1)) (0xec :: replicate 30 0xff ++ [0x7f])) =
  0xec :: replicate 30 0xff ++ [0x7f].
Proof.
  apply fexpand_fcontract; [reflexivity|cbn; lia|by decide_true|reflexivity|]. by decide_true.
Defined.
