(* ===== verification/Donna.v ===== *)
(** * The Diffie-Hellman function

    GEC-block/src/curve25519-donna.c, from [fmonty] on: the Montgomery ladder
    with its arrays, the inversion, and [curve25519_donna]; and the ladder of
    RFC 7748 over the integers modulo the prime, which it is shown to
    compute.  The contents of the local arrays that the code does not
    initialise are arguments. *)

From Stdlib Require Import Zpow_facts.
From S2P Require Import Prelude Limbs LimbBytes.

Local Open Scope Z_scope.

(** ** The code *)

(** What the uninitialised arrays of [fmonty] hold. *)
Record monty_stack := { u_zzz : list Z; u_xx : list Z; u_zz : list Z; u_xxxprime : list Z; u_zzzprime : list Z }.

(** The arrays after [fmonty]: [x2], [z2], [x3], [z3], and [x], [z], [xprime],
    [zprime], which it destroys. *)
Record monty_out := { m_x2 : list Z; m_z2 : list Z; m_x3 : list Z; m_z3 : list Z;
  m_x : list Z; m_z : list Z; m_xprime : list Z; m_zprime : list Z }.

Definition fmonty (u : monty_stack) (x3 z3 x z xprime zprime qmqp : list Z) : monty_out :=
  let origx := take 10 x in
  let x := fsum x z in
  let z := fdifference z origx in
  let origxprime := take 10 xprime in
  let xprime := fsum xprime zprime in
  let zprime := fdifference zprime origxprime in
  let xxprime := fproduct xprime z in
  let zzprime := fproduct x zprime in
  let xxprime := freduce_coefficients (freduce_degree xxprime) in
  let zzprime := freduce_coefficients (freduce_degree zzprime) in
  let origxprime := take 10 xxprime in
  let xxprime := fsum xxprime zzprime in
  let zzprime := fdifference zzprime origxprime in
  let xxxprime := fsquare (u_xxxprime u) xxprime in
  let zzzprime := fsquare (u_zzzprime u) zzprime in
  let zzprime := fproduct zzzprime qmqp in
  let zzprime := freduce_coefficients (freduce_degree zzprime) in
  let x3 := copy_limbs x3 xxxprime in
  let z3 := copy_limbs z3 zzprime in
  let xx := fsquare (u_xx u) x in
  let zz := fsquare (u_zz u) z in
  let x2 := fproduct xx zz in
  let x2 := freduce_coefficients (freduce_degree x2) in
  let zz := fdifference zz xx in
  let zzz := memset_at (u_zzz u) 10 9 0 in
  let zzz := fscalar_product zzz zz 121665 in
  let zzz := freduce_coefficients zzz in
  let zzz := fsum zzz xx in
  let z2 := fproduct zz zzz in
  let z2 := freduce_coefficients (freduce_degree z2) in
  {| m_x2 := x2; m_z2 := z2; m_x3 := x3; m_z3 := z3; m_x := x; m_z := z; m_xprime := xprime; m_zprime := zprime |}.

(** Both loops over the limbs at once: [a] and [b] after the swap. *)
Definition swap_conditional (a b : list Z) (iswap : Z) : list Z * list Z :=
  let swap := s32 (- iswap) in
  let x ai bi := Z.land swap (Z.lxor (s32 ai) (s32 bi)) in
  (on_limbs (fun ai bi => Z.lxor (s32 ai) (x ai bi)) a b,
   on_limbs (fun bi ai => Z.lxor (s32 bi) (x ai bi)) b a).

(** The arrays [a] to [h], under the names that the pointers give them. *)
Record ladder_arrays := { nqpqx : list Z; nqpqz : list Z; nqx : list Z; nqz : list Z;
  nqpqx2 : list Z; nqpqz2 : list Z; nqx2 : list Z; nqz2 : list Z }.

(** The body of the inner loop, but for the shift of the byte. *)
Definition cmult_bit (u : monty_stack) (q : list Z) (s : ladder_arrays) (bit : Z) : ladder_arrays :=
  let '(nqx0, nqpqx0) := swap_conditional (nqx s) (nqpqx s) bit in
  let '(nqz0, nqpqz0) := swap_conditional (nqz s) (nqpqz s) bit in
  let m := fmonty u (nqpqx2 s) (nqpqz2 s) nqx0 nqz0 nqpqx0 nqpqz0 q in
  let '(nqx2, nqpqx2) := swap_conditional (m_x2 m) (m_x3 m) bit in
  let '(nqz2, nqpqz2) := swap_conditional (m_z2 m) (m_z3 m) bit in
  {| nqx := nqx2; nqx2 := m_x m; nqz := nqz2; nqz2 := m_z m;
     nqpqx := nqpqx2; nqpqx2 := m_xprime m; nqpqz := nqpqz2; nqpqz2 := m_zprime m |}.

(** [stack k] is what call [k] of [fmonty] finds in its frame. *)
Definition cmult_byte (stack : Z -> monty_stack) (n q : list Z) (s : ladder_arrays) (i : Z) : ladder_arrays :=
  (foldl (fun sb j =>
     let '(s, byte) := sb in
     let bit := Z.shiftr byte 7 in
     (cmult_bit (stack (8 * i + j)) q s bit, u8 (Z.shiftl byte 1)))
   (s, rd n (31 - i)) (seqZ 0 8)).1.

Definition limbs19 (x : Z) : list Z := x :: replicate 18 0.

Definition cmult (stack : Z -> monty_stack) (resultx resultz n q : list Z) : list Z * list Z :=
  let s := {| nqpqx := memcpy_at (limbs19 0) 0 (take 10 q); nqpqz := limbs19 1; nqx := limbs19 1; nqz := limbs19 0;
              nqpqx2 := limbs19 0; nqpqz2 := limbs19 1; nqx2 := limbs19 0; nqz2 := limbs19 1 |} in
  let s := foldl (cmult_byte stack n q) s (seqZ 0 32) in
  (copy_limbs resultx (nqx s), copy_limbs resultz (nqz s)).

(** [for (i = 2; i < n; i += 2) { fsquare(a, b); fsquare(b, a); }]: the two
    arrays after [k] iterations *)
Definition square_twice (ab : list Z * list Z) : list Z * list Z :=
  let a := fsquare ab.1 ab.2 in
  let b := fsquare ab.2 a in
  (a, b).

Definition square_loop (k : nat) (a b : list Z) : list Z * list Z := Nat.iter k square_twice (a, b).

(** What the uninitialised arrays of [crecip] hold. *)
Record recip_stack := { u_z2 : list Z; u_z9 : list Z; u_z11 : list Z; u_5_0 : list Z; u_10_0 : list Z;
  u_20_0 : list Z; u_50_0 : list Z; u_100_0 : list Z; u_t0 : list Z; u_t1 : list Z }.

Definition crecip (u : recip_stack) (out z : list Z) : list Z :=
  let z2 := fsquare (u_z2 u) z in
  let t1 := fsquare (u_t1 u) z2 in
  let t0 := fsquare (u_t0 u) t1 in
  let z9 := fmul (u_z9 u) t0 z in
  let z11 := fmul (u_z11 u) z9 z2 in
  let t0 := fsquare t0 z11 in
  let z2_5_0 := fmul (u_5_0 u) t0 z9 in
  let t0 := fsquare t0 z2_5_0 in
  let t1 := fsquare t1 t0 in
  let t0 := fsquare t0 t1 in
  let t1 := fsquare t1 t0 in
  let t0 := fsquare t0 t1 in
  let z2_10_0 := fmul (u_10_0 u) t0 z2_5_0 in
  let t0 := fsquare t0 z2_10_0 in
  let t1 := fsquare t1 t0 in
  let '(t0, t1) := square_loop 4 t0 t1 in
  let z2_20_0 := fmul (u_20_0 u) t1 z2_10_0 in
  let t0 := fsquare t0 z2_20_0 in
  let t1 := fsquare t1 t0 in
  let '(t0, t1) := square_loop 9 t0 t1 in
  let t0 := fmul t0 t1 z2_20_0 in
  let t1 := fsquare t1 t0 in
  let t0 := fsquare t0 t1 in
  let '(t1, t0) := square_loop 4 t1 t0 in
  let z2_50_0 := fmul (u_50_0 u) t0 z2_10_0 in
  let t0 := fsquare t0 z2_50_0 in
  let t1 := fsquare t1 t0 in
  let '(t0, t1) := square_loop 24 t0 t1 in
  let z2_100_0 := fmul (u_100_0 u) t1 z2_50_0 in
  let t1 := fsquare t1 z2_100_0 in
  let t0 := fsquare t0 t1 in
  let '(t1, t0) := square_loop 49 t1 t0 in
  let t1 := fmul t1 t0 z2_100_0 in
  let t0 := fsquare t0 t1 in
  let t1 := fsquare t1 t0 in
  let '(t0, t1) := square_loop 24 t0 t1 in
  let t0 := fmul t0 t1 z2_50_0 in
  let t1 := fsquare t1 t0 in
  let t0 := fsquare t0 t1 in
  let t1 := fsquare t1 t0 in
  let t0 := fsquare t0 t1 in
  let t1 := fsquare t1 t0 in
  fmul out t1 z11.

(** What the uninitialised arrays of [curve25519_donna] and of its callees
    hold. *)
Record donna_stack := { u_bp : list Z; u_x : list Z; u_z : list Z; u_zmone : list Z;
  u_monty : Z -> monty_stack; u_recip : recip_stack }.

Definition clamp (e : list Z) : list Z :=
  let e := wr e 0 (Z.land (rd e 0) 248) in
  let e := wr e 31 (Z.land (rd e 31) 127) in
  wr e 31 (Z.lor (rd e 31) 64).

(** The public key that is written; the function returns 0. *)
Definition curve25519_donna (u : donna_stack) (mypublic secret basepoint : list Z) : list Z :=
  let e := clamp (take 32 secret) in
  let bp := fexpand (u_bp u) basepoint in
  let '(x, z) := cmult (u_monty u) (u_x u) (u_z u) e bp in
  let zmone := crecip (u_recip u) (u_zmone u) z in
  let z := fmul z x zmone in
  fcontract mypublic z.

(** ** X25519 *)

(** RFC 7748, section 5, over the integers modulo the prime.  The scalar has
    256 bits; the most significant one is zero. *)
Record ladder := { r_x2 : Z; r_z2 : Z; r_x3 : Z; r_z3 : Z }.

Definition cswap (swap : bool) (s : ladder) : ladder :=
  if swap then {| r_x2 := r_x3 s; r_z2 := r_z3 s; r_x3 := r_x2 s; r_z3 := r_z2 s |} else s.

Definition ladder_step (x1 : Z) (s : ladder) : ladder :=
  let A := r_x2 s + r_z2 s in
  let AA := A ^ 2 in
  let B := r_x2 s - r_z2 s in
  let BB := B ^ 2 in
  let E := AA - BB in
  let C := r_x3 s + r_z3 s in
  let D := r_x3 s - r_z3 s in
  let DA := D * A in
  let CB := C * B in
  {| r_x3 := (DA + CB) ^ 2 mod p25519; r_z3 := (x1 * (DA - CB) ^ 2) mod p25519;
     r_x2 := (AA * BB) mod p25519; r_z2 := (E * (AA + 121665 * E)) mod p25519 |}.

Definition ladder_bit (x1 k : Z) (s : ladder) (t : Z) : ladder :=
  let swap := Z.testbit k (255 - t) in
  cswap swap (ladder_step x1 (cswap swap s)).

Definition montgomery_ladder (x1 k : Z) (n : Z) : ladder :=
  foldl (ladder_bit x1 k) {| r_x2 := 1; r_z2 := 0; r_x3 := x1; r_z3 := 1 |} (seqZ 0 n).

(** The bytes as a little-endian number without its three lowest bits, as
    2^254 plus eight times a number below 2^251. *)
Definition decodeScalar25519 (k : list Z) : Z := 2 ^ 254 + 8 * ((le_word k / 8) mod 2 ^ 251).

Definition X25519 (k u : list Z) : list Z :=
  let x1 := le_word u mod 2 ^ 255 in
  let s := montgomery_ladder x1 (decodeScalar25519 k) 256 in
  le_bytes 32 ((r_x2 s * Zpow_mod (r_z2 s) (p25519 - 2) p25519) mod p25519).

(** ** The field operations in a row *)

#[export] Instance eqp_pow n : Proper (eqp ==> eqp) (fun x => x ^ n).
Proof.
  intros x y H. unfold eqp in *. destruct (Z.lt_ge_cases n 0) as [Hn|Hn]; [by rewrite !Z.pow_neg_r by done|].
  by rewrite (Zpower_mod x), (Zpower_mod y), H by done.
Qed.

Lemma eqp_eq a b : a = b -> a =p b.
Proof. by intros ->. Qed.

Lemma eqp_mod x : x mod p25519 =p x.
Proof. unfold eqp. by rewrite Z.mod_mod. Qed.

(** Values of reduced arrays. *)
Abbreviation limbs := (rep (2 ^ 26 - 1)).

Lemma freduce_coefficients_rep B l v : (11 <= length l)%nat -> B <= 280 * 2 ^ 54 -> rep B l v -> limbs (freduce_coefficients l) v.
Proof.
  intros Hl HB Hv. apply (rep_weaken B _ _ _ HB) in Hv as (_ & Hb & Hv).
  destruct (freduce_coefficients_spec l Hl Hb) as (L & B' & V). split; [lia|]. split; [done|]. by rewrite V.
Qed.

Lemma length_carry d w l i : length (carry d w l i) = length l.
Proof. unfold carry. by rewrite !length_wr. Qed.

Lemma length_freduce_coefficients l : length (freduce_coefficients l) = length l.
Proof.
  unfold freduce_coefficients. rewrite length_carry, !length_wr. cbn [foldl]. unfold carries. by rewrite !length_carry, length_wr.
Qed.

Lemma rep_length B l v : rep B l v -> (10 <= length l)%nat.
Proof. by intros [H _]. Qed.

Lemma rep_copy B l v : rep B l v -> rep B (take 10 l) v.
Proof. intros H. pose proof (rep_length _ _ _ H). apply (rep_take B l); [by rewrite take_idemp|rewrite length_take; lia|done]. Qed.

(** Any ten limbs stand for something. *)
Lemma rep_any l : (10 <= length l)%nat -> exists B v, rep B l v.
Proof.
  intros Hl. assert (forall k : list Z, exists B, Forall (fun x => Z.abs x <= B) k) as H.
  { induction k as [|x k [B IH]]; [by exists 0|]. exists (Z.max (Z.abs x) B). apply List.Forall_cons; [lia|].
    eapply List.Forall_impl; [|exact IH]. cbn. lia. }
  destruct (H (take 10 l)) as [B HB]. exists B, (value l). by split.
Qed.

Definition wf_monty_stack (u : monty_stack) : Prop :=
  length (u_zzz u) = 19%nat /\ length (u_xx u) = 19%nat /\ length (u_zz u) = 19%nat /\
  length (u_xxxprime u) = 19%nat /\ length (u_zzzprime u) = 19%nat.

Lemma fmonty_spec u x3 z3 x z xprime zprime qmqp a b c d q :
  wf_monty_stack u -> length x3 = 19%nat -> length z3 = 19%nat ->
  limbs x a -> limbs z b -> limbs xprime c -> limbs zprime d -> limbs qmqp q ->
  let m := fmonty u x3 z3 x z xprime zprime qmqp in
  let s := ladder_step q {| r_x2 := a; r_z2 := b; r_x3 := c; r_z3 := d |} in
  limbs (m_x2 m) (r_x2 s) /\ limbs (m_z2 m) (r_z2 s) /\ limbs (m_x3 m) (r_x3 s) /\ limbs (m_z3 m) (r_z3 s).
Proof.
  intros (Lzzz & Lxx & Lzz & Lxxxp & Lzzzp) Lx3 Lz3 Hx Hz Hx' Hz' Hq m s.
  pose proof (fsum_rep _ _ _ _ _ _ Hx Hz ltac:(done)) as Hx1.
  pose proof (fdifference_rep _ _ _ _ _ _ Hz (rep_copy _ _ _ Hx) ltac:(done)) as Hz1.
  pose proof (fsum_rep _ _ _ _ _ _ Hx' Hz' ltac:(done)) as Hx1'.
  pose proof (fdifference_rep _ _ _ _ _ _ Hz' (rep_copy _ _ _ Hx') ltac:(done)) as Hz1'.
  pose proof (fproduct_reduced _ _ _ _ _ _ Hx1' Hz1 ltac:(done) ltac:(done)) as Hxxp.
  pose proof (fproduct_reduced _ _ _ _ _ _ Hx1 Hz1' ltac:(done) ltac:(done)) as Hzzp.
  pose proof (fsum_rep _ _ _ _ _ _ Hxxp Hzzp ltac:(done)) as Hs.
  pose proof (fdifference_rep _ _ _ _ _ _ Hzzp (rep_copy _ _ _ Hxxp) ltac:(done)) as Hd.
  pose proof (fsquare_rep _ (u_xxxprime u) _ _ ltac:(lia) Hs ltac:(done)) as Hs2.
  pose proof (fsquare_rep _ (u_zzzprime u) _ _ ltac:(lia) Hd ltac:(done)) as Hd2.
  pose proof (fproduct_reduced _ _ _ _ _ _ Hd2 Hq ltac:(done) ltac:(done)) as Hz3.
  pose proof (fsquare_rep _ (u_xx u) _ _ ltac:(lia) Hx1 ltac:(done)) as Hxx.
  pose proof (fsquare_rep _ (u_zz u) _ _ ltac:(lia) Hz1 ltac:(done)) as Hzz.
  pose proof (fproduct_reduced _ _ _ _ _ _ Hxx Hzz ltac:(done) ltac:(done)) as Hx2.
  pose proof (fdifference_rep _ _ _ _ _ _ Hzz Hxx ltac:(done)) as HE.
  assert (length (memset_at (u_zzz u) 10 9 0) = 19%nat) as Lm by (unfold memset_at; by rewrite length_inserts).
  destruct (rep_any (memset_at (u_zzz u) 10 9 0) ltac:(lia)) as (Bm & vm & Hm).
  pose proof (fscalar_product_rep _ _ _ _ _ _ 121665 Hm HE ltac:(done) ltac:(done)) as Hsp.
  eapply freduce_coefficients_rep in Hsp; [|unfold fscalar_product; rewrite length_on_limbs; [lia|lia|apply HE]|done].
  pose proof (fsum_rep _ _ _ _ _ _ Hsp Hxx ltac:(done)) as Hzs.
  pose proof (fproduct_reduced _ _ _ _ _ _ HE Hzs ltac:(done) ltac:(done)) as Hz2.
  split; [|split; [|split]].
  - refine (proj1 (rep_proper _ _ _ _ _) Hx2). subst s. cbn [ladder_step r_x2 r_z2]. rewrite eqp_mod. apply eqp_eq. ring.
  - refine (proj1 (rep_proper _ _ _ _ _) Hz2). subst s. cbn [ladder_step r_x2 r_z2]. rewrite eqp_mod. apply eqp_eq. ring.
  - refine (copy_limbs_rep _ _ _ _ _ (proj1 (rep_proper _ _ _ _ _) Hs2)); [lia|].
    subst s. cbn [ladder_step r_x3 r_z3 r_x2 r_z2]. rewrite eqp_mod. apply eqp_eq. ring.
  - refine (copy_limbs_rep _ _ _ _ _ (proj1 (rep_proper _ _ _ _ _) Hz3)); [lia|].
    subst s. cbn [ladder_step r_x3 r_z3 r_x2 r_z2]. rewrite eqp_mod. apply eqp_eq. ring.
Qed.

(** ** The ladder *)

Lemma zip_with_fst {A B} (P : A -> Prop) (Q : B -> Prop) (f : A -> B -> A) u v :
  length u = length v -> Forall P u -> Forall Q v -> (forall x y, P x -> Q y -> f x y = x) -> zip_with f u v = u.
Proof.
  intros Hl Hu Hv Hf. revert v Hl Hv. induction Hu as [|x u Hx Hu IH]; intros [|y v] Hl Hv; try discriminate Hl; [done|].
  apply List.Forall_cons_iff in Hv as [Hy Hv]. cbn [zip_with]. rewrite Hf by done. f_equal. apply IH; [by injection Hl|done].
Qed.

Lemma zip_with_snd {A B} (P : A -> Prop) (Q : B -> Prop) (f : A -> B -> B) u v :
  length u = length v -> Forall P u -> Forall Q v -> (forall x y, P x -> Q y -> f x y = y) -> zip_with f u v = v.
Proof.
  intros Hl Hu Hv Hf. rewrite <- zip_with_flip. apply (zip_with_fst Q P); [done..|]. intros. by apply Hf.
Qed.

Lemma swap_conditional_spec a b (swap : bool) x y :
  limbs a x -> limbs b y ->
  let ab := swap_conditional a b (Z.b2z swap) in
  limbs ab.1 (if swap then y else x) /\ limbs ab.2 (if swap then x else y) /\
  length ab.1 = length a /\ length ab.2 = length b.
Proof.
  intros Ha Hb. pose proof (rep_length _ _ _ Ha) as La. pose proof (rep_length _ _ _ Hb) as Lb. cbv zeta.
  unfold swap_conditional. cbn [fst snd]. rewrite !length_on_limbs by done.
  assert (length (take 10 a) = length (take 10 b)) as Ht by (rewrite !length_take; lia).
  pose proof (proj1 (proj2 Ha)) as Wa. pose proof (proj1 (proj2 Hb)) as Wb.
  split; [|split; [|done]]; [apply (rep_take _ (if swap then b else a))|apply (rep_take _ (if swap then a else b))];
    try (by rewrite length_on_limbs); try (by destruct swap); rewrite take_on_limbs by done; destruct swap; symmetry.
  - eapply zip_with_snd; [done|exact Wa|exact Wb|]. intros u v Hu Hv. cbn beta in Hu, Hv.
    rewrite (s32_small u), (s32_small v) by lia. change (s32 (- Z.b2z true)) with (-1). rewrite Z.land_m1_l. by rewrite <- Z.lxor_assoc, Z.lxor_nilpotent, Z.lxor_0_l.
  - eapply zip_with_fst; [done|exact Wa|exact Wb|]. intros u v Hu Hv. cbn beta in Hu, Hv.
    rewrite (s32_small u), (s32_small v) by lia. change (s32 (- Z.b2z false)) with 0. by rewrite Z.land_0_l, Z.lxor_0_r.
  - eapply zip_with_snd; [done|exact Wb|exact Wa|]. intros u v Hu Hv. cbn beta in Hu, Hv.
    rewrite (s32_small u), (s32_small v) by lia. change (s32 (- Z.b2z true)) with (-1). rewrite Z.land_m1_l, (Z.lxor_comm v u).
    by rewrite <- Z.lxor_assoc, Z.lxor_nilpotent, Z.lxor_0_l.
  - eapply zip_with_fst; [done|exact Wb|exact Wa|]. intros u v Hu Hv. cbn beta in Hu, Hv.
    rewrite (s32_small u), (s32_small v) by lia. change (s32 (- Z.b2z false)) with 0. by rewrite Z.land_0_l, Z.lxor_0_r.
Qed.

(** The arrays hold the state of the ladder. *)
Record holds (s : ladder_arrays) (r : ladder) : Prop := {
  holds_x2 : limbs (nqx s) (r_x2 r); holds_z2 : limbs (nqz s) (r_z2 r);
  holds_x3 : limbs (nqpqx s) (r_x3 r); holds_z3 : limbs (nqpqz s) (r_z3 r);
  holds_lengths : length (nqpqx s) = 19%nat /\ length (nqpqz s) = 19%nat /\
                  length (nqpqx2 s) = 19%nat /\ length (nqpqz2 s) = 19%nat }.

Lemma length_fmonty u x3 z3 x z xprime zprime q :
  (10 <= length x)%nat -> (10 <= length xprime)%nat -> (10 <= length zprime)%nat ->
  let m := fmonty u x3 z3 x z xprime zprime q in
  length (m_x3 m) = length x3 /\ length (m_z3 m) = length z3 /\
  length (m_xprime m) = length xprime /\ length (m_zprime m) = length zprime.
Proof.
  intros Hx Hx' Hz'. cbn [fmonty m_x3 m_z3 m_xprime m_zprime]. unfold fsum, fdifference.
  rewrite !length_copy_limbs, !length_on_limbs; rewrite ?length_take; lia.
Qed.

Lemma cmult_bit_spec u q x1 s r swap :
  wf_monty_stack u -> limbs q x1 -> holds s r ->
  holds (cmult_bit u q s (Z.b2z swap)) (cswap swap (ladder_step x1 (cswap swap r))).
Proof.
  intros Hu Hq [Hx2 Hz2 Hx3 Hz3 (L1 & L2 & L3 & L4)]. unfold cmult_bit.
  destruct (swap_conditional_spec _ _ swap _ _ Hx2 Hx3) as (X2 & X3 & _ & LX).
  destruct (swap_conditional_spec _ _ swap _ _ Hz2 Hz3) as (Z2 & Z3 & _ & LZ).
  destruct (swap_conditional (nqx s) _ _) as [nqx0 nqpqx0]. destruct (swap_conditional (nqz s) _ _) as [nqz0 nqpqz0].
  cbn [fst snd] in *. destruct (fmonty_spec u _ _ _ _ _ _ _ _ _ _ _ _ Hu L3 L4 X2 Z2 X3 Z3 Hq) as (M2 & N2 & M3 & N3).
  destruct (length_fmonty u (nqpqx2 s) (nqpqz2 s) nqx0 nqz0 nqpqx0 nqpqz0 q) as (L5 & L6 & L7 & L8); [apply X2|apply X3|apply Z3|].
  set (m := fmonty _ _ _ _ _ _ _ _) in *. clearbody m.
  destruct (swap_conditional_spec _ _ swap _ _ M2 M3) as (S2 & S3 & _ & LS).
  destruct (swap_conditional_spec _ _ swap _ _ N2 N3) as (T2 & T3 & _ & LT).
  destruct (swap_conditional (m_x2 m) _ _) as [nqx1 nqpqx1]. destruct (swap_conditional (m_z2 m) _ _) as [nqz1 nqpqz1].
  cbn [fst snd] in *. split; cbn [nqx nqz nqpqx nqpqz nqpqx2 nqpqz2].
  5: { repeat split; congruence. }
  all: destruct swap; assumption.
Qed.

Lemma top_bit v j : is_u8 v -> 0 <= j < 8 -> Z.shiftr (u8 (v * 2 ^ j)) 7 = Z.b2z (Z.testbit v (7 - j)).
Proof.
  intros Hv Hj. assert (j ∈ seqZ 0 8) as Hin by (apply elem_of_seqZ; lia). cbv in Hin.
  repeat (apply elem_of_cons in Hin as [->|Hin];
    [apply Z.eqb_eq;
     match goal with |- (Z.shiftr (u8 (v * 2 ^ ?j)) 7 =? _) = true =>
       apply (forall_u8 (fun v => Z.shiftr (u8 (v * 2 ^ j)) 7 =? Z.b2z (Z.testbit v (7 - j)))); [vm_compute; reflexivity|done] end|]).
  by apply elem_of_nil in Hin.
Qed.

Lemma testbit_le_word n a b : bytes n -> 0 <= a < Z.of_nat (length n) -> 0 <= b < 8 ->
  Z.testbit (le_word n) (8 * a + b) = Z.testbit (rd n a) b.
Proof.
  intros Hn Ha Hb. rewrite <- (le_bytes_le_word n Hn) at 2. rewrite rd_le_bytes by done.
  change ((le_word n / 2 ^ (8 * a)) mod 2 ^ 8) with (u8 (le_word n / 2 ^ (8 * a))).
  rewrite wrap_testbit, bool_decide_eq_true_2, andb_true_r by lia. rewrite <- Z.shiftr_div_pow2, Z.shiftr_spec by lia.
  f_equal. lia.
Qed.

Section ladder.
Context (stack : Z -> monty_stack) (Hstack : forall k, wf_monty_stack (stack k)).
Context (n q : list Z) (x1 : Z) (Hn : bytes n) (Ln : length n = 32%nat) (Hq : limbs q x1).

Abbreviation at_bit := (montgomery_ladder x1 (le_word n)).

Lemma montgomery_ladder_succ t : 0 <= t -> at_bit (t + 1) = ladder_bit x1 (le_word n) (at_bit t) t.
Proof.
  intros Ht. unfold montgomery_ladder. rewrite seqZ_app, foldl_app by lia. done.
Qed.

Lemma cmult_byte_spec s i : 0 <= i < 32 -> holds s (at_bit (8 * i)) -> holds (cmult_byte stack n q s i) (at_bit (8 * (i + 1))).
Proof.
  intros Hi Hs. unfold cmult_byte. set (v := rd n (31 - i)). assert (is_u8 v) as Hv by (by apply rd_u8).
  pose (P j (sb : ladder_arrays * Z) := holds sb.1 (at_bit (8 * i + j)) /\ sb.2 = u8 (v * 2 ^ j)).
  match goal with |- holds (foldl ?f ?a ?l).1 _ => assert (P (Z.of_nat 8) (foldl f a (seqZ 0 (Z.of_nat 8)))) as [H _] end.
  { apply foldl_seqZ_ind.
    - split; cbn [fst snd]; [by rewrite Z.add_0_r|]. rewrite Z.mul_1_r. by rewrite wrap_id.
    - intros j [s' byte] Hj [Hs' Hb]. cbn [fst snd] in *. subst byte. split; cbn [fst snd].
      + rewrite top_bit by (done || lia). rewrite Z.add_assoc, montgomery_ladder_succ by lia. unfold ladder_bit.
        replace (255 - (8 * i + j)) with (8 * (31 - i) + (7 - j)) by lia.
        rewrite testbit_le_word by (done || lia). fold v. by apply cmult_bit_spec.
      + rewrite Z.shiftl_mul_pow2, Z.pow_add_r by lia. unfold wrap. rewrite Z.mul_mod_idemp_l by done. f_equal. ring. }
  change (Z.of_nat 8) with 8 in H. by replace (8 * (i + 1)) with (8 * i + 8) by lia.
Qed.

Lemma cmult_spec resultx resultz :
  (10 <= length resultx)%nat -> (10 <= length resultz)%nat -> length q = 10%nat ->
  let xz := cmult stack resultx resultz n q in
  limbs xz.1 (r_x2 (at_bit 256)) /\ limbs xz.2 (r_z2 (at_bit 256)) /\
  length xz.1 = length resultx /\ length xz.2 = length resultz.
Proof.
  intros Lx Lz Lq. unfold cmult. cbv zeta. match goal with |- context [foldl (cmult_byte stack n q) ?s0 _] => set (s := s0) end.
  assert (holds s (at_bit 0)) as H0.
  { split; cbn [s nqx nqz nqpqx nqpqz].
    - split; [cbn; lia|]. split; [repeat constructor; cbn; lia|reflexivity].
    - split; [cbn; lia|]. split; [repeat constructor; cbn; lia|reflexivity].
    - apply copy_limbs_rep; [cbn; lia|done].
    - split; [cbn; lia|]. split; [repeat constructor; cbn; lia|reflexivity].
    - by rewrite length_memcpy_at. }
  pose (P i s := holds s (at_bit (8 * i))).
  assert (P (Z.of_nat 32) (foldl (cmult_byte stack n q) s (seqZ 0 (Z.of_nat 32)))) as H.
  { apply foldl_seqZ_ind; [done|]. intros k a Hk Ha. by apply cmult_byte_spec. }
  unfold P in H. change (8 * Z.of_nat 32) with 256 in H. change (Z.of_nat 32) with 32 in H. cbn [fst snd]. rewrite !length_copy_limbs.
  split; [|split; [|done]]; apply copy_limbs_rep; [done|apply (holds_x2 _ _ H)|done|apply (holds_z2 _ _ H)].
Qed.
End ladder.

(** ** The inversion *)

(** The limbs of a power of [x]. *)
Definition powers (x n : Z) (l : list Z) : Prop := 0 <= n /\ limbs l (x ^ n).

Lemma powers_length x n l : powers x n l -> (10 <= length l)%nat.
Proof. intros [_ H]. exact (rep_length _ _ _ H). Qed.

Lemma powers_square x n o a : (10 <= length o)%nat -> powers x n a -> powers x (2 * n) (fsquare o a).
Proof.
  intros Ho [Hn Ha]. split; [lia|]. replace (x ^ (2 * n)) with (x ^ n * x ^ n).
  - exact (fsquare_rep _ o a _ Ho Ha ltac:(done)).
  - rewrite <- Z.pow_add_r by done. f_equal. lia.
Qed.

Lemma powers_mul x n m o a b : (10 <= length o)%nat -> powers x n a -> powers x m b -> powers x (n + m) (fmul o a b).
Proof.
  intros Ho [Hn Ha] [Hm Hb]. split; [lia|]. rewrite Z.pow_add_r by done. exact (fmul_rep _ _ o a b _ _ Ho Ha Hb ltac:(done) ltac:(done)).
Qed.

#[local] Opaque fsquare fmul.

Lemma square_twice_spec x ab n : (10 <= length ab.1)%nat -> powers x n ab.2 ->
  (10 <= length (square_twice ab).1)%nat /\ powers x (n * 4) (square_twice ab).2.
Proof.
  destruct ab as [a b]. cbn [fst snd]. intros La Hb. unfold square_twice. cbn [fst snd].
  pose proof (powers_square x n a b La Hb) as Ha. revert Ha. generalize (fsquare a b). intros a' Ha.
  split; [exact (powers_length _ _ _ Ha)|]. replace (n * 4) with (2 * (2 * n)) by ring.
  apply powers_square; [exact (powers_length _ _ _ Hb)|exact Ha].
Qed.

Lemma square_loop_spec x k a b n : (10 <= length a)%nat -> powers x n b ->
  (10 <= length (square_loop k a b).1)%nat /\ powers x (n * 4 ^ Z.of_nat k) (square_loop k a b).2.
Proof.
  intros La Hb. unfold square_loop. induction k as [|k [IHa IHb]].
  { cbn [Nat.iter nat_rect fst snd]. split; [done|]. change (4 ^ Z.of_nat 0) with 1. by rewrite Z.mul_1_r. }
  rewrite Nat.iter_succ. revert IHa IHb. generalize (Nat.iter k square_twice (a, b)). intros ab Ha' Hb'.
  replace (n * 4 ^ Z.of_nat (S k)) with (n * 4 ^ Z.of_nat k * 4) by (rewrite Nat2Z.inj_succ, Z.pow_succ_r by lia; ring).
  by apply square_twice_spec.
Qed.

Definition wf_recip_stack (u : recip_stack) : Prop :=
  Forall (fun l => length l = 10%nat)
    [u_z2 u; u_z9 u; u_z11 u; u_5_0 u; u_10_0 u; u_20_0 u; u_50_0 u; u_100_0 u; u_t0 u; u_t1 u].

Lemma let_square x n m o a (b : list Z -> list Z) :
  (10 <= length o)%nat -> powers x n a -> (forall y, powers x (2 * n) y -> powers x m (b y)) ->
  powers x m (let y := fsquare o a in b y).
Proof. intros Ho Ha Hb. apply Hb. by apply powers_square. Qed.

Lemma let_mul x n n' m o a a' (b : list Z -> list Z) :
  (10 <= length o)%nat -> powers x n a -> powers x n' a' -> (forall y, powers x (n + n') y -> powers x m (b y)) ->
  powers x m (let y := fmul o a a' in b y).
Proof. intros Ho Ha Ha' Hb. apply Hb. by apply powers_mul. Qed.

(** One assignment of [crecip]; the exponent is evaluated. *)
Ltac evaluate_power H :=
  lazymatch type of H with powers _ ?n _ => let n' := eval vm_compute in n in change n with n' in H end.

Ltac has_length := first [eapply powers_length; eassumption|assumption].

Ltac recip_step :=
  lazymatch goal with
  | |- powers ?x ?m (let y := fsquare ?o ?a in @?b y) =>
      let y := fresh "y" in let H := fresh "H" in
      refine (let_square x _ m o a b _ ltac:(eassumption) _); [has_length|intros y H; evaluate_power H; cbv beta]
  | |- powers ?x ?m (let y := fmul ?o ?a ?a' in @?b y) =>
      let y := fresh "y" in let H := fresh "H" in
      refine (let_mul x _ _ m o a a' b _ ltac:(eassumption) ltac:(eassumption) _); [has_length|intros y H; evaluate_power H; cbv beta]
  | |- powers ?x ?m (match square_loop ?k ?a ?b with _ => _ end) =>
      let y := fresh "y" in let y' := fresh "y" in let H := fresh "H" in let L := fresh "L" in
      assert (10 <= length a)%nat as L by has_length;
      pose proof (square_loop_spec x k a b _ L ltac:(eassumption)) as H; clear L;
      destruct (square_loop k a b) as [y y']; destruct H as [L H]; cbn [snd] in H; cbn [fst] in L;
      evaluate_power H; cbv beta iota
  end.

Lemma crecip_spec u out z x :
  wf_recip_stack u -> (10 <= length out)%nat -> limbs z x -> limbs (crecip u out z) (x ^ (p25519 - 2)).
Proof.
  intros Hu Ho Hz. assert (powers x 1 z) as H1 by (split; [done|by rewrite Z.pow_1_r]).
  assert (forall l : list Z, length l = 10%nat -> (10 <= length l)%nat) as Hle by lia.
  unfold wf_recip_stack in Hu. apply (List.Forall_impl _ Hle) in Hu. rewrite !List.Forall_cons_iff in Hu. destruct_and! Hu.
  assert (powers x (p25519 - 2) (crecip u out z)) as [_ H']; [|exact H'].
  cbv beta delta [crecip]. repeat recip_step.
  change (p25519 - 2) with (57896044618658097711785492504343953926634992332820282019728792003956564819936 + 11).
  by apply powers_mul.
Qed.

Lemma length_crecip u out z : length (crecip u out z) = length out.
Proof. unfold crecip. repeat case_match. apply length_fmul. Qed.

(** ** The leading bit

    The RFC starts at bit 254.  Clearing bit 255 costs one more step, which
    multiplies the coordinates of the second point by [4 * x1]; from then on
    the two ladders stay at the same points, in coordinates that differ by
    powers of [4 * x1]. *)

Definition scaled (l m : Z) (s s' : ladder) : Prop :=
  (r_x2 s' =p l * r_x2 s /\ r_z2 s' =p l * r_z2 s) /\ (r_x3 s' =p m * r_x3 s /\ r_z3 s' =p m * r_z3 s).

Lemma eqp_square a b : a =p b -> a ^ 2 =p b ^ 2.
Proof. intros H. rewrite !Z.pow_2_r. by rewrite H. Qed.

Lemma ladder_step_scaled x1 l m s s' : scaled l m s s' ->
  scaled (l ^ 4) ((l * m) ^ 2) (ladder_step x1 s) (ladder_step x1 s').
Proof.
  intros [[X2 Z2] [X3 Z3]]. unfold scaled. cbn [ladder_step r_x2 r_z2 r_x3 r_z3].
  rewrite !Z.pow_2_r, !eqp_mod, X2, Z2, X3, Z3. repeat split; apply eqp_eq; ring.
Qed.

Lemma ladder_bit_scaled x1 k t l m s s' : scaled l m s s' ->
  let lm := if Z.testbit k (255 - t) then ((l * m) ^ 2, m ^ 4) else (l ^ 4, (l * m) ^ 2) in
  scaled lm.1 lm.2 (ladder_bit x1 k s t) (ladder_bit x1 k s' t).
Proof.
  intros H. unfold ladder_bit. cbv zeta. destruct (Z.testbit k (255 - t)); cbn [cswap fst snd].
  - destruct H as [H2 H3]. pose proof (ladder_step_scaled x1 m l _ _ (conj H3 H2 : scaled m l (cswap true s) (cswap true s'))) as [S2 S3].
    rewrite (Z.mul_comm m l) in S3. exact (conj S3 S2).
  - by apply ladder_step_scaled.
Qed.

Definition rfc7748_ladder (x1 k : Z) : ladder :=
  foldl (ladder_bit x1 k) {| r_x2 := 1; r_z2 := 0; r_x3 := x1; r_z3 := 1 |} (seqZ 1 255).

Lemma ladder_leading_zero x1 k : Z.testbit k 255 = false ->
  exists e, 0 <= e /\ r_x2 (montgomery_ladder x1 k 256) =p (4 * x1) ^ e * r_x2 (rfc7748_ladder x1 k) /\
                      r_z2 (montgomery_ladder x1 k 256) =p (4 * x1) ^ e * r_z2 (rfc7748_ladder x1 k).
Proof.
  intros Hk. pose (c := 4 * x1).
  assert (forall ts s s', (exists e f, 0 <= e /\ 0 <= f /\ scaled (c ^ e) (c ^ f) s s') ->
    exists e f, 0 <= e /\ 0 <= f /\ scaled (c ^ e) (c ^ f) (foldl (ladder_bit x1 k) s ts) (foldl (ladder_bit x1 k) s' ts)) as H.
  { induction ts as [|t ts IH]; intros s s' Hs; [done|]. apply IH. destruct Hs as (e & f & He & Hf & Hs).
    pose proof (ladder_bit_scaled x1 k t _ _ _ _ Hs) as H. cbv zeta in H. rewrite <- Z.pow_add_r, <- !Z.pow_mul_r in H by lia.
    destruct (Z.testbit k (255 - t)); cbn [fst snd] in H; eexists _, _; (split; [|split; [|exact H]]); lia. }
  unfold montgomery_ladder, rfc7748_ladder. change (seqZ 0 256) with (0 :: seqZ 1 255). cbn [foldl].
  destruct (H (seqZ 1 255) {| r_x2 := 1; r_z2 := 0; r_x3 := x1; r_z3 := 1 |}
    (ladder_bit x1 k {| r_x2 := 1; r_z2 := 0; r_x3 := x1; r_z3 := 1 |} 0)) as (e & f & He & _ & [Hx Hz] & _).
  - exists 0, 1. split; [done|]. split; [done|]. unfold ladder_bit. rewrite Z.sub_0_r, Hk. cbn [cswap].
    unfold scaled. cbn [ladder_step r_x2 r_z2 r_x3 r_z3]. rewrite Z.pow_0_r, Z.pow_1_r, !eqp_mod.
    unfold c. repeat split; apply eqp_eq; ring.
  - by exists e.
Qed.

(** ** The whole function *)

Record wf_donna_stack (u : donna_stack) : Prop := {
  wf_bp : length (u_bp u) = 10%nat; wf_x : length (u_x u) = 10%nat; wf_z : length (u_z u) = 11%nat;
  wf_zmone : length (u_zmone u) = 10%nat;
  wf_monty : forall k, wf_monty_stack (u_monty u k); wf_recip : wf_recip_stack (u_recip u) }.

Lemma clamp_bytes e : bytes e -> length e = 32%nat -> bytes (clamp e) /\ length (clamp e) = 32%nat.
Proof.
  intros He Hl. unfold clamp. cbv zeta. rewrite !length_wr. split; [|done].
  assert (forall b m, is_u8 b -> is_u8 (Z.land b m)) as Hand by (intros; by apply in_range_land_l).
  assert (bytes (wr (wr e 0 (Z.land (rd e 0) 248)) 31 (Z.land (rd (wr e 0 (Z.land (rd e 0) 248)) 31) 127))) as H.
  { apply bytes_wr; [apply bytes_wr; [done|by apply Hand, rd_u8]|]. apply Hand, rd_u8, bytes_wr; [done|by apply Hand, rd_u8]. }
  apply bytes_wr; [exact H|]. apply in_range_lor; [lia|by apply rd_u8|done].
Qed.

(** The masks of the code decode the scalar. *)
Lemma le_word_split b l : is_u8 b -> bytes l -> le_word (b :: l) = b + 256 * le_word l.
Proof. intros Hb Hl. cbn [le_word]. rewrite Z.shiftl_mul_pow2, lor_add by done. lia. Qed.

Lemma le_word_snoc l b : bytes l -> is_u8 b -> le_word (l ++ [b]) = le_word l + 2 ^ (8 * Z.of_nat (length l)) * b.
Proof.
  induction 1 as [|c l Hc Hl IH]; intros Hb; cbn [app length].
  { cbn [le_word]. rewrite Z.shiftl_0_l, Z.lor_0_r. change (8 * Z.of_nat 0) with 0. lia. }
  assert (bytes (l ++ [b])) by (apply bytes_app; [done|by apply Forall_cons_2]).
  rewrite !le_word_split, IH by done.
  rewrite Nat2Z.inj_succ, Z.mul_succ_r, Z.pow_add_r by lia. lia.
Qed.

Lemma clamp_ends a b : is_u8 a -> is_u8 b ->
  Z.land a 248 = 8 * (a / 8) /\ Z.lor (Z.land b 127) 64 = 64 + b mod 64.
Proof.
  intros Ha Hb. split; apply Z.eqb_eq.
  - apply (forall_u8 (fun a => Z.land a 248 =? 8 * (a / 8))); [vm_compute; reflexivity|done].
  - apply (forall_u8 (fun b => Z.lor (Z.land b 127) 64 =? 64 + b mod 64)); [vm_compute; reflexivity|done].
Qed.

Lemma clamp_decodes k : bytes k -> length k = 32%nat -> le_word (clamp k) = decodeScalar25519 k.
Proof.
  intros Hk Lk. destruct k as [|a k]; [done|]. apply Forall_cons_1 in Hk as [Ha Hk].
  destruct (exists_last (l := k)) as (l & b & ->); [by intros ->|]. unfold bytes in Hk. apply Forall_app in Hk as [Hl Hb].
  apply Forall_cons_1 in Hb as [Hb _]. cbn [length] in Lk. rewrite length_app in Lk. cbn [length] in Lk.
  assert (length l = 30%nat) as Ll by lia. destruct (clamp_ends a b Ha Hb) as [Ea Eb].
  assert (clamp (a :: l ++ [b]) = Z.land a 248 :: l ++ [Z.lor (Z.land b 127) 64]) as ->.
  { do 31 (destruct l as [|? l]; try done). }
  rewrite Ea, Eb. unfold decodeScalar25519.
  assert (is_u8 (8 * (a / 8)) /\ is_u8 (64 + b mod 64)) as [Ha' Hb'] by (unfold in_range in *; Z.div_mod_to_equations; lia).
  assert (forall c, is_u8 c -> bytes (l ++ [c])) as Hlc by (intros c Hc; apply bytes_app; [done|by apply Forall_cons_2]).
  rewrite !le_word_split by auto.
  rewrite !le_word_snoc, Ll by done. pose proof (le_word_range l Hl) as Hw. rewrite Ll in Hw.
  set (w := le_word l) in *. clearbody w. change (8 * Z.of_nat 30) with 240 in *. unfold in_range in *.
  assert (0 <= a / 8 < 32) as Hq by (Z.div_mod_to_equations; lia).
  assert (0 <= b mod 64 < 64) as Hm by (by apply Z.mod_pos_bound).
  replace (a + 256 * (w + 2 ^ 240 * b)) with (a + (32 * w + 2 ^ 245 * b) * 8) by lia. rewrite Z.div_add by done.
  rewrite (Z.div_mod b 64) at 2 by done.
  replace (a / 8 + (32 * w + 2 ^ 245 * (64 * (b / 64) + b mod 64)))
    with (a / 8 + 32 * w + 2 ^ 245 * (b mod 64) + b / 64 * 2 ^ 251) by lia.
  rewrite Z_mod_plus_full. set (q := a / 8) in *. set (m := b mod 64) in *. clearbody q m. clear Hlc Ha' Hb' Ea Eb.
  rewrite Z.mod_small; lia.
Qed.

(** The code computes X25519, whatever its uninitialised arrays hold. *)
Lemma curve25519_donna_spec u mypublic secret basepoint :
  wf_donna_stack u -> length mypublic = 32%nat -> bytes secret -> length secret = 32%nat ->
  bytes basepoint -> length basepoint = 32%nat ->
  curve25519_donna u mypublic secret basepoint = X25519 secret basepoint.
Proof.
  intros [Hbp Hx Hz Hzm Hm Hr] Hp Hs Ls Hb Lb. unfold curve25519_donna, X25519. cbv zeta.
  rewrite take_ge by lia. destruct (clamp_bytes secret Hs Ls) as [Hc Lc]. rewrite <- (clamp_decodes secret Hs Ls).
  destruct (fexpand_spec (u_bp u) basepoint ltac:(lia) Hb Lb) as [Hw Hv].
  assert (limbs (fexpand (u_bp u) basepoint) (le_word basepoint mod 2 ^ 255)) as Hq.
  { split; [by rewrite length_fexpand; lia|]. split; [done|]. by rewrite Hv. }
  destruct (cmult_spec (u_monty u) Hm (clamp secret) _ _ Hc Lc Hq (u_x u) (u_z u)) as (X & Z & LX & LZ);
    [lia|lia|by rewrite length_fexpand|].
  destruct (cmult _ _ _ _ _) as [x z]. cbn [fst snd] in *.
  set (s := montgomery_ladder _ _ _) in *. clearbody s.
  pose proof (crecip_spec _ (u_zmone u) _ _ Hr ltac:(lia) Z) as I.
  pose proof (fmul_rep _ _ z _ _ _ _ ltac:(lia) X I ltac:(done) ltac:(done)) as (LR & BR & VR).
  rewrite fcontract_spec by done. f_equal. unfold eqp in VR. rewrite VR.
  rewrite Zpow_mod_correct by done. by rewrite Z.mul_mod_idemp_r by done.
Qed.

(** C13. [curve25519_donna] computes X25519 of RFC 7748: on every secret and
    every point of 32 bytes, and whatever its uninitialised arrays and those of
    its callees hold, it writes the 32 bytes of x2 / z2 modulo the prime, x2
    and z2 being those of the Montgomery ladder over the integers modulo
    2^255 - 19 for the scalar that the secret encodes (2^254 plus eight times
    a number below 2^251) and the point without its highest bit. *)
Theorem curve25519_donna_is_x25519 u mypublic secret basepoint :
  wf_donna_stack u -> length mypublic = 32%nat -> bytes secret -> length secret = 32%nat ->
  bytes basepoint -> length basepoint = 32%nat ->
  curve25519_donna u mypublic secret basepoint = X25519 secret basepoint.
Proof. apply curve25519_donna_spec. Qed.

(** Arrays that hold [v]. *)
Definition stack_of (v : Z) : donna_stack :=
  let l10 := replicate 10 v in
  let l19 := replicate 19 v in
  {| u_bp := l10; u_x := l10; u_z := replicate 11 v; u_zmone := l10;
     u_monty := fun _ => {| u_zzz := l19; u_xx := l19; u_zz := l19; u_xxxprime := l19; u_zzzprime := l19 |};
     u_recip := {| u_z2 := l10; u_z9 := l10; u_z11 := l10; u_5_0 := l10; u_10_0 := l10; u_20_0 := l10; u_50_0 := l10;
       u_100_0 := l10; u_t0 := l10; u_t1 := l10 |} |}.

Lemma stack_of_wf v : wf_donna_stack (stack_of v).
Proof. split; try reflexivity; [done|]. by repeat constructor. Qed.

(** The keys of RFC 7748, section 6.1. *)
Definition alice_private : list Z :=
  [0x77; 0x07; 0x6d; 0x0a; 0x73; 0x18; 0xa5; 0x7d; 0x3c; 0x16; 0xc1; 0x72; 0x51; 0xb2; 0x66; 0x45;
   0xdf; 0x4c; 0x2f; 0x87; 0xeb; 0xc0; 0x99; 0x2a; 0xb1; 0x77; 0xfb; 0xa5; 0x1d; 0xb9; 0x2c; 0x2a].
Definition bob_public : list Z :=
  [0xde; 0x9e; 0xdb; 0x7d; 0x7b; 0x7d; 0xc1; 0xb4; 0xd3; 0x5b; 0x61; 0xc2; 0xec; 0xe4; 0x35; 0x37;
   0x3f; 0x83; 0x43; 0xc8; 0x5b; 0x78; 0x67; 0x4d; 0xad; 0xfc; 0x7e; 0x14; 0x6f; 0x88; 0x2b; 0x4f].

Lemma curve25519_donna_is_x25519_witness :
  curve25519_donna (stack_of 0) (replicate 32 0) alice_private bob_public =
  curve25519_donna (stack_of (-1)) (replicate 32 7) alice_private bob_public.
Proof.
  transitivity (X25519 alice_private bob_public); [|symmetry];
    (apply curve25519_donna_is_x25519; [apply stack_of_wf|reflexivity|by decide_true|reflexivity|by decide_true|reflexivity]).
Defined.

(** C38. What is written is always the least representative: 32 bytes of a
    number below the prime. *)
Theorem curve25519_donna_canonical u mypublic secret basepoint :
  wf_donna_stack u -> length mypublic = 32%nat -> bytes secret -> length secret = 32%nat ->
  bytes basepoint -> length basepoint = 32%nat ->
  let key := curve25519_donna u mypublic secret basepoint in
  bytes key /\ length key = 32%nat /\ le_word key < p25519.
Proof.
  intros Hu Hp Hs Ls Hb Lb key. unfold key. rewrite curve25519_donna_spec by done. unfold X25519. cbv zeta.
  split; [apply bytes_le_bytes|]. split; [apply length_le_bytes|]. rewrite le_word_le_bytes.
  match goal with |- wrap _ (?x mod _) < _ => pose proof (Z.mod_pos_bound x p25519 ltac:(done)) end.
  pose proof (eq_refl : p25519 = 2 ^ 255 - 19). rewrite wrap_id; [lia|]. unfold in_range. change (8 * Z.of_nat 32) with 256. lia.
Qed.

(** The inversion: [crecip] raises its argument to the power p - 2, in
    limbs below 2^26, whatever its uninitialised arrays hold. *)
Lemma crecip_power u out z :
  wf_recip_stack u -> (10 <= length out)%nat -> (10 <= length z)%nat -> within (2 ^ 26 - 1) z ->
  let r := crecip u out z in
  length r = length out /\ within (2 ^ 26 - 1) r /\ value r mod p25519 = value z ^ (p25519 - 2) mod p25519.
Proof.
  intros Hu Ho Hz Hw. destruct (crecip_spec u out z (value z) Hu Ho) as (_ & Hr & Hv); [done|].
  split; [apply length_crecip|]. by split.
Qed.

Lemma curve25519_donna_canonical_witness :
  le_word (curve25519_donna (stack_of 5) (replicate 32 0) alice_private bob_public) < p25519.
Proof.
  apply curve25519_donna_canonical; [apply stack_of_wf|reflexivity|by decide_true|reflexivity|by decide_true|reflexivity].
Defined.

(** The RFC runs its ladder over bits 254 to 0, the code also over bit 255,
    which the clamping clears: both arrive at the same point, in coordinates
    that differ by a power of four times that of the base point. *)
Theorem x25519_leading_bit x1 k : bytes k -> length k = 32%nat ->
  let s := montgomery_ladder x1 (decodeScalar25519 k) 256 in
  let r := rfc7748_ladder x1 (decodeScalar25519 k) in
  exists e, 0 <= e /\ r_x2 s mod p25519 = ((4 * x1) ^ e * r_x2 r) mod p25519 /\
                      r_z2 s mod p25519 = ((4 * x1) ^ e * r_z2 r) mod p25519.
Proof.
  intros Hk Lk. apply ladder_leading_zero. destruct (clamp_bytes k Hk Lk) as [Hc Lc]. rewrite <- (clamp_decodes k Hk Lk).
  change 255 with (8 * 31 + 7). rewrite testbit_le_word by (done || lia). unfold clamp. cbv zeta.
  rewrite rd_wr_eq, Z.lor_spec, rd_wr_eq, Z.land_spec by (rewrite ?length_wr; lia). by rewrite andb_false_r.
Qed.

Lemma x25519_leading_bit_witness :
  exists e, 0 <= e /\ r_z2 (montgomery_ladder 9 (decodeScalar25519 alice_private) 256) mod p25519 =
                      (36 ^ e * r_z2 (rfc7748_ladder 9 (decodeScalar25519 alice_private))) mod p25519.
Proof.
  destruct (x25519_leading_bit 9 alice_private) as (e & He & _ & Hz); [by decide_true|reflexivity|].
  exists e. split; [exact He|exact Hz].
Defined.
