(* ===== verification/DonnaCurve.v ===== *)
(** * The key exchange with the code's own Diffie-Hellman function

    The interface [Curve] of the key exchange, with [curve25519_donna] of
    curve25519-donna.c as its first operation.  What is left of the laws of the
    interface is the commutation of X25519, a fact about the curve, and the
    correctness of the signatures of ed25519.c. *)

From S2P Require Import Prelude Limbs LimbBytes GecKe Donna.

Local Open Scope Z_scope.
#[local] Opaque Donna.curve25519_donna X25519.

Section donna_curve.
Context (u : donna_stack) (Hu : wf_donna_stack u).
Context (publickey : list Z -> list Z) (sign : list Z -> list Z -> list Z -> list Z)
        (sign_open : list Z -> list Z -> list Z -> Z).

#[local] Instance donna_curve : Curve := {|
  GecKe.curve25519_donna := Donna.curve25519_donna u (replicate 32 0);
  ed25519_publickey := publickey; ed25519_sign := sign; ed25519_sign_open := sign_open |}.

Context (X25519_commutes : forall a b, key32 a -> key32 b ->
  X25519 a (X25519 b basepoint) = X25519 b (X25519 a basepoint)).
Context (sign_signs : forall m s p, bytes (sign m s p) /\ length (sign m s p) = 64%nat).
Context (sign_correct : forall m s, key32 s -> sign_open m (publickey s) (sign m s (publickey s)) = 0).

Lemma donna_eq s p : key32 s -> key32 p -> Donna.curve25519_donna u (replicate 32 0) s p = X25519 s p.
Proof. intros [Bs Ls] [Bp Lp]. by apply curve25519_donna_spec. Qed.

Lemma X25519_key32 s p : key32 (X25519 s p).
Proof. with_strategy transparent [X25519] unfold X25519. split; [apply bytes_le_bytes|apply length_le_bytes]. Qed.

Lemma donna_curve_laws : CurveLaws.
Proof using u Hu X25519_commutes sign_signs sign_correct.
  split; [| |exact sign_signs|exact sign_correct]; cbn [GecKe.curve25519_donna donna_curve].
  - intros s p Hs Hp. rewrite (donna_eq s p Hs Hp). apply X25519_key32.
  - intros a b Ha Hb. rewrite (donna_eq b basepoint Hb basepoint_key32), (donna_eq a basepoint Ha basepoint_key32).
    rewrite (donna_eq a _ Ha (X25519_key32 _ _)), (donna_eq b _ Hb (X25519_key32 _ _)). exact (X25519_commutes a b Ha Hb).
Qed.
End donna_curve.
