(* ===== verification/CryptoRelay.v ===== *)
(** * The comm-crypto-relay application

    apps/comm-crypto-relay/components: the relay of the key-exchange
    application without the exchange.  The keys are constants of the program,
    Encrypt takes its blocks straight out of the array of the queue, and
    Decrypt parses each plaintext as soon as it is opened, writing its index
    back to the shared buffer.  Pixhawk_RX and Telemetry_RX keep the index of
    the receiver in a variable of their own. *)

From S2P Require Import Prelude Ring Queue RingBuffer MavlinkTypes Mavlink MavlinkParser.
From S2P Require Import Aes Gf128 Gcm GcmSpec AesModes Gec Relay SealedStream LinkSample.

Local Open Scope Z_scope.

(** [key_material], the same in both components. *)
Definition key_material : list Z :=
  [0xCB; 0x28; 0x4A; 0xD9; 0x1E; 0x85; 0x78; 0xB1; 0x77; 0x6E; 0x9B; 0x98] ++
  [0x32; 0xEF; 0x11; 0xB0; 0xBC; 0xA8; 0xCF; 0xD6; 0x29; 0x98; 0xDA; 0x15] ++
  [0x43; 0x82; 0xC5; 0xAC; 0x4C; 0xB9; 0x58; 0xC5; 0x57; 0x0A; 0x4E; 0x30] ++
  [0xCC; 0xED; 0xFE; 0xF7; 0x76; 0xF7; 0xC7; 0x75; 0x0C; 0x53; 0xA9; 0xE5].

Module Encrypt.
Section component.
Context (crcs : list mavlink_msg_entry_t).
Context (accept_unsigned : option (mavlink_status_t -> Z -> bool)).
Context (u : stack).

Record state := mk_state {
  prs : parser;
  queue : Queue.queue_t;
  symkey_chan2 : gec_sym_key;
  serial : list (list Z);
}.

Definition my_mavlink_parse_char (p : parser) (c : Z) (r_message : mavlink_message_t)
    (r_mavlink_status : mavlink_status_t) : parser * mavlink_message_t * mavlink_status_t * Z :=
  parse_frame_char crcs accept_unsigned p c r_message r_mavlink_status.

(** [buf[j] = queue.raw_queue[queue.head++]; queue.head %= MAX_QUEUE_SIZE;] *)
Fixpoint take_block (n : nat) (j : Z) (q : Queue.queue_t) (buf : list Z) : Queue.queue_t * list Z :=
  match n with
  | O => (q, buf)
  | S n =>
      let buf := wr buf j (rd (Queue.raw_queue q) (Queue.head q)) in
      let q := Queue.mk_queue (Queue.raw_queue q) (u32 (Queue.head q + 1) mod MAX_QUEUE_SIZE) (Queue.size q) in
      take_block n (j + 1) q buf
  end.

Fixpoint encrypt_blocks (loop : nat) (buf ct_frame : list Z) (q : Queue.queue_t) (k : gec_sym_key)
    (out : list (list Z)) : Queue.queue_t * gec_sym_key * list (list Z) :=
  match loop with
  | O => (q, k, out)
  | S loop =>
      let '(q, buf) := take_block GEC_PT_LEN 0 q buf in
      let q := Queue.mk_queue (Queue.raw_queue q) (Queue.head q) (u32 (Queue.size q - Z.of_nat GEC_PT_LEN)) in
      let '(r, ct, k) := gec_encrypt (st_places u) k buf (drop 2 ct_frame) in
      let ct_frame := take 2 ct_frame ++ ct in
      let out := if negb (r =? GEC_SUCCESS) then out else out ++ [ct_frame] in
      encrypt_blocks loop buf ct_frame q k out
  end.

Definition encrypt_to_frame (s : state) (msg : mavlink_message_t) : state :=
  let '(buf, len) := mavlink_msg_to_send_buffer (st_buf u) msg in
  let q := enqueue_all (queue s) (take (Z.to_nat len) buf) in
  let loop := Z.to_nat (Queue.size q / Z.of_nat GEC_PT_LEN) in
  let ct_frame := wr (wr (st_frame u) 0 GEC_CIPHERTEXT_FRAME_MAGIC) 1 GEC_CIPHERTEXT_FRAME_TAG in
  let '(q, k, out) := encrypt_blocks loop buf ct_frame q (symkey_chan2 s) (serial s) in
  mk_state (prs s) q k out.

Definition handle_char (c : Z) (s : state) : state :=
  let '(p, msg, _, result) := my_mavlink_parse_char (prs s) c (st_msg u) (st_status u) in
  let s := mk_state p (queue s) (symkey_chan2 s) (serial s) in
  if result =? 0 then s else encrypt_to_frame s msg.

Definition pre_init (s : state) : state :=
  mk_state (prs s) (Queue.queue_init (queue s))
    (gec_init_sym_key_conf_auth (symkey_chan2 s) (drop GEC_RAW_KEY_LEN key_material)) (serial s).

Definition run_turn (rb : ring_buffer_t) (head : Z) (s : state) : Z * state :=
  drain_ring handle_char (Z.to_nat RING_BUFFER_SIZE) rb head (rb_tail rb) s.
End component.
End Encrypt.

Module Decrypt.
Section component.
Context (crcs : list mavlink_msg_entry_t).
Context (accept_unsigned : option (mavlink_status_t -> Z -> bool)).
Context (u : stack).

Record CipherTextFrame_t := mk_frame { magic : Z; tag : Z; ciphertext : list Z }.

Record state := mk_state {
  prs : parser;
  symkey_chan1 : gec_sym_key;
  serial : list (list Z);
}.

Definition my_mavlink_parse_char (p : parser) (c : Z) (r_message : mavlink_message_t)
    (r_mavlink_status : mavlink_status_t) : parser * mavlink_message_t * mavlink_status_t * Z :=
  parse_frame_char crcs accept_unsigned p c r_message r_mavlink_status.

(** Without a caller. *)
Definition parse_char_into_msg (c : Z) (s : state) : state :=
  let '(p, msg, _, result) := my_mavlink_parse_char (prs s) c (st_msg u) (st_status u) in
  if result =? 0 then mk_state p (symkey_chan1 s) (serial s)
  else
    let '(buf, len) := mavlink_msg_to_send_buffer (st_buf u) msg in
    mk_state p (symkey_chan1 s) (serial s ++ [take (Z.to_nat (u16 len)) buf]).

Definition pre_init (s : state) : state :=
  mk_state (prs s) (gec_init_sym_key_conf_auth (symkey_chan1 s) key_material) (serial s).

(** The loop over the plaintext. *)
Fixpoint parse_plaintext (pt : list Z) (msg : mavlink_message_t) (status : mavlink_status_t) (s : state) : state :=
  match pt with
  | [] => s
  | c :: pt =>
      let '(p, msg, status, result) := my_mavlink_parse_char (prs s) c msg status in
      let out :=
        if result =? 0 then serial s
        else let '(buf, len) := mavlink_msg_to_send_buffer (st_buf u) msg in
             serial s ++ [take (Z.to_nat (u16 len)) buf] in
      parse_plaintext pt msg status (mk_state p (symkey_chan1 s) out)
  end.

Definition decrypt_to_msg (ct_frame : CipherTextFrame_t) (s : state) : Z * state :=
  if negb (magic ct_frame =? GEC_CIPHERTEXT_FRAME_MAGIC) then (1, s)
  else if negb (tag ct_frame =? GEC_CIPHERTEXT_FRAME_TAG) then (1, s)
  else
    let '(r, pt, k) := gec_decrypt (st_places u) (symkey_chan1 s) (ciphertext ct_frame) (st_pt u) in
    let s := mk_state (prs s) k (serial s) in
    if negb (r =? 0) then (1, s)
    else (0, parse_plaintext (take GEC_PT_LEN pt) (st_msg u) (st_status u) s).

(** The byte, the index and the shared buffer. *)
Definition read_byte (rb : ring_buffer_t) (head : Z) : option (Z * Z * ring_buffer_t) :=
  match ring_byte rb head with
  | None => None
  | Some (c, head) => Some (c, head, set_head rb head)
  end.

Definition read_buffer (len : nat) (rb : ring_buffer_t) (head : Z) : option (list Z * Z * ring_buffer_t) :=
  match ring_bytes len rb head with
  | None => None
  | Some (l, head) => Some (l, head, set_head rb head)
  end.

Fixpoint read_header (fuel : nat) (rb : ring_buffer_t) (head : Z) : option (Z * ring_buffer_t) :=
  match fuel with
  | O => None
  | S fuel =>
      match read_byte rb head with
      | None => None
      | Some (c, head, rb) =>
          if c =? GEC_CIPHERTEXT_FRAME_MAGIC then
            match read_byte rb head with
            | None => None
            | Some (c, head, rb) =>
                if c =? GEC_CIPHERTEXT_FRAME_TAG then Some (head, rb) else read_header fuel rb head
            end
          else read_header fuel rb head
      end
  end.

Definition read_ciphertext_frame (rb : ring_buffer_t) (head : Z) : option (CipherTextFrame_t * Z * ring_buffer_t) :=
  match read_header (Z.to_nat RING_BUFFER_SIZE) rb head with
  | None => None
  | Some (head, rb) =>
      match read_buffer CT_LEN rb head with
      | None => None
      | Some (ct, head, rb) =>
          Some (mk_frame GEC_CIPHERTEXT_FRAME_MAGIC GEC_CIPHERTEXT_FRAME_TAG ct, head, rb)
      end
  end.

Definition run_turn (rb : ring_buffer_t) (head : Z) (s : state) : ring_buffer_t * Z * state :=
  match read_ciphertext_frame rb head with
  | None => (rb, head, s)
  | Some (ct_frame, head, rb) => (rb, head, (decrypt_to_msg ct_frame s).2)
  end.
End component.
End Decrypt.

(** The receivers: [tail] is a local variable of Pixhawk_RX and a static one
    of Telemetry_RX; [c] is what [ps_cdev_getchar] returned. *)
Module Pixhawk_RX.
Definition pre_init (rb : ring_buffer_t) : ring_buffer_t := set_tail (set_head rb 0) 0.
Definition run_start (rb : ring_buffer_t) : Z := rb_tail rb.
Definition run_turn (c : Z) (tail : Z) (rb : ring_buffer_t) : Z * ring_buffer_t :=
  let rb := set_buffer rb (wr (rb_buffer rb) tail (u8 c)) in
  let tail := u32 (tail + 1) mod RING_BUFFER_SIZE in
  (tail, set_tail rb tail).
End Pixhawk_RX.

Module Telemetry_RX.
Definition pre_init (rb : ring_buffer_t) : ring_buffer_t := set_tail (set_head rb 0) 0.
Definition run_start : Z := 0.
Definition run_turn (c : Z) (tail : Z) (rb : ring_buffer_t) : Z * ring_buffer_t :=
  let rb := set_buffer rb (wr (rb_buffer rb) tail (u8 c)) in
  let tail := u32 (tail + 1) mod RING_BUFFER_SIZE in
  (tail, set_tail rb tail).
End Telemetry_RX.

(** ** Encrypt *)

(** Taking bytes straight out of the array is dequeuing, except for the size. *)
Lemma take_block_dequeue n : forall j c q buf,
  Queue.wf q -> Z.of_nat n <= Queue.size q ->
  dequeue_into n j c q buf =
  let '(q1, b) := Encrypt.take_block n j q buf in
  (Queue.mk_queue (Queue.raw_queue q1) (Queue.head q1) (Queue.size q - Z.of_nat n), b).
Proof.
  induction n as [|n IH]; intros j c q buf Hq Hn.
  { cbn [dequeue_into Encrypt.take_block]. destruct q. f_equal. by rewrite Z.sub_0_r. }
  cbn [dequeue_into Encrypt.take_block]. change (fifo_get q) with (Queue.dequeue q).
  unfold Queue.dequeue, Queue.queue_empty. destruct Hq as (Hl & Hb & Hh & Hs). unfold MAX_QUEUE_SIZE in *.
  destruct (Z.eqb_spec (Queue.size q) 0); [lia|]. rewrite (wrap_id 32) by (unfold in_range; lia).
  rewrite (wrap_id 32 (Queue.size q - 1)) by (unfold in_range; lia). cbn [default].
  set (q' := Queue.mk_queue _ ((Queue.head q + 1) mod 4096) (Queue.size q - 1)).
  assert (0 <= (Queue.head q + 1) mod 4096 < 4096) by (by apply Z.mod_pos_bound).
  rewrite (IH (j + 1) _ q').
  - assert (forall n j (a b : Queue.queue_t) buf, Queue.raw_queue a = Queue.raw_queue b -> Queue.head a = Queue.head b ->
      let '(x, u) := Encrypt.take_block n j a buf in let '(y, v) := Encrypt.take_block n j b buf in
      Queue.raw_queue x = Queue.raw_queue y /\ Queue.head x = Queue.head y /\ u = v) as Hsame.
    { clear. induction n as [|n IH]; intros j a b buf H1 H2; [done|]. cbn [Encrypt.take_block]. rewrite H1, H2.
      by apply IH. }
    specialize (Hsame n (j + 1) q' (Queue.mk_queue (Queue.raw_queue q) ((Queue.head q + 1) mod 4096) (Queue.size q))
      (wr buf j (rd (Queue.raw_queue q) (Queue.head q))) eq_refl eq_refl).
    destruct (Encrypt.take_block n (j + 1) q' _) as [x b1]. destruct (Encrypt.take_block n (j + 1) _ _) as [y b2].
    destruct Hsame as (-> & -> & ->). f_equal. f_equal. unfold q'. cbn [Queue.size]. lia.
  - unfold q', Queue.wf, MAX_QUEUE_SIZE. cbn [Queue.raw_queue Queue.head Queue.size]. split_and!; done || lia.
  - unfold q'. cbn [Queue.size]. lia.
Qed.

#[export] Instance crypto_blocks_seal u key sl (Hkey : block key) (Hsl : is_salt sl) :
  BlockSealer key sl (Encrypt.encrypt_blocks u).
Proof.
  apply (sealer_of_loop (st_places u) (fun q buf =>
    let '(q, buf) := Encrypt.take_block GEC_PT_LEN 0 q buf in
    (Queue.mk_queue (Queue.raw_queue q) (Queue.head q) (u32 (Queue.size q - Z.of_nat GEC_PT_LEN)), buf))); [done|done| |].
  - intros q buf Hq Hn Hb. destruct (queue_dequeue_into GEC_PT_LEN 0 q buf Hq Hn Hb) as (q1 & E & Hq1 & Hc1).
    pose proof (Queue.length_contents q Hq) as Hs.
    rewrite take_block_dequeue in E by (done || lia).
    assert (forall n j q buf, Queue.size (Encrypt.take_block n j q buf).1 = Queue.size q) as Hsize.
    { clear. induction n as [|n IH]; intros j q buf; [done|]. cbn [Encrypt.take_block]. by rewrite IH. }
    specialize (Hsize GEC_PT_LEN 0 q buf). destruct (Encrypt.take_block GEC_PT_LEN 0 q buf) as [q2 b2].
    cbn [fst] in Hsize. injection E as E ->. exists q1. split; [|done]. f_equal. rewrite <- E, Hsize. f_equal.
    apply wrap_id. destruct Hq as (_ & _ & _ & ?). unfold in_range, MAX_QUEUE_SIZE in *. lia.
  - induction n as [|n IH]; intros buf ct_buf q k out; [done|]. cbn [Encrypt.encrypt_blocks seal_loop].
    destruct (Encrypt.take_block GEC_PT_LEN 0 q buf) as [q1 b1].
    destruct (gec_encrypt (st_places u) k b1 (drop 2 ct_buf)) as [[r ct] k1]. apply IH.
Qed.

Definition encrypt_view (s : Encrypt.state) : Queue.queue_t * gec_sym_key * list (list Z) :=
  (Encrypt.queue s, Encrypt.symkey_chan2 s, Encrypt.serial s).

Lemma crypto_seals_reports crcs accept_unsigned u :
  seals_reports crcs accept_unsigned u (Encrypt.handle_char crcs accept_unsigned u) Encrypt.prs encrypt_view
    (Encrypt.encrypt_blocks u).
Proof.
  intros s c. unfold Encrypt.handle_char, Encrypt.my_mavlink_parse_char, Encrypt.encrypt_to_frame, encrypt_view.
  destruct (parse_frame_char _ _ _ _ _ _) as [[[p m] st'] r]. destruct (r =? 0); [done|].
  cbn [Encrypt.queue Encrypt.symkey_chan2 Encrypt.serial].
  destruct (mavlink_msg_to_send_buffer (st_buf u) m) as [buf len].
  by destruct (Encrypt.encrypt_blocks u _ _ _ _ _ _) as [[q k] out].
Qed.

(** ** Decrypt *)

(** Writing [head] to the shared buffer does not change what is read. *)
Lemma read_header_frame fuel : forall rb h head, read_header fuel (set_head rb h) head = read_header fuel rb head.
Proof.
  induction fuel as [|fuel IH]; intros rb h head; [done|]. cbn [read_header].
  change (ring_byte (set_head rb h)) with (ring_byte rb).
  destruct (ring_byte rb head) as [[c h1]|]; [|done]. destruct (c =? GEC_CIPHERTEXT_FRAME_MAGIC); [|apply IH].
  destruct (ring_byte rb h1) as [[t h2]|]; [|done]. by destruct (t =? GEC_CIPHERTEXT_FRAME_TAG).
Qed.

Lemma decrypt_read_header fuel : forall rb head,
  Decrypt.read_header fuel rb head = h ← read_header fuel rb head; Some (h, set_head rb h).
Proof.
  induction fuel as [|fuel IH]; intros rb head; [done|]. cbn [Decrypt.read_header read_header]. unfold Decrypt.read_byte.
  destruct (ring_byte rb head) as [[c h1]|]; [|done].
  destruct (c =? GEC_CIPHERTEXT_FRAME_MAGIC); [|by rewrite IH, read_header_frame].
  change (ring_byte (set_head rb h1)) with (ring_byte rb).
  destruct (ring_byte rb h1) as [[t h2]|]; [|done].
  destruct (t =? GEC_CIPHERTEXT_FRAME_TAG); [done|]. rewrite IH. by rewrite !read_header_frame.
Qed.

Lemma ring_bytes_frame n : forall rb h head, ring_bytes n (set_head rb h) head = ring_bytes n rb head.
Proof.
  induction n as [|n IH]; intros rb h head; [done|]. cbn [ring_bytes].
  change (ring_byte (set_head rb h)) with (ring_byte rb). destruct (ring_byte rb head) as [[c h1]|]; [|done].
  by rewrite IH.
Qed.

Lemma decrypt_read_frame rb head :
  Decrypt.read_ciphertext_frame rb head =
  '(ct, h) ← next_frame rb head;
  Some (Decrypt.mk_frame GEC_CIPHERTEXT_FRAME_MAGIC GEC_CIPHERTEXT_FRAME_TAG ct, h, set_head rb h).
Proof.
  unfold Decrypt.read_ciphertext_frame, next_frame. rewrite decrypt_read_header.
  destruct (read_header _ rb head) as [h|]; [|done]. cbn [mbind option_bind]. unfold Decrypt.read_buffer.
  rewrite ring_bytes_frame. by destruct (ring_bytes CT_LEN rb h) as [[ct h']|].
Qed.

Section decrypt.
Context (crcs : list mavlink_msg_entry_t).
Context (accept_unsigned : option (mavlink_status_t -> Z -> bool)).
Context (u : stack) (Hu : stack_ok u).
Context (key sl : list Z) (Hkey : block key) (Hsl : is_salt sl).
Import Decrypt.

(** What the parser makes of each plaintext in turn: [msg] and [status] are
    new for every frame, the parser's own variables are not. *)
Fixpoint relayed_frames (p : parser) (pts : list (list Z)) : parser * list (list Z) :=
  match pts with
  | [] => (p, [])
  | pt :: pts =>
      let '(p, _, _, o) := relayed_var crcs accept_unsigned (p, st_msg u, st_status u) pt in
      let '(p, os) := relayed_frames p pts in (p, o ++ os)
  end.

Lemma parse_plaintext_relays pt : forall m st s,
  parser_ok (prs s) -> wf_message m -> bytes pt ->
  let s' := parse_plaintext crcs accept_unsigned u pt m st s in
  parser_ok (prs s') /\ symkey_chan1 s' = symkey_chan1 s /\
  exists m' st' o, relayed_var crcs accept_unsigned (prs s, m, st) pt = (prs s', m', st', o) /\
    serial s' = serial s ++ o.
Proof.
  induction pt as [|c pt IH]; intros m st s Hp Hm Hb; cbn [parse_plaintext relayed_var].
  { split; [done|]. split; [done|]. exists m, st, []. by rewrite app_nil_r. }
  apply List.Forall_cons_iff in Hb as [Hc Hb]. unfold my_mavlink_parse_char.
  pose proof (parse_frame_char_ok crcs accept_unsigned (prs s) c m st Hp Hc Hm) as H1.
  destruct (parse_frame_char crcs accept_unsigned (prs s) c m st) as [[[p1 m1] st1] r]. destruct H1 as [Hp1 Hm1].
  rewrite (to_send_buffer_memcpy _ m1 Hm1). fold (wire_of m1).
  destruct (wire_of_ok m1 Hm1) as [_ Hl].
  rewrite wrap_id by (unfold in_range; lia). rewrite Nat2Z.id.
  rewrite memcpy_at_spec by (rewrite (ok_buf u Hu); lia). rewrite take_0, app_nil_l, take_app_length.
  match goal with |- context [parse_plaintext _ _ _ pt m1 st1 ?x] => set (s1 := x) end.
  destruct (IH m1 st1 s1 Hp1 Hm1 Hb) as (Hp' & Hk' & m' & st' & o & E & Ho).
  split; [done|]. split; [done|]. change (prs s1) with p1 in E. rewrite E. cbn [fst snd].
  do 3 eexists. split; [reflexivity|]. rewrite Ho. unfold s1. cbn [serial].
  destruct (r =? 0); [done|]. by rewrite <- app_assoc.
Qed.

Lemma decrypt_to_msg_spec ct s :
  parser_ok (prs s) -> gec_keyed key sl (symkey_chan1 s) -> is_ct ct ->
  let f := mk_frame GEC_CIPHERTEXT_FRAME_MAGIC GEC_CIPHERTEXT_FRAME_TAG ct in
  let s' := (decrypt_to_msg crcs accept_unsigned u f s).2 in
  parser_ok (prs s') /\ gec_keyed key sl (symkey_chan1 s') /\
  exists m st o, relayed_var crcs accept_unsigned (prs s, st_msg u, st_status u) (opened key sl ct) = (prs s', m, st, o) /\
    serial s' = serial s ++ o.
Proof.
  intros Hp Hk Hct. cbv zeta. unfold decrypt_to_msg. cbn [magic tag ciphertext]. rewrite !Z.eqb_refl. cbn [negb].
  destruct (gec_decrypt_opened key sl Hkey Hsl (st_places u) (symkey_chan1 s) ct (st_pt u) Hk Hct (ok_pt u Hu))
    as (k' & pt & r & -> & Hk' & Hpt).
  destruct (opened_ok key sl Hkey Hsl ct Hct) as [Hob _]. rewrite <- Hpt in Hob |- *.
  destruct (negb (r =? 0)); cbn [snd].
  - split; [done|]. split; [done|]. exists (st_msg u), (st_status u), []. by rewrite app_nil_r.
  - destruct (parse_plaintext_relays (take GEC_PT_LEN pt) (st_msg u) (st_status u) (mk_state (prs s) k' (serial s))
      Hp (ok_msg u Hu) Hob) as (H1 & H2 & H3). split; [done|]. split; [by rewrite H2|]. exact H3.
Qed.

(** [n] turns of [run]. *)
Fixpoint run_turns (n : nat) (rb : ring_buffer_t) (head : Z) (s : state) : ring_buffer_t * Z * state :=
  match n with
  | O => (rb, head, s)
  | S n => let '(rb, head, s) := run_turn crcs accept_unsigned u rb head s in run_turns n rb head s
  end.

Lemma run_turns_relay cts : forall rb head s rest,
  in_ring head -> in_ring (rb_tail rb) -> parser_ok (prs s) -> gec_keyed key sl (symkey_chan1 s) ->
  Forall is_ct cts -> rb_head rb = head -> available rb head = concat (map frame cts) ++ rest ->
  exists h s' o, run_turns (length cts) rb head s = (set_head rb h, h, s') /\
    in_ring h /\ available rb h = rest /\
    relayed_frames (prs s) (map (opened key sl) cts) = (prs s', o) /\ serial s' = serial s ++ o.
Proof.
  induction cts as [|ct cts IH]; intros rb head s rest Hh Ht Hp Hk Hc Hrh Ha.
  { exists head, s, []. rewrite app_nil_r. split_and!; try done. cbn [run_turns length]. subst head. by destruct rb. }
  apply List.Forall_cons_iff in Hc as [Hc Hcs]. cbn [length run_turns map concat relayed_frames] in *.
  pose proof (next_frame_spec rb head Hh Ht) as H1. rewrite <- app_assoc in Ha. rewrite Ha in H1.
  rewrite (find_frame_frame [] ct _ (Forall_nil_2 _) (proj2 Hc) : find_frame (frame ct ++ _) = _) in H1.
  destruct H1 as (h & E & Hh' & Ha'). unfold run_turn. rewrite decrypt_read_frame, E. cbn [mbind option_bind].
  destruct (decrypt_to_msg_spec ct s Hp Hk Hc) as (Hp1 & Hk1 & m & st & o & Er & Ho). rewrite Er.
  destruct (IH (set_head rb h) h _ rest Hh' Ht Hp1 Hk1 Hcs eq_refl Ha') as (h2 & s2 & o2 & E2 & Hh2 & Ha2 & Er2 & Ho2).
  exists h2, s2, (o ++ o2). rewrite E2, Er2, Ho2, Ho, app_assoc. done.
Qed.
End decrypt.

(** ** The theorems *)

(** The two halves of the key material: what each channel runs under. *)
Definition down_key : list Z := take 16 key_material.
Definition down_salt : list Z := slice 16 8 key_material.
Definition up_key : list Z := take 16 (drop GEC_RAW_KEY_LEN key_material).
Definition up_salt : list Z := slice 16 8 (drop GEC_RAW_KEY_LEN key_material).

Lemma up_keyed k : wf_sym_key k ->
  let k' := gec_init_sym_key_conf_auth k (drop GEC_RAW_KEY_LEN key_material) in
  gec_keyed up_key up_salt k' /\ ctr k' = 0 /\ block up_key /\ is_salt up_salt.
Proof. intros Hk. apply init_auth_keyed; [done|decide_true|decide_true]. Qed.

Lemma down_keyed k : wf_sym_key k ->
  let k' := gec_init_sym_key_conf_auth k key_material in
  gec_keyed down_key down_salt k' /\ ctr k' = 0 /\ block down_key /\ is_salt down_salt.
Proof. intros Hk. apply init_auth_keyed; [done|decide_true|decide_true]. Qed.

(** Encrypt, from its initialisation, on the bytes in the ring: it writes
    the frames of the full 64-byte blocks of the relayed stream, sealed under
    the second half of the key material from counter 1 on, and keeps the rest
    in the queue. *)
Theorem crypto_encrypt_seals crcs accept_unsigned u rb head s0 :
  stack_ok u -> wf_sym_key (Encrypt.symkey_chan2 s0) -> parser_ok (Encrypt.prs s0) -> Encrypt.serial s0 = [] ->
  in_ring head -> in_ring (rb_tail rb) -> bytes (available rb head) ->
  let '(p', ws) := relayed crcs accept_unsigned (st_msg u) (st_status u) (Encrypt.prs s0) (available rb head) in
  let l := concat ws in
  Z.of_nat (full_blocks l) <= counter_limit ->
  let '(head', s) := Encrypt.run_turn crcs accept_unsigned u rb head (Encrypt.pre_init s0) in
  head' = rb_tail rb /\ Encrypt.prs s = p' /\
  Encrypt.serial s = sealed up_key up_salt 0 (full_blocks l) l /\
  Queue.contents (Encrypt.queue s) = drop (GEC_PT_LEN * full_blocks l) l.
Proof.
  intros Hu Hw Hp Hs Hh Ht Hb. destruct (up_keyed _ Hw) as (Hk & H0 & Hkey & Hsl).
  destruct (Queue.queue_init_wf (Encrypt.queue s0)) as [Hq Hq0].
  pose proof (crypto_blocks_seal u up_key up_salt Hkey Hsl) as Hseal.
  pose proof (sealing_nothing up_key up_salt _ _ Hq Hq0 Hk) as Hn. rewrite <- Hs in Hn.
  pose proof (sealing_turn crcs accept_unsigned u Hu _ _ encrypt_view _ up_key up_salt
    (crypto_seals_reports crcs accept_unsigned u) _ rb head (Encrypt.pre_init s0) Hh Ht Hb Hn Hp) as H.
  cbn [Encrypt.pre_init Encrypt.prs] in H. rewrite H0 in H. unfold Encrypt.run_turn.
  destruct (relayed crcs accept_unsigned (st_msg u) (st_status u) (Encrypt.prs s0) (available rb head)) as [p' ws].
  intros Hlim. specialize (H Hlim). destruct (drain_ring _ _ _ _ _ _) as [head' s].
  destruct H as (-> & Hp' & [H1 H2 H3 H4 H5]). done.
Qed.

(** C20. Decrypt, from its initialisation, on a ring in which a peer has put
    the first [n] blocks of a stream [l], sealed under the first half of the
    key material at any counters, followed by anything: after [n] turns it has
    written what its parser reports on the blocks, in order, and the index in
    the shared buffer is the one from which the rest is read. *)
Theorem crypto_decrypt_opens crcs accept_unsigned u rb head s0 c n l rest :
  stack_ok u -> wf_sym_key (Decrypt.symkey_chan1 s0) -> parser_ok (Decrypt.prs s0) -> Decrypt.serial s0 = [] ->
  in_ring head -> in_ring (rb_tail rb) -> rb_head rb = head -> bytes l -> (GEC_PT_LEN * n <= length l)%nat ->
  available rb head = concat (sealed down_key down_salt c n l) ++ rest ->
  exists h s, run_turns crcs accept_unsigned u n rb head (Decrypt.pre_init s0) = (set_head rb h, h, s) /\
    available rb h = rest /\
    relayed_frames crcs accept_unsigned u (Decrypt.prs s0) (chunks n l) = (Decrypt.prs s, Decrypt.serial s).
Proof.
  intros Hu Hw Hp Hs Hh Ht Hrh Hb Hl Ha. destruct (down_keyed _ Hw) as (Hk & _ & Hkey & Hsl).
  rewrite sealed_boxes in Ha. destruct (boxes_open_chunks _ _ Hkey Hsl n c l Hb Hl) as [Hct Hop].
  destruct (run_turns_relay crcs accept_unsigned u Hu _ _ Hkey Hsl (boxes down_key down_salt c n l) rb head
    (Decrypt.pre_init s0) rest Hh Ht Hp Hk Hct Hrh Ha) as (h & s & o & E & _ & Ha' & Er & Ho).
  rewrite length_boxes in E. exists h, s. split; [exact E|]. split; [exact Ha'|].
  rewrite Hop in Er. cbn [Decrypt.pre_init Decrypt.prs Decrypt.serial] in *. by rewrite Er, Ho, Hs.
Qed.

(** ** The theorems on the sample link *)

(** A static variable before its initialisation. *)
Definition zero_key : gec_sym_key := mk_sym_key blank_ctx (replicate 8 0) 0.

Lemma crypto_encrypt_seals_witness :
  let '(p', ws) := relayed ardupilotmega_crcs None (st_msg sample_stack) (st_status sample_stack) idle_parser
    (available (ring_of heartbeats) 0) in
  let l := concat ws in
  full_blocks l = 1%nat /\
  let '(head', s) := Encrypt.run_turn ardupilotmega_crcs None sample_stack (ring_of heartbeats) 0
    (Encrypt.pre_init (Encrypt.mk_state idle_parser empty_queue zero_key [])) in
  head' = 78 /\ Encrypt.prs s = p' /\
  Encrypt.serial s = sealed up_key up_salt 0 (full_blocks l) l /\
  Queue.contents (Encrypt.queue s) = drop (GEC_PT_LEN * full_blocks l) l.
Proof.
  pose proof (crypto_encrypt_seals ardupilotmega_crcs None sample_stack (ring_of heartbeats) 0
    (Encrypt.mk_state idle_parser empty_queue zero_key []) sample_stack_ok blank_ctx_wf blank_parser_ok eq_refl
    ltac:(done) ltac:(done) ltac:(decide_true)) as H.
  assert (full_blocks (concat (relayed ardupilotmega_crcs None (st_msg sample_stack) (st_status sample_stack) idle_parser
    (available (ring_of heartbeats) 0)).2) = 1%nat) as Hn by (vm_compute; reflexivity).
  cbn [Encrypt.prs] in H. destruct (relayed _ _ _ _ idle_parser _) as [p' ws]. cbn [snd] in Hn.
  split; [exact Hn|]. apply H. rewrite Hn. done.
Defined.

(** Two blocks of heartbeats from a peer at counter 6, then one more byte. *)
#[local] Abbreviation sample_stream := (heartbeats ++ heartbeats).
#[local] Abbreviation sample_link := (concat (sealed down_key down_salt 6 2 sample_stream)).

Lemma sample_link_length : length sample_link = 164%nat.
Proof.
  destruct (down_keyed zero_key blank_ctx_wf) as (_ & _ & Hkey & Hsl).
  apply (length_sealed _ _ Hkey Hsl 2). apply Nat.leb_le. reflexivity.
Qed.

Lemma crypto_decrypt_opens_witness :
  let s0 := Decrypt.mk_state idle_parser zero_key [] in
  exists h s, run_turns ardupilotmega_crcs None sample_stack 2 (ring_of (sample_link ++ [1])) 0 (Decrypt.pre_init s0) =
      (set_head (ring_of (sample_link ++ [1])) h, h, s) /\
    available (ring_of (sample_link ++ [1])) h = [1] /\
    relayed_frames ardupilotmega_crcs None sample_stack idle_parser (chunks 2 sample_stream) =
      (Decrypt.prs s, Decrypt.serial s).
Proof.
  pose proof sample_link_length as Hl. intros s0.
  assert (in_ring 0) as H0 by (split; done).
  refine (crypto_decrypt_opens ardupilotmega_crcs None sample_stack (ring_of (sample_link ++ [1])) 0 s0 6 2 sample_stream [1]
    sample_stack_ok blank_ctx_wf blank_parser_ok eq_refl H0 _ eq_refl _ _ _).
  - apply ring_of_tail. rewrite length_app, Hl. apply Nat.ltb_lt. reflexivity.
  - decide_true.
  - apply Nat.leb_le. reflexivity.
  - apply available_ring_of. rewrite length_app, Hl. apply Nat.ltb_lt. reflexivity.
Defined.

(** ** The receivers *)

(** As long as the variable agrees with the index in the shared buffer, a turn
    of either receiver is [rb_put] of RingBuffer.v. *)
Lemma rx_turn_put rb c :
  Pixhawk_RX.run_turn c (rb_tail rb) rb = (rb_tail (rb_put rb c), rb_put rb c) /\
  Telemetry_RX.run_turn c (rb_tail rb) rb = (rb_tail (rb_put rb c), rb_put rb c).
Proof. split; reflexivity. Qed.

Definition rx_turns (l : list Z) (rb : ring_buffer_t) : ring_buffer_t :=
  (foldl (fun '(t, rb) c => Telemetry_RX.run_turn c t rb)
    (Telemetry_RX.run_start, Telemetry_RX.pre_init rb) l).2.

Lemma rx_turns_put l rb : rx_turns l rb = foldl rb_put (rb_reset rb) l.
Proof.
  unfold rx_turns. change (Telemetry_RX.run_start) with (rb_tail (rb_reset rb)).
  change (Telemetry_RX.pre_init rb) with (rb_reset rb). generalize (rb_reset rb) as b. clear rb.
  induction l as [|c l IH]; intros b; [done|]. cbn [foldl]. rewrite (proj2 (rx_turn_put b c)). apply IH.
Qed.
