(* ===== verification/CryptoBlock.v ===== *)
(** * The comm-crypto-block application

    apps/comm-crypto-block/components/Encrypt and Decrypt, the benchmark of the
    relay.  Encrypt does not read its ring: it makes heartbeats, as fast as it
    can, and seals them 64 bytes at a time.  Decrypt takes 82 bytes at a time
    from its ring, without looking for the start of a frame, keeps what it
    opens in a [deque_t], and gives up at the first frame without the two
    header bytes.  (The receivers are [rb_put] of RingBuffer.v.) *)

From S2P Require Import Prelude Ring Queue RingBuffer MavlinkTypes Mavlink MavlinkParser MavlinkRoundTrip.
From S2P Require Import Aes Gf128 Gcm GcmSpec AesModes Gec Relay FrameStream Heartbeat SealedStream LinkSample CryptoRelay.

Local Open Scope Z_scope.

Definition MAV_TYPE_QUADROTOR : Z := 2.
Definition MAVLINK_MAX_FRAME_LEN : nat := 280.

(** Both components have the same [key_material] as comm-crypto-relay. *)
Module Encrypt.
Section component.
Context (crcs : list mavlink_msg_entry_t).
Context (accept_unsigned : option (mavlink_status_t -> Z -> bool)).
Context (u : stack).

(** The static variables, with the library's status of [MAVLINK_COMM_0] and
    what has been written to the port; and the variables of [run]. *)
Record state := mk_state {
  comm_0 : mavlink_status_t;
  prs : parser;
  symkey_chan2 : gec_sym_key;
  serial : list (list Z);
}.

Record locals := mk_locals {
  queue : Queue.queue_t;
  ct_frame : list Z;
  msg : mavlink_message_t;
  hb : mavlink_heartbeat_t;
}.

Definition my_mavlink_parse_char (p : parser) (c : Z) (r_message : mavlink_message_t)
    (r_mavlink_status : mavlink_status_t) : parser * mavlink_message_t * mavlink_status_t * Z :=
  parse_frame_char crcs accept_unsigned p c r_message r_mavlink_status.

(** Called by [handle_char] only: [None] when the message is written past the
    [GEC_PT_LEN] bytes of [buf].  The [memset] clears [sizeof(int)] bytes. *)
Definition encrypt_to_frame (k : gec_sym_key) (buf ct_frame : list Z) (msg : mavlink_message_t)
    : option (Z * list Z * gec_sym_key) :=
  let '(buf, len) := mavlink_msg_to_send_buffer buf msg in
  if Z.of_nat GEC_PT_LEN <? len then None
  else
    let ct_frame := wr (wr ct_frame 0 GEC_CIPHERTEXT_FRAME_MAGIC) 1 GEC_CIPHERTEXT_FRAME_TAG in
    let ct_frame := memset_at ct_frame 2 4 0 in
    let '(r, ct, k) := gec_encrypt (st_places u) k buf (drop 2 ct_frame) in
    let ct_frame := take 2 ct_frame ++ ct in
    Some (if negb (r =? GEC_SUCCESS) then 1 else 0, ct_frame, k).

(** Without a caller. *)
Definition handle_char (c : Z) (s : state) : option state :=
  let '(p, msg, _, result) := my_mavlink_parse_char (prs s) c (st_msg u) (st_status u) in
  if result =? 0 then Some (mk_state (comm_0 s) p (symkey_chan2 s) (serial s))
  else
    '(r, ct_frame, k) ← encrypt_to_frame (symkey_chan2 s) (take GEC_PT_LEN (st_buf u)) (st_frame u) msg;
    Some (mk_state (comm_0 s) p k (if r =? 0 then serial s ++ [ct_frame] else serial s)).

Definition pre_init (s : state) : state :=
  mk_state (comm_0 s) (prs s)
    (gec_init_sym_key_conf_auth (symkey_chan2 s) (drop GEC_RAW_KEY_LEN key_material)) (serial s).

(** The assignments before the loop: [autopilot] and [base_mode] are not
    initialised. *)
Definition run_start (l : locals) : locals :=
  mk_locals (Queue.queue_init (queue l))
    (wr (wr (ct_frame l) 0 GEC_CIPHERTEXT_FRAME_MAGIC) 1 GEC_CIPHERTEXT_FRAME_TAG) (msg l)
    (mk_heartbeat 0 MAV_TYPE_QUADROTOR (hb_autopilot (hb l)) (hb_base_mode (hb l)) 0 3).

Fixpoint encrypt_blocks (loop : nat) (buf ct_frame : list Z) (q : Queue.queue_t) (k : gec_sym_key)
    (out : list (list Z)) : Queue.queue_t * list Z * gec_sym_key * list (list Z) :=
  match loop with
  | O => (q, ct_frame, k, out)
  | S loop =>
      let '(q, buf) := dequeue_into GEC_PT_LEN 0 (st_byte u) q buf in
      let '(result, ct, k) := gec_encrypt (st_places u) k buf (drop 2 ct_frame) in
      let ct_frame := take 2 ct_frame ++ ct in
      let out := if negb (result =? 0) then out else out ++ [ct_frame] in
      encrypt_blocks loop buf ct_frame q k out
  end.

(** One turn of [while (1)]; [buf] is cleared first. *)
Definition run_turn (x : locals * state) : locals * state :=
  let '(l, s) := x in
  let '(msg, comm_0, _) := mavlink_msg_heartbeat_encode 1 0 (comm_0 s) (msg l) (hb l) in
  let '(buf, len) := mavlink_msg_to_send_buffer (replicate MAVLINK_MAX_FRAME_LEN 0) msg in
  let q := enqueue_all (queue l) (take (Z.to_nat len) buf) in
  let loop := Z.to_nat (Queue.size q / Z.of_nat GEC_PT_LEN) in
  let '(q, ct_frame, k, out) := encrypt_blocks loop buf (ct_frame l) q (symkey_chan2 s) (serial s) in
  (mk_locals q ct_frame msg (hb l), mk_state comm_0 (prs s) k out).

Definition run_turns (n : nat) (x : locals * state) : locals * state := Nat.iter n run_turn x.
End component.
End Encrypt.

Module Decrypt.
Section component.
Context (crcs : list mavlink_msg_entry_t).
Context (accept_unsigned : option (mavlink_status_t -> Z -> bool)).
Context (u : stack).

(** What the loop over the deque works on: the parser, [msg] and [status] of
    [run], the port; [overflow] is set by a write past the [GEC_CT_LEN] bytes
    of [buf], after which nothing is known. *)
Record io := mk_io {
  prs : parser;
  msg : mavlink_message_t;
  status : mavlink_status_t;
  serial : list (list Z);
  overflow : bool;
}.

Record state := mk_state {
  vars : io;
  deque : Deque.deque_t;
  symkey_chan1 : gec_sym_key;
}.

Definition my_mavlink_parse_char (p : parser) (c : Z) (r_message : mavlink_message_t)
    (r_mavlink_status : mavlink_status_t) : parser * mavlink_message_t * mavlink_status_t * Z :=
  parse_frame_char crcs accept_unsigned p c r_message r_mavlink_status.

(** [len = mavlink_msg_to_send_buffer(buf, &msg); ps_cdev_write(serial, buf, len);] *)
Definition write_msg (x : io) : io :=
  let '(buf, len) := mavlink_msg_to_send_buffer (take GEC_CT_LEN (st_buf u)) (msg x) in
  if Z.of_nat GEC_CT_LEN <? len then mk_io (prs x) (msg x) (status x) (serial x) true
  else mk_io (prs x) (msg x) (status x) (serial x ++ [take (Z.to_nat len) buf]) (overflow x).

(** The body of the loop. *)
Definition handle_char (c : Z) (x : io) : io :=
  let '(p, m, st, result) := my_mavlink_parse_char (prs x) c (msg x) (status x) in
  let x := mk_io p m st (serial x) (overflow x) in
  if result =? 0 then x else write_msg x.

(** Without a caller. *)
Definition parse_char_into_msg (c : Z) (x : io) : io :=
  let '(p, m, st, result) := my_mavlink_parse_char (prs x) c (st_msg u) (st_status u) in
  if result =? 0 then mk_io p (msg x) (status x) (serial x) (overflow x)
  else
    let y := write_msg (mk_io p m st (serial x) (overflow x)) in
    mk_io p (msg x) (status x) (serial y) (overflow y).

(** The loop of [decrypt_to_msg], up to its [break]. *)
Fixpoint first_message (pt : list Z) (p : parser) (msg : mavlink_message_t) (status : mavlink_status_t)
    (ret_msg : mavlink_message_t) : parser * mavlink_message_t :=
  match pt with
  | [] => (p, ret_msg)
  | c :: pt =>
      let '(p, msg, status, result) := my_mavlink_parse_char p c msg status in
      if result =? 0 then first_message pt p msg status ret_msg else (p, msg)
  end.

(** Without a caller. *)
Definition decrypt_to_msg (ct_frame : list Z) (ret_msg : mavlink_message_t) (s : state) : Z * mavlink_message_t * state :=
  if negb (rd ct_frame 0 =? GEC_CIPHERTEXT_FRAME_MAGIC) then (1, ret_msg, s)
  else if negb (rd ct_frame 1 =? GEC_CIPHERTEXT_FRAME_TAG) then (1, ret_msg, s)
  else
    let '(r, pt, k) := gec_decrypt (st_places u) (symkey_chan1 s) (drop 2 ct_frame) (st_pt u) in
    let s := mk_state (vars s) (deque s) k in
    if negb (r =? 0) then (1, ret_msg, s)
    else
      let x := vars s in
      let '(p, ret_msg) := first_message (take GEC_PT_LEN pt) (prs x) (st_msg u) (st_status u) ret_msg in
      (0, ret_msg, mk_state (mk_io p (msg x) (status x) (serial x) (overflow x)) (deque s) k).

Definition pre_init (s : state) : state :=
  mk_state (vars s) (Deque.deque_init (deque s)) (gec_init_sym_key_conf_auth (symkey_chan1 s) key_material).

(** It returns when [len] bytes have been read; the index is written back
    then. *)
Definition read_ringbuffer (len : nat) (rb : ring_buffer_t) : option (list Z * ring_buffer_t) :=
  '(l, head) ← ring_bytes len rb (rb_head rb); Some (l, set_head rb head).

(** The part of a turn after the two header bytes. *)
Definition handle_frame (ct : list Z) (s : state) : state :=
  let '(result, pt, k) := gec_decrypt (st_places u) (symkey_chan1 s) ct (st_pt u) in
  let d := if negb (result =? 0) then deque s else enqueue_all (deque s) (take GEC_PT_LEN pt) in
  let '(d, x) := drain_queue handle_char (S (Z.to_nat MAX_DEQUE_SIZE)) 0 (st_byte u) d (vars s) in
  mk_state x d k.

(** Where [run] is after some turns of its loop. *)
Inductive outcome :=
  | Running (rb : ring_buffer_t) (s : state)
  | Returned (r : Z) (rb : ring_buffer_t) (s : state)
  | Overflow.

Definition run_turn (rb : ring_buffer_t) (s : state) : outcome :=
  match read_ringbuffer (2 + GEC_CT_LEN) rb with
  | None => Running rb s
  | Some (ct_frame, rb) =>
      if negb (rd ct_frame 0 =? GEC_CIPHERTEXT_FRAME_MAGIC) then Returned 1 rb s
      else if negb (rd ct_frame 1 =? GEC_CIPHERTEXT_FRAME_TAG) then Returned 1 rb s
      else
        let s := handle_frame (drop 2 ct_frame) s in
        if overflow (vars s) then Overflow else Running rb s
  end.

Fixpoint run_turns (n : nat) (rb : ring_buffer_t) (s : state) : outcome :=
  match n with
  | O => Running rb s
  | S n => match run_turn rb s with Running rb s => run_turns n rb s | o => o end
  end.
End component.
End Decrypt.

(** ** Encrypt *)

(** The loop as the ones of the other applications, and the frame buffer that
    it leaves. *)
Definition block_sealer (u : stack) : block_loop := fun n buf ct q k out =>
  let '(q, _, k, out) := Encrypt.encrypt_blocks u n buf ct q k out in (q, k, out).

#[export] Instance block_sealer_seals u key sl (Hkey : block key) (Hsl : is_salt sl) :
  BlockSealer key sl (block_sealer u).
Proof.
  apply (sealer_of_loop (st_places u) (dequeue_into GEC_PT_LEN 0 (st_byte u))); [done|done| |].
  - intros q buf Hq Hn Hb. by apply queue_dequeue_into.
  - unfold block_sealer. induction n as [|n IH]; intros buf ct_buf q k out; [done|].
    cbn [Encrypt.encrypt_blocks seal_loop].
    destruct (dequeue_into GEC_PT_LEN 0 (st_byte u) q buf) as [q1 b1].
    destruct (gec_encrypt (st_places u) k b1 (drop 2 ct_buf)) as [[r ct] k1]. apply IH.
Qed.

Lemma encrypt_blocks_frame u n : forall buf ct q k out,
  let ct' := (Encrypt.encrypt_blocks u n buf ct q k out).1.1.2 in
  length ct = 82%nat -> length ct' = 82%nat /\ take 2 ct' = take 2 ct.
Proof.
  induction n as [|n IH]; intros buf ct q k out; [done|]. cbv zeta. intros Hl. cbn [Encrypt.encrypt_blocks].
  destruct (dequeue_into GEC_PT_LEN 0 (st_byte u) q buf) as [q1 b1].
  pose proof (length_gec_encrypt (st_places u) k b1 (drop 2 ct)) as Hg.
  destruct (gec_encrypt (st_places u) k b1 (drop 2 ct)) as [[r c1] k1]. cbn [fst snd] in Hg.
  assert (length (take 2 ct) = 2%nat) as Ht by (rewrite length_take; lia).
  destruct (IH b1 (take 2 ct ++ c1) q1 k1 (if negb (r =? 0) then out else out ++ [take 2 ct ++ c1])) as [H1 H2].
  - rewrite length_app, Hg, length_drop. lia.
  - split; [exact H1|]. rewrite H2. by apply take_app_length'.
Qed.

(** The heartbeats of the board: the frames that [k] turns have made. *)
Definition heartbeat_frames (sysid : Z) (h : mavlink_heartbeat_t) (k : nat) : list (list Z) :=
  map (fun i => heartbeat_frame sysid 0 (i mod 256) h) (seqZ 0 (Z.of_nat k)).

Lemma heartbeat_frames_S sysid h k :
  heartbeat_frames sysid h (S k) = heartbeat_frames sysid h k ++ [heartbeat_frame sysid 0 (Z.of_nat k mod 256) h].
Proof.
  unfold heartbeat_frames. replace (Z.of_nat (S k)) with (Z.of_nat k + 1) by lia.
  rewrite seqZ_app, map_app by lia. done.
Qed.

Record encrypting (h : mavlink_heartbeat_t) (k : nat) (x : Encrypt.locals * Encrypt.state) : Prop := {
  en_plain : sends_plain (Encrypt.comm_0 x.2);
  en_seq : s_current_tx_seq (Encrypt.comm_0 x.2) = Z.of_nat k mod 256;
  en_msg : wf_message (Encrypt.msg x.1);
  en_hb : Encrypt.hb x.1 = h;
  en_frame : length (Encrypt.ct_frame x.1) = 82%nat /\ take 2 (Encrypt.ct_frame x.1) = header;
  en_sealing : sealing up_key up_salt 0 (concat (heartbeat_frames 1 h k))
                 (Encrypt.queue x.1) (Encrypt.symkey_chan2 x.2) (Encrypt.serial x.2);
}.

Lemma concat_heartbeats h k w :
  concat (heartbeat_frames 1 h k ++ [w]) = concat (heartbeat_frames 1 h k) ++ w.
Proof. by rewrite concat_app; cbn [concat]; rewrite app_nil_r. Qed.

Lemma encrypt_turn_step u h k x :
  heartbeat_ok h -> encrypting h k x ->
  Z.of_nat (full_blocks (concat (heartbeat_frames 1 h (S k)))) <= counter_limit ->
  encrypting h (S k) (Encrypt.run_turn u x).
Proof.
  intros Hh [Hpl Hseq Hm Hhb [Hf1 Hf2] Hse] Hlim. destruct x as [l s]. cbn [fst snd] in *. unfold Encrypt.run_turn.
  pose proof (encode_spec ardupilotmega_crcs 1 0 (Encrypt.comm_0 s) (Encrypt.msg l) (Encrypt.hb l)
    ardupilotmega_heartbeat Hm ltac:(done) ltac:(done) ltac:(by rewrite Hhb) Hpl) as He.
  destruct (mavlink_msg_heartbeat_encode 1 0 _ _ _) as [[msg c0] n]. destruct He as (Hmsg & _ & ->).
  destruct Hmsg as [(Hu & Ht & _) _ Hw _ _]. rewrite Hseq, Hhb in Hw.
  assert (wire_of msg = heartbeat_frame 1 0 (Z.of_nat k mod 256) h) as Hwire by (unfold wire_of; by rewrite Ht).
  rewrite heartbeat_frames_S, concat_heartbeats, <- Hwire in Hlim.
  destruct (up_keyed zero_key blank_ctx_wf) as (_ & _ & Hkey & Hsl).
  pose proof (block_sealer_seals u up_key up_salt Hkey Hsl) as Hseal.
  pose proof (sealing_message (blocks := block_sealer u) up_key up_salt 0 _ _ _ _ msg (replicate MAVLINK_MAX_FRAME_LEN 0)
    (Encrypt.ct_frame l) Hse (proj1 Hu) (length_replicate _ _) Hf1 Hf2 Hlim) as Hs.
  destruct (mavlink_msg_to_send_buffer (replicate MAVLINK_MAX_FRAME_LEN 0) msg) as [buf len]. cbv zeta in Hs.
  unfold block_sealer in Hs. set (q1 := enqueue_all _ _) in *. set (loop := Z.to_nat (_ / _)) in *.
  pose proof (encrypt_blocks_frame u loop buf (Encrypt.ct_frame l) q1 (Encrypt.symkey_chan2 s) (Encrypt.serial s) Hf1) as Hfr.
  destruct (Encrypt.encrypt_blocks u loop buf _ q1 _ _) as [[[q2 ct2] k2] out2]. cbn [fst snd] in Hfr.
  split; cbn [fst snd Encrypt.comm_0 Encrypt.msg Encrypt.hb Encrypt.ct_frame Encrypt.queue Encrypt.symkey_chan2 Encrypt.serial].
  - by apply sends_plain_next.
  - change (u8 (s_current_tx_seq (Encrypt.comm_0 s) + 1) = Z.of_nat (S k) mod 256). rewrite Hseq.
    unfold wrap. change (2 ^ 8) with 256. rewrite Zplus_mod_idemp_l. f_equal. lia.
  - apply Hu.
  - done.
  - split; [apply Hfr|]. by rewrite (proj2 Hfr).
  - by rewrite heartbeat_frames_S, concat_heartbeats, <- Hwire.
Qed.

Lemma encrypt_run_start l s :
  Encrypt.comm_0 s = blank_status -> wf_message (Encrypt.msg l) -> length (Encrypt.ct_frame l) = 82%nat ->
  wf_sym_key (Encrypt.symkey_chan2 s) -> Encrypt.serial s = [] ->
  encrypting (Encrypt.hb (Encrypt.run_start l)) 0 (Encrypt.run_start l, Encrypt.pre_init s).
Proof.
  intros Hc Hm Hf Hk Hs. destruct (up_keyed _ Hk) as (Hk' & H0 & _).
  destruct (Queue.queue_init_wf (Encrypt.queue l)) as [Hq Hq0]. destruct (header_written _ Hf) as [Hf1 Hf2].
  split; cbn [fst snd Encrypt.run_start Encrypt.pre_init Encrypt.comm_0 Encrypt.msg Encrypt.hb Encrypt.ct_frame
    Encrypt.queue Encrypt.symkey_chan2 Encrypt.serial]; by rewrite ?Hc.
Qed.

Lemma full_blocks_heartbeats_mono h k n :
  (k <= n)%nat -> (full_blocks (concat (heartbeat_frames 1 h k)) <= full_blocks (concat (heartbeat_frames 1 h n)))%nat.
Proof.
  induction 1 as [|n _ IH]; [done|]. rewrite heartbeat_frames_S, concat_heartbeats.
  pose proof (full_blocks_mono (concat (heartbeat_frames 1 h n)) (heartbeat_frame 1 0 (Z.of_nat n mod 256) h)). lia.
Qed.

Lemma encrypt_turns u h x n :
  heartbeat_ok h -> encrypting h 0 x ->
  Z.of_nat (full_blocks (concat (heartbeat_frames 1 h n))) <= counter_limit ->
  encrypting h n (Encrypt.run_turns u n x).
Proof.
  intros Hh Hx. induction n as [|n IH]; intros Hlim; [done|].
  apply encrypt_turn_step; [done| |done]. apply IH.
  pose proof (full_blocks_heartbeats_mono h n (S n)). lia.
Qed.

(** Encrypt of comm-crypto-block, from its initialisation: after [n] turns
    it has written the frames of the full 64-byte blocks of [n] heartbeats of
    system 1, numbered from 0 modulo 256, sealed under the second half of the
    key material from counter 1 on; the rest is in the queue.  Two fields of
    the heartbeats are what the stack held. *)
Theorem block_encrypt_sends_heartbeats u l s n :
  Encrypt.comm_0 s = blank_status -> wf_message (Encrypt.msg l) -> length (Encrypt.ct_frame l) = 82%nat ->
  wf_sym_key (Encrypt.symkey_chan2 s) -> Encrypt.serial s = [] ->
  is_u8 (hb_autopilot (Encrypt.hb l)) -> is_u8 (hb_base_mode (Encrypt.hb l)) ->
  let h := mk_heartbeat 0 2 (hb_autopilot (Encrypt.hb l)) (hb_base_mode (Encrypt.hb l)) 0 3 in
  let stream := concat (heartbeat_frames 1 h n) in
  Z.of_nat (full_blocks stream) <= counter_limit ->
  let '(l', s') := Encrypt.run_turns u n (Encrypt.run_start l, Encrypt.pre_init s) in
  Encrypt.serial s' = sealed up_key up_salt 0 (full_blocks stream) stream /\
  Queue.contents (Encrypt.queue l') = drop (GEC_PT_LEN * full_blocks stream) stream /\
  s_current_tx_seq (Encrypt.comm_0 s') = Z.of_nat n mod 256.
Proof.
  intros Hc Hm Hf Hk Hs Ha Hb h stream Hlim.
  assert (heartbeat_ok h) as Hh by (split; try done; decide_true).
  destruct (encrypt_turns u h _ n Hh (encrypt_run_start l s Hc Hm Hf Hk Hs) Hlim) as [_ H1 _ _ _ [_ H2 _ _ H3]].
  by destruct (Encrypt.run_turns u n _) as [l' s'].
Qed.

(** ** Decrypt *)

Section decrypt.
Context (crcs : list mavlink_msg_entry_t).
Context (accept_unsigned : option (mavlink_status_t -> Z -> bool)).
Context (u : stack) (Hu : stack_ok u).
Import Decrypt.

(** What is known of the port: the writes, and whether one was too long for
    the buffer. *)
Definition port (x : io) : list (list Z) * bool := (serial x, overflow x).

Definition too_long (m : mavlink_message_t) : bool := (GEC_CT_LEN <? length (wire_of m))%nat.

Definition on_report (_ : Z) (m : mavlink_message_t) (v : list (list Z) * bool) : list (list Z) * bool :=
  if too_long m then (v.1, true) else (v.1 ++ [wire_of m], v.2).

Lemma write_msg_port x :
  wf_message (msg x) -> prs (write_msg u x) = prs x /\ port (write_msg u x) = on_report 0 (msg x) (port x).
Proof.
  intros Hm. unfold write_msg, port, on_report, too_long. rewrite (to_send_buffer_memcpy _ _ Hm). fold (wire_of (msg x)).
  destruct (Z.ltb_spec (Z.of_nat GEC_CT_LEN) (Z.of_nat (length (wire_of (msg x))))) as [H|H].
  - rewrite (proj2 (Nat.ltb_lt _ _)) by lia. done.
  - rewrite (proj2 (Nat.ltb_ge _ _)) by lia. rewrite Nat2Z.id, memcpy_at_spec.
    + by rewrite take_0, app_nil_l, take_app_length.
    + rewrite length_take, (ok_buf u Hu). change GEC_CT_LEN with 80%nat in *. lia.
Qed.

Lemma block_handler :
  FrameHandler crcs accept_unsigned (handle_char crcs accept_unsigned u) prs port (fun r => r <> 0) on_report.
Proof.
  split.
  - intros x c Hr. unfold handle_char, my_mavlink_parse_char, parse_frame_char, returned, fed in *.
    pose proof (frame_char_feed1 crcs accept_unsigned (rx_buffer (prs x)) (rx_status (prs x)) c (Some (msg x)) (Some (status x))) as H1.
    cbn zeta in H1. cbn [feed] in *. rewrite H1 in Hr |- *. cbn [fst snd] in *. injection Hr as ->. done.
  - intros x c r m Hr Hm Ho. unfold handle_char, my_mavlink_parse_char, parse_frame_char, fed in *.
    destruct (Ho (msg x) (Some (status x))) as [H2 H3].
    pose proof (frame_char_feed1 crcs accept_unsigned (rx_buffer (prs x)) (rx_status (prs x)) c (Some (msg x)) (Some (status x))) as H1.
    cbn zeta in H1. cbn [feed] in *. rewrite H1, H2, H3. destruct (Z.eqb_spec r 0); [done|]. cbn [default fst snd].
    match goal with |- context [write_msg u ?y] => destruct (write_msg_port y Hm) as [-> ->] end. done.
  - intros r rx m v Hrx Hm. unfold on_report, too_long. by rewrite wire_of_received.
Qed.

#[local] Abbreviation handle_all := (foldl (fun x c => handle_char crcs accept_unsigned u c x)).

Lemma overflow_stays bs : forall x, overflow x = true -> overflow (handle_all x bs) = true.
Proof.
  induction bs as [|c bs IH]; intros x Hx; [done|]. apply IH. unfold handle_char, my_mavlink_parse_char.
  destruct (parse_frame_char _ _ _ _ _ _) as [[[p m] st] r]. destruct (r =? 0); [done|].
  unfold write_msg. destruct (mavlink_msg_to_send_buffer _ _) as [buf len]. by case_bool.
Qed.

Context (key sl : list Z) (Hkey : block key) (Hsl : is_salt sl).

(** The state after the plaintext stream [l], of which the first [n] bytes
    have gone through the parser. *)
Record decrypting (x0 : io) (l : list Z) (n : nat) (s : state) : Prop := {
  dc_vars : vars s = handle_all x0 (take n l);
  dc_deque : half_drained (deque s) l n;
  dc_keyed : gec_keyed key sl (symkey_chan1 s);
}.

Lemma handle_frame_step x0 l n s ct :
  decrypting x0 l n s -> is_ct ct ->
  exists n', decrypting x0 (l ++ opened key sl ct) n' (handle_frame crcs accept_unsigned u ct s) /\ (n <= n')%nat.
Proof.
  intros [Hv Hd Hk] Hct. unfold handle_frame.
  destruct (gec_decrypt_opened key sl Hkey Hsl (st_places u) (symkey_chan1 s) ct (st_pt u) Hk Hct (ok_pt u Hu))
    as (k' & pt & r & -> & Hk' & Hpt).
  destruct (opened_ok key sl Hkey Hsl ct Hct) as [Hob Hol].
  assert ((if negb (r =? 0) then deque s else enqueue_all (deque s) (take GEC_PT_LEN pt)) =
          enqueue_all (deque s) (opened key sl ct)) as -> by (rewrite <- Hpt; by destruct (negb (r =? 0))).
  destruct (half_drain (handle_char crcs accept_unsigned u) (S (Z.to_nat MAX_DEQUE_SIZE)) (st_byte u) (deque s) x0 l n
    (opened key sl ct) Hd Hob Hol) as (n' & q' & E & Hd' & Hn'); [done|apply Nat.ltb_lt; reflexivity|].
  rewrite Hv, E. exists n'. split; [by split|done].
Qed.

Lemma read_frame rb ct rest :
  in_ring (rb_head rb) -> in_ring (rb_tail rb) -> length ct = GEC_CT_LEN ->
  available rb (rb_head rb) = frame ct ++ rest ->
  exists h, read_ringbuffer (2 + GEC_CT_LEN) rb = Some (frame ct, set_head rb h) /\ in_ring h /\
    available (set_head rb h) h = rest.
Proof.
  intros Hh Ht Hl Ha. pose proof (ring_bytes_spec (2 + GEC_CT_LEN) rb (rb_head rb) Hh Ht) as H. rewrite Ha in H.
  assert (length (frame ct) = 2 + GEC_CT_LEN)%nat as Hf by (cbn [frame length]; lia).
  rewrite (proj2 (Nat.leb_le _ _)) in H by (rewrite length_app; lia).
  rewrite take_app_length', drop_app_length' in H by done.
  destruct H as (h & E & Hh' & Ha'). exists h. unfold read_ringbuffer. by rewrite E.
Qed.

Lemma run_frames x0 cts : forall rb s l n rest,
  in_ring (rb_head rb) -> in_ring (rb_tail rb) -> decrypting x0 l n s -> Forall is_ct cts ->
  available rb (rb_head rb) = concat (map frame cts) ++ rest ->
  exists n' rb' s', let L := l ++ concat (map (opened key sl) cts) in
    run_turns crcs accept_unsigned u (length cts) rb s =
      (if negb (bool_decide (cts = [])) && overflow (vars s') then Overflow else Running rb' s') /\
    available rb' (rb_head rb') = rest /\ decrypting x0 L n' s' /\ (n <= n')%nat.
Proof.
  induction cts as [|ct cts IH]; intros rb s l n rest Hh Ht Hs Hc Ha.
  { exists n, rb, s. cbn [map concat length run_turns]. by rewrite app_nil_r. }
  apply List.Forall_cons_iff in Hc as [Hc Hcs]. cbn [map concat length run_turns] in *. rewrite <- app_assoc in Ha.
  destruct (read_frame rb ct _ Hh Ht (proj2 Hc) Ha) as (h & E & Hh1 & Ha1). unfold run_turn. rewrite E.
  change (rd (frame ct) 0) with GEC_CIPHERTEXT_FRAME_MAGIC. change (rd (frame ct) 1) with GEC_CIPHERTEXT_FRAME_TAG.
  rewrite !Z.eqb_refl. cbn [negb]. change (drop 2 (frame ct)) with ct.
  destruct (handle_frame_step x0 l n s ct Hs Hc) as (n1 & Hs1 & Hn1).
  destruct (IH (set_head rb h) _ _ n1 rest Hh1 Ht Hs1 Hcs Ha1) as (n' & rb' & s' & H). cbv zeta in H.
  destruct H as (Er & Ha' & Hs' & Hn'). rewrite <- app_assoc in Hs'. exists n', rb', s'. cbv zeta.
  rewrite bool_decide_eq_false_2 by done. cbn [negb andb]. split; [|split; [exact Ha'|split; [exact Hs'|lia]]].
  destruct (overflow (vars (handle_frame crcs accept_unsigned u ct s))) eqn:Eo.
  - assert (overflow (vars s') = true) as ->; [|done].
    rewrite (dc_vars _ _ _ _ Hs1) in Eo. rewrite (dc_vars _ _ _ _ Hs').
    pose proof (hd_bound _ _ _ (dc_deque _ _ _ _ Hs1)) as Hb1.
    rewrite <- (take_drop n1 (take n' _)), take_take, Nat.min_l, foldl_app by lia. apply overflow_stays.
    rewrite app_assoc, take_app_le by lia. exact Eo.
  - rewrite Er. destruct cts as [|ct2 cts]; [|done]. cbn [length run_turns map concat] in *.
    rewrite bool_decide_eq_true_2 in Er by done. cbn [negb andb] in Er |- *. injection Er as <- <-. by rewrite Eo.
Qed.
End decrypt.

Definition fits (m : mavlink_message_t) : Prop := (length (_mavlink_resend_uart m) <= GEC_CT_LEN)%nat.

Lemma report_all (r : mavlink_message_t -> Z) ms : forall v,
  Forall relayable ms ->
  let v' := foldl (fun v m => on_report (r m) m v) v ms in
  (Forall fits ms -> v' = (v.1 ++ map _mavlink_resend_uart ms, v.2)) /\
  (v.2 = true \/ Exists (fun m => ~ fits m) ms -> v'.2 = true).
Proof.
  induction ms as [|m ms IH]; intros [out o] Hm; cbn [foldl].
  { split; [by rewrite app_nil_r|]. intros [H|H]; [exact H|by inversion H]. }
  apply List.Forall_cons_iff in Hm as [(_ & Ht & _) Hms]. specialize (IH (on_report (r m) m (out, o)) Hms).
  cbv zeta in IH |- *. destruct IH as [IH1 IH2]. unfold on_report, too_long, wire_of in IH1, IH2 |- *. rewrite Ht in IH1, IH2 |- *.
  cbn [fst snd] in IH1, IH2 |- *. unfold fits in *. split.
  - intros [Hf Hfs]%List.Forall_cons_iff. rewrite (IH1 Hfs), (proj2 (Nat.ltb_ge _ _)) by exact Hf. cbn [fst snd map].
    by rewrite <- app_assoc.
  - intros H. apply IH2. destruct (Nat.ltb_spec GEC_CT_LEN (length (_mavlink_resend_uart m))); cbn [snd]; [by left|].
    destruct H as [H|H]; [by left|]. right. inversion H; [lia|done].
Qed.

Section decrypt_run.
Context (crcs : list mavlink_msg_entry_t).
Context (accept_unsigned : option (mavlink_status_t -> Z -> bool)).
Context (u : stack) (Hu : stack_ok u).
Import Decrypt.

(** A ring with the first [n] blocks of a stream of frames, sealed by a peer,
    and Decrypt before its initialisation. *)
Record from_peer (rb : ring_buffer_t) (s : state) (c : Z) (n : nat) (ms : list mavlink_message_t) (rest : list Z) : Prop := {
  fp_key : wf_sym_key (symkey_chan1 s);
  fp_parser : between_frames (prs (vars s));
  fp_port : port (vars s) = ([], false);
  fp_head : in_ring (rb_head rb);
  fp_tail : in_ring (rb_tail rb);
  fp_frames : Forall relayable ms;
  fp_blocks : (GEC_PT_LEN * n <= length (concat (map _mavlink_resend_uart ms)))%nat;
  fp_ring : available rb (rb_head rb) =
    concat (sealed down_key down_salt c n (concat (map _mavlink_resend_uart ms))) ++ rest;
}.

Lemma relayable_bytes ms : Forall relayable ms -> bytes (concat (map _mavlink_resend_uart ms)).
Proof. induction 1 as [|m ms (_ & _ & Hb) _ IH]; cbn [map concat]; [constructor|by apply bytes_app]. Qed.

Lemma block_decrypt_run rb s c n ms rest :
  from_peer rb s c n ms rest ->
  exists n' rb' s', run_turns crcs accept_unsigned u n rb (pre_init s) =
      (if negb (n =? 0)%nat && overflow (vars s') then Overflow else Running rb' s') /\
    available rb' (rb_head rb') = rest /\ (n' <= GEC_PT_LEN * n <= n' + 64)%nat /\
    port (vars s') = foldl (fun v m => on_report (verdict crcs m) m v) ([], false)
      (take (whole_frames n' (map _mavlink_resend_uart ms)) ms).
Proof.
  intros [Hk Hp Hpo Hh Ht Hms Hn Ha]. set (l := concat (map _mavlink_resend_uart ms)) in *.
  assert (bytes l) as Hb by (by apply relayable_bytes). destruct (down_keyed _ Hk) as (Hk' & _ & Hkey & Hsl).
  destruct (boxes_open down_key down_salt Hkey Hsl n c l Hb Hn) as [Hct Hop]. rewrite sealed_boxes in Ha.
  destruct (Deque.deque_init_wf (deque s)) as [Hd Hd0].
  assert (decrypting crcs accept_unsigned u down_key down_salt (vars s) [] 0 (pre_init s)) as H0.
  { split; [done| |exact Hk']. split; [exact Hd|cbn; lia|exact Hd0]. }
  destruct (run_frames crcs accept_unsigned u Hu down_key down_salt Hkey Hsl (vars s) (boxes down_key down_salt c n l)
    rb (pre_init s) [] 0 rest Hh Ht H0 Hct Ha) as (n' & rb' & s' & E & Ha' & [Hv Hdq _] & _).
  rewrite Hop in Hv, Hdq. cbn [app] in Hv, Hdq. rewrite length_boxes in E. exists n', rb', s'. split; [|split; [exact Ha'|]].
  - rewrite E. destruct n as [|n]; [done|]. cbn [boxes]. by rewrite bool_decide_eq_false_2.
  - pose proof (hd_bound _ _ _ Hdq) as Hbd. rewrite length_take, Nat.min_l in Hbd by lia. split; [lia|].
    rewrite Hv, <- Hpo, take_take, Nat.min_l by lia. unfold l.
    pose proof (block_handler crcs accept_unsigned u Hu) as Hfh. exact (handle_prefix crcs accept_unsigned (handle_char crcs accept_unsigned u) prs port (fun r => r <> 0) on_report ms n'
      (vars s) Hp (proj1 (relayable_good crcs ms Hms))).
Qed.

(** C21. Decrypt of comm-crypto-block, from its initialisation, on what a peer
    has sealed of a stream of frames of at most 80 bytes: after one turn for
    each block it has written the first of those frames, unchanged and in
    order; what of the blocks has not come out is less than 145 bytes. *)
Theorem block_decrypt_relays rb s c n ms rest :
  from_peer rb s c n ms rest -> Forall fits ms ->
  exists rb' s' j, run_turns crcs accept_unsigned u n rb (pre_init s) = Running rb' s' /\
    available rb' (rb_head rb') = rest /\ serial (vars s') = take j (map _mavlink_resend_uart ms) /\
    (GEC_PT_LEN * n < length (concat (serial (vars s'))) + 145)%nat.
Proof.
  intros Hp Hf. destruct (block_decrypt_run rb s c n ms rest Hp) as (n' & rb' & s' & E & Ha & Hn & Hport).
  set (j := whole_frames n' _) in *.
  pose proof (report_all (verdict crcs) (take j ms) ([], false) (Forall_take _ _ _ (fp_frames _ _ _ _ _ _ Hp))) as [H _].
  specialize (H (Forall_take _ _ _ Hf)). cbv zeta in H. rewrite <- Hport in H. unfold port in H. cbn [fst snd app] in H.
  injection H as Hs Ho. rewrite Ho, andb_false_r in E. exists rb', s', j. rewrite firstn_map, <- Hs.
  split; [exact E|]. split; [exact Ha|]. split; [done|]. rewrite Hs, <- firstn_map.
  destruct (whole_frames_spec (map _mavlink_resend_uart ms) n') as (Hj & _ & Hlast). fold j in Hj, Hlast.
  pose proof (fp_blocks _ _ _ _ _ _ Hp) as Hb. destruct Hlast as [-> | Hlast]; [rewrite take_ge by lia; lia|].
  assert (Forall (fun w => length w <= 80)%nat (map _mavlink_resend_uart ms)) as H80.
  { clear -Hf. induction Hf as [|m ms Hm _ IH]; [constructor|by apply Forall_cons_2]. }
  pose proof (length_next_piece 80 _ j H80). lia.
Qed.

(** C22. A frame of more than 80 bytes is written past the end of the buffer
    that it is serialised into, as soon as all of it is among the bytes that
    have certainly been parsed. *)
Theorem block_decrypt_overflows rb s c n ms m more rest :
  from_peer rb s c n (ms ++ m :: more) rest -> ~ fits m ->
  (length (concat (map _mavlink_resend_uart (ms ++ [m]))) + 64 <= GEC_PT_LEN * n)%nat ->
  run_turns crcs accept_unsigned u n rb (pre_init s) = Overflow.
Proof.
  intros Hp Hf Hl. destruct (block_decrypt_run rb s c n _ rest Hp) as (n' & rb' & s' & E & _ & Hn & Hport).
  set (j := whole_frames n' _) in *. change GEC_PT_LEN with 64%nat in *.
  assert (length ms < j)%nat as Hj.
  { destruct (whole_frames_spec (map _mavlink_resend_uart (ms ++ m :: more)) n') as (_ & _ & Hlast). fold j in Hlast.
    destruct Hlast as [-> | Hlast]; [rewrite length_map, length_app; cbn; lia|].
    destruct (decide (length ms < j)%nat) as [|Hj]; [done|exfalso].
    assert (concat (take (S j) (map _mavlink_resend_uart (ms ++ m :: more))) `prefix_of`
            concat (map _mavlink_resend_uart (ms ++ [m]))) as Hpre.
    { change (m :: more) with ([m] ++ more). rewrite app_assoc, map_app, take_app_le by (rewrite length_map, length_app; cbn; lia).
      exists (concat (drop (S j) (map _mavlink_resend_uart (ms ++ [m])))). by rewrite <- concat_app, take_drop. }
    apply prefix_length in Hpre. lia. }
  assert (overflow (vars s') = true) as Ho.
  { pose proof (report_all (verdict crcs) (take j (ms ++ m :: more)) ([], false)
      (Forall_take _ _ _ (fp_frames _ _ _ _ _ _ Hp))) as [_ H].
    cbv zeta in H. rewrite <- Hport in H. apply H. right. apply Exists_exists. exists m. split; [|exact Hf].
    apply list_elem_of_In, list_elem_of_lookup. exists (length ms). rewrite lookup_take_lt by done. by apply list_lookup_middle. }
  rewrite Ho, andb_true_r in E. destruct n as [|n]; [cbn in *; lia|]. exact E.
Qed.
End decrypt_run.

(** Decrypt of comm-crypto-block does not look for the start of a frame:
    when the next byte of the ring is not the magic byte (one byte of a frame
    was lost, or one too many came), [run] returns 1 as soon as 82 bytes are
    there, whatever follows, and is never called again. *)
Theorem block_decrypt_gives_up crcs accept_unsigned u rb s g l n :
  in_ring (rb_head rb) -> in_ring (rb_tail rb) -> available rb (rb_head rb) = g :: l ->
  g <> GEC_CIPHERTEXT_FRAME_MAGIC -> (81 <= length l)%nat ->
  exists h, Decrypt.run_turns crcs accept_unsigned u (S n) rb s = Decrypt.Returned 1 (set_head rb h) s /\
    available rb h = drop 81 l.
Proof.
  intros Hh Ht Ha Hg Hl. pose proof (ring_bytes_spec (2 + GEC_CT_LEN) rb (rb_head rb) Hh Ht) as H. rewrite Ha in H.
  change (2 + GEC_CT_LEN)%nat with 82%nat in *. rewrite (proj2 (Nat.leb_le _ _)) in H by (cbn [length]; lia).
  destruct H as (h & E & _ & Ha'). exists h. split; [|exact Ha'].
  cbn [Decrypt.run_turns]. unfold Decrypt.run_turn, Decrypt.read_ringbuffer. change (2 + GEC_CT_LEN)%nat with 82%nat.
  rewrite E. cbn [mbind option_bind]. change (rd (take 82 (g :: l)) 0) with g.
  destruct (Z.eqb_spec g GEC_CIPHERTEXT_FRAME_MAGIC); done.
Qed.

(** ** The theorems on the sample link *)

#[local] Abbreviation sample_locals :=
  (Encrypt.mk_locals empty_queue (replicate 82 0) blank_message (mk_heartbeat 7 7 3 81 7 7)).

(** Four turns: 84 bytes, one block. *)
Lemma block_encrypt_sends_heartbeats_witness :
  let h := mk_heartbeat 0 2 3 81 0 3 in
  let stream := concat (heartbeat_frames 1 h 4) in
  full_blocks stream = 1%nat /\
  let '(l', s') := Encrypt.run_turns sample_stack 4
    (Encrypt.run_start sample_locals, Encrypt.pre_init (Encrypt.mk_state blank_status idle_parser zero_key [])) in
  Encrypt.serial s' = sealed up_key up_salt 0 (full_blocks stream) stream /\
  Queue.contents (Encrypt.queue l') = drop (GEC_PT_LEN * full_blocks stream) stream /\
  s_current_tx_seq (Encrypt.comm_0 s') = 4.
Proof.
  intros h stream. assert (full_blocks stream = 1%nat) as Hn by (vm_compute; reflexivity). split; [exact Hn|].
  apply (block_encrypt_sends_heartbeats sample_stack sample_locals (Encrypt.mk_state blank_status idle_parser zero_key []) 4
    eq_refl blank_message_ok eq_refl blank_ctx_wf eq_refl); [decide_true|decide_true|].
  change (Z.of_nat (full_blocks stream) <= counter_limit). rewrite Hn. done.
Defined.

#[local] Abbreviation sample_decrypt := (Decrypt.mk_state (Decrypt.mk_io idle_parser blank_message blank_status [] false)
  (Deque.mk_deque [] 0 0 0) zero_key).

(** The ring of a peer at counter 6 that has sent [n] blocks, and a byte. *)
#[local] Abbreviation peer_ring n ms :=
  (ring_of (concat (sealed down_key down_salt 6 n (concat (map _mavlink_resend_uart ms))) ++ [1])).

Lemma sample_from_peer n ms :
  Forall relayable ms -> (GEC_PT_LEN * n <= length (concat (map _mavlink_resend_uart ms)))%nat -> (n < 20)%nat ->
  from_peer (peer_ring n ms) sample_decrypt 6 n ms [1].
Proof.
  intros Hms Hn H20. destruct (down_keyed zero_key blank_ctx_wf) as (_ & _ & Hkey & Hsl).
  pose proof (length_sealed _ _ Hkey Hsl n 6 _ Hn) as Hl.
  split; [exact blank_ctx_wf|exact idle_parser_between|done|by split| |done|done|].
  - apply ring_of_tail. rewrite length_app, Hl. cbn. lia.
  - apply available_ring_of. rewrite length_app, Hl. cbn. lia.
Qed.

Lemma block_decrypt_relays_witness :
  let ms := replicate 12 heartbeat_message in
  exists rb' s' j, Decrypt.run_turns ardupilotmega_crcs None sample_stack 2 (peer_ring 2 ms) (Decrypt.pre_init sample_decrypt) =
      Decrypt.Running rb' s' /\
    available rb' (rb_head rb') = [1] /\ Decrypt.serial (Decrypt.vars s') = take j (map _mavlink_resend_uart ms) /\
    (GEC_PT_LEN * 2 < length (concat (Decrypt.serial (Decrypt.vars s'))) + 145)%nat.
Proof.
  intros ms. destruct heartbeat_relayable as [Hr _].
  apply (block_decrypt_relays ardupilotmega_crcs None sample_stack sample_stack_ok (peer_ring 2 ms) sample_decrypt 6 2 ms [1]).
  - apply sample_from_peer; [by apply Forall_replicate| |lia]. apply Nat.leb_le. vm_compute. reflexivity.
  - apply Forall_replicate. apply Nat.leb_le. vm_compute. reflexivity.
Defined.

(** A message with 100 bytes of payload, 112 on the wire. *)
#[local] Abbreviation long_message := (mk_message 0 MAVLINK_STX 100 0 0 0 1 2 110
  (replicate 100 5 ++ replicate (PAYLOAD_BYTES - 100) 0) [0; 0] (replicate 13 0)).

Lemma long_relayable : relayable long_message.
Proof.
  split; [|split; [vm_compute; reflexivity|decide_true]]. split; [split; decide_true|]. split; [done|by left].
Qed.

Lemma block_decrypt_overflows_witness :
  Decrypt.run_turns ardupilotmega_crcs None sample_stack 3 (peer_ring 3 [long_message; long_message])
    (Decrypt.pre_init sample_decrypt) = Decrypt.Overflow.
Proof.
  apply (block_decrypt_overflows ardupilotmega_crcs None sample_stack sample_stack_ok
    (peer_ring 3 [long_message; long_message]) sample_decrypt 6 3 [] long_message [long_message] [1]).
  - apply sample_from_peer; [repeat (apply Forall_cons_2; [exact long_relayable|]); constructor| |lia].
    apply Nat.leb_le. vm_compute. reflexivity.
  - intros H. apply Nat.leb_le in H. vm_compute in H. discriminate H.
  - apply Nat.leb_le. vm_compute. reflexivity.
Defined.

(** A frame that has lost its first byte. *)
Lemma block_decrypt_gives_up_witness :
  exists h, Decrypt.run_turns ardupilotmega_crcs None sample_stack 5 (ring_of (0 :: replicate 90 7)) sample_decrypt =
      Decrypt.Returned 1 (set_head (ring_of (0 :: replicate 90 7)) h) sample_decrypt /\
    available (ring_of (0 :: replicate 90 7)) h = replicate 9 7.
Proof.
  apply (block_decrypt_gives_up ardupilotmega_crcs None sample_stack (ring_of (0 :: replicate 90 7)) sample_decrypt
    0 (replicate 90 7) 4); [by split|by split|vm_compute; reflexivity|done|apply Nat.leb_le; reflexivity].
Defined.
