(* ===== verification/GroundStation.v ===== *)
(** * The ground station of comm-crypto-block

    apps/gcs-crypto-block/src/main.c, a Linux program at the other end of the
    radio: it finds the frames in what the serial port gives, opens them,
    parses everything that came out and keeps a statistic of lost packets;
    the thread that would send heartbeats is there too.  The theorems put the
    board and the ground station together. *)

From S2P Require Import Prelude Ring Queue RingBuffer MavlinkTypes Mavlink MavlinkParser MavlinkRoundTrip.
From S2P Require Import Aes Gf128 Gcm GcmSpec AesModes Gec Relay FrameStream Heartbeat SealedStream LinkSample CryptoRelay CryptoBlock.

Local Open Scope Z_scope.

Module Gcs.
Section program.
Context (crcs : list mavlink_msg_entry_t).
Context (accept_unsigned : option (mavlink_status_t -> Z -> bool)).
Context (u : stack).

Record Person := mk_person { symkey_chan1 : gec_sym_key; symkey_chan2 : gec_sym_key }.

(** The key material is that of the board. *)
Definition main_keys (P1 : Person) : Person :=
  let '(k1, k2) := gec_key_material_to_2_channels (symkey_chan1 P1) (symkey_chan2 P1) key_material in
  mk_person k1 k2.

(** *** [send] *)

Record sender := mk_sender {
  sd_comm_0 : mavlink_status_t;
  sd_P1 : Person;
  sd_msg : mavlink_message_t;
  sd_hb : mavlink_heartbeat_t;
  sd_ct_frame : list Z;
  sd_written : list (list Z);
}.

Definition send_start (s : sender) : sender :=
  mk_sender (sd_comm_0 s) (sd_P1 s) (sd_msg s)
    (mk_heartbeat 0 MAV_TYPE_QUADROTOR (hb_autopilot (sd_hb s)) (hb_base_mode (sd_hb s)) 0 3)
    (wr (wr (sd_ct_frame s) 0 0x7e) 1 0) (sd_written s).

(** The frame is written whether or not it could be encrypted. *)
Definition send_turn (s : sender) : sender :=
  let '(msg, comm_0, _) := mavlink_msg_heartbeat_encode 255 0 (sd_comm_0 s) (sd_msg s) (sd_hb s) in
  let '(buf, _) := mavlink_msg_to_send_buffer (replicate GEC_PT_LEN 0) msg in
  let '(_, ct, k) := gec_encrypt (st_places u) (symkey_chan1 (sd_P1 s)) buf (drop 2 (sd_ct_frame s)) in
  let ct_frame := take 2 (sd_ct_frame s) ++ ct in
  mk_sender comm_0 (mk_person k (symkey_chan2 (sd_P1 s))) msg (sd_hb s) ct_frame (sd_written s ++ [ct_frame]).

(** *** [receive] *)

(** The statistic; [last_seq] is -1 before the first packet of system 1. *)
Record stats := mk_stats { lost_packets : Z; last_seq : Z; all_packets : Z }.

Definition count (seq sysid : Z) (t : stats) : stats :=
  let all := all_packets t + 1 in
  let lost :=
    if negb (last_seq t =? -1) && negb (seq =? (last_seq t + 1) mod 256)
    then lost_packets t + (seq - last_seq t - 1 + 256) mod 256 else lost_packets t in
  mk_stats lost (if sysid =? 1 then seq else last_seq t) all.

(** What the loop over the queue works on; [printed] are the sequence number,
    system and message identifier of each message that is shown. *)
Record rx := mk_rx {
  comm_0 : channel;
  msg : mavlink_message_t;
  status : mavlink_status_t;
  numbers : stats;
  printed : list (Z * Z * Z);
}.

Definition handle_char (c : Z) (x : rx) : rx :=
  let '(ch, m, st, result) := mavlink_parse_char crcs accept_unsigned (comm_0 x) c (Some (msg x)) (Some (status x)) in
  let m := default (msg x) m in
  let st := default (status x) st in
  if result =? 0 then mk_rx ch m st (numbers x) (printed x)
  else mk_rx ch m st (count (m_seq m) (m_sysid m) (numbers x)) (printed x ++ [(m_seq m, m_sysid m, m_msgid m)]).

(** [while (!queue_empty(&queue))]. *)
Fixpoint drain (fuel : nat) (c : Z) (q : Queue.queue_t) (x : rx) : Queue.queue_t * rx :=
  match fuel with
  | O => (q, x)
  | S fuel =>
      if Queue.queue_empty q then (q, x)
      else
        let '(r, q) := Queue.dequeue q in
        let c := default c r in
        drain fuel c q (handle_char c x)
  end.

(** The two loops that read a frame from [fd], the list of what comes: [None]
    while they wait. *)
Definition read_frame (fd : list Z) : option (list Z * list Z) :=
  l ← after_header fd;
  if (GEC_CT_LEN <=? length l)%nat then Some (take GEC_CT_LEN l, drop GEC_CT_LEN l) else None.

Record receiver := mk_receiver { vars : rx; queue : Queue.queue_t; P1 : Person }.

Definition receive_start (s : receiver) : receiver :=
  mk_receiver (mk_rx (comm_0 (vars s)) (msg (vars s)) (status (vars s)) (mk_stats 0 (-1) 0) (printed (vars s)))
    (Queue.queue_init (queue s)) (P1 s).

Definition handle_frame (ct : list Z) (s : receiver) : receiver :=
  let '(r, pt, k) := gec_decrypt (st_places u) (symkey_chan2 (P1 s)) ct (st_pt u) in
  let q := if negb (r =? 0) then queue s else enqueue_all (queue s) (take GEC_PT_LEN pt) in
  let '(q, x) := drain (S (Z.to_nat MAX_QUEUE_SIZE)) (st_byte u) q (vars s) in
  mk_receiver x q (mk_person (symkey_chan1 (P1 s)) k).

Definition receive_turn (fd : list Z) (s : receiver) : list Z * receiver :=
  match read_frame fd with
  | None => (fd, s)
  | Some (ct, fd) => (fd, handle_frame ct s)
  end.

Fixpoint receive_turns (n : nat) (fd : list Z) (s : receiver) : list Z * receiver :=
  match n with
  | O => (fd, s)
  | S n => let '(fd, s) := receive_turn fd s in receive_turns n fd s
  end.
End program.
End Gcs.

(** ** Receiving *)

Section receive.
Context (crcs : list mavlink_msg_entry_t).
Context (accept_unsigned : option (mavlink_status_t -> Z -> bool)).
Context (u : stack) (Hu : stack_ok u).
Import Gcs.

#[local] Abbreviation handle := (handle_char crcs accept_unsigned).
#[local] Abbreviation handle_all := (foldl (fun x c => handle c x)).

Lemma drain_all fuel : forall c q x,
  Queue.wf q -> (length (Queue.contents q) < fuel)%nat ->
  exists q', drain crcs accept_unsigned fuel c q x = (q', handle_all x (Queue.contents q)) /\
    Queue.wf q' /\ Queue.contents q' = [].
Proof.
  induction fuel as [|fuel IH]; intros c q x Hq Hf; [lia|]. cbn [drain]. unfold Queue.queue_empty.
  pose proof (Queue.length_contents q Hq) as Hl. destruct (Queue.contents q) as [|b l] eqn:E.
  - cbn in Hl. rewrite <- Hl. exists q. done.
  - destruct (Z.eqb_spec (Queue.size q) 0); [cbn in Hl; lia|].
    destruct (Queue.dequeue_spec q b l Hq E) as (q1 & -> & Hq1 & Hc1). cbn [default length foldl] in *.
    rewrite <- Hc1. apply IH; [done|]. rewrite Hc1. lia.
Qed.

Definition channel_parser (x : rx) : parser := mk_parser (ch_buffer (comm_0 x)) (ch_status (comm_0 x)).
Definition shown (x : rx) : stats * list (Z * Z * Z) := (numbers x, printed x).
Definition on_packet (_ : Z) (m : mavlink_message_t) (v : stats * list (Z * Z * Z)) : stats * list (Z * Z * Z) :=
  (count (m_seq m) (m_sysid m) v.1, v.2 ++ [(m_seq m, m_sysid m, m_msgid m)]).

#[export] Instance gcs_handler :
  FrameHandler crcs accept_unsigned handle channel_parser shown (fun r => r = MAVLINK_FRAMING_OK) on_packet.
Proof.
  split.
  - intros x c Hr. unfold handle_char, mavlink_parse_char, returned, fed, channel_parser in *. cbn [rx_buffer rx_status feed] in *.
    pose proof (frame_char_feed1 crcs accept_unsigned (ch_buffer (comm_0 x)) (ch_status (comm_0 x)) c (Some (msg x)) (Some (status x))) as H1.
    cbn zeta in H1. rewrite H1 in Hr |- *. cbn [fst snd] in *. injection Hr as ->. done.
  - intros x c r m -> _ Ho. unfold handle_char, mavlink_parse_char, fed, channel_parser in *. cbn [rx_buffer rx_status feed] in *.
    destruct (Ho (msg x) (Some (status x))) as [H2 H3].
    pose proof (frame_char_feed1 crcs accept_unsigned (ch_buffer (comm_0 x)) (ch_status (comm_0 x)) c (Some (msg x)) (Some (status x))) as H1.
    cbn zeta in H1. rewrite H1, H2. cbn [Z.eqb Pos.eqb orb MAVLINK_FRAMING_OK MAVLINK_FRAMING_BAD_CRC MAVLINK_FRAMING_BAD_SIGNATURE].
    by rewrite H3.
  - done.
Qed.

Lemma read_frame_find fd : read_frame fd = find_frame fd.
Proof. unfold read_frame, find_frame. by destruct (after_header fd). Qed.

Context (key sl : list Z) (Hkey : block key) (Hsl : is_salt sl).

(** The program after the plaintext stream [l]: all of it has been parsed. *)
Record receiving (x0 : rx) (l : list Z) (s : receiver) : Prop := {
  rc_vars : vars s = handle_all x0 l;
  rc_wf : Queue.wf (queue s);
  rc_queue : Queue.contents (queue s) = [];
  rc_keyed : gec_keyed key sl (symkey_chan2 (P1 s));
}.

Lemma gcs_handle_frame x0 l s ct :
  receiving x0 l s -> is_ct ct -> receiving x0 (l ++ opened key sl ct) (handle_frame crcs accept_unsigned u ct s).
Proof.
  intros [Hv Hwf Hq Hk] Hct. unfold handle_frame.
  destruct (gec_decrypt_opened key sl Hkey Hsl (st_places u) (symkey_chan2 (P1 s)) ct (st_pt u) Hk Hct (ok_pt u Hu))
    as (k' & pt & r & -> & Hk' & Hpt).
  destruct (opened_ok key sl Hkey Hsl ct Hct) as [Hob Hol].
  assert ((if negb (r =? 0) then queue s else enqueue_all (queue s) (take GEC_PT_LEN pt)) =
          enqueue_all (queue s) (opened key sl ct)) as -> by (rewrite <- Hpt; by destruct (negb (r =? 0))).
  destruct (queue_enqueue_all (queue s) (opened key sl ct) Hwf Hob) as [Hwf1 Hc1].
  { rewrite Hq. cbn [app]. unfold MAX_QUEUE_SIZE. lia. }
  rewrite Hq in Hc1. cbn [app] in Hc1.
  destruct (drain_all (S (Z.to_nat MAX_QUEUE_SIZE)) (st_byte u) _ (vars s) Hwf1) as (q' & -> & Hwf' & Hq').
  { rewrite Hc1. apply Nat.le_lt_trans with 64%nat; [done|]. apply Nat.ltb_lt. reflexivity. }
  rewrite Hc1, Hv. split; [by rewrite foldl_app|done..].
Qed.

Lemma receive_frames x0 cts : forall l s rest,
  receiving x0 l s -> Forall is_ct cts ->
  exists s', receive_turns crcs accept_unsigned u (length cts) (concat (map frame cts) ++ rest) s = (rest, s') /\
    receiving x0 (l ++ concat (map (opened key sl) cts)) s'.
Proof.
  induction cts as [|ct cts IH]; intros l s rest Hs Hc.
  { exists s. cbn [map concat]. by rewrite app_nil_r. }
  apply List.Forall_cons_iff in Hc as [Hc Hcs]. cbn [map concat length receive_turns]. unfold receive_turn.
  rewrite read_frame_find, <- app_assoc.
  rewrite (find_frame_frame [] ct _ (Forall_nil_2 _) (proj2 Hc) : find_frame (frame ct ++ _) = _).
  destruct (IH _ _ rest (gcs_handle_frame x0 l s ct Hs Hc) Hcs) as (s' & -> & Hs'). exists s'. by rewrite app_assoc.
Qed.

(** A stream of good frames, sealed. *)
Lemma receive_stream s c n ms rest :
  receiving (vars s) [] s -> between_frames (channel_parser (vars s)) -> Forall relayable ms ->
  Forall (fun m => verdict crcs m = MAVLINK_FRAMING_OK) ms ->
  let l := concat (map _mavlink_resend_uart ms) in (GEC_PT_LEN * n <= length l)%nat ->
  exists s', receive_turns crcs accept_unsigned u n (concat (sealed key sl c n l) ++ rest) s = (rest, s') /\
    shown (vars s') = foldl (fun v m => on_packet MAVLINK_FRAMING_OK m v) (shown (vars s))
      (take (whole_frames (GEC_PT_LEN * n) (map _mavlink_resend_uart ms)) ms).
Proof.
  intros Hs Hb Hms Hv l Hn. rewrite sealed_boxes.
  destruct (boxes_open key sl Hkey Hsl n c l (relayable_bytes ms Hms) Hn) as [Hct Hop].
  destruct (receive_frames (vars s) (boxes key sl c n l) [] s rest Hs Hct) as (s' & E & [Hv' _ _ _]).
  rewrite length_boxes in E. exists s'. split; [exact E|]. rewrite Hv', Hop. cbn [app].
  assert (Forall (good_frame crcs (fun r => r = MAVLINK_FRAMING_OK)) ms) as Hg.
  { apply List.Forall_forall. intros m Hin. rewrite List.Forall_forall in Hms, Hv.
    destruct (Hms m Hin) as (Hu' & _ & Hb'). split; [exact Hu'|]. split; [exact (Hv m Hin)|exact Hb']. }
  rewrite (handle_prefix crcs accept_unsigned handle channel_parser shown _ on_packet ms _ _ Hb Hg). done.
Qed.
End receive.

(** ** The statistic *)

Import Gcs.

(** Packets whose full numbers go on by at most 256 at a time, and the last of
    them. *)
Fixpoint numbered (n : Z) (ns : list Z) : Prop :=
  match ns with
  | [] => True
  | k :: ns => 1 <= k - n <= 256 /\ numbered k ns
  end.

Definition latest (n : Z) (ns : list Z) : Z := foldl (fun _ k => k) n ns.

Lemma count_next t n k :
  last_seq t = n mod 256 -> 1 <= k - n <= 256 ->
  count (k mod 256) 1 t = mk_stats (lost_packets t + (k - n - 1)) (k mod 256) (all_packets t + 1).
Proof.
  intros Hl Hk. unfold count. rewrite Hl. cbn [Z.eqb Pos.eqb].
  assert (0 <= n mod 256 < 256) as Hn by (by apply Z.mod_pos_bound).
  destruct (Z.eqb_spec (n mod 256) (-1)); [lia|]. cbn [negb andb]. f_equal.
  destruct (Z.eqb_spec (k mod 256) ((n mod 256 + 1) mod 256)) as [E|E]; cbn [negb].
  - Z.div_mod_to_equations. lia.
  - f_equal. rewrite (Z.mod_eq k), (Z.mod_eq n) in * by lia.
    replace (k - 256 * (k / 256) - (n - 256 * (n / 256)) - 1 + 256) with (k - n - 1 + (n / 256 - k / 256 + 1) * 256) by lia.
    rewrite Z.mod_add by lia. apply Z.mod_small. lia.
Qed.

Lemma count_numbered ns : forall t n,
  last_seq t = n mod 256 -> numbered n ns ->
  foldl (fun t k => count (k mod 256) 1 t) t ns =
  mk_stats (lost_packets t + (latest n ns - n) - Z.of_nat (length ns)) (latest n ns mod 256)
    (all_packets t + Z.of_nat (length ns)).
Proof.
  induction ns as [|k ns IH]; intros t n Hl Hn.
  { cbn [foldl latest length]. rewrite <- Hl. destruct t. cbn. f_equal; lia. }
  destruct Hn as [Hk Hns]. cbn [foldl]. rewrite (count_next t n k Hl Hk), (IH _ k) by done.
  cbn [lost_packets all_packets length]. unfold latest. cbn [foldl]. f_equal; lia.
Qed.

(** From the beginning. *)
Lemma count_from_start n ns :
  numbered n ns ->
  foldl (fun t k => count (k mod 256) 1 t) (mk_stats 0 (-1) 0) (n :: ns) =
  mk_stats (latest n ns - n - Z.of_nat (length ns)) (latest n ns mod 256) (1 + Z.of_nat (length ns)).
Proof.
  intros Hn. cbn [foldl]. rewrite (count_numbered ns _ n) by done. cbn [lost_packets all_packets]. f_equal; lia.
Qed.

(** Messages of system 1 with those numbers. *)
Definition carries (m : mavlink_message_t) (k : Z) : Prop := m_sysid m = 1 /\ m_seq m = k mod 256.

Lemma shown_numbers ms ns : forall v,
  Forall2 carries ms ns ->
  foldl (fun v m => on_packet MAVLINK_FRAMING_OK m v) v ms =
  (foldl (fun t k => count (k mod 256) 1 t) v.1 ns, v.2 ++ map (fun m => (m_seq m, m_sysid m, m_msgid m)) ms).
Proof.
  intros v H. revert v. induction H as [|m k ms ns [H1 H2] _ IH]; intros [t p]; cbn [foldl map].
  { by rewrite app_nil_r. }
  rewrite IH. unfold on_packet. cbn [fst snd]. by rewrite <- app_assoc, H1, H2.
Qed.

(** The statistic of the ground station: of packets of system 1 numbered
    modulo 256, [lost_packets] is the number of those that are missing
    between the first and the last one received, as long as no more than 255
    are missing in a row. *)
Theorem lost_packets_are_the_missing crcs accept_unsigned x ms n ns :
  between_frames (channel_parser x) -> numbers x = mk_stats 0 (-1) 0 ->
  Forall relayable ms -> Forall (fun m => verdict crcs m = MAVLINK_FRAMING_OK) ms ->
  Forall2 carries ms (n :: ns) -> numbered n ns ->
  let x' := foldl (fun x c => handle_char crcs accept_unsigned c x) x (concat (map _mavlink_resend_uart ms)) in
  all_packets (numbers x') = Z.of_nat (length ms) /\
  lost_packets (numbers x') = (latest n ns - n + 1) - Z.of_nat (length ms) /\
  last_seq (numbers x') = latest n ns mod 256.
Proof.
  intros Hb Hx Hms Hv Hc Hn x'.
  destruct (handle_frames crcs accept_unsigned (handle_char crcs accept_unsigned) channel_parser shown
    (fun r => r = MAVLINK_FRAMING_OK) on_packet ms x Hb) as [_ H].
  { apply List.Forall_forall. intros m Hin. rewrite List.Forall_forall in Hms, Hv.
    destruct (Hms m Hin) as (Hu & _ & Hby). split; [exact Hu|]. split; [exact (Hv m Hin)|exact Hby]. }
  change (foldl _ (shown x) ms) with (foldl (fun v m => on_packet MAVLINK_FRAMING_OK m v) (shown x) ms) in H.
  rewrite (shown_numbers ms (n :: ns) _ Hc) in H. unfold shown in H at 2. cbn [fst snd] in H. rewrite Hx in H.
  rewrite count_from_start in H by exact Hn. fold x' in H. injection H as -> _.
  rewrite (Forall2_length Hc). cbn [all_packets lost_packets last_seq length]. lia.
Qed.

(** ** The board and the ground station *)

(** The message of heartbeat number [i] of the board. *)
Definition board_message (h : mavlink_heartbeat_t) (i : Z) : mavlink_message_t :=
  (mavlink_msg_heartbeat_encode 1 0 (set_s_current_tx_seq (i mod 256) blank_status) blank_message h).1.1.

Lemma board_message_holds crcs h i :
  crc_extra_of crcs 0 = 50 -> heartbeat_ok h -> holds_heartbeat crcs 1 0 (i mod 256) h (board_message h i).
Proof.
  intros Hex Hh. unfold board_message.
  assert (sends_plain (set_s_current_tx_seq (i mod 256) blank_status)) as Hp.
  { split; [|done|done]. split; apply Z.mod_pos_bound; lia. }
  pose proof (encode_spec crcs 1 0 _ blank_message h Hex blank_message_ok ltac:(done) ltac:(done) Hh Hp) as H.
  destruct (mavlink_msg_heartbeat_encode 1 0 _ _ _) as [[m st] n]. apply H.
Qed.

Lemma board_messages crcs h l :
  crc_extra_of crcs 0 = 50 -> heartbeat_ok h ->
  let ms := map (board_message h) l in
  Forall relayable ms /\ Forall (fun m => verdict crcs m = MAVLINK_FRAMING_OK) ms /\ Forall2 carries ms l /\
  map _mavlink_resend_uart ms = map (fun i => heartbeat_frame 1 0 (i mod 256) h) l /\
  map (fun m => (m_seq m, m_sysid m, m_msgid m)) ms = map (fun i => (i mod 256, 1, 0)) l.
Proof.
  intros Hex Hh. induction l as [|i l (H1 & H2 & H3 & H4 & H5)]; cbn [map]; [do 3 (split; [constructor|]); split; reflexivity|].
  destruct (board_message_holds crcs h i Hex Hh) as [Hr Hv Hw (Hid & Hsys & _ & Hseq & _) _].
  rewrite H4, H5, Hw, Hid, Hsys, Hseq.
  split; [exact (Forall_cons_2 _ _ _ Hr H1)|]. split; [exact (Forall_cons_2 _ _ _ Hv H2)|].
  split; [apply Forall2_cons_2; [exact (conj Hsys Hseq)|exact H3]|split; reflexivity].
Qed.

Lemma seqZ_numbered k n : numbered n (seqZ (n + 1) (Z.of_nat k)) /\ latest n (seqZ (n + 1) (Z.of_nat k)) = n + Z.of_nat k.
Proof.
  revert n. induction k as [|k IH]; intros n; [split; [exact I|change (n = n + 0); lia]|].
  rewrite seqZ_cons by lia. replace (Z.pred (Z.of_nat (S k))) with (Z.of_nat k) by lia.
  unfold Z.succ. destruct (IH (n + 1)) as [H1 H2]. unfold latest in *. cbn [numbered foldl]. rewrite H2.
  split; [split; [lia|exact H1]|lia].
Qed.

(** The statistic of [j] consecutive packets from number 0 on. *)
Lemma count_consecutive j :
  foldl (fun t k => count (k mod 256) 1 t) (mk_stats 0 (-1) 0) (seqZ 0 (Z.of_nat j)) =
  mk_stats 0 (if (j =? 0)%nat then -1 else (Z.of_nat j - 1) mod 256) (Z.of_nat j).
Proof.
  destruct j as [|j]; [done|]. rewrite seqZ_cons by lia. replace (Z.pred (Z.of_nat (S j))) with (Z.of_nat j) by lia.
  change (Z.succ 0) with (0 + 1). destruct (seqZ_numbered j 0) as [H1 H2].
  rewrite (count_from_start 0 _ H1), H2, length_seqZ, Nat2Z.id. cbn [Nat.eqb]. f_equal; try lia. f_equal. lia.
Qed.

(** The ground station before its initialisation: its channel has seen
    nothing. *)
Record gcs_fresh (s : receiver) : Prop := {
  gf_key : wf_sym_key (symkey_chan2 (P1 s));
  gf_channel : between_frames (channel_parser (vars s));
  gf_printed : printed (vars s) = [];
}.

Definition gcs_init (s : receiver) : receiver := receive_start (mk_receiver (vars s) (queue s) (main_keys (P1 s))).

Lemma gcs_init_receiving crcs accept_unsigned s :
  gcs_fresh s -> let s' := gcs_init s in
  receiving crcs accept_unsigned up_key up_salt (vars s') [] s' /\ between_frames (channel_parser (vars s')) /\
  shown (vars s') = (mk_stats 0 (-1) 0, []).
Proof.
  intros [Hk Hc Hp]. destruct (up_keyed _ Hk) as (Hk' & _). destruct (Queue.queue_init_wf (queue s)) as [Hq Hq0].
  cbv zeta. split; [by split|]. split; [exact Hc|]. unfold shown, gcs_init, receive_start. cbn [numbers printed vars]. by rewrite Hp.
Qed.

(** C3. The board and the ground station, each from its initialisation and
    with the constant key material: after [n] turns of the board, what it has
    written is read and opened by the ground station in as many turns as
    there are frames, and shows exactly the heartbeats that are complete in
    the blocks sent so far, in order and with none lost. *)
Theorem ground_station_sees_heartbeats crcs accept_unsigned ub ug l b s n rest :
  crc_extra_of crcs 0 = 50 -> stack_ok ug ->
  Encrypt.comm_0 b = blank_status -> wf_message (Encrypt.msg l) -> length (Encrypt.ct_frame l) = 82%nat ->
  wf_sym_key (Encrypt.symkey_chan2 b) -> Encrypt.serial b = [] ->
  is_u8 (hb_autopilot (Encrypt.hb l)) -> is_u8 (hb_base_mode (Encrypt.hb l)) ->
  gcs_fresh s ->
  let blocks := (21 * n / 64)%nat in
  let whole := (64 * blocks / 21)%nat in
  Z.of_nat blocks <= counter_limit ->
  let '(_, b') := Encrypt.run_turns ub n (Encrypt.run_start l, Encrypt.pre_init b) in
  length (Encrypt.serial b') = blocks /\
  exists s', receive_turns crcs accept_unsigned ug blocks (concat (Encrypt.serial b') ++ rest) (gcs_init s) = (rest, s') /\
    printed (vars s') = map (fun i => (i mod 256, 1, 0)) (seqZ 0 (Z.of_nat whole)) /\
    all_packets (numbers (vars s')) = Z.of_nat whole /\ lost_packets (numbers (vars s')) = 0.
Proof.
  intros Hex Hug Hc Hm Hf Hk Hse Ha Hb Hs blocks whole Hlim.
  set (h := mk_heartbeat 0 2 (hb_autopilot (Encrypt.hb l)) (hb_base_mode (Encrypt.hb l)) 0 3).
  assert (heartbeat_ok h) as Hh by (split; try done; decide_true).
  destruct (board_messages crcs h (seqZ 0 (Z.of_nat n)) Hex Hh) as (Hr & Hv & Hcar & Hw & Hp).
  set (ms := map (board_message h) (seqZ 0 (Z.of_nat n))) in *. 
  change (map _mavlink_resend_uart ms = heartbeat_frames 1 h n) in Hw.
  assert (Forall (fun w => length w = 21%nat) (heartbeat_frames 1 h n)) as H21.
  { apply List.Forall_forall. intros w Hin. apply List.in_map_iff in Hin as (i & <- & _). apply length_heartbeat_frame. }
  assert (length (heartbeat_frames 1 h n) = n) as Hn by (unfold heartbeat_frames; rewrite length_map, length_seqZ; lia).
  assert (length (concat (heartbeat_frames 1 h n)) = 21 * n)%nat as Hlen.
  { rewrite <- Hn at 2. clear -H21. induction H21 as [|w ws Hw _ IH]; [done|]. cbn [concat length]. rewrite length_app. lia. }
  assert (full_blocks (concat (heartbeat_frames 1 h n)) = blocks) as Hfb by (unfold full_blocks; by rewrite Hlen).
  destruct (encrypt_turns ub h _ n Hh (encrypt_run_start l b Hc Hm Hf Hk Hse)) as [_ _ _ _ _ [_ _ _ _ Hout]]; [by rewrite Hfb|].
  destruct (Encrypt.run_turns ub n _) as [l' b']. cbn [fst snd] in Hout. rewrite Hfb in Hout. rewrite Hout.
  split; [by rewrite sealed_boxes, length_map, length_boxes|].
  destruct (gcs_init_receiving crcs accept_unsigned s Hs) as (Hrc & Hbt & Hsh).
  destruct (up_keyed zero_key blank_ctx_wf) as (_ & _ & Hkey & Hsl).
  pose proof (full_blocks_spec (concat (heartbeat_frames 1 h n))) as Hfs. rewrite Hfb in Hfs.
  destruct (receive_stream crcs accept_unsigned ug Hug up_key up_salt Hkey Hsl (gcs_init s) 0 blocks ms rest Hrc Hbt Hr Hv)
    as (s' & E & Hshown); [rewrite Hw; lia|].
  rewrite Hw in E, Hshown. exists s'. split; [exact E|].
  rewrite (whole_frames_equal 21 _ _ ltac:(lia) H21), Hn, Hsh in Hshown. change (GEC_PT_LEN * blocks / 21)%nat with whole in Hshown.
  assert (whole <= n)%nat as Hle.
  { apply Nat.Div0.div_le_upper_bound. pose proof (Nat.Div0.mul_div_le (21 * n) 64). fold blocks in H. lia. }
  rewrite Nat.min_r in Hshown by exact Hle.
  assert (take whole (seqZ 0 (Z.of_nat n)) = seqZ 0 (Z.of_nat whole)) as Hts.
  { replace (Z.of_nat n) with (Z.of_nat whole + Z.of_nat (n - whole)) by lia. rewrite seqZ_app by lia.
    apply take_app_length'. rewrite length_seqZ. lia. }
  unfold ms in Hshown. rewrite firstn_map, Hts in Hshown.
  destruct (board_messages crcs h (seqZ 0 (Z.of_nat whole)) Hex Hh) as (_ & _ & Hcar' & _ & Hp').
  rewrite (shown_numbers _ _ _ Hcar'), Hp', count_consecutive in Hshown. unfold shown in Hshown. cbn [fst snd app] in Hshown.
  injection Hshown as -> ->. done.
Qed.

(** ** The theorems on samples *)

#[local] Abbreviation sample_rx := (mk_rx (mk_channel blank_message blank_status) blank_message blank_status (mk_stats 0 (-1) 0) []).
#[local] Abbreviation sample_receiver :=
  (mk_receiver sample_rx (Queue.mk_queue [] 1 2) (mk_person zero_key zero_key)).

(** Numbers 0, 3 and 256: 254 are missing. *)
Lemma lost_packets_are_the_missing_witness :
  let ms := map (board_message sample_heartbeat) [0; 3; 256] in
  let x' := foldl (fun x c => handle_char ardupilotmega_crcs None c x) sample_rx (concat (map _mavlink_resend_uart ms)) in
  all_packets (numbers x') = 3 /\ lost_packets (numbers x') = 254 /\ last_seq (numbers x') = 0.
Proof.
  destruct (board_messages ardupilotmega_crcs sample_heartbeat [0; 3; 256] ardupilotmega_heartbeat sample_heartbeat_ok)
    as (Hr & Hv & Hc & _).
  apply (lost_packets_are_the_missing ardupilotmega_crcs None sample_rx _ 0 [3; 256] idle_parser_between eq_refl Hr Hv Hc).
  cbn [numbered]. lia.
Defined.

(** Four heartbeats make one block, with the first three in it. *)
Lemma ground_station_sees_heartbeats_witness :
  let '(_, b') := Encrypt.run_turns sample_stack 4
    (Encrypt.run_start (Encrypt.mk_locals empty_queue (replicate 82 0) blank_message sample_heartbeat),
     Encrypt.pre_init (Encrypt.mk_state blank_status idle_parser zero_key [])) in
  length (Encrypt.serial b') = 1%nat /\
  exists s', receive_turns ardupilotmega_crcs None sample_stack 1 (concat (Encrypt.serial b') ++ [5]) (gcs_init sample_receiver) = ([5], s') /\
    printed (vars s') = [(0, 1, 0); (1, 1, 0); (2, 1, 0)] /\
    all_packets (numbers (vars s')) = 3 /\ lost_packets (numbers (vars s')) = 0.
Proof.
  assert (gcs_fresh sample_receiver) as Hs by (split; [exact blank_ctx_wf|exact idle_parser_between|reflexivity]).
  apply (ground_station_sees_heartbeats ardupilotmega_crcs None sample_stack sample_stack
    (Encrypt.mk_locals empty_queue (replicate 82 0) blank_message sample_heartbeat)
    (Encrypt.mk_state blank_status idle_parser zero_key []) sample_receiver 4 [5]
    ardupilotmega_heartbeat sample_stack_ok eq_refl blank_message_ok eq_refl blank_ctx_wf eq_refl ltac:(decide_true)
    ltac:(decide_true) Hs).
  vm_compute. discriminate.
Defined.
