(* ===== verification/PlainRelay.v ===== *)
(** * The plaintext relays

    apps/comm-mavlink-relay: UART_RX and Telemetry_RX fill a ring each, and
    Telemetry_TX and UART_TX parse what is in it and write every message to
    their port.  apps/comm-mavlink-rpc-relay splits the second half: Encrypt and
    Decrypt parse, and hand the frames to Telemetry_TX and UART_TX in a remote
    call.  The theorems say that the first relays whole frames unchanged, for
    every interleaving of receiver and relay, and what the second one writes. *)

From S2P Require Import Prelude Ring Queue RingBuffer Checksum MavlinkTypes Mavlink MavlinkParser MavlinkRoundTrip.
From S2P Require Import Relay FrameStream LinkSample.

Local Open Scope Z_scope.

(** ** comm-mavlink-relay

    UART_RX and Telemetry_RX have the same code. *)
Module UartRx.
Definition pre_init (rb : ring_buffer_t) : ring_buffer_t := rb_reset rb.

(** One turn of [run], when [ps_cdev_getchar] has returned [c]. *)
Definition run_turn (c : Z) (rb : ring_buffer_t) : ring_buffer_t :=
  let tail := rb_tail rb in
  let rb := set_buffer rb (wr (rb_buffer rb) tail (u8 c)) in
  let tail := u32 (tail + 1) mod RING_BUFFER_SIZE in
  set_tail rb tail.
End UartRx.

(** Telemetry_TX has the code of UART_TX, without [recalc_checksum]. *)
Module UartTx.
Section component.
Context (crcs : list mavlink_msg_entry_t).
Context (accept_unsigned : option (mavlink_status_t -> Z -> bool)).

(** What the stack holds in [msg], [status] and [buf] of [handle_char]. *)
Record locals := mk_locals { lo_msg : mavlink_message_t; lo_status : mavlink_status_t; lo_buf : list Z }.
Context (u : locals).

Record state := mk_state { prs : parser; serial : list (list Z) }.

(** Without a caller. *)
Definition recalc_checksum (msg : mavlink_message_t) (buf : list Z) (len : Z) : Z :=
  let crc := X25_INIT_CRC in
  let crc_extra := mavlink_get_crc_extra crcs msg in
  let crc := crc_accumulate_buffer crc (slice 1 (Z.to_nat (u16 (len - 3))) buf) in
  crc_accumulate crc_extra crc.

Definition my_mavlink_parse_char (p : parser) (c : Z) (r_message : mavlink_message_t)
    (r_mavlink_status : mavlink_status_t) : parser * mavlink_message_t * mavlink_status_t * Z :=
  parse_frame_char crcs accept_unsigned p c r_message r_mavlink_status.

Definition handle_char (c : Z) (s : state) : state :=
  let '(p, msg, _, result) := my_mavlink_parse_char (prs s) c (lo_msg u) (lo_status u) in
  if result =? 0 then mk_state p (serial s)
  else
    let '(buf, len) := mavlink_msg_to_send_buffer (lo_buf u) msg in
    mk_state p (serial s ++ [take (Z.to_nat len) buf]).

(** One turn of [while (1)]; [head] is a local variable, which starts as the
    one of the shared buffer. *)
Definition run_turn (rb : ring_buffer_t) (head : Z) (s : state) : Z * state :=
  drain_ring handle_char (Z.to_nat RING_BUFFER_SIZE) rb head (rb_tail rb) s.
End component.
End UartTx.

(** ** comm-mavlink-rpc-relay

    The interface is [void send(refin uint8_t buf, in uint16_t len)]: the
    connector copies one [uint8_t] from [buf], and [len]. *)
Definition rpc_send (buf : list Z) (len : Z) : Z * Z := (rd buf 0, u16 len).

(** The receiving end has the byte in a variable of its own, of which it gives
    [serial_send] the address: [beyond] is what follows it in memory. *)
Definition serial_send (beyond : list Z) (call : Z * Z) : list Z :=
  let '(buf, len) := call in take (Z.to_nat len) (buf :: beyond).

(** Encrypt; Decrypt has the same code. *)
Module RpcEncrypt.
Section component.
Context (crcs : list mavlink_msg_entry_t).
Context (accept_unsigned : option (mavlink_status_t -> Z -> bool)).
Context (u : UartTx.locals).
(** The memory of the receiving end at its [n]-th call. *)
Context (beyond : nat -> list Z).

Record state := mk_state { prs : parser; serial : list (list Z) }.

Definition my_mavlink_parse_char (p : parser) (c : Z) (r_message : mavlink_message_t)
    (r_mavlink_status : mavlink_status_t) : parser * mavlink_message_t * mavlink_status_t * Z :=
  parse_frame_char crcs accept_unsigned p c r_message r_mavlink_status.

Definition handle_char (c : Z) (s : state) : state :=
  let '(p, msg, _, result) := my_mavlink_parse_char (prs s) c (UartTx.lo_msg u) (UartTx.lo_status u) in
  if result =? 0 then mk_state p (serial s)
  else
    let '(buf, len) := mavlink_msg_to_send_buffer (UartTx.lo_buf u) msg in
    mk_state p (serial s ++ [serial_send (beyond (length (serial s))) (rpc_send buf (u16 len))]).

Definition run_turn (rb : ring_buffer_t) (head : Z) (s : state) : Z * state :=
  drain_ring handle_char (Z.to_nat RING_BUFFER_SIZE) rb head (rb_tail rb) s.
End component.
End RpcEncrypt.

(** ** The checksum *)

(** On a serialised frame [recalc_checksum] is the checksum that the message
    should carry. *)
Lemma recalc_checksum_frame crcs m rest :
  unsigned_message m -> (length (_mavlink_resend_uart m) <= 280)%nat ->
  UartTx.recalc_checksum crcs m (_mavlink_resend_uart m ++ rest) (Z.of_nat (length (_mavlink_resend_uart m))) =
  frame_crc crcs m.
Proof.
  intros (Hm & Hi & _) Hl. destruct (wire_split_last m) as (front & c & Hw).
  destruct (wire_split m front c Hi Hw) as (hdr & Hh & Hf & _). unfold UartTx.recalc_checksum, frame_crc.
  change (mavlink_get_crc_extra crcs m) with (crc_extra_of crcs (m_msgid m)).
  rewrite <- Hh, crc_calculate_buffer, <- crc_accumulate_buffer_app. do 2 f_equal.
  assert (exists x tl, hdr = x :: tl) as (x & tl & ->) by (rewrite Hh; case_bool; by do 2 eexists).
  rewrite Hw, Hf in *. rewrite !length_app in *. cbn [length] in *.
  rewrite wrap_id by (unfold in_range; lia). unfold slice.
  replace (Z.to_nat _) with (length (tl ++ payload_of m)) by (rewrite length_app; lia).
  rewrite <- !app_assoc. cbn [app drop]. by rewrite drop_0, app_assoc, take_app_length.
Qed.

(** ** The relay of comm-mavlink-relay *)

Section relay.
Context (crcs : list mavlink_msg_entry_t).
Context (accept_unsigned : option (mavlink_status_t -> Z -> bool)).
Context (u : UartTx.locals) (Hu : (280 <= length (UartTx.lo_buf u))%nat).

(** What is serialised into [buf] is there, whatever was there before. *)
Lemma serialised m :
  wf_message m ->
  exists rest, mavlink_msg_to_send_buffer (UartTx.lo_buf u) m = (wire_of m ++ rest, Z.of_nat (length (wire_of m))) /\
    (length (wire_of m) <= 280)%nat.
Proof.
  intros Hm. destruct (wire_of_ok m Hm) as [_ Hl]. rewrite (to_send_buffer_memcpy _ m Hm). fold (wire_of m).
  rewrite memcpy_at_spec by lia. rewrite take_0. cbn [app]. eauto.
Qed.

Lemma uart_tx_forwards :
  forwards crcs accept_unsigned (UartTx.handle_char crcs accept_unsigned u) UartTx.prs UartTx.serial
    (fun _ => UartTx.lo_msg u) (fun _ => UartTx.lo_status u) (fun ws w => ws ++ [w]).
Proof.
  intros s c. unfold UartTx.handle_char, UartTx.my_mavlink_parse_char.
  destruct (parse_frame_char crcs accept_unsigned (UartTx.prs s) c _ _) as [[[p m] st] r].
  destruct (Z.eqb_spec r 0) as [->|Hr]; [done|].
  destruct (mavlink_msg_to_send_buffer (UartTx.lo_buf u) m) as [buf len] eqn:E. split; [done|]. split; [done|].
  intros _ Hm. destruct (serialised m Hm) as (rest & E' & _). rewrite E' in E. injection E as <- <-.
  cbn [UartTx.serial]. by rewrite Nat2Z.id, take_app_length.
Qed.

Lemma rpc_forwards beyond :
  forwards crcs accept_unsigned (RpcEncrypt.handle_char crcs accept_unsigned u beyond) RpcEncrypt.prs RpcEncrypt.serial
    (fun _ => UartTx.lo_msg u) (fun _ => UartTx.lo_status u)
    (fun ws w => ws ++ [take (length w) (rd w 0 :: beyond (length ws))]).
Proof.
  intros s c. unfold RpcEncrypt.handle_char, RpcEncrypt.my_mavlink_parse_char.
  destruct (parse_frame_char crcs accept_unsigned (RpcEncrypt.prs s) c _ _) as [[[p m] st] r].
  destruct (Z.eqb_spec r 0) as [->|Hr]; [done|].
  destruct (mavlink_msg_to_send_buffer (UartTx.lo_buf u) m) as [buf len] eqn:E. split; [done|]. split; [done|].
  intros _ Hm. destruct (serialised m Hm) as (rest & E' & Hl). rewrite E' in E. injection E as <- <-.
  cbn [RpcEncrypt.serial]. unfold rpc_send, serial_send. rewrite wrap_idemp, (wrap_id 16), Nat2Z.id by (unfold in_range; lia).
  do 3 f_equal. destruct (wire_split_last (trimmed m)) as (front & x & Hw). unfold wire_of. rewrite Hw. by destruct front.
Qed.
End relay.

(** A turn of either component handles what is in the ring. *)
Lemma turn_drains {S : Type} (f : Z -> S -> S) rb head s :
  in_ring head -> in_ring (rb_tail rb) ->
  drain_ring f (Z.to_nat RING_BUFFER_SIZE) rb head (rb_tail rb) s =
  (rb_tail rb, foldl (fun s c => f c s) s (available rb head)).
Proof.
  intros Hh Ht. apply drain_ring_spec; [done|done|].
  pose proof (available_length rb head Hh Ht). unfold RING_BUFFER_SIZE. lia.
Qed.

Lemma plain_relay_turn crcs accept_unsigned u rb head p out ms :
  length (UartTx.lo_buf u) = 300%nat -> between_frames p -> Forall relayable ms ->
  in_ring head -> in_ring (rb_tail rb) -> available rb head = concat (map _mavlink_resend_uart ms) ->
  exists s, UartTx.run_turn crcs accept_unsigned u rb head (UartTx.mk_state p out) = (rb_tail rb, s) /\
    UartTx.serial s = out ++ map _mavlink_resend_uart ms.
Proof.
  intros Hu Hp Hms Hh Ht Ha. eexists. split; [by apply turn_drains|]. rewrite Ha.
  pose proof (forwarded_prefix crcs accept_unsigned _ _ _ _ _ _ ms (length (concat (map _mavlink_resend_uart ms)))
    (UartTx.mk_state p out) (uart_tx_forwards crcs accept_unsigned u ltac:(rewrite Hu; lia)) Hp Hms) as H.
  cbv zeta in H. rewrite firstn_all, whole_frames_all, firstn_all, foldl_snoc in H. exact H.
Qed.

(** C4. The plaintext relay is transparent: in every interleaving of the
    receiver and the relay in which the ring is not overrun, when what has
    been received is the beginning of a stream of unsigned canonical frames,
    whatever their checksums, the relay has written exactly the frames that
    are whole in what it has taken from the ring, unchanged and in order. *)
Theorem plain_relay_transparent crcs accept_unsigned u p sys ms :
  length (UartTx.lo_buf u) = 300%nat -> between_frames p -> Forall relayable ms ->
  reachable sys -> overrun sys = false -> sent sys `prefix_of` concat (map _mavlink_resend_uart ms) ->
  let ws := map _mavlink_resend_uart ms in
  let s := foldl (fun s c => UartTx.handle_char crcs accept_unsigned u c s) (UartTx.mk_state p []) (got sys) in
  UartTx.serial s = take (whole_frames (length (got sys)) ws) ws.
Proof.
  intros Hu Hp Hms Hr Ho [r Hs] ws s. destruct (reachable_inv sys Hr Ho) as [_ _ Hle _ Hg _ _ _].
  assert (got sys = take (length (got sys)) (concat ws)) as Hg'.
  { unfold ws. rewrite Hs, take_app_le by exact Hle. exact Hg. }
  unfold s. rewrite Hg' at 1.
  pose proof (forwarded_prefix crcs accept_unsigned _ _ _ _ _ _ ms (length (got sys))
    (UartTx.mk_state p []) (uart_tx_forwards crcs accept_unsigned u ltac:(rewrite Hu; lia)) Hp Hms) as H.
  cbv zeta in H. fold ws in H. rewrite H, foldl_snoc. done.
Qed.

(** C27. The relay over remote calls: of a frame only the first byte, the start
    sign, crosses; the rest of what is written, as many bytes as the frame
    has, is the memory of the component at the receiving end. *)
Theorem rpc_relay_sends_start_signs crcs accept_unsigned u beyond rb head p ms :
  length (UartTx.lo_buf u) = 300%nat -> between_frames p -> Forall relayable ms ->
  in_ring head -> in_ring (rb_tail rb) -> available rb head = concat (map _mavlink_resend_uart ms) ->
  exists s, RpcEncrypt.run_turn crcs accept_unsigned u beyond rb head (RpcEncrypt.mk_state p []) = (rb_tail rb, s) /\
    RpcEncrypt.serial s =
    imap (fun i m => take (length (_mavlink_resend_uart m)) (m_magic m :: beyond i)) ms.
Proof.
  intros Hu Hp Hms Hh Ht Ha. eexists. split; [by apply turn_drains|]. rewrite Ha.
  pose proof (forwarded_prefix crcs accept_unsigned _ _ _ _ _ _ ms (length (concat (map _mavlink_resend_uart ms)))
    (RpcEncrypt.mk_state p []) (rpc_forwards crcs accept_unsigned u ltac:(rewrite Hu; lia) beyond) Hp Hms) as H.
  cbv zeta in H. rewrite firstn_all, whole_frames_all, firstn_all in H. rewrite H. clear H. cbn [RpcEncrypt.serial].
  rewrite (foldl_snoc_index (fun i w => take (length w) (rd w 0 :: beyond i))). cbn [app length Nat.add].
  change (map _mavlink_resend_uart ms) with (_mavlink_resend_uart <$> ms). rewrite imap_fmap. apply imap_ext.
  intros i m _. unfold compose. do 2 f_equal.
  unfold _mavlink_resend_uart. destruct (Z.eqb_spec (m_magic m) MAVLINK_STX_MAVLINK1) as [E|E]; [by rewrite E|done].
Qed.

(** ** The theorems on the sample heartbeats *)

#[local] Abbreviation sample_locals := (UartTx.mk_locals blank_message blank_status (replicate 300 7)).

Lemma plain_relay_transparent_witness :
  exists sys, reachable sys /\ length (got sys) = 78%nat /\
  UartTx.serial (foldl (fun s c => UartTx.handle_char ardupilotmega_crcs None sample_locals c s)
    (UartTx.mk_state idle_parser []) (got sys)) = replicate 6 (take 13 heartbeats).
Proof.
  destruct heartbeat_relayable as [Hr Hl].
  destruct (published_and_taken heartbeats ltac:(decide_true) eq_refl) as (sys & Hsys & Ho & Hs & Hg).
  exists sys. split; [exact Hsys|]. split; [by rewrite Hg|].
  rewrite (plain_relay_transparent ardupilotmega_crcs None sample_locals idle_parser sys (replicate 6 heartbeat_message)
    eq_refl idle_parser_between (Forall_replicate _ _ _ Hr) Hsys Ho ltac:(rewrite Hs, Hl; reflexivity)).
  rewrite Hg. vm_compute. reflexivity.
Defined.

(** The memory at the receiving end holds 77. *)
Lemma rpc_relay_sends_start_signs_witness :
  exists s, RpcEncrypt.run_turn ardupilotmega_crcs None sample_locals (fun _ => replicate 300 77) (ring_of heartbeats) 0
      (RpcEncrypt.mk_state idle_parser []) = (78, s) /\
    RpcEncrypt.serial s = replicate 6 (253 :: replicate 12 77).
Proof.
  destruct heartbeat_relayable as [Hr Hl].
  destruct (rpc_relay_sends_start_signs ardupilotmega_crcs None sample_locals (fun _ => replicate 300 77)
    (ring_of heartbeats) 0 idle_parser (replicate 6 heartbeat_message) eq_refl idle_parser_between
    (Forall_replicate _ _ _ Hr) ltac:(done) ltac:(done) ltac:(rewrite <- Hl; apply available_ring_of, Nat.ltb_lt; reflexivity)) as (s & E & H).
  exists s. split; [exact E|]. rewrite H. vm_compute. reflexivity.
Defined.
