(* ===== verification/CommPacket.v ===== *)
(** * The comm-packet application

    apps/comm-packet sends without encryption.  Encrypt makes heartbeats and
    writes each one in a packet of 280 bytes, of which it fills the first 21;
    between two packets it draws from the C library's generator until a draw
    is a multiple of 114514.  Decrypt hands what its ring holds on to the
    flight controller, frame by frame.  (The receivers are UartRx of
    PlainRelay.v.)  The theorem says that the waits end, from every state of
    the generator, and that the packets come out of Decrypt as the heartbeats
    they were made from, in every interleaving that does not overrun the ring. *)

From S2P Require Import Prelude Ring RingBuffer MavlinkTypes Mavlink MavlinkParser MavlinkRoundTrip.
From S2P Require Import Aes Gf128 Gcm AesModes Gec Relay FrameStream Heartbeat SealedStream LinkSample KeyExchangeSeed CryptoRelay CryptoBlock PlainRelay.

Local Open Scope Z_scope.

Module Packet.

(** GEC/include/gec.h, the library of this application. *)
Definition GEC_PT_LEN : nat := 280.

(** ** Encrypt *)

(** The static variables, with the library's status of [MAVLINK_COMM_0], the
    [seed] of the generator, and what has been written to the port. *)
Record state := mk_state {
  comm_0 : mavlink_status_t;
  symkey_chan2 : gec_sym_key;
  seed : Z;
  serial : list (list Z);
}.

(** [msg] and [hb], which every turn has anew.  ([ct_frame] gets its two header
    bytes and is not used.) *)
Record locals := mk_locals { msg : mavlink_message_t; hb : mavlink_heartbeat_t }.

(** The [key_material] is that of comm-crypto-relay. *)
Definition pre_init (s : state) : state :=
  mk_state (comm_0 s) (gec_init_sym_key_conf_auth (symkey_chan2 s) (drop GEC_RAW_KEY_LEN key_material)) (seed s) (serial s).

(** [while (1) { r = rand(); if (r != 0 && r % 114514 == 0) break; }]: the state
    of the generator after it, [None] when the fuel is used up. *)
Fixpoint wait (fuel : nat) (seed : Z) : option Z :=
  match fuel with
  | O => None
  | S fuel =>
      let '(r, seed) := rand seed in
      if negb (r =? 0) && (Z.rem r 114514 =? 0) then Some seed else wait fuel seed
  end.

(** The assignments to [hb]; [autopilot] and [base_mode] are not initialised. *)
Definition heartbeat_of (u : locals) : mavlink_heartbeat_t :=
  mk_heartbeat 0 MAV_TYPE_QUADROTOR (hb_autopilot (hb u)) (hb_base_mode (hb u)) 0 3.

(** One turn of the outer loop. *)
Definition run_turn (fuel : nat) (u : locals) (s : state) : option state :=
  let '(msg, comm_0, _) := mavlink_msg_heartbeat_encode 1 0 (comm_0 s) (msg u) (heartbeat_of u) in
  let '(buf, _) := mavlink_msg_to_send_buffer (replicate GEC_PT_LEN 0) msg in
  let serial := serial s ++ [buf] in
  option_map (fun seed => mk_state comm_0 (symkey_chan2 s) seed serial) (wait fuel (seed s)).

(** A turn for each element of [us]. *)
Fixpoint run_turns (fuel : nat) (us : list locals) (s : state) : option state :=
  match us with
  | [] => Some s
  | u :: us => match run_turn fuel u s with None => None | Some s => run_turns fuel us s end
  end.

(** ** Decrypt

    [parse_char_into_msg] has the code of [handle_char] of UART_TX of
    comm-mavlink-relay, with a [buf] of 280 bytes; a turn is one reading of
    [tail] in [read_ringbuffer], which never returns and does not write [head]
    back. *)
Section decrypt.
Context (crcs : list mavlink_msg_entry_t).
Context (accept_unsigned : option (mavlink_status_t -> Z -> bool)).
Context (u : UartTx.locals).

Definition parse_char_into_msg (c : Z) (s : UartTx.state) : UartTx.state := UartTx.handle_char crcs accept_unsigned u c s.

Definition read_ringbuffer (rb : ring_buffer_t) (head : Z) (s : UartTx.state) : Z * UartTx.state :=
  drain_ring parse_char_into_msg (Z.to_nat RING_BUFFER_SIZE) rb head (rb_tail rb) s.
End decrypt.
End Packet.

(** ** The period of the generator

    [rand] has the full period 2^64: from every state it reaches every other
    one.  [lcg] is a step of it without the wrapping. *)

Definition lcg_mul : Z := 6364136223846793005.
Definition lcg (x : Z) : Z := lcg_mul * x + 1.
#[local] Abbreviation G n := (Nat.iter n lcg 0).

Lemma lcg_iter n x : Nat.iter n lcg x = x + G n * ((lcg_mul - 1) * x + 1).
Proof.
  induction n as [|n IH]; [cbn; lia|]. rewrite !Nat.iter_succ, IH. unfold lcg at 1 3.
  set (g := G n). clearbody g. ring.
Qed.

(** The factor is 1 modulo 4, so the steps from 0 double as their number does. *)
Lemma lcg_double k : exists q, G (2 ^ k) = 2 ^ Z.of_nat k * (2 * q + 1).
Proof.
  induction k as [|k [q IH]]; [by exists 0|].
  replace (2 ^ S k)%nat with (2 ^ k + 2 ^ k)%nat by (cbn; lia). rewrite Nat.iter_add, lcg_iter.
  set (g := G (2 ^ k)) in *. assert (lcg_mul - 1 = 4 * 1591034055961698251) as -> by done. set (c := 1591034055961698251).
  exists (q + (2 * q + 1) * (c * g)). rewrite Nat2Z.inj_succ, Z.pow_succ_r by lia. rewrite !IH at 1 2.
  replace (c * g) with (c * (2 ^ Z.of_nat k * (2 * q + 1))) by (by rewrite IH). ring.
Qed.

Lemma lcg_reaches k x y : exists n q, Nat.iter n lcg x = y + 2 ^ Z.of_nat k * q.
Proof.
  induction k as [|k (n & q & IH)]; [exists 0%nat, (x - y); cbn; lia|].
  rewrite Nat2Z.inj_succ, Z.pow_succ_r by lia. set (p := 2 ^ Z.of_nat k) in *.
  destruct (Zeven_odd_dec q) as [[h ->]%Zeven_ex|[h ->]%Zodd_ex]; [exists n, h; lia|].
  destruct (lcg_double k) as [w Hw]. fold p in Hw. exists (2 ^ k + n)%nat.
  rewrite Nat.iter_add, lcg_iter, IH, Hw. assert (lcg_mul - 1 = 4 * 1591034055961698251) as -> by done.
  set (c := 1591034055961698251). set (z := y + p * (2 * h + 1)).
  exists (h + w + 1 + (2 * w + 1) * 2 * (c * z)). unfold z. ring.
Qed.

Definition next_seed (x : Z) : Z := (rand x).2.

Lemma rand_iter n x : Nat.iter n next_seed (u64 x) = u64 (Nat.iter n lcg x).
Proof.
  induction n as [|n IH]; [done|]. rewrite !Nat.iter_succ, IH. unfold next_seed, rand, lcg, lcg_mul. cbn [snd].
  unfold wrap. by rewrite <- Zplus_mod_idemp_l, Zmult_mod_idemp_r, Zplus_mod_idemp_l.
Qed.

Lemma rand_full_period x y : in_range 64 x -> in_range 64 y -> exists n, Nat.iter n next_seed x = y.
Proof.
  intros Hx Hy. destruct (lcg_reaches 64 x y) as (n & q & E). exists n.
  rewrite <- (wrap_id 64 x) by done. rewrite rand_iter, E. change (2 ^ Z.of_nat 64) with (2 ^ 64).
  unfold wrap. rewrite Z.mul_comm, Z.mod_add by done. by apply wrap_id.
Qed.

(** ** The waits end *)

Import Packet.

Lemma rand_range x : in_range 64 (next_seed x).
Proof. by apply wrap_range. Qed.

Lemma wait_hits n : forall x,
  Z.shiftr (Nat.iter n next_seed (next_seed x)) 33 = 114514 -> exists x', wait (S n) x = Some x' /\ in_range 64 x'.
Proof.
  induction n as [|n IH]; intros x Hx; cbn [wait]; change (rand x) with (Z.shiftr (next_seed x) 33, next_seed x); cbv iota beta.
  - cbn [Nat.iter nat_rect] in Hx. rewrite Hx. cbn. eexists. split; [done|apply rand_range].
  - case_match; [eexists; split; [done|apply rand_range]|]. apply IH. by rewrite <- Nat.iter_succ_r.
Qed.

Lemma wait_more k n : forall x x', wait n x = Some x' -> wait (n + k) x = Some x'.
Proof.
  induction n as [|n IH]; intros x x' H; [discriminate H|]. cbn [wait Nat.add] in *.
  destruct (rand x) as [r s]. case_match; [done|]. by apply IH.
Qed.

Lemma wait_ends x : exists n x', wait n x = Some x' /\ in_range 64 x'.
Proof.
  assert (in_range 64 (114514 * 2 ^ 33)) as Hy by done.
  destruct (rand_full_period (next_seed x) _ (rand_range x) Hy) as [n E].
  exists (S n). apply wait_hits. by rewrite E.
Qed.

(** The end of the first wait, from the state that the C library starts with,
    which takes 37,276 draws: the last five of them. *)
Example first_wait_ends : wait 5 7389035276079854723 = Some 13535268517722701460 /\ wait 4 7389035276079854723 = None.
Proof. split; vm_compute; reflexivity. Qed.

(** ** The packets *)

Definition packet (w : list Z) : list Z := w ++ replicate (GEC_PT_LEN - length w) 0.

Record locals_ok (u : locals) : Prop := {
  lok_msg : wf_message (msg u);
  lok_autopilot : is_u8 (hb_autopilot (hb u));
  lok_base_mode : is_u8 (hb_base_mode (hb u));
}.

(** A heartbeat numbered [n]: a frame that a relay may be given. *)
Definition is_heartbeat (u : locals) (n : nat) (m : mavlink_message_t) : Prop :=
  relayable m /\ _mavlink_resend_uart m = heartbeat_frame 1 0 (Z.of_nat n mod 256) (heartbeat_of u).

Lemma packet_turn u n s :
  locals_ok u -> sends_plain (comm_0 s) -> s_current_tx_seq (comm_0 s) = Z.of_nat n mod 256 ->
  exists fuel m s', (forall k, run_turn (fuel + k) u s = Some s') /\ is_heartbeat u n m /\
    serial s' = serial s ++ [packet (_mavlink_resend_uart m)] /\
    sends_plain (comm_0 s') /\ s_current_tx_seq (comm_0 s') = Z.of_nat (S n) mod 256.
Proof.
  intros [Hm Ha Hb] Hpl Hseq. assert (heartbeat_ok (heartbeat_of u)) as Hh by (by split).
  pose proof (encode_spec ardupilotmega_crcs 1 0 (comm_0 s) (msg u) (heartbeat_of u)
    ardupilotmega_heartbeat Hm ltac:(done) ltac:(done) Hh Hpl) as He.
  unfold run_turn. destruct (mavlink_msg_heartbeat_encode 1 0 _ _ _) as [[m c0] n0]. destruct He as (Hmsg & _ & ->).
  destruct Hmsg as [Hr _ Hw _ _]. rewrite Hseq in Hw. pose proof Hr as (Hu & Ht & _).
  rewrite (to_send_buffer_memcpy _ m (proj1 Hu)). fold (wire_of m). unfold wire_of. rewrite Ht.
  destruct (wait_ends (seed s)) as (fuel & x & Hx & _).
  exists fuel, m. eexists. split; [intros k; by rewrite (wait_more k fuel _ _ Hx)|].
  split; [done|]. cbn [serial comm_0]. split_and!.
  - f_equal. f_equal. unfold packet. rewrite Hw. rewrite memcpy_at_spec by (rewrite length_heartbeat_frame; cbn; lia).
    by rewrite take_0, drop_replicate.
  - by apply sends_plain_next.
  - change (u8 (s_current_tx_seq (comm_0 s) + 1) = Z.of_nat (S n) mod 256). rewrite Hseq.
    unfold wrap. change (2 ^ 8) with 256. rewrite Zplus_mod_idemp_l. f_equal. lia.
Qed.

Lemma packet_turns us : forall n s,
  Forall locals_ok us -> sends_plain (comm_0 s) -> s_current_tx_seq (comm_0 s) = Z.of_nat n mod 256 ->
  exists fuel ms s', (forall k, run_turns (fuel + k) us s = Some s') /\
    Forall relayable ms /\
    map _mavlink_resend_uart ms = imap (fun i u => heartbeat_frame 1 0 (Z.of_nat (n + i) mod 256) (heartbeat_of u)) us /\
    serial s' = serial s ++ map (fun m => packet (_mavlink_resend_uart m)) ms.
Proof.
  induction us as [|u us IH]; intros n s Hus Hpl Hseq.
  { exists 0%nat, [], s. split_and!; try done. by rewrite app_nil_r. }
  apply List.Forall_cons_iff in Hus as [Hu Hus].
  destruct (packet_turn u n s Hu Hpl Hseq) as (f1 & m & s1 & E1 & [Hm Hw] & Hs1 & Hpl1 & Hseq1).
  destruct (IH (S n) s1 Hus Hpl1 Hseq1) as (f2 & ms & s2 & E2 & Hms & Hws & Hs2).
  exists (f1 + f2)%nat, (m :: ms), s2. split_and!.
  - intros k. cbn [run_turns]. rewrite <- Nat.add_assoc, E1.
    replace (f1 + (f2 + k))%nat with (f2 + (f1 + k))%nat by lia. apply E2.
  - by apply Forall_cons_2.
  - cbn [map]. rewrite imap_cons, Hw, Hws, Nat.add_0_r. f_equal. apply imap_ext. intros i x _.
    unfold compose. by rewrite Nat.add_succ_r.
  - rewrite Hs2, Hs1, <- app_assoc. done.
Qed.

(** ** Packets through a parser *)

Section parse.
Context (crcs : list mavlink_msg_entry_t).
Context (accept_unsigned : option (mavlink_status_t -> Z -> bool)).

(** Between frames a zero is skipped. *)
Lemma zero_skipped p :
  between_frames p -> returned crcs accept_unsigned p [0] = [0] /\ between_frames (fed crcs accept_unsigned p [0]).
Proof.
  intros (Hp & Hi & Hs). pose proof (fed_ok crcs accept_unsigned p [0] Hp ltac:(by constructor)) as Hok.
  pose proof (feed_signing crcs accept_unsigned [0] (rx_buffer p) (rx_status p) Hs) as Hsig.
  unfold returned, between_frames, fed in *. cbn [feed] in *.
  assert (exists st, feed1 crcs accept_unsigned (rx_buffer p, rx_status p) 0 = (rx_buffer p, st, 0) /\ idle st) as (st & E & Hst).
  { unfold feed1, mavlink_frame_char_buffer, parse_switch. cbn [fst snd].
    destruct Hi as [Hi | Hi]; cbn [s_parse_state set_s_msg_received]; rewrite Hi; eexists; (split; [reflexivity|]);
      [left|right]; exact Hi. }
  rewrite E in *. cbn [fst snd rx_status] in *. split; [done|]. exact (conj Hok (conj Hst Hsig)).
Qed.

Lemma zeroes_skipped n : forall p,
  between_frames p ->
  returned crcs accept_unsigned p (replicate n 0) = replicate n 0 /\ between_frames (fed crcs accept_unsigned p (replicate n 0)).
Proof.
  induction n as [|n IH]; intros p Hp.
  { split; [done|]. unfold fed. cbn. by destruct p. }
  destruct (zero_skipped p Hp) as [H1 H2]. destruct (IH _ H2) as [H3 H4]. cbn [replicate].
  change (0 :: replicate n 0) with ([0] ++ replicate n 0) at 1 3. destruct (fed_app crcs accept_unsigned p [0] (replicate n 0)) as [-> ->].
  by rewrite H1, H3.
Qed.

Section forwarder.
Context {S : Type} (handle : Z -> S -> S) (prs : S -> parser) (out : S -> list (list Z)).
Context (msg : S -> mavlink_message_t) (st : S -> mavlink_status_t).
Hypothesis Hf : forwards crcs accept_unsigned handle prs out msg st (fun ws w => ws ++ [w]).
#[local] Abbreviation handle_all := (foldl (fun s c => handle c s)).

(** A frame and some of the zeroes behind it. *)
Lemma padded_frame m k s :
  between_frames (prs s) -> relayable m ->
  let s' := handle_all s (_mavlink_resend_uart m ++ replicate k 0) in
  between_frames (prs s') /\ out s' = out s ++ [_mavlink_resend_uart m].
Proof.
  intros Hs Hm. destruct (relayable_good crcs [m] (Forall_cons_2 _ _ _ Hm (List.Forall_nil _))) as [[Hg _]%List.Forall_cons_iff [= Hw]].
  pose proof (forwards_handler crcs accept_unsigned handle prs out msg st _ Hf) as Hh.
  destruct (handle_frame crcs accept_unsigned handle prs out _ _ s m Hs Hg) as [Hs1 Ho1].
  cbn zeta. rewrite foldl_app. set (s1 := handle_all s _) in *.
  destruct (zeroes_skipped k (prs s1) Hs1) as [Hr Hb].
  destruct (quiet_bytes crcs accept_unsigned handle prs out _ _ (replicate k 0) s1) as [-> ->];
    [by rewrite length_replicate|]. split; [done|]. by rewrite Ho1, Hw.
Qed.

(** The first [n] bytes of a stream of packets: a frame is written as soon as
    its 21 bytes are there. *)
Lemma packets_prefix ms : forall n s,
  between_frames (prs s) -> Forall relayable ms -> Forall (fun m => length (_mavlink_resend_uart m) = 21%nat) ms ->
  out (handle_all s (take n (concat (map (fun m => packet (_mavlink_resend_uart m)) ms)))) =
  out s ++ take ((n + 259) / 280) (map _mavlink_resend_uart ms).
Proof.
  induction ms as [|m ms IH]; intros n s Hs Hms Hls; cbn [map concat]; [by rewrite !take_nil, app_nil_r|].
  apply List.Forall_cons_iff in Hms as [Hm Hms]. apply List.Forall_cons_iff in Hls as [Hl Hls].
  set (w := _mavlink_resend_uart m) in *. assert (length (packet w) = 280%nat) as Hp.
  { unfold packet. rewrite length_app, length_replicate, Hl. done. }
  destruct (decide (280 <= n)%nat) as [H280|H280]; [|rewrite (take_app_le (packet w)) by lia; unfold packet].
  - rewrite take_app_ge, Hp, foldl_app by lia. destruct (padded_frame m (GEC_PT_LEN - length w) s Hs Hm) as [Hs1 Ho1].
    fold w (packet w) in Hs1, Ho1. rewrite IH, Ho1 by done.
    replace ((n + 259) / 280)%nat with (Datatypes.S ((n - 280 + 259) / 280))%nat.
    + by rewrite <- app_assoc.
    + replace (n + 259)%nat with (n - 280 + 259 + 1 * 280)%nat by lia. rewrite Nat.div_add by done. lia.
  - destruct (decide (21 <= n)%nat) as [H21|H21].
    + rewrite take_app_ge, take_replicate, Hl by lia.
      destruct (padded_frame m (Nat.min (n - 21) (GEC_PT_LEN - 21)) s Hs Hm) as [_ Ho1]. fold w in Ho1. rewrite Ho1.
      replace ((n + 259) / 280)%nat with 1%nat; [by cbn [take]|].
      replace (n + 259)%nat with (n - 21 + 1 * 280)%nat by lia. rewrite Nat.div_add, Nat.div_small by lia. done.
    + rewrite take_app_le, Nat.div_small, take_0, app_nil_r by lia.
      destruct (relayable_good crcs [m] (Forall_cons_2 _ _ _ Hm (List.Forall_nil _))) as [[Hg _]%List.Forall_cons_iff _].
      pose proof (forwards_handler crcs accept_unsigned handle prs out msg st _ Hf) as Hh.
      apply (handle_front crcs accept_unsigned handle prs out _ _ s m _ (drop n w) Hs Hg); [by rewrite take_drop|].
      intros E. apply (f_equal length) in E. rewrite length_drop, Hl in E. cbn in E. lia.
Qed.
End forwarder.
End parse.

(** One reading of the ring hands all that is in it to the parser. *)
Lemma read_ringbuffer_drains crcs accept_unsigned v rb head d :
  in_ring head -> in_ring (rb_tail rb) ->
  read_ringbuffer crcs accept_unsigned v rb head d =
  (rb_tail rb, foldl (fun d c => parse_char_into_msg crcs accept_unsigned v c d) d (available rb head)).
Proof. apply turn_drains. Qed.

(** C5. Encrypt of comm-packet, from its initialisation and from any state of the
    generator: its waits end, so that it makes as many turns as one likes, and
    writes one packet in each: a heartbeat of system 1, numbered from 0 modulo
    256, and 259 zeroes.  Decrypt of a board that receives these packets
    writes the heartbeats, unchanged and in order, each as soon as its last
    byte has been taken from the ring, in every interleaving of the receiver
    and Decrypt in which the ring is not overrun. *)
Theorem packets_carry_heartbeats crcs accept_unsigned v p us s :
  comm_0 s = blank_status -> serial s = [] -> Forall locals_ok us ->
  length (UartTx.lo_buf v) = 280%nat -> between_frames p ->
  let frames := imap (fun i u => heartbeat_frame 1 0 (Z.of_nat i mod 256) (heartbeat_of u)) us in
  exists fuel s', run_turns fuel us (pre_init s) = Some s' /\
    serial s' = map (fun w => w ++ replicate 259 0) frames /\
    forall sys, reachable sys -> overrun sys = false -> RingBuffer.sent sys `prefix_of` concat (serial s') ->
      UartTx.serial (foldl (fun d c => parse_char_into_msg crcs accept_unsigned v c d) (UartTx.mk_state p []) (got sys)) =
        take ((length (got sys) + 259) / 280) frames.
Proof.
  intros Hc Hs Hus Hv Hp frames.
  destruct (packet_turns us 0 (pre_init s) Hus) as (fuel & ms & s' & E & Hms & Hws & Hser);
    [by cbn [pre_init comm_0]; rewrite Hc|by cbn [pre_init comm_0]; rewrite Hc|].
  change (map _mavlink_resend_uart ms = frames) in Hws.
  assert (Forall (fun m => length (_mavlink_resend_uart m) = 21%nat) ms) as Hl.
  { apply (List.Forall_map _mavlink_resend_uart (fun w => length w = 21%nat)). rewrite Hws. apply Forall_lookup.
    intros i w. unfold frames. rewrite list_lookup_imap. destruct (us !! i); [|done]. intros [= <-]. apply length_heartbeat_frame. }
  cbn [pre_init serial] in Hser. rewrite Hs in Hser. cbn [app] in Hser.
  exists fuel, s'. split; [by rewrite <- (E 0%nat), Nat.add_0_r|]. split.
  - rewrite Hser, <- Hws, map_map. apply map_ext_Forall. eapply List.Forall_impl; [|exact Hl].
    intros m Hm. cbn beta in Hm. unfold packet. by rewrite Hm.
  - intros sys Hr Ho [r Hpre]. destruct (reachable_inv sys Hr Ho) as [_ _ Hle _ Hg _ _ _].
    assert (got sys = take (length (got sys)) (concat (serial s'))) as Hg'.
    { rewrite Hpre, take_app_le by exact Hle. exact Hg. }
    rewrite Hg', Hser at 1.
    pose proof (packets_prefix crcs accept_unsigned _ _ _ _ _ (uart_tx_forwards crcs accept_unsigned v ltac:(rewrite Hv; lia))
      ms (length (got sys)) (UartTx.mk_state p []) Hp Hms Hl) as H. rewrite Hws in H. exact H.
Qed.

#[local] Abbreviation sample_locals := (mk_locals blank_message (mk_heartbeat 9 9 3 81 9 9)).

Lemma packets_carry_heartbeats_witness :
  let us := [sample_locals; sample_locals; sample_locals] in
  let frames := imap (fun i u => heartbeat_frame 1 0 (Z.of_nat i mod 256) (heartbeat_of u)) us in
  exists fuel s', run_turns fuel us (pre_init (mk_state blank_status zero_key 0 [])) = Some s' /\
    serial s' = map (fun w => w ++ replicate 259 0) frames /\
    forall sys, reachable sys -> overrun sys = false -> RingBuffer.sent sys `prefix_of` concat (serial s') ->
      UartTx.serial (foldl (fun d c => parse_char_into_msg ardupilotmega_crcs None
          (UartTx.mk_locals blank_message blank_status (replicate 280 7)) c d) (UartTx.mk_state idle_parser []) (got sys)) =
        take ((length (got sys) + 259) / 280) frames.
Proof.
  apply (packets_carry_heartbeats ardupilotmega_crcs None); [done|done| |done|exact idle_parser_between].
  repeat (apply Forall_cons_2; [split; [exact blank_message_ok|done|done]|]). constructor.
Defined.
