(* ===== verification/CryptoRpc.v ===== *)
(** * The comm-crypto-rpc-relay application

    apps/comm-crypto-rpc-relay/components: the relay with the output moved
    behind remote calls.  Encrypt is the one of the key exchange with the
    constant key; it gives every frame to [serial_send] of Telemetry, which gets
    one byte of it.  Decrypt is the one of comm-crypto-block with a queue for
    the deque; it never writes its index back, and so starts every turn at the
    start of the ring.  Decrypt and the receiver of Telemetry, which share the
    ring, are interleaved access by access.  (The receiver of Pixhawk is
    [rb_put] of RingBuffer.v.) *)

From S2P Require Import Prelude Ring Queue RingBuffer MavlinkTypes Mavlink MavlinkParser MavlinkRoundTrip.
From S2P Require Import Aes Gf128 Gcm GcmSpec AesModes Gec Relay FrameStream SealedStream LinkSample CryptoRelay CryptoBlock PlainRelay.

Local Open Scope Z_scope.

(** [serial_send] of Pixhawk and Telemetry, at the receiving end of a call with
    the buffer [w]: what is written to their ports for a list of such calls;
    [beyond] is the memory after the copied byte, at each call. *)
Definition remote_writes (beyond : nat -> list Z) (calls : list (list Z)) : list (list Z) :=
  imap (fun i w => serial_send (beyond i) (rpc_send w (Z.of_nat (length w)))) calls.

Module Encrypt.
Section component.
Context (crcs : list mavlink_msg_entry_t).
Context (accept_unsigned : option (mavlink_status_t -> Z -> bool)).
Context (u : stack).

(** [calls] are the buffers given to [serial_send]. *)
Record state := mk_state {
  prs : parser;
  queue : Queue.queue_t;
  symkey_chan2 : gec_sym_key;
  calls : list (list Z);
}.

Definition my_mavlink_parse_char (p : parser) (c : Z) (r_message : mavlink_message_t)
    (r_mavlink_status : mavlink_status_t) : parser * mavlink_message_t * mavlink_status_t * Z :=
  parse_frame_char crcs accept_unsigned p c r_message r_mavlink_status.

Fixpoint encrypt_blocks (loop : nat) (buf ct_frame : list Z) (q : Queue.queue_t) (k : gec_sym_key)
    (out : list (list Z)) : Queue.queue_t * gec_sym_key * list (list Z) :=
  match loop with
  | O => (q, k, out)
  | S loop =>
      let '(q, buf) := dequeue_into GEC_PT_LEN 0 (st_byte u) q buf in
      let '(r, ct, k) := gec_encrypt (st_places u) k buf (drop 2 ct_frame) in
      let ct_frame := take 2 ct_frame ++ ct in
      let out := if negb (r =? GEC_SUCCESS) then out else out ++ [ct_frame] in
      encrypt_blocks loop buf ct_frame q k out
  end.

Definition encrypt_to_frame (s : state) (msg : mavlink_message_t) : state :=
  let '(buf, len) := mavlink_msg_to_send_buffer (st_buf u) msg in
  let q := enqueue_all (queue s) (take (Z.to_nat len) buf) in
  let loop := Z.to_nat (Queue.size q / Z.of_nat GEC_PT_LEN) in
  let ct_frame := wr (wr (st_frame u) 0 GEC_CIPHERTEXT_FRAME_MAGIC) 1 GEC_CIPHERTEXT_FRAME_TAG in
  let '(q, k, out) := encrypt_blocks loop buf ct_frame q (symkey_chan2 s) (calls s) in
  mk_state (prs s) q k out.

Definition handle_char (c : Z) (s : state) : state :=
  let '(p, msg, _, result) := my_mavlink_parse_char (prs s) c (st_msg u) (st_status u) in
  let s := mk_state p (queue s) (symkey_chan2 s) (calls s) in
  if result =? 0 then s else encrypt_to_frame s msg.

Definition pre_init (s : state) : state :=
  mk_state (prs s) (Queue.queue_init (queue s))
    (gec_init_sym_key_conf_auth (symkey_chan2 s) (drop GEC_RAW_KEY_LEN key_material)) (calls s).

Definition run_turn (rb : ring_buffer_t) (head : Z) (s : state) : Z * state :=
  drain_ring handle_char (Z.to_nat RING_BUFFER_SIZE) rb head (rb_tail rb) s.
End component.
End Encrypt.

Module Decrypt.
Section component.
Context (crcs : list mavlink_msg_entry_t).
Context (accept_unsigned : option (mavlink_status_t -> Z -> bool)).
Context (u : stack).

(** [vars]: the parser, [msg] and [status] of [run], the buffers given to
    [serial_send], and whether one was too long for [buf]. *)
Record state := mk_state {
  vars : CryptoBlock.Decrypt.io;
  queue : Queue.queue_t;
  symkey_chan1 : gec_sym_key;
}.

Definition my_mavlink_parse_char (p : parser) (c : Z) (r_message : mavlink_message_t)
    (r_mavlink_status : mavlink_status_t) : parser * mavlink_message_t * mavlink_status_t * Z :=
  parse_frame_char crcs accept_unsigned p c r_message r_mavlink_status.

(** The body of the loop over the queue: the one of comm-crypto-block, with
    [serial_send(buf, len)] for the write. *)
Definition handle_char (c : Z) (x : CryptoBlock.Decrypt.io) : CryptoBlock.Decrypt.io :=
  CryptoBlock.Decrypt.handle_char crcs accept_unsigned u c x.

Definition pre_init (s : state) : state :=
  mk_state (vars s) (Queue.queue_init (queue s)) (gec_init_sym_key_conf_auth (symkey_chan1 s) key_material).

(** Without a caller: [decrypt_to_msg] of comm-crypto-block. *)
Definition decrypt_to_msg (ct_frame : list Z) (ret_msg : mavlink_message_t) (s : state) : Z * mavlink_message_t * state :=
  if negb (rd ct_frame 0 =? GEC_CIPHERTEXT_FRAME_MAGIC) then (1, ret_msg, s)
  else if negb (rd ct_frame 1 =? GEC_CIPHERTEXT_FRAME_TAG) then (1, ret_msg, s)
  else
    let '(r, pt, k) := gec_decrypt (st_places u) (symkey_chan1 s) (drop 2 ct_frame) (st_pt u) in
    let s := mk_state (vars s) (queue s) k in
    if negb (r =? 0) then (1, ret_msg, s)
    else
      let x := vars s in
      let '(p, ret_msg) := CryptoBlock.Decrypt.first_message crcs accept_unsigned (take GEC_PT_LEN pt)
        (CryptoBlock.Decrypt.prs x) (st_msg u) (st_status u) ret_msg in
      (0, ret_msg, mk_state (CryptoBlock.Decrypt.mk_io p (CryptoBlock.Decrypt.msg x) (CryptoBlock.Decrypt.status x)
        (CryptoBlock.Decrypt.serial x) (CryptoBlock.Decrypt.overflow x)) (queue s) k).

(** Where [run] is in [read_ringbuffer]: before it loads the shared [head];
    before it loads [tail], with the first [i] bytes of [read_buf] and the
    local [head]; in the inner loop. *)
Inductive reader :=
  | Enter
  | Poll (read_buf : list Z) (head : Z)
  | Copy (read_buf : list Z) (head tail : Z).

(** The next access of [read_ringbuffer] to the shared buffer, or its return
    with the buffer filled.  The local index is not written back. *)
Definition read_ringbuffer (len : nat) (rb : ring_buffer_t) (r : reader) : reader + list Z :=
  match r with
  | Enter => inl (Poll [] (rb_head rb))
  | Poll read_buf head => inl (Copy read_buf head (rb_tail rb))
  | Copy read_buf head tail =>
      if (length read_buf <? len)%nat && negb (head =? tail)
      then inl (Copy (read_buf ++ [rd (rb_buffer rb) head]) (u32 (head + 1) mod RING_BUFFER_SIZE) tail)
      else if (length read_buf <? len)%nat then inl (Poll read_buf head)
      else inr read_buf
  end.

(** The part of a turn after the two header bytes. *)
Definition handle_frame (ct : list Z) (s : state) : state :=
  let '(r, pt, k) := gec_decrypt (st_places u) (symkey_chan1 s) ct (st_pt u) in
  let q := if negb (r =? 0) then queue s else enqueue_all (queue s) (take GEC_PT_LEN pt) in
  let '(q, x) := drain_queue handle_char (S (Z.to_nat MAX_QUEUE_SIZE)) 0 (st_byte u) q (vars s) in
  mk_state x q k.

Inductive outcome :=
  | Running (r : reader) (s : state)
  | Returned (r : Z) (s : state)
  | Overflow.

(** The body of the loop of [run] after [read_ringbuffer]. *)
Definition handle_turn (ct_frame : list Z) (s : state) : outcome :=
  if negb (rd ct_frame 0 =? GEC_CIPHERTEXT_FRAME_MAGIC) then Returned 1 s
  else if negb (rd ct_frame 1 =? GEC_CIPHERTEXT_FRAME_TAG) then Returned 1 s
  else
    let s := handle_frame (drop 2 ct_frame) s in
    if CryptoBlock.Decrypt.overflow (vars s) then Overflow else Running Enter s.

(** Telemetry and Decrypt on the ring buffer they share.  [unpublished] is
    the index Telemetry has stored at and not yet moved [tail] past;
    [arrived] counts the bytes it has stored and [turns] the frames [run] has
    read (both are ghosts). *)
Record system := mk_system {
  ring : ring_buffer_t;
  unpublished : option Z;
  arrived : nat;
  turns : nat;
  run_state : outcome;
}.

(** The loop of Telemetry: load [tail], which nobody else writes, and store
    the next byte there; or move [tail]. *)
Definition receive (inp : nat -> Z) (x : system) : system :=
  let rb := ring x in
  match unpublished x with
  | None =>
      mk_system (set_buffer rb (wr (rb_buffer rb) (rb_tail rb) (u8 (inp (arrived x))))) (Some (rb_tail rb))
        (S (arrived x)) (turns x) (run_state x)
  | Some tail => mk_system (set_tail rb (next_index tail)) None (arrived x) (turns x) (run_state x)
  end.

(** The loop of [run]: one access to the ring, or the rest of the turn, which
    has none. *)
Definition run_step (x : system) : system :=
  match run_state x with
  | Running r s =>
      match read_ringbuffer (2 + GEC_CT_LEN) (ring x) r with
      | inl r => mk_system (ring x) (unpublished x) (arrived x) (turns x) (Running r s)
      | inr ct_frame => mk_system (ring x) (unpublished x) (arrived x) (S (turns x)) (handle_turn ct_frame s)
      end
  | _ => x
  end.

Inductive thread := Telemetry | Run.

(** [inp n] is the [n]-th byte that the port of Telemetry delivers. *)
Definition step (inp : nat -> Z) (x : system) (t : thread) : system :=
  match t with Telemetry => receive inp x | Run => run_step x end.

Definition schedule (inp : nat -> Z) (ts : list thread) (x : system) : system := foldl (step inp) x ts.

(** The [pre_init] of both components. *)
Definition start (rb : ring_buffer_t) (s : state) : system :=
  mk_system (rb_reset rb) None 0 0 (Running Enter (pre_init s)).
End component.
End Decrypt.

(** ** Encrypt *)

#[export] Instance rpc_blocks_seal u key sl (Hkey : block key) (Hsl : is_salt sl) :
  BlockSealer key sl (Encrypt.encrypt_blocks u).
Proof.
  apply (sealer_of_loop (st_places u) (dequeue_into GEC_PT_LEN 0 (st_byte u))); [done|done| |].
  - intros q buf Hq Hn Hb. by apply queue_dequeue_into.
  - induction n as [|n IH]; intros buf ct_buf q k out; [done|]. cbn [Encrypt.encrypt_blocks seal_loop].
    destruct (dequeue_into GEC_PT_LEN 0 (st_byte u) q buf) as [q1 b1].
    destruct (gec_encrypt (st_places u) k b1 (drop 2 ct_buf)) as [[r ct] k1]. apply IH.
Qed.

Definition rpc_encrypt_view (s : Encrypt.state) : Queue.queue_t * gec_sym_key * list (list Z) :=
  (Encrypt.queue s, Encrypt.symkey_chan2 s, Encrypt.calls s).

Lemma rpc_seals_reports crcs accept_unsigned u :
  seals_reports crcs accept_unsigned u (Encrypt.handle_char crcs accept_unsigned u) Encrypt.prs rpc_encrypt_view
    (Encrypt.encrypt_blocks u).
Proof.
  intros s c. unfold Encrypt.handle_char, Encrypt.my_mavlink_parse_char, Encrypt.encrypt_to_frame, rpc_encrypt_view.
  destruct (parse_frame_char _ _ _ _ _ _) as [[[p m] st'] r]. destruct (r =? 0); [done|].
  cbn [Encrypt.queue Encrypt.symkey_chan2 Encrypt.calls].
  destruct (mavlink_msg_to_send_buffer (st_buf u) m) as [buf len].
  by destruct (Encrypt.encrypt_blocks u _ _ _ _ _ _) as [[q k] out].
Qed.

(** What arrives of ciphertext frames. *)
Lemma remote_writes_frames beyond cts :
  Forall (fun ct => length ct = GEC_CT_LEN) cts ->
  remote_writes beyond (map frame cts) =
  map (fun i => GEC_CIPHERTEXT_FRAME_MAGIC :: take 81 (beyond i)) (seq 0 (length cts)).
Proof.
  intros H. revert beyond. induction H as [|ct cts Hc _ IH]; intros beyond; [done|].
  unfold remote_writes in *. cbn [map length seq]. rewrite imap_cons. f_equal.
  - unfold serial_send, rpc_send. cbn [frame length]. rewrite Hc. reflexivity.
  - rewrite <- seq_shift, map_map. exact (IH (fun i => beyond (S i))).
Qed.

Lemma length_box_ct key sl n : forall c l,
  block key -> is_salt sl -> (GEC_PT_LEN * n <= length l)%nat ->
  Forall (fun ct => length ct = GEC_CT_LEN) (boxes key sl c n l).
Proof.
  induction n as [|n IH]; intros c l Hk Hs Hl; cbn [boxes]; [constructor|]. apply Forall_cons_2.
  - apply (box_layout key sl Hk Hs). rewrite length_take. lia.
  - apply IH; [done|done|]. rewrite length_drop. lia.
Qed.

(** Encrypt of comm-crypto-rpc-relay, from its initialisation, seals the
    relayed stream like the other relays, but of every frame only the magic
    byte reaches the telemetry port: the 81 bytes after it are memory of the
    component at the other end of the call. *)
Theorem rpc_encrypt_sends_magic_bytes crcs accept_unsigned u beyond rb head s0 :
  stack_ok u -> wf_sym_key (Encrypt.symkey_chan2 s0) -> parser_ok (Encrypt.prs s0) -> Encrypt.calls s0 = [] ->
  in_ring head -> in_ring (rb_tail rb) -> bytes (available rb head) ->
  let l := concat (relayed crcs accept_unsigned (st_msg u) (st_status u) (Encrypt.prs s0) (available rb head)).2 in
  Z.of_nat (full_blocks l) <= counter_limit ->
  let '(head', s) := Encrypt.run_turn crcs accept_unsigned u rb head (Encrypt.pre_init s0) in
  head' = rb_tail rb /\ Encrypt.calls s = sealed up_key up_salt 0 (full_blocks l) l /\
  remote_writes beyond (Encrypt.calls s) =
    map (fun i => GEC_CIPHERTEXT_FRAME_MAGIC :: take 81 (beyond i)) (seq 0 (full_blocks l)).
Proof.
  intros Hu Hw Hp Hs Hh Ht Hb. destruct (up_keyed _ Hw) as (Hk & H0 & Hkey & Hsl).
  destruct (Queue.queue_init_wf (Encrypt.queue s0)) as [Hq Hq0].
  pose proof (rpc_blocks_seal u up_key up_salt Hkey Hsl) as Hseal.
  pose proof (sealing_nothing up_key up_salt _ _ Hq Hq0 Hk) as Hn. rewrite <- Hs in Hn.
  pose proof (sealing_turn crcs accept_unsigned u Hu _ _ rpc_encrypt_view _ up_key up_salt
    (rpc_seals_reports crcs accept_unsigned u) _ rb head (Encrypt.pre_init s0) Hh Ht Hb Hn Hp) as H.
  cbn [Encrypt.pre_init Encrypt.prs] in H. rewrite H0 in H. unfold Encrypt.run_turn.
  destruct (relayed crcs accept_unsigned (st_msg u) (st_status u) (Encrypt.prs s0) (available rb head)) as [p' ws].
  cbn [snd]. intros Hlim. specialize (H Hlim). destruct (drain_ring _ _ _ _ _ _) as [head' s].
  destruct H as (-> & _ & [_ _ _ _ H5]). split; [done|]. split; [exact H5|].
  pose proof (full_blocks_spec (concat ws)) as Hfl. rewrite H5, sealed_boxes, remote_writes_frames, length_boxes.
  - done.
  - apply length_box_ct; [done|done|lia].
Qed.

(** ** Decrypt *)

Section decrypt.
Context (crcs : list mavlink_msg_entry_t).
Context (accept_unsigned : option (mavlink_status_t -> Z -> bool)).
Context (u : stack) (Hu : stack_ok u).
Import Decrypt.

#[local] Abbreviation handle_all := (foldl (fun x c => handle_char crcs accept_unsigned u c x)).

(** The state after the plaintext stream [l], of which the first [n] bytes
    have gone through the parser. *)
Record rpc_decrypting (x0 : CryptoBlock.Decrypt.io) (l : list Z) (n : nat) (s : state) : Prop := {
  rd_vars : vars s = handle_all x0 (take n l);
  rd_queue : half_drained (queue s) l n;
  rd_keyed : gec_keyed down_key down_salt (symkey_chan1 s);
}.

Lemma rpc_handle_frame x0 l n s ct :
  rpc_decrypting x0 l n s -> is_ct ct ->
  exists n', rpc_decrypting x0 (l ++ opened down_key down_salt ct) n' (handle_frame crcs accept_unsigned u ct s) /\
    (n <= n')%nat.
Proof.
  intros [Hv Hd Hk] Hct. unfold handle_frame. destruct (down_keyed zero_key blank_ctx_wf) as (_ & _ & Hkey & Hsl).
  destruct (gec_decrypt_opened down_key down_salt Hkey Hsl (st_places u) (symkey_chan1 s) ct (st_pt u) Hk Hct (ok_pt u Hu))
    as (k' & pt & r & -> & Hk' & Hpt).
  destruct (opened_ok down_key down_salt Hkey Hsl ct Hct) as [Hob Hol].
  assert ((if negb (r =? 0) then queue s else enqueue_all (queue s) (take GEC_PT_LEN pt)) =
          enqueue_all (queue s) (opened down_key down_salt ct)) as -> by (rewrite <- Hpt; by destruct (negb (r =? 0))).
  destruct (half_drain (handle_char crcs accept_unsigned u) (S (Z.to_nat MAX_QUEUE_SIZE)) (st_byte u) (queue s) x0 l n
    (opened down_key down_salt ct) Hd Hob Hol) as (n' & q' & E & Hd' & Hn'); [done|apply Nat.ltb_lt; reflexivity|].
  rewrite Hv, E. exists n'. split; [by split|done].
Qed.

(** *** Which bytes [run] reads *)

(** Two steps of Telemetry are [rb_put]. *)
Lemma receive_put inp x : unpublished x = None ->
  let x' := receive inp (receive inp x) in
  ring x' = rb_put (ring x) (inp (arrived x)) /\ unpublished x' = None /\ arrived x' = S (arrived x).
Proof. intros H. unfold receive. rewrite H. done. Qed.

(** [read_buf] is filled from the start of the ring. *)
Definition reader_ok (o : outcome) : Prop :=
  match o with
  | Running (Poll b h) _ | Running (Copy b h _) _ => (length b <= 82)%nat /\ h = Z.of_nat (length b)
  | _ => True
  end.

(** Telemetry stores the [n]-th byte at [n mod 2048]. *)
Record rpc_ring_ok (x : system) : Prop := {
  ro_len : length (rb_buffer (ring x)) = 2048%nat;
  ro_head : rb_head (ring x) = 0;
  ro_tail : match unpublished x with
            | None => rb_tail (ring x) = Z.of_nat (arrived x) mod RING_BUFFER_SIZE
            | Some t => t = rb_tail (ring x) /\ (0 < arrived x)%nat /\
                rb_tail (ring x) = Z.of_nat (arrived x - 1) mod RING_BUFFER_SIZE
            end;
  ro_reader : reader_ok (run_state x);
}.

Lemma handle_turn_reader f s : reader_ok (handle_turn crcs accept_unsigned u f s).
Proof. unfold handle_turn. by repeat case_match. Qed.

Lemma copied_index (b : list Z) : (length b < 82)%nat ->
  u32 (Z.of_nat (length b) + 1) mod RING_BUFFER_SIZE = Z.of_nat (S (length b)).
Proof. intros Hb. unfold RING_BUFFER_SIZE. mod_lia. Qed.

#[local] Abbreviation sys_step inp x t := (Decrypt.step crcs accept_unsigned u inp x t).
#[local] Abbreviation sys_run inp ts x := (Decrypt.schedule crcs accept_unsigned u inp ts x).

Lemma rpc_ring_step inp x t : rpc_ring_ok x -> rpc_ring_ok (sys_step inp x t).
Proof.
  intros [Hl Hh Ht Hr]. destruct t; unfold Decrypt.step.
  - unfold receive. destruct (unpublished x) as [k|]; split; cbn [ring unpublished arrived run_state]; try done.
    + destruct Ht as (-> & Hpos & ->). cbn [set_tail rb_tail]. rewrite next_index_mod. f_equal. lia.
    + cbn [set_buffer rb_buffer]. by rewrite length_wr.
    + split; [done|]. split; [lia|]. cbn [set_buffer rb_tail]. rewrite Ht. f_equal. lia.
  - unfold run_step. destruct (run_state x) as [r s| |] eqn:E; [|by split; rewrite ?E..].
    destruct (read_ringbuffer _ _ r) as [r'|f] eqn:Ef; split; cbn [ring unpublished arrived run_state]; try done;
      [|apply handle_turn_reader].
    revert Ef. unfold read_ringbuffer. change (2 + GEC_CT_LEN)%nat with 82%nat. destruct r as [|b h|b h t]; [intros [= <-]; cbn; lia|by intros [= <-]|].
    destruct Hr as [Hb ->]. destruct (Nat.ltb_spec (length b) 82) as [Hlt|Hge]; [|cbn [andb]; by intros [=]]. intros Ef.
    destruct (Z.of_nat (length b) =? t); injection Ef as <-; [done|]. cbn [reader_ok]. rewrite length_app, copied_index by done.
    cbn [length]. lia.
Qed.

(** Two rings with the same first 82 bytes. *)
Record rpc_alike (x y : system) : Prop := {
  ra_x : rpc_ring_ok x;
  ra_y : rpc_ring_ok y;
  ra_tail : rb_tail (ring x) = rb_tail (ring y);
  ra_low : forall j, 0 <= j < 82 -> rd (rb_buffer (ring x)) j = rd (rb_buffer (ring y)) j;
  ra_unpub : unpublished x = unpublished y;
  ra_arrived : arrived x = arrived y;
  ra_run : turns x = turns y /\ run_state x = run_state y;
}.

Definition same_low_bytes (inp inp' : nat -> Z) : Prop :=
  forall n, (n mod 2048 < 82)%nat -> inp n = inp' n.

Lemma read_alike x y r s :
  rpc_alike x y -> run_state x = Running r s ->
  read_ringbuffer (2 + GEC_CT_LEN) (ring x) r = read_ringbuffer (2 + GEC_CT_LEN) (ring y) r.
Proof.
  intros [[_ Hh _ Hr] [_ Hh' _ _] Ht Hl _ _ _] Hs. rewrite Hs in Hr. unfold read_ringbuffer.
  change (2 + GEC_CT_LEN)%nat with 82%nat. destruct r as [|b h|b h t]; [by rewrite Hh, Hh'|by rewrite Ht|].
  destruct Hr as [Hb ->]. destruct (Nat.ltb_spec (length b) 82); [|done]. by rewrite Hl by lia.
Qed.

(** [run] writes nothing in the ring. *)
Lemma run_step_ring x :
  let x' := run_step crcs accept_unsigned u x in
  ring x' = ring x /\ unpublished x' = unpublished x /\ arrived x' = arrived x.
Proof. unfold run_step. by repeat case_match. Qed.

Lemma rpc_alike_step inp inp' x y t :
  same_low_bytes inp inp' -> rpc_alike x y -> rpc_alike (sys_step inp x t) (sys_step inp' y t).
Proof.
  intros Hi H. pose proof H as [Hx Hy Ht Hl Hu' Ha [Hn Hs]].
  pose proof (rpc_ring_step inp x t Hx) as Hx'. pose proof (rpc_ring_step inp' y t Hy) as Hy'.
  destruct t; unfold Decrypt.step in *.
  - pose proof (ro_tail x Hx) as Htx. unfold receive in *. rewrite <- Hu', <- Hs, <- Hn, <- Ha in *.
    destruct (unpublished x); split; try done; cbn [ring unpublished arrived set_buffer set_tail rb_buffer rb_tail].
    2:{ by rewrite Ht. }
    intros j Hj. rewrite <- Ht.
    assert (0 <= rb_tail (ring x)) as H0 by (rewrite Htx; by apply Z.mod_pos_bound).
    destruct (Z.eq_dec (rb_tail (ring x)) j) as [E|E].
    + rewrite E, !rd_wr_eq by (rewrite ?(ro_len _ Hx), ?(ro_len _ Hy); lia). rewrite (Hi (arrived x)); [done|].
      apply Nat2Z.inj_lt. rewrite Nat2Z.inj_mod. change (Z.of_nat 2048) with RING_BUFFER_SIZE. lia.
    + rewrite !rd_wr_ne by lia. by apply Hl.
  - destruct (run_step_ring x) as (E1 & E2 & E3). destruct (run_step_ring y) as (E1' & E2' & E3').
    split; [done|done| | | | |]; rewrite ?E1, ?E1', ?E2, ?E2', ?E3, ?E3'; try done.
    unfold run_step. rewrite <- Hs, <- Hn. destruct (run_state x) as [r s| |] eqn:Er; [|by rewrite Er, <- Hs..].
    rewrite (read_alike x y r s H Er). by case_match.
Qed.

Lemma rpc_start_ok rb s : rb_wf rb -> rpc_ring_ok (start rb s).
Proof. intros (Hl & _). split; [unfold RING_BUFFER_SIZE in Hl; cbn; lia|done..]. Qed.

Lemma rpc_blind inp inp' ts rb s :
  rb_wf rb -> same_low_bytes inp inp' -> rpc_alike (sys_run inp ts (start rb s)) (sys_run inp' ts (start rb s)).
Proof.
  intros Hrb Hi. assert (rpc_alike (start rb s) (start rb s)) as H by (split; (done || by apply rpc_start_ok)).
  revert H. unfold schedule. generalize (start rb s) at 1 3. generalize (start rb s).
  induction ts as [|t ts IH]; intros y x H; [exact H|]. by apply IH, rpc_alike_step.
Qed.

(** *** Its turns *)

(** From the start of the ring, with a frame's length published, 85 steps of
    [run] are a turn. *)
Lemma copies inp n : forall x b s t,
  run_state x = Running (Copy b (Z.of_nat (length b)) t) s -> 82 <= t -> (length b + n = 82)%nat ->
  turns (sys_run inp (replicate (S n) Run) x) = S (turns x).
Proof.
  induction n as [|n IH]; intros x b s t E Ht Hn; rewrite replicate_S; unfold schedule in *; cbn [foldl];
    set (x' := sys_step inp x Run).
  - unfold x', Decrypt.step, run_step, read_ringbuffer. rewrite E. change (2 + GEC_CT_LEN)%nat with 82%nat.
    rewrite (proj2 (Nat.ltb_ge _ _)) by lia. done.
  - assert (turns x' = turns x /\
      run_state x' = Running (Copy (b ++ [rd (rb_buffer (ring x)) (Z.of_nat (length b))]) (Z.of_nat (S (length b))) t) s)
      as [<- Hs'].
    { unfold x', Decrypt.step, run_step, read_ringbuffer. rewrite E. change (2 + GEC_CT_LEN)%nat with 82%nat.
      rewrite (proj2 (Nat.ltb_lt _ _)) by lia. rewrite (proj2 (Z.eqb_neq _ _)) by lia. cbn [negb andb turns run_state].
      by rewrite copied_index by lia. }
    clearbody x'. eapply IH; [|exact Ht|].
    + rewrite Hs'. do 2 f_equal. rewrite length_app. cbn [length]. lia.
    + rewrite length_app. cbn [length]. lia.
Qed.

Lemma schedule_app inp ts1 ts2 x : sys_run inp (ts1 ++ ts2) x = sys_run inp ts2 (sys_run inp ts1 x).
Proof. apply foldl_app. Qed.

Lemma rpc_turn_completes inp x s :
  rpc_ring_ok x -> run_state x = Running Enter s -> 82 <= rb_tail (ring x) ->
  turns (sys_run inp (replicate 85 Run) x) = S (turns x).
Proof.
  intros Hx E Ht. change (replicate 85 Run) with ([Run; Run] ++ replicate 83 Run). rewrite schedule_app.
  assert (sys_run inp [Run; Run] x =
    mk_system (ring x) (unpublished x) (arrived x) (turns x) (Running (Copy [] 0 (rb_tail (ring x))) s)) as ->.
  { unfold schedule. cbn [foldl]. unfold Decrypt.step, run_step. rewrite E. cbn [read_ringbuffer run_state ring]. by rewrite (ro_head x Hx). }
  by rewrite (copies inp 82 _ [] s (rb_tail (ring x))).
Qed.

Section first_lap.
Context (inp : nat -> Z) (ct : list Z) (Hct : is_ct ct) (Hinp : map inp (seq 0 82) = frame ct).
Context (x0 : CryptoBlock.Decrypt.io).

Definition repeated (n : nat) : list Z := concat (replicate n (opened down_key down_salt ct)).

Lemma frame_length : length (frame ct) = 82%nat.
Proof. cbn [frame length]. by rewrite (proj2 Hct). Qed.

Lemma inp_frame j : (j < 82)%nat -> u8 (inp j) = rd (frame ct) (Z.of_nat j).
Proof.
  intros Hj. assert (rd (frame ct) (Z.of_nat j) = inp j) as E.
  { rewrite <- Hinp. unfold rd. rewrite Nat2Z.id, list_lookup_fmap, lookup_seq_lt by done. done. }
  rewrite <- E. apply wrap_id, rd_u8. destruct Hct as [Hb _]. by repeat (apply Forall_cons_2; [done|]).
Qed.

(** [read_buf] is the start of the frame. *)
Definition reading (tail : Z) (r : reader) : Prop :=
  match r with
  | Enter => True
  | Poll b h => b = take (length b) (frame ct) /\ Z.of_nat (length b) <= tail
  | Copy b h t => b = take (length b) (frame ct) /\ Z.of_nat (length b) <= t <= tail
  end.

Record first_lap (x : system) : Prop := {
  fl_ring : rpc_ring_ok x;
  fl_data : forall j, (j < arrived x)%nat -> (j < 82)%nat ->
    rd (rb_buffer (ring x)) (Z.of_nat j) = rd (frame ct) (Z.of_nat j);
  fl_run : exists k s, rpc_decrypting x0 (repeated (turns x)) k s /\
    if negb (turns x =? 0)%nat && CryptoBlock.Decrypt.overflow (vars s) then run_state x = Overflow
    else exists r, run_state x = Running r s /\ reading (rb_tail (ring x)) r;
}.

Lemma lap_tail x : rpc_ring_ok x -> (arrived x < 2048)%nat ->
  rb_tail (ring x) = Z.of_nat (arrived x) - match unpublished x with None => 0 | Some _ => 1 end /\
  (unpublished x <> None -> 0 < arrived x)%nat.
Proof.
  intros [_ _ Ht _] Ha. destruct (unpublished x) as [t|].
  - destruct Ht as (_ & Hp & ->). rewrite Z.mod_small by (unfold RING_BUFFER_SIZE; lia). lia.
  - rewrite Ht, Z.mod_small by (unfold RING_BUFFER_SIZE; lia). split; [lia|done].
Qed.

Lemma reading_mono t t' r : t <= t' -> reading t r -> reading t' r.
Proof. intros Hle. destruct r; cbn; intuition lia. Qed.

Lemma receive_first_lap x :
  first_lap x -> (arrived (receive inp x) < 2048)%nat -> first_lap (receive inp x).
Proof.
  intros [Hr Hd (k & s & Hs & Hx)] Ha. pose proof (rpc_ring_step inp x Telemetry Hr) as Hr'. cbn in Hr'.
  assert (arrived x <= arrived (receive inp x))%nat as Hle by (unfold receive; destruct (unpublished x); cbn [arrived]; lia).
  destruct (lap_tail x Hr ltac:(lia)) as [Ht Hp]. destruct (lap_tail _ Hr' Ha) as [Ht' _].
  split; [done| |].
  - unfold receive in *. destruct (unpublished x); cbn [arrived ring set_tail set_buffer rb_buffer] in *; [done|].
    intros j Hj Hj82. rewrite Ht, Z.sub_0_r. destruct (Nat.eq_dec j (arrived x)) as [->|Hne].
    + rewrite rd_wr_eq by (rewrite (ro_len x Hr); lia). by apply inp_frame.
    + rewrite rd_wr_ne by lia. apply Hd; lia.
  - exists k, s. assert (turns (receive inp x) = turns x /\ run_state (receive inp x) = run_state x) as [-> ->]
      by (unfold receive; by destruct (unpublished x)). split; [done|].
    destruct (negb (turns x =? 0)%nat && _); [done|]. destruct Hx as (r & Er & Hrd). exists r. split; [done|].
    refine (reading_mono _ _ r _ Hrd). rewrite Ht, Ht'. unfold receive. destruct (unpublished x); cbn [arrived unpublished]; lia.
Qed.

Lemma turn_first_lap n k s :
  rpc_decrypting x0 (repeated n) k s ->
  exists k' s', rpc_decrypting x0 (repeated (S n)) k' s' /\
    handle_turn crcs accept_unsigned u (frame ct) s =
      (if CryptoBlock.Decrypt.overflow (vars s') then Overflow else Running Enter s').
Proof.
  intros Hs. destruct (rpc_handle_frame x0 _ k s ct Hs Hct) as (k' & Hs' & _).
  exists k', (handle_frame crcs accept_unsigned u ct s). split; [|reflexivity].
  unfold repeated in *. rewrite replicate_S_end, concat_app. cbn [concat]. by rewrite app_nil_r.
Qed.

Lemma run_first_lap x :
  first_lap x -> (arrived x < 2048)%nat -> first_lap (run_step crcs accept_unsigned u x).
Proof.
  intros [Hr Hd (k & s & Hs & Hx)] Ha. pose proof (rpc_ring_step inp x Run Hr) as Hr'. cbn in Hr'.
  destruct (run_step_ring x) as (E1 & E2 & E3). split; [done|by rewrite E1, E3|]. rewrite E1. clear E1 E2 E3 Hr'.
  destruct (lap_tail x Hr Ha) as [Ht _]. unfold run_step.
  destruct (negb (turns x =? 0)%nat && _) eqn:Ho.
  { rewrite Hx. exists k, s. by rewrite Ho. }
  destruct Hx as (r & Er & Hrd). rewrite Er. pose proof (ro_reader x Hr) as Hok. rewrite Er in Hok.
  assert (forall r', reading (rb_tail (ring x)) r' -> exists k s', rpc_decrypting x0 (repeated (turns x)) k s' /\
    (if negb (turns x =? 0)%nat && CryptoBlock.Decrypt.overflow (vars s') then Running r' s = Overflow
     else exists r, Running r' s = Running r s' /\ reading (rb_tail (ring x)) r)) as Hkeep.
  { intros r' Hr'. exists k, s. rewrite Ho. split; [done|]. by exists r'. }
  assert (0 <= rb_tail (ring x)) as H0 by (destruct (lap_tail x Hr Ha) as [_ Hp]; destruct (unpublished x); [specialize (Hp ltac:(done))|]; lia).
  unfold read_ringbuffer. change (2 + GEC_CT_LEN)%nat with 82%nat. destruct r as [|b h|b h t].
  - apply (Hkeep (Poll _ _)). by split.
  - destruct Hrd as [Hb Hle]. apply (Hkeep (Copy _ _ _)). split; [done|lia].
  - destruct Hok as [Hb ->], Hrd as [Hf Hle]. destruct (Nat.ltb_spec (length b) 82) as [Hlt|Hge]; cbn [andb].
    + destruct (Z.eqb_spec (Z.of_nat (length b)) t) as [E|E]; cbn [negb].
      * apply (Hkeep (Poll _ _)). split; [done|lia].
      * apply (Hkeep (Copy _ _ _)). split; [|rewrite length_app; cbn [length]; lia].
        rewrite Hd by (destruct (unpublished x); lia). rewrite length_app. cbn [length]. rewrite Nat.add_1_r.
        rewrite take_snoc_lookup by (rewrite frame_length; lia). rewrite <- Hf.
        unfold rd. by rewrite Nat2Z.id.
    + rewrite Hf, take_ge by (rewrite frame_length; lia). cbn [turns run_state].
      destruct (turn_first_lap _ k s Hs) as (k' & s' & Hs' & E). exists k', s'. split; [done|]. rewrite E.
      cbn [Nat.eqb negb andb]. destruct (CryptoBlock.Decrypt.overflow (vars s')); [done|]. by exists Enter.
Qed.

Lemma arrived_mono ts : forall x, (arrived x <= arrived (sys_run inp ts x))%nat.
Proof.
  induction ts as [|t ts IH]; intros x; [done|]. refine (Nat.le_trans _ _ _ _ (IH _)). destruct t; cbn.
  - unfold receive. destruct (unpublished x); cbn [arrived]; lia.
  - by destruct (run_step_ring x) as (_ & _ & ->).
Qed.

Lemma schedule_first_lap ts : forall x,
  first_lap x -> (arrived (sys_run inp ts x) < 2048)%nat -> first_lap (sys_run inp ts x).
Proof.
  induction ts as [|t ts IH]; intros x Hx Ha; [exact Hx|]. apply IH; [|exact Ha].
  pose proof (arrived_mono ts (sys_step inp x t)) as Hle. unfold schedule in *. cbn [foldl] in Ha. destruct t; cbn in *.
  - apply receive_first_lap; [done|lia].
  - apply run_first_lap; [done|]. destruct (run_step_ring x) as (_ & _ & E). rewrite E in Hle. lia.
Qed.

Lemma start_first_lap rb s : rb_wf rb -> wf_sym_key (symkey_chan1 s) -> vars s = x0 -> first_lap (start rb s).
Proof.
  intros Hrb Hk Hv. destruct (down_keyed _ Hk) as (Hk' & _). destruct (Queue.queue_init_wf (queue s)) as [Hq Hq0].
  split; [by apply rpc_start_ok|cbn; lia|]. exists 0%nat, (pre_init s). split; [|by exists Enter].
  split; [done| |exact Hk']. split; [exact Hq|cbn; lia|exact Hq0].
Qed.
End first_lap.

(** C28. Decrypt of comm-crypto-rpc-relay and Telemetry on their shared ring,
    in every interleaving of their accesses.  Of every 2048 bytes that arrive
    only the first 82 have any influence on Decrypt: it starts every turn at
    the index of the initialisation.  Until 2048 bytes have arrived, this is
    the first frame, again in every turn: what has gone through the parser
    after [n] turns is its plaintext, [n] times over, but for at most 64 bytes
    (or the buffer of the messages has overflowed).  With the frame published
    every 85 of its accesses are another turn. *)
Theorem rpc_decrypt_stays_at_first_frame inp ts rb s ct :
  rb_wf rb -> wf_sym_key (symkey_chan1 s) -> is_ct ct -> map inp (seq 0 82) = frame ct ->
  let x := sys_run inp ts (start rb s) in
  let l := concat (replicate (turns x) (opened down_key down_salt ct)) in
  (forall inp', (forall n, (n mod 2048 < 82)%nat -> inp n = inp' n) ->
     let y := sys_run inp' ts (start rb s) in turns x = turns y /\ run_state x = run_state y) /\
  ((arrived x < 2048)%nat -> exists k s',
     (if negb (turns x =? 0)%nat && CryptoBlock.Decrypt.overflow (vars s') then run_state x = Overflow
      else exists r, run_state x = Running r s') /\
     vars s' = handle_all (vars s) (take k l) /\ (k <= length l <= k + 64)%nat /\
     Queue.contents (queue s') = drop k l) /\
  (forall s', run_state x = Running Enter s' -> 82 <= rb_tail (ring x) ->
     turns (sys_run inp (ts ++ replicate 85 Run) (start rb s)) = S (turns x)).
Proof.
  intros Hrb Hk Hct Hinp x l. pose proof (ra_x _ _ (rpc_blind inp inp ts rb s Hrb ltac:(by intros ? ?))) as Hx.
  split; [|split].
  - intros inp' Hi. exact (ra_run _ _ (rpc_blind inp inp' ts rb s Hrb Hi)).
  - intros Ha. destruct (fl_run _ _ _ (schedule_first_lap inp ct Hct Hinp (vars s) ts _
      (start_first_lap ct (vars s) rb s Hrb Hk eq_refl) Ha)) as (k & s' & [Hv [_ Hb Hc] _] & Hs').
    exists k, s'. split; [|done]. fold x in Hs'. destruct (negb (turns x =? 0)%nat && _); [done|].
    destruct Hs' as (r & Er & _). by exists r.
  - intros s' Hs' Ht. rewrite schedule_app. by apply (rpc_turn_completes inp _ s').
Qed.
End decrypt.

(** ** The theorems on the sample link *)

#[local] Abbreviation rpc_sample_encrypt := (Encrypt.mk_state idle_parser empty_queue zero_key []).

Lemma rpc_encrypt_sends_magic_bytes_witness :
  let l := concat (relayed ardupilotmega_crcs None (st_msg sample_stack) (st_status sample_stack) idle_parser
    (available (ring_of heartbeats) 0)).2 in
  let '(head', s) := Encrypt.run_turn ardupilotmega_crcs None sample_stack (ring_of heartbeats) 0
    (Encrypt.pre_init rpc_sample_encrypt) in
  head' = 78 /\ Encrypt.calls s = sealed up_key up_salt 0 (full_blocks l) l /\
  remote_writes (fun _ => replicate 100 77) (Encrypt.calls s) = [0x7e :: replicate 81 77].
Proof.
  pose proof (rpc_encrypt_sends_magic_bytes ardupilotmega_crcs None sample_stack (fun _ => replicate 100 77)
    (ring_of heartbeats) 0 rpc_sample_encrypt sample_stack_ok blank_ctx_wf blank_parser_ok eq_refl
    ltac:(done) ltac:(done) ltac:(decide_true)) as H.
  assert (full_blocks (concat (relayed ardupilotmega_crcs None (st_msg sample_stack) (st_status sample_stack) idle_parser
    (available (ring_of heartbeats) 0)).2) = 1%nat) as Hn by (vm_compute; reflexivity).
  cbn [Encrypt.prs] in H. cbv zeta in H |- *. rewrite Hn in H |- *.
  specialize (H ltac:(unfold counter_limit, UINT32_MAX; lia)).
  destruct (Encrypt.run_turn _ _ _ _ _ _) as [head' s]. exact H.
Defined.

#[local] Abbreviation rpc_sample_decrypt :=
  (Decrypt.mk_state (CryptoBlock.Decrypt.mk_io idle_parser blank_message blank_status [] false) empty_queue zero_key).

(** The first block of a peer that sends heartbeats, and what follows it,
    which could be anything.  Telemetry is at work while Decrypt reads. *)
#[local] Abbreviation sample_plain := (take 64 heartbeats).

Definition sample_ct : list Z :=
  (gec_encrypt (st_places sample_stack) (gec_init_sym_key_conf_auth zero_key key_material) sample_plain (replicate 80 0)).1.2.

Lemma sample_ct_opens : is_ct sample_ct /\ opened down_key down_salt sample_ct = sample_plain.
Proof.
  destruct (down_keyed zero_key blank_ctx_wf) as (Hk & H0 & Hkey & Hsl).
  assert (bytes sample_plain /\ length sample_plain = GEC_PT_LEN) as [Hb Hl] by (split; [decide_true|done]).
  destruct (sealed_block down_key down_salt (st_places sample_stack) _ sample_plain sample_plain (header ++ replicate 80 0)
    Hkey Hsl Hk Hb Hl) as (k' & E & _); [done|done|done|rewrite H0; done|].
  unfold sample_ct. change (drop 2 (header ++ replicate 80 0)) with (replicate 80 0) in E. rewrite E. cbn [fst snd].
  exact (opened_box down_key down_salt Hkey Hsl _ _ Hb Hl).
Qed.

Definition bytes_of (l : list Z) (n : nat) : Z := default 0 (l !! n).
Lemma bytes_of_app f g h n :
  (n `mod` 2048 < length f)%nat -> (length f + length g < 2048)%nat -> length g = length h ->
  bytes_of (f ++ g) n = bytes_of (f ++ h) n.
Proof.
  intros Hn Hl Hg. unfold bytes_of. destruct (Nat.ltb_spec n (length f)) as [Hlt|Hge].
  - by rewrite !lookup_app_l.
  - rewrite !lookup_ge_None_2; [done|..]; rewrite length_app; pose proof (Nat.mod_small n 2048); lia.
Qed.

#[local] Abbreviation sample_bytes := (bytes_of (frame sample_ct ++ replicate 82 9)).
#[local] Abbreviation sample_threads :=
  (replicate 100 Decrypt.Telemetry ++ replicate 60 Decrypt.Run ++ replicate 228 Decrypt.Telemetry ++ replicate 120 Decrypt.Run).
#[local] Abbreviation sample_run inp ts :=
  (Decrypt.schedule ardupilotmega_crcs None sample_stack inp ts (Decrypt.start blank_rb rpc_sample_decrypt)).

(** What the run comes to, without the state of Decrypt. *)
#[local] Abbreviation seen x :=
  (Decrypt.arrived x, Decrypt.turns x, rb_tail (Decrypt.ring x),
   match Decrypt.run_state x with Decrypt.Running Decrypt.Enter _ => true | _ => false end).

Lemma sample_run_seen : seen (sample_run sample_bytes sample_threads) = (164%nat, 2%nat, 164, true).
Proof. vm_compute. reflexivity. Qed.

Lemma sample_low_bytes ct : is_ct ct -> forall n, (n `mod` 2048 < 82)%nat ->
  bytes_of (frame ct ++ replicate 82 9) n = bytes_of (frame ct ++ replicate 82 200) n.
Proof.
  intros [_ Hl] n Hn. apply bytes_of_app; [| |reflexivity]; cbn [frame length]; rewrite Hl; [exact Hn|].
  apply Nat.ltb_lt. reflexivity.
Qed.

(** Two turns of a run that has not overflowed. *)
Lemma sample_outcome x handled pt (after : nat) :
  seen x = (164%nat, 2%nat, 164, true) ->
  ((Decrypt.arrived x < 2048)%nat -> exists k s',
     (if negb (Decrypt.turns x =? 0)%nat && CryptoBlock.Decrypt.overflow (Decrypt.vars s')
      then Decrypt.run_state x = Decrypt.Overflow else exists r, Decrypt.run_state x = Decrypt.Running r s') /\
     Decrypt.vars s' = handled (take k (concat (replicate (Decrypt.turns x) pt))) /\
     (k <= length (concat (replicate (Decrypt.turns x) pt)) <= k + 64)%nat /\
     Queue.contents (Decrypt.queue s') = drop k (concat (replicate (Decrypt.turns x) pt))) ->
  (forall s', Decrypt.run_state x = Decrypt.Running Decrypt.Enter s' -> 82 <= rb_tail (Decrypt.ring x) ->
     after = S (Decrypt.turns x)) ->
  (exists k s' r, Decrypt.run_state x = Decrypt.Running r s' /\ Decrypt.vars s' = handled (take k (pt ++ pt)) /\
     (k <= length (pt ++ pt) <= k + 64)%nat /\ Queue.contents (Decrypt.queue s') = drop k (pt ++ pt)) /\
  after = 3%nat.
Proof.
  intros [= Ha Hn Ht He] H2 H3. rewrite Hn in H2, H3. cbn [concat replicate] in H2. rewrite app_nil_r in H2.
  destruct (H2 ltac:(lia)) as (k & s' & Hs & Hv).
  destruct (Decrypt.run_state x) as [[| |] s1| |]; try discriminate He. split.
  - exists k, s', Decrypt.Enter. split; [|exact Hv].
    destruct (negb (2 =? 0)%nat && _) in Hs; [discriminate Hs|]. by destruct Hs as (r & [= <- <-]).
  - apply (H3 s1 eq_refl). lia.
Qed.

Lemma rpc_decrypt_stays_at_first_frame_witness :
  let x := sample_run sample_bytes sample_threads in
  let l := sample_plain ++ sample_plain in
  (let y := sample_run (bytes_of (frame sample_ct ++ replicate 82 200)) sample_threads in
     Decrypt.turns x = Decrypt.turns y /\ Decrypt.run_state x = Decrypt.run_state y) /\
  (exists k s' r, Decrypt.run_state x = Decrypt.Running r s' /\
     Decrypt.vars s' = foldl (fun x c => Decrypt.handle_char ardupilotmega_crcs None sample_stack c x)
       (Decrypt.vars rpc_sample_decrypt) (take k l) /\
     (k <= length l <= k + 64)%nat /\ Queue.contents (Decrypt.queue s') = drop k l) /\
  Decrypt.turns (sample_run sample_bytes (sample_threads ++ replicate 85 Decrypt.Run)) = 3%nat.
Proof.
  intros x l. destruct sample_ct_opens as [Hct Hop]. pose proof sample_run_seen as Hx. fold x in Hx.
  destruct (rpc_decrypt_stays_at_first_frame ardupilotmega_crcs None sample_stack sample_stack_ok sample_bytes
    sample_threads blank_rb rpc_sample_decrypt sample_ct blank_rb_wf blank_ctx_wf Hct) as (H1 & H2 & H3).
  { vm_compute. reflexivity. }
  split; [apply H1; exact (sample_low_bytes sample_ct Hct)|]. rewrite Hop in H2.
  exact (sample_outcome _ _ _ _ Hx H2 H3).
Defined.
