(* ===== verification/CommUart.v ===== *)
(** * comm-uart: queues between threads, blocks between components

    apps/comm-uart moves data between components in blocks of at most 300
    bytes: UART fills a dataport and notifies Encrypt, which reads the
    dataport and acknowledges.  Inside UART the control thread
    ([uart_rx_poll]) and the thread of the acknowledgement
    ([send_to_encrypt]) share [recv_queue], one access to the shared memory
    at a time, under a semaphore that CAmkES creates with one unit and
    [pre_init] posts once more.  The semaphore's count is an argument, so that
    the theorems can say what the code does with two units and would do with
    one. *)

From S2P Require Import Prelude Ring Queue.

Local Open Scope Z_scope.

(** ** The threads *)

(** [sizeof(FC_Data_raw)], and the buffer that [uart_rx_poll] reads into. *)
Definition FC_DATA_RAW : Z := 300.

Definition RX_BUF : nat := 32.

(** [uart_rx_poll], between two accesses; [l] is what is left of [buf].  Only
    the second thread writes [head]: it reads it together with the access that
    follows. *)
Inductive rx_pc :=
  | RxPoll                             (** before [ps_cdev_read] *)
  | RxWait (l : list Z)                (** before [recv_wait] *)
  | RxLoop (l : list Z)                (** at the head of the loop *)
  | RxIndex (c : Z) (l : list Z)       (** [enqueue], the queue not being full *)
  | RxSlot (c : Z) (l : list Z) (h : Z)   (** [head] loaded *)
  | RxStore (c : Z) (l : list Z) (i : Z)  (** [size] loaded, [_index] computed *)
  | RxLoad (c : Z) (l : list Z)        (** the byte stored *)
  | RxSize (c : Z) (l : list Z) (n : Z)   (** [size] loaded, to be incremented *)
  | RxPost.                            (** before [recv_post] *)

(** [send_to_encrypt], in the thread of the acknowledgement; [n] is
    [data_size]. *)
Inductive cb_pc :=
  | CbIdle                             (** no acknowledgement taken *)
  | CbSpin                             (** [while (1) if (recv_queue.size > 0) break] *)
  | CbWait                             (** before [recv_wait] *)
  | CbCount                            (** before [data_size] is set *)
  | CbLoop (n i : Z)                   (** at the head of the loop *)
  | CbTake (n i : Z)                   (** [dequeue], the queue not being empty *)
  | CbHead (n i x : Z)                 (** [tmp] read *)
  | CbLoad (n i x : Z)                 (** [head] moved *)
  | CbSize (n i x z : Z)               (** [size] loaded, to be decremented *)
  | CbCopy (n i x : Z)                 (** before [fc_data->raw_data[i] = tmp] *)
  | CbLen (n : Z)                      (** before [fc_data->len = data_size] *)
  | CbPost                             (** before [recv_post] *)
  | CbEmit.                            (** before the notification *)

(** [read_from_uart] of Encrypt, as far as the dataport goes. *)
Inductive enc_pc :=
  | EncIdle                            (** no notification taken *)
  | EncLen                             (** before [size = fc_data->len] *)
  | EncLoop (n i : Z)                  (** at the head of the loop *)
  | EncEmit.                           (** before the acknowledgement *)

(** What has happened to the bytes of the port. *)
Record ghost := mk_ghost {
  received : list Z;                   (** read from the port *)
  accepted : list Z;                   (** [enqueue] returned 0 *)
  taken : list Z;                      (** [dequeue]d and stored in the dataport *)
  published : list Z;                  (** in the dataport when its length was set *)
  got : list Z;                        (** read by Encrypt *)
  dropped : bool;                      (** [enqueue] was refused *)
}.

Record system := mk_system {
  queue : Queue.queue_t;               (** [recv_queue] *)
  sem : Z;                             (** units of [uart_recv] *)
  rx : rx_pc;
  cb : cb_pc;
  raw_data : list Z;                   (** the dataport, [FC_Data] *)
  len : Z;
  ready : bool;                        (** DataReadyEvent is pending *)
  ack : bool;                          (** DataReadyAck is pending *)
  enc : enc_pc;
  ghosts : ghost;
}.

Definition set_queue q s := mk_system q (sem s) (rx s) (cb s) (raw_data s) (len s) (ready s) (ack s) (enc s) (ghosts s).
Definition set_sem n s := mk_system (queue s) n (rx s) (cb s) (raw_data s) (len s) (ready s) (ack s) (enc s) (ghosts s).
Definition at_rx p s := mk_system (queue s) (sem s) p (cb s) (raw_data s) (len s) (ready s) (ack s) (enc s) (ghosts s).
Definition at_cb p s := mk_system (queue s) (sem s) (rx s) p (raw_data s) (len s) (ready s) (ack s) (enc s) (ghosts s).
Definition at_enc p s := mk_system (queue s) (sem s) (rx s) (cb s) (raw_data s) (len s) (ready s) (ack s) p (ghosts s).
Definition set_raw d s := mk_system (queue s) (sem s) (rx s) (cb s) d (len s) (ready s) (ack s) (enc s) (ghosts s).
Definition set_len n s := mk_system (queue s) (sem s) (rx s) (cb s) (raw_data s) n (ready s) (ack s) (enc s) (ghosts s).
Definition set_ready b s := mk_system (queue s) (sem s) (rx s) (cb s) (raw_data s) (len s) b (ack s) (enc s) (ghosts s).
Definition set_ack b s := mk_system (queue s) (sem s) (rx s) (cb s) (raw_data s) (len s) (ready s) b (enc s) (ghosts s).
Definition on_ghosts f s := mk_system (queue s) (sem s) (rx s) (cb s) (raw_data s) (len s) (ready s) (ack s) (enc s) (f (ghosts s)).

Definition receive l g := mk_ghost (received g ++ l) (accepted g) (taken g) (published g) (got g) (dropped g).
Definition accept c g := mk_ghost (received g) (accepted g ++ [c]) (taken g) (published g) (got g) (dropped g).
Definition take_byte x g := mk_ghost (received g) (accepted g) (taken g ++ [x]) (published g) (got g) (dropped g).
Definition publish l g := mk_ghost (received g) (accepted g) (taken g) (published g ++ l) (got g) (dropped g).
Definition get_byte x g := mk_ghost (received g) (accepted g) (taken g) (published g) (got g ++ [x]) (dropped g).
Definition drop_rest g := mk_ghost (received g) (accepted g) (taken g) (published g) (got g) true.

(** One access by the control thread of UART; [buf] is what the driver has
    for [ps_cdev_read].  [None]: the thread waits. *)
Definition uart_rx_poll (buf : list Z) (s : system) : option system :=
  let q := queue s in
  match rx s with
  | RxPoll =>
      let l := map u8 (take RX_BUF buf) in
      Some (on_ghosts (receive l) (at_rx (RxWait l) s))
  | RxWait l => if 0 <? sem s then Some (set_sem (sem s - 1) (at_rx (RxLoop l) s)) else None
  | RxLoop [] => Some (at_rx RxPost s)
  | RxLoop (c :: l) =>
      if Queue.queue_full q then Some (on_ghosts drop_rest (at_rx RxPost s))
      else Some (at_rx (RxIndex c l) s)
  | RxIndex c l => Some (at_rx (RxSlot c l (Queue.head q)) s)
  | RxSlot c l h => Some (at_rx (RxStore c l (u32 (h + Queue.size q) mod MAX_QUEUE_SIZE)) s)
  | RxStore c l i =>
      Some (at_rx (RxLoad c l)
        (set_queue (Queue.mk_queue (wr (Queue.raw_queue q) i c) (Queue.head q) (Queue.size q)) s))
  | RxLoad c l => Some (at_rx (RxSize c l (Queue.size q)) s)
  | RxSize c l n =>
      Some (on_ghosts (accept c) (at_rx (RxLoop l)
        (set_queue (Queue.mk_queue (Queue.raw_queue q) (Queue.head q) (u32 (n + 1))) s)))
  | RxPost => Some (set_sem (sem s + 1) (at_rx RxPoll s))
  end.

(** One access by the thread of the acknowledgement. *)
Definition send_to_encrypt (s : system) : option system :=
  let q := queue s in
  match cb s with
  | CbIdle => if ack s then Some (set_ack false (at_cb CbSpin s)) else None
  | CbSpin => if 0 <? Queue.size q then Some (at_cb CbWait s) else None
  | CbWait => if 0 <? sem s then Some (set_sem (sem s - 1) (at_cb CbCount s)) else None
  | CbCount => Some (at_cb (CbLoop (Z.min (Queue.size q) FC_DATA_RAW) 0) s)
  | CbLoop n i =>
      if i <? n then
        if Queue.queue_empty q then Some (at_cb (CbLen 0) s) else Some (at_cb (CbTake n i) s)
      else Some (at_cb (CbLen n) s)
  | CbTake n i => Some (at_cb (CbHead n i (rd (Queue.raw_queue q) (Queue.head q))) s)
  | CbHead n i x =>
      Some (at_cb (CbLoad n i x)
        (set_queue (Queue.mk_queue (Queue.raw_queue q) (u32 (Queue.head q + 1) mod MAX_QUEUE_SIZE) (Queue.size q)) s))
  | CbLoad n i x => Some (at_cb (CbSize n i x (Queue.size q)) s)
  | CbSize n i x z =>
      Some (at_cb (CbCopy n i x) (set_queue (Queue.mk_queue (Queue.raw_queue q) (Queue.head q) (u32 (z - 1))) s))
  | CbCopy n i x =>
      Some (on_ghosts (take_byte x) (at_cb (CbLoop n (i + 1)) (set_raw (wr (raw_data s) i x) s)))
  | CbLen n => Some (on_ghosts (publish (take (Z.to_nat n) (raw_data s))) (at_cb CbPost (set_len n s)))
  | CbPost => Some (set_sem (sem s + 1) (at_cb CbEmit s))
  | CbEmit => Some (set_ready true (at_cb CbIdle s))
  end.

(** One access by Encrypt. *)
Definition read_from_uart (s : system) : option system :=
  match enc s with
  | EncIdle => if ready s then Some (set_ready false (at_enc EncLen s)) else None
  | EncLen => Some (at_enc (EncLoop (len s) 0) s)
  | EncLoop n i =>
      if i <? n then Some (on_ghosts (get_byte (rd (raw_data s) i)) (at_enc (EncLoop n (i + 1)) s))
      else Some (at_enc EncEmit s)
  | EncEmit => Some (set_ack true (at_enc EncIdle s))
  end.

Inductive thread := Rx (buf : list Z) | Cb | Enc.

Definition run (t : thread) : system -> option system :=
  match t with Rx buf => uart_rx_poll buf | Cb => send_to_encrypt | Enc => read_from_uart end.

(** ** Executions *)

(** After [pre_init] of UART and the acknowledgement with which [run] of
    Encrypt starts; [q] is the queue before, [sems] the units that the
    semaphore is created with: one, in the template of CAmkES that the
    repository builds with. *)
Definition pre_init (sems : Z) (q : Queue.queue_t) : system :=
  mk_system (Queue.queue_init q) (sems + 1) RxPoll CbIdle
    (replicate (Z.to_nat FC_DATA_RAW) (u8 (-1))) 0 false true EncIdle (mk_ghost [] [] [] [] [] false).

Inductive reachable (sems : Z) (q : Queue.queue_t) : system -> Prop :=
  | reachable_init : reachable sems q (pre_init sems q)
  | reachable_step t s s' : reachable sems q s -> run t s = Some s' -> reachable sems q s'.

(** A schedule. *)
Fixpoint run_all (ts : list thread) (s : system) : option system :=
  match ts with
  | [] => Some s
  | t :: ts => match run t s with Some s => run_all ts s | None => None end
  end.

Lemma run_all_reachable sems q ts : forall s s',
  reachable sems q s -> run_all ts s = Some s' -> reachable sems q s'.
Proof.
  induction ts as [|t ts IH]; intros s s' Hs; cbn [run_all]; [by intros [= <-]|].
  destruct (run t s) as [s1|] eqn:E; [|done]. apply IH. by apply reachable_step with t s.
Qed.

(** ** The handshake: one block at a time *)

(** A block belongs to one side: the notification and the acknowledgement
    alternate. *)
Definition token (s : system) : Prop :=
  match cb s, enc s with
  | CbIdle, EncIdle => ack s = negb (ready s)
  | CbIdle, _ | _, EncIdle => ack s = false /\ ready s = false
  | _, _ => False
  end.

(** What has been published and not yet read. *)
Definition in_flight (s : system) : list Z :=
  let block := take (Z.to_nat (len s)) (raw_data s) in
  match enc s with
  | EncIdle => if ready s then block else match cb s with CbPost | CbEmit => block | _ => [] end
  | EncLen => block
  | EncLoop n i => drop (Z.to_nat i) (take (Z.to_nat n) (raw_data s))
  | EncEmit => []
  end.

Definition cb_bounds (p : cb_pc) : Prop :=
  match p with
  | CbLoop n i => 0 <= i <= n /\ n <= FC_DATA_RAW
  | CbTake n i | CbHead n i _ | CbLoad n i _ | CbSize n i _ _ | CbCopy n i _ => 0 <= i < n /\ n <= FC_DATA_RAW
  | CbLen n => 0 <= n <= FC_DATA_RAW
  | _ => True
  end.

Record handshake (s : system) : Prop := {
  hs_size : 0 <= Queue.size (queue s);
  hs_raw : Z.of_nat (length (raw_data s)) = FC_DATA_RAW;
  hs_len : 0 <= len s <= FC_DATA_RAW;
  hs_token : token s;
  hs_cb : cb_bounds (cb s);
  hs_enc : match enc s with EncLoop n i => 0 <= i <= n /\ n <= FC_DATA_RAW | _ => True end;
  hs_data : published (ghosts s) = got (ghosts s) ++ in_flight s;
}.

(** The accesses of a thread, one by one. *)
Ltac accesses H :=
  cbn in H; repeat match type of H with
    | context [match ?p with _ => _ end] => destruct p eqn:?; cbn in H
    end; try discriminate H; try (injection H as <-); bool_to_prop.

Lemma rx_handshake buf s s' : uart_rx_poll buf s = Some s' -> handshake s -> handshake s'.
Proof.
  intros H [H1 H2 H3 H4 H5 H6 H7]. unfold uart_rx_poll in H. destruct s as [q n p c d l r a e g].
  cbn in *. accesses H; split; try assumption; cbn; try lia. apply wrap_range; lia.
Qed.

Lemma cb_handshake s s' : send_to_encrypt s = Some s' -> handshake s -> handshake s'.
Proof.
  intros H [H1 H2 H3 H4 H5 H6 H7]. unfold send_to_encrypt in H. destruct s as [q n p c d l r a e g].
  unfold token, in_flight in *. cbn in *.
  accesses H; destruct e, r; try tauto; try (destruct H4; discriminate);
    (split; unfold token, in_flight; cbn in *; rewrite ?length_wr; try done; try tauto; try lia);
    try (apply wrap_range; lia); try (unfold FC_DATA_RAW in *; lia).
  by rewrite H7, app_nil_r.
Qed.

Lemma next_in_block d n i :
  0 <= i < n -> n <= Z.of_nat (length d) ->
  drop (Z.to_nat i) (take (Z.to_nat n) d) = rd d i :: drop (Z.to_nat (i + 1)) (take (Z.to_nat n) d).
Proof.
  intros Hi Hn. replace (Z.to_nat (i + 1)) with (S (Z.to_nat i)) by lia. apply drop_S.
  rewrite lookup_take_lt by lia. unfold rd. destruct (d !! Z.to_nat i) eqn:E; [done|].
  apply lookup_ge_None in E. lia.
Qed.

Lemma enc_handshake s s' : read_from_uart s = Some s' -> handshake s -> handshake s'.
Proof.
  intros H [H1 H2 H3 H4 H5 H6 H7]. unfold read_from_uart in H. destruct s as [q n p c d l r a e g].
  unfold token, in_flight in *. cbn in *.
  accesses H; destruct c; try tauto;
    (split; unfold token, in_flight; cbn in *; try done; try tauto; try lia).
  - rewrite H7, (next_in_block d n0 i) by lia. by rewrite <- app_assoc.
  - rewrite H7. f_equal. apply drop_ge. rewrite length_take. lia.
  - by destruct H4 as [_ ->].
  - destruct H4 as [_ ->]. exact H7.
Qed.

Lemma reachable_handshake sems q s : reachable sems q s -> handshake s.
Proof.
  induction 1 as [|t s s' _ IH Ht].
  - split; cbn; done.
  - destruct t; [by eapply rx_handshake|by eapply cb_handshake|by eapply enc_handshake].
Qed.

(** The dataport of a thread that writes or reads it is its own. *)
Definition writes_port (p : cb_pc) : bool :=
  match p with CbIdle => false | _ => true end.

Definition reads_port (p : enc_pc) : bool :=
  match p with EncIdle => false | _ => true end.

(** C29. Between UART and Encrypt a block is never written while it is read,
    whatever the count of the semaphore: Encrypt has read exactly what was
    published, but for the rest of one block of at most 300 bytes. *)
Theorem blocks_cross_whole sems q s :
  reachable sems q s ->
  (writes_port (cb s) && reads_port (enc s))%bool = false /\
  published (ghosts s) = got (ghosts s) ++ in_flight s /\ (length (in_flight s) <= 300)%nat.
Proof.
  intros Hr. destruct (reachable_handshake sems q s Hr) as [_ Hraw Hlen Ht _ He Hd]. split_and!; [|done|].
  - unfold token in Ht. by destruct (cb s), (enc s).
  - unfold in_flight, FC_DATA_RAW in *. destruct (enc s), (ready s), (cb s); rewrite ?length_drop, ?length_take; cbn; lia.
Qed.

(** ** The queue, under one unit of the semaphore *)

Definition rx_inside (p : rx_pc) : Z := match p with RxPoll | RxWait _ => 0 | _ => 1 end.

Definition cb_inside (p : cb_pc) : Z := match p with CbIdle | CbSpin | CbWait | CbEmit => 0 | _ => 1 end.

(** The units of the semaphore are in it or held. *)
Definition units (sems : Z) (s : system) : Prop :=
  0 <= sem s /\ sem s + rx_inside (rx s) + cb_inside (cb s) = sems + 1.

Lemma reachable_units sems q s : 0 <= sems -> reachable sems q s -> units sems s.
Proof.
  intros Hn. induction 1 as [|t s s' _ IH Ht]; unfold units in *; [cbn; lia|].
  destruct s as [q0 n p c d l r a e g], t; cbn [run] in Ht;
    [unfold uart_rx_poll in Ht|unfold send_to_encrypt in Ht|unfold read_from_uart in Ht]; cbn in *;
    accesses Ht; cbn in *; lia.
Qed.

(** The bytes in the queue, when a [dequeue] may be under way, and those that
    it has in its hands. *)
Definition queued (s : system) : list Z :=
  let q := queue s in
  match cb s with
  | CbLoad _ _ _ | CbSize _ _ _ _ =>
      ring_read MAX_QUEUE_SIZE (Queue.raw_queue q) (Queue.head q) (Z.to_nat (Queue.size q - 1))
  | _ => Queue.contents q
  end.

Definition in_hand (s : system) : list Z :=
  match cb s with CbLoad _ _ x | CbSize _ _ x _ | CbCopy _ _ x => [x] | _ => [] end.

(** The beginning of the block that is being written, and what [enqueue] has
    not yet seen of the bytes read from the port. *)
Definition in_block (s : system) : list Z :=
  match cb s with
  | CbLoop _ i | CbTake _ i | CbHead _ i _ | CbLoad _ i _ | CbSize _ i _ _ | CbCopy _ i _ => take (Z.to_nat i) (raw_data s)
  | CbLen n => take (Z.to_nat n) (raw_data s)
  | _ => []
  end.

Definition in_buf (s : system) : list Z :=
  match rx s with
  | RxWait l | RxLoop l => l
  | RxIndex c l | RxSlot c l _ | RxStore c l _ | RxLoad c l | RxSize c l _ => c :: l
  | RxPoll | RxPost => []
  end.

Definition enqueueing (s : system) : Prop :=
  let q := queue s in
  let room := Queue.size q < MAX_QUEUE_SIZE in
  let slot := (Queue.head q + Queue.size q) mod MAX_QUEUE_SIZE in
  match rx s with
  | RxIndex _ _ => room
  | RxSlot _ _ h => room /\ h = Queue.head q
  | RxStore _ _ i => room /\ i = slot
  | RxLoad c _ => room /\ rd (Queue.raw_queue q) slot = c
  | RxSize c _ n => room /\ rd (Queue.raw_queue q) slot = c /\ n = Queue.size q
  | _ => True
  end.

Definition dequeueing (s : system) : Prop :=
  let q := queue s in
  match cb s with
  | CbLoop n i | CbTake n i | CbLoad n i _ => n - i <= Queue.size q
  | CbHead n i x => n - i <= Queue.size q /\ x = rd (Queue.raw_queue q) (Queue.head q)
  | CbSize n i _ z => n - i <= Queue.size q /\ z = Queue.size q
  | CbCopy n i _ => n - i - 1 <= Queue.size q
  | _ => True
  end.

Record fifo (s : system) : Prop := {
  ff_wf : Queue.wf (queue s);
  ff_rx : enqueueing s;
  ff_cb : dequeueing s;
  ff_buf : bytes (in_buf s);
  ff_taken : taken (ghosts s) = published (ghosts s) ++ in_block s;
  ff_accepted : accepted (ghosts s) = taken (ghosts s) ++ in_hand s ++ queued s;
  ff_received : dropped (ghosts s) = false -> received (ghosts s) = accepted (ghosts s) ++ in_buf s;
}.

(** One more byte behind the window. *)
Lemma contents_grow raw h n :
  0 <= n -> Queue.contents (Queue.mk_queue raw h (n + 1)) =
  Queue.contents (Queue.mk_queue raw h n) ++ [rd raw ((h + n) mod MAX_QUEUE_SIZE)].
Proof.
  intros Hn. unfold Queue.contents. cbn [Queue.raw_queue Queue.head Queue.size].
  replace (Z.to_nat (n + 1)) with (Z.to_nat n + 1)%nat by lia. rewrite ring_read_app.
  by rewrite Z2Nat.id by lia.
Qed.

Lemma contents_store raw h n x :
  0 <= n < MAX_QUEUE_SIZE ->
  Queue.contents (Queue.mk_queue (wr raw ((h + n) mod MAX_QUEUE_SIZE) x) h n) =
  Queue.contents (Queue.mk_queue raw h n).
Proof.
  intros Hn. unfold Queue.contents. cbn [Queue.raw_queue Queue.head Queue.size].
  apply ring_read_wr_outside; [unfold MAX_QUEUE_SIZE; lia|]. intros k Hk Heq. symmetry in Heq.
  replace (h + n) with ((h + Z.of_nat k) + (n - Z.of_nat k)) in Heq by lia.
  apply mod_neq in Heq; lia.
Qed.

Lemma contents_shift raw h n :
  0 < n -> 0 <= h < MAX_QUEUE_SIZE ->
  Queue.contents (Queue.mk_queue raw h n) =
  rd raw h :: ring_read MAX_QUEUE_SIZE raw ((h + 1) mod MAX_QUEUE_SIZE) (Z.to_nat (n - 1)).
Proof.
  intros Hn Hh. unfold Queue.contents. cbn [Queue.raw_queue Queue.head Queue.size].
  replace (Z.to_nat n) with (S (Z.to_nat (n - 1))) by lia. cbn [ring_read].
  rewrite ring_read_mod by (unfold MAX_QUEUE_SIZE; lia). by rewrite Z.mod_small by lia.
Qed.

Lemma initial_fifo sems q : fifo (pre_init sems q).
Proof.
  destruct (Queue.queue_init_wf q) as [Hw Hc]. split; cbn; try done. constructor.
Qed.

(** With the second thread outside, the queue is what it holds. *)
Lemma cb_outside s :
  cb_inside (cb s) = 0 -> queued s = Queue.contents (queue s) /\ in_hand s = [] /\ dequeueing s.
Proof. unfold queued, in_hand, dequeueing. destruct (cb s); done. Qed.

Lemma stored q c :
  Queue.wf q -> is_u8 c -> Queue.size q < MAX_QUEUE_SIZE ->
  let slot := (Queue.head q + Queue.size q) mod MAX_QUEUE_SIZE in
  let q' := Queue.mk_queue (wr (Queue.raw_queue q) slot c) (Queue.head q) (Queue.size q) in
  Queue.wf q' /\ rd (Queue.raw_queue q') slot = c /\ Queue.contents q' = Queue.contents q.
Proof.
  intros (Hl & Hb & Hh & Hs) Hc Hlt slot q'. assert (0 <= slot < MAX_QUEUE_SIZE) by (apply Z.mod_pos_bound; done).
  split_and!.
  - split_and!; cbn; [by rewrite length_wr|by apply bytes_wr|lia..].
  - apply rd_wr_eq. lia.
  - destruct q as [raw h n]. apply contents_store. cbn in *. lia.
Qed.

(** The control thread, when the other one is not in the critical section. *)
Lemma rx_fifo buf s s' :
  uart_rx_poll buf s = Some s' -> units 0 s -> fifo s -> fifo s'.
Proof.
  intros H [Hs0 Hu] [H1 H2 H3 H4 H5 H6 H7]. unfold uart_rx_poll in H.
  assert (rx_inside (rx s) = 1 -> cb_inside (cb s) = 0) as Hc.
  { intros Hr. rewrite Hr in Hu. destruct (cb s); cbn in *; lia. }
  destruct (rx s) as [|l|[|c l]|c l|c l h|c l i|c l|c l z|] eqn:Er; cbn in Hc;
    unfold enqueueing, in_buf in H2, H4, H7; rewrite Er in H2, H4, H7.
  - injection H as <-. split; try done; unfold in_buf; cbn.
    + apply Forall_map, Forall_true. intros x. by apply wrap_range.
    + intros Hd. by rewrite (H7 Hd), app_nil_r.
  - accesses H. by split.
  - injection H as <-. by split.
  - unfold Queue.queue_full in H. destruct (Z.eqb_spec (Queue.size (queue s)) MAX_QUEUE_SIZE); injection H as <-.
    + split; try done. constructor.
    + split; try done. unfold enqueueing. cbn. destruct H1 as (_ & _ & _ & ?). lia.
  - injection H as <-. by split.
  - injection H as <-. destruct H2 as [H2 ->]. split; try done. unfold enqueueing. cbn. split; [done|].
    destruct H1 as (_ & _ & ? & ?). unfold MAX_QUEUE_SIZE in *. by rewrite wrap_id by (unfold in_range; lia).
  - injection H as <-. destruct H2 as [Hlt ->]. apply List.Forall_cons_iff in H4 as [Hc8 Hl].
    destruct (stored (queue s) c H1 Hc8 Hlt) as (Hw & Hrd & Hcs). destruct (cb_outside s (Hc eq_refl)) as (Hq & Hh & _).
    match goal with |- fifo ?s' => destruct (cb_outside s' (Hc eq_refl)) as (Hq' & Hh' & Hd') end.
    split; try done.
    + by constructor.
    + rewrite Hq', Hh'. rewrite Hq, Hh, <- Hcs in H6. exact H6.
  - injection H as <-. destruct H2 as [Hlt Hrd]. by split.
  - injection H as <-. destruct H2 as (Hlt & Hrd & ->). apply List.Forall_cons_iff in H4 as [_ Hl].
    destruct (cb_outside s (Hc eq_refl)) as (Hq & Hh & _). pose proof H1 as (Hlen & Hb & Hr & Hn).
    match goal with |- fifo ?s' => destruct (cb_outside s' (Hc eq_refl)) as (Hq' & Hh' & Hd') end.
    split; try done.
    + cbn. rewrite wrap_id by (unfold in_range, MAX_QUEUE_SIZE in *; lia). split_and!; cbn; try done; lia.
    + rewrite Hq', Hh'. rewrite Hq, Hh in H6. cbn. rewrite wrap_id by (unfold in_range, MAX_QUEUE_SIZE in *; lia).
      rewrite contents_grow by lia. rewrite Hrd, app_assoc. f_equal. rewrite H6. by destruct (queue s).
    + intros Hd. cbn. rewrite (H7 Hd). by rewrite <- app_assoc.
  - injection H as <-. by split.
Qed.

(** With the first thread outside, it has nothing to do with the queue. *)
Lemma rx_outside s : rx_inside (rx s) = 0 -> enqueueing s.
Proof. unfold enqueueing. by destruct (rx s). Qed.

Lemma take_next_wr (d : list Z) i x :
  0 <= i < Z.of_nat (length d) -> take (Z.to_nat (i + 1)) (wr d i x) = take (Z.to_nat i) d ++ [x].
Proof.
  intros Hi. unfold wr. replace (Z.to_nat (i + 1)) with (S (Z.to_nat i)) by lia.
  rewrite (take_S_r _ _ x) by (apply list_lookup_insert_eq; lia). by rewrite take_insert_ge by lia.
Qed.

(** The second thread, when the first one is not in the critical section. *)
Lemma cb_fifo s s' :
  send_to_encrypt s = Some s' -> units 0 s -> handshake s -> fifo s -> fifo s'.
Proof.
  intros H [Hs0 Hu] [_ Hraw _ _ Hb _ _] [H1 H2 H3 H4 H5 H6 H7]. unfold send_to_encrypt in H.
  assert (cb_inside (cb s) = 1 -> rx_inside (rx s) = 0) as Hc.
  { intros Hr. rewrite Hr in Hu. destruct (rx s); cbn in *; lia. }
  pose proof H1 as (Hlen & Hby & Hh & Hn).
  destruct (cb s) as [| | | |n i|n i|n i x|n i x|n i x z|n i x|n| |] eqn:Ec; cbn in Hc, Hb;
    unfold dequeueing, in_block, in_hand, queued in H3, H5, H6; rewrite Ec in H3, H5, H6.
  - accesses H. by split.
  - accesses H. by split.
  - accesses H. by split.
  - injection H as <-. split; try done. unfold dequeueing. cbn. lia.
  - destruct (Z.ltb_spec i n) as [Hi|Hi].
    + unfold Queue.queue_empty in H. rewrite (proj2 (Z.eqb_neq _ 0)) in H by lia. injection H as <-. by split.
    + assert (i = n) as -> by lia. injection H as <-. by split.
  - injection H as <-. by split.
  - injection H as <-. destruct H3 as [H3 ->].
    match goal with |- fifo ?s' => pose proof (rx_outside s' (Hc eq_refl)) as Hx end.
    assert (0 <= u32 (Queue.head (queue s) + 1) mod MAX_QUEUE_SIZE < MAX_QUEUE_SIZE) by (apply Z.mod_pos_bound; done).
    split; try done.
    unfold in_hand, queued. cbn. rewrite wrap_id by (unfold in_range, MAX_QUEUE_SIZE in *; lia).
    rewrite H6. destruct (queue s) as [raw h m]. cbn in *. by rewrite contents_shift by lia.
  - injection H as <-. by split.
  - injection H as <-. destruct H3 as [H3 ->].
    match goal with |- fifo ?s' => pose proof (rx_outside s' (Hc eq_refl)) as Hx end.
    assert (u32 (Queue.size (queue s) - 1) = Queue.size (queue s) - 1) as Hw
      by (apply wrap_id; unfold in_range, MAX_QUEUE_SIZE in *; lia).
    split; try done.
    + cbn. rewrite Hw. split_and!; cbn; try done; lia.
    + unfold dequeueing. cbn. rewrite Hw. lia.
    + unfold in_hand, queued. cbn. rewrite Hw. exact H6.
  - injection H as <-. split; try done.
    + unfold dequeueing. cbn. lia.
    + unfold in_block. cbn. rewrite take_next_wr by lia. by rewrite H5, app_assoc.
    + unfold in_hand, queued. cbn. rewrite H6. by rewrite <- app_assoc.
  - injection H as <-. split; try done. unfold in_block. cbn. by rewrite app_nil_r.
  - injection H as <-. by split.
  - injection H as <-. by split.
Qed.

Lemma enc_fifo s s' : read_from_uart s = Some s' -> fifo s -> fifo s'.
Proof. intros H [H1 H2 H3 H4 H5 H6 H7]. unfold read_from_uart in H. accesses H; by split. Qed.

Lemma reachable_fifo q s : reachable 0 q s -> fifo s.
Proof.
  induction 1 as [|t s s' Hr IH Ht]; [apply initial_fifo|].
  pose proof (reachable_units 0 q s ltac:(lia) Hr) as Hu. pose proof (reachable_handshake 0 q s Hr) as Hh.
  destruct t; [by eapply rx_fifo|by eapply cb_fifo|by eapply enc_fifo].
Qed.

(** C30. With one unit of the semaphore the threads of UART exclude each other
    and the queue loses nothing: at every moment the bytes that were enqueued
    are those that Encrypt has read, the block in flight, the block being
    written and the queue, in this order; what was received is what was
    enqueued and the rest of the buffer, as long as the queue was never full;
    and the branch of [send_to_encrypt] that "should not get here" does not. *)
Theorem one_unit_fifo q s :
  reachable 0 q s ->
  rx_inside (rx s) + cb_inside (cb s) <= 1 /\
  accepted (ghosts s) = got (ghosts s) ++ in_flight s ++ in_block s ++ in_hand s ++ queued s /\
  (dropped (ghosts s) = false -> received (ghosts s) = accepted (ghosts s) ++ in_buf s) /\
  (forall n i, cb s = CbLoop n i -> i < n -> Queue.queue_empty (queue s) = false).
Proof.
  intros Hr. destruct (reachable_units 0 q s ltac:(lia) Hr). destruct (reachable_handshake 0 q s Hr) as [_ _ _ _ _ _ Hd].
  destruct (reachable_fifo q s Hr) as [_ _ Hc _ Ht Ha Hv]. split_and!; [lia| |exact Hv|].
  - by rewrite Ha, Ht, Hd, <- !app_assoc.
  - intros n i E Hi. unfold dequeueing in Hc. rewrite E in Hc. apply Z.eqb_neq. lia.
Qed.

(** Nothing under way, and the queue empty. *)
Definition at_rest (s : system) : bool :=
  match rx s, cb s, enc s with
  | RxPoll, CbIdle, EncIdle => ack s && (Queue.size (queue s) =? 0)
  | _, _, _ => false
  end.

(** The schedules: [Rx] up to the load of [size] for the second byte, then the
    other thread takes the first one, and the two decrements and increments of
    [size] are stored in either order. *)
Definition lost_update : list thread :=
  replicate 13 (Rx [1; 2]) ++ replicate 8 Cb ++ [Rx []] ++ [Cb] ++ replicate 5 Cb ++ replicate 2 (Rx []) ++ replicate 5 Enc.

Definition stale_update : list thread :=
  replicate 13 (Rx [1; 2]) ++ replicate 14 Cb ++ replicate 3 (Rx []) ++ replicate 5 Enc ++
  replicate 20 Cb ++ replicate 6 Enc.


(** A run of a schedule from the start, and what there is to see at its end. *)
Definition ends (ts : list thread) (q : Queue.queue_t) (P : system -> Prop) : Prop :=
  exists s, run_all ts (pre_init 1 q) = Some s /\ at_rest s = true /\ dropped (ghosts s) = false /\ P s.

Lemma ends_reachable ts q P :
  ends ts q P -> exists s, reachable 1 q s /\ at_rest s = true /\ dropped (ghosts s) = false /\ P s.
Proof.
  intros (s & Hs & H). exists s. split; [|exact H]. eapply run_all_reachable; [apply reachable_init|exact Hs].
Qed.

(** C31. The semaphore of the code has two units, one from its creation and one
    from [pre_init], and excludes nobody: two bytes are received and enqueued,
    the threads come to rest with an empty queue, and Encrypt has read only
    the first byte, or after both of them a byte that was never received. *)
Theorem two_units_lose_and_invent q :
  (exists s, reachable 1 q s /\ at_rest s = true /\ dropped (ghosts s) = false /\
     accepted (ghosts s) = [1; 2] /\ got (ghosts s) = [1]) /\
  (exists s, reachable 1 q s /\ at_rest s = true /\ dropped (ghosts s) = false /\
     accepted (ghosts s) = [1; 2] /\ got (ghosts s) = [1; 2; 255]).
Proof.
  split; [apply (ends_reachable lost_update)|apply (ends_reachable stale_update)];
    (eexists; split; [vm_compute; reflexivity|]; split_and!; vm_compute; reflexivity).
Qed.

(** ** Two bytes on their way *)

Definition empty : Queue.queue_t := Queue.mk_queue [] 0 0.

(** Received, and the first one in the hands of the second thread; and both of
    them published, the first one read by Encrypt. *)
Definition midway : list thread := replicate 16 (Rx [1; 2]) ++ replicate 7 Cb.

Definition crossing : list thread := midway ++ replicate 13 Cb ++ replicate 3 Enc.

Lemma one_unit_fifo_witness :
  exists s, reachable 0 empty s /\ cb s = CbLoad 2 0 1 /\ queued s = [2] /\
    accepted (ghosts s) = got (ghosts s) ++ in_flight s ++ in_block s ++ in_hand s ++ queued s /\
    received (ghosts s) = [1; 2].
Proof.
  destruct (run_all midway (pre_init 0 empty)) as [s|] eqn:E; [|vm_compute in E; discriminate E].
  pose proof (run_all_reachable 0 empty midway _ s (reachable_init 0 empty) E) as Hr.
  exists s. split; [exact Hr|]. destruct (one_unit_fifo empty s Hr) as (_ & Ha & _).
  split; [|split; [|split; [exact Ha|]]]; vm_compute in E; injection E as <-; reflexivity.
Defined.

Lemma blocks_cross_whole_witness :
  exists s, reachable 1 empty s /\ enc s = EncLoop 2 1 /\ got (ghosts s) = [1] /\ in_flight s = [2] /\
    published (ghosts s) = got (ghosts s) ++ in_flight s.
Proof.
  destruct (run_all crossing (pre_init 1 empty)) as [s|] eqn:E; [|vm_compute in E; discriminate E].
  pose proof (run_all_reachable 1 empty crossing _ s (reachable_init 1 empty) E) as Hr.
  exists s. split; [exact Hr|]. destruct (blocks_cross_whole 1 empty s Hr) as (_ & Hp & _).
  split; [|split; [|split; [|exact Hp]]]; vm_compute in E; injection E as <-; reflexivity.
Defined.
