(* ===== verification/CommUartRelay.v ===== *)
(** * comm-uart: what Encrypt and Decrypt make of a block

    Encrypt of apps/comm-uart parses a block of the dataport, keeps the last
    message in [recv_msg], and hands it to [send_msg], from where the thread of
    Telemetry's acknowledgement sends it on.  Decrypt has the same code the
    other way round, with [send_to_uart] and [read_from_telemetry].  The
    encryption itself is left out in the code. *)

From S2P Require Import Prelude Ring Queue RingBuffer MavlinkTypes Mavlink MavlinkParser MavlinkRoundTrip Relay FrameStream LinkSample.

Local Open Scope Z_scope.

Module Encrypt.
Section component.
Context (crcs : list mavlink_msg_entry_t).
Context (accept_unsigned : option (mavlink_status_t -> Z -> bool)).
(** [status] and [result] of [read_from_uart] before they are assigned. *)
Context (u_status : mavlink_status_t) (u_result : Z).

Record MAVLink_Message_t := mk_message { msg : mavlink_message_t; is_msg : Z }.

(** The static variables, and the dataport to Telemetry. *)
Record state := mk_state {
  prs : parser;
  recv_msg : MAVLink_Message_t;
  send_msg : MAVLink_Message_t;
  telem_raw : list Z;
  telem_len : Z;
}.

Definition set_is_msg (b : Z) (m : MAVLink_Message_t) : MAVLink_Message_t := mk_message (msg m) b.

Definition pre_init (s : state) : state :=
  mk_state (prs s) (set_is_msg 0 (recv_msg s)) (set_is_msg 0 (send_msg s)) (replicate 300 (u8 (-1))) 0.

Definition my_mavlink_parse_char (p : parser) (c : Z) (r_message : mavlink_message_t)
    (r_mavlink_status : mavlink_status_t) : parser * mavlink_message_t * mavlink_status_t * Z :=
  parse_frame_char crcs accept_unsigned p c r_message r_mavlink_status.

(** Between [wait] and [post] of the two semaphores. *)
Definition Encrypt_FC_Data_to_Telem_Data (s : state) : state :=
  if is_msg (recv_msg s) =? 0 then s
  else mk_state (prs s) (set_is_msg 0 (recv_msg s)) (recv_msg s) (telem_raw s) (telem_len s).

(** [while (1) if (send_msg.is_msg) break] waits: [None]. *)
Definition send_to_telemetry (s : state) : option state :=
  if is_msg (send_msg s) =? 0 then None
  else
    let '(raw, len) := mavlink_msg_to_send_buffer (telem_raw s) (msg (send_msg s)) in
    Some (mk_state (prs s) (recv_msg s) (set_is_msg 0 (send_msg s)) raw len).

(** The body of the loop over the block, on [status] and [result] too. *)
Definition parse_byte (c : Z) (x : state * mavlink_status_t * Z) : state * mavlink_status_t * Z :=
  let '(s, status, _) := x in
  let '(p, m, status, result) := my_mavlink_parse_char (prs s) c (msg (recv_msg s)) status in
  let b := if result =? 0 then is_msg (recv_msg s) else 1 in
  (mk_state p (mk_message m b) (send_msg s) (telem_raw s) (telem_len s), status, result).

Definition read_from_uart (raw_data : list Z) (size : Z) (s : state) : state :=
  let '(s, _, result) := foldl (fun x c => parse_byte c x) (s, u_status, u_result) (take (Z.to_nat size) raw_data) in
  if result =? 0 then s else Encrypt_FC_Data_to_Telem_Data s.
End component.
End Encrypt.

(** The sending half of UART, each function being one critical section of
    [uart_send]; Telemetry has the same code in [read_from_encrypt] and
    [telemetry_tx_poll]. *)
Module Uart.
Fixpoint enqueue_block (l : list Z) (q : Queue.queue_t) : Z * Queue.queue_t :=
  match l with
  | [] => (0, q)
  | c :: l =>
      let '(r, q) := Queue.enqueue q c in
      if r =? 0 then enqueue_block l q else (-1, q)
  end.

Definition read_from_decrypt (raw_data : list Z) (len : Z) (send_queue : Queue.queue_t) : Z * Queue.queue_t :=
  enqueue_block (take (Z.to_nat len) raw_data) send_queue.

(** The bytes written to the port come last. *)
Fixpoint put_bytes (n : nat) (q : Queue.queue_t) (serial : list Z) : Z * Queue.queue_t * list Z :=
  match n with
  | O => (0, q, serial)
  | S n =>
      match Queue.dequeue q with
      | (Some c, q) => put_bytes n q (serial ++ [c])
      | (None, q) => (-1, q, serial)
      end
  end.

Definition uart_tx_poll (send_queue : Queue.queue_t) (serial : list Z) : Z * Queue.queue_t * list Z :=
  put_bytes (Z.to_nat (Queue.size send_queue)) send_queue serial.

(** A block that does not fit is taken as far as there is room, and reported. *)
Lemma read_from_decrypt_spec raw_data len q :
  Queue.wf q -> bytes raw_data ->
  let room := Z.to_nat (MAX_QUEUE_SIZE - Queue.size q) in
  let block := take (Z.to_nat len) raw_data in
  let '(r, q') := read_from_decrypt raw_data len q in
  Queue.wf q' /\ Queue.contents q' = Queue.contents q ++ take room block /\
  r = if (length block <=? room)%nat then 0 else -1.
Proof.
  intros Hq Hb. cbv zeta. unfold read_from_decrypt. apply (bytes_take (Z.to_nat len)) in Hb. revert q Hq Hb.
  generalize (take (Z.to_nat len) raw_data) as l. intros l. induction l as [|c l IH]; intros q Hq Hb; cbn [enqueue_block].
  { rewrite take_nil, app_nil_r. done. }
  apply List.Forall_cons_iff in Hb as [Hc Hb]. pose proof (Queue.length_contents q Hq) as Hl.
  pose proof Hq as (_ & _ & _ & Hs). destruct (Z.eq_dec (Queue.size q) MAX_QUEUE_SIZE) as [Hf|Hf].
  - rewrite (Queue.enqueue_full q c Hq Hf), Hf, Z.sub_diag. cbn. by rewrite app_nil_r.
  - destruct (Queue.enqueue_spec q c Hq Hc) as (q' & E & Hq' & Hcs); [lia|]. rewrite E. cbn [Z.eqb].
    specialize (IH q' Hq' Hb). destruct (enqueue_block l q') as [r q2]. destruct IH as (Hw & Hc2 & Hr).
    pose proof (Queue.length_contents q' Hq') as Hl'. rewrite Hcs, length_app in Hl'. cbn [length] in Hl'.
    replace (Z.to_nat (MAX_QUEUE_SIZE - Queue.size q)) with (S (Z.to_nat (MAX_QUEUE_SIZE - Queue.size q'))) by lia.
    split; [done|]. split; [by rewrite Hc2, Hcs, <- app_assoc|]. rewrite Hr. reflexivity.
Qed.

(** What is queued is written, all of it and in order. *)
Lemma uart_tx_poll_spec q serial :
  Queue.wf q ->
  exists q', uart_tx_poll q serial = (0, q', serial ++ Queue.contents q) /\ Queue.wf q' /\ Queue.contents q' = [].
Proof.
  intros Hq. unfold uart_tx_poll. pose proof (Queue.length_contents q Hq) as Hl.
  replace (Z.to_nat (Queue.size q)) with (length (Queue.contents q)) by lia. clear Hl. revert q serial Hq.
  intros q. remember (Queue.contents q) as l eqn:E. symmetry in E. revert q E.
  induction l as [|c l IH]; intros q E serial Hq; cbn [length put_bytes].
  { exists q. by rewrite app_nil_r. }
  destruct (Queue.dequeue_spec q c l Hq E) as (q' & -> & Hq' & E'). destruct (IH q' E' (serial ++ [c]) Hq') as (q2 & -> & H).
  exists q2. by rewrite <- app_assoc.
Qed.
End Uart.

Import Encrypt.

Section blocks.
Context (crcs : list mavlink_msg_entry_t).
Context (accept_unsigned : option (mavlink_status_t -> Z -> bool)).

#[local] Abbreviation parse_all := (foldl (fun x c => parse_byte crcs accept_unsigned c x)).

Lemma last_cons_default {A} (l : list A) : forall x d, List.last (x :: l) d = List.last l x.
Proof. induction l as [|a l IH]; intros x d; [done|]. change (List.last (x :: a :: l) d) with (List.last (a :: l) d). by rewrite !IH. Qed.

(** The loop is the parser, byte by byte; [result] is the last one, and
    [send_msg] and the dataport are not touched. *)
Lemma parse_all_run bs : forall s st r,
  let '(s', _, r') := parse_all (s, st, r) bs in
  prs s' = fed crcs accept_unsigned (prs s) bs /\
  r' = List.last (returned crcs accept_unsigned (prs s) bs) r /\
  send_msg s' = send_msg s /\ telem_raw s' = telem_raw s.
Proof.
  induction bs as [|c bs IH]; intros s st r; cbn [foldl].
  { split_and!; try done. unfold fed. cbn. by destruct (prs s). }
  change (c :: bs) with ([c] ++ bs). destruct (fed_app crcs accept_unsigned (prs s) [c] bs) as [-> ->].
  destruct (parse_byte crcs accept_unsigned c (s, st, r)) as [[s1 st1] r1] eqn:E.
  specialize (IH s1 st1 r1). destruct (parse_all (s1, st1, r1) bs) as [[s2 st2] r2].
  unfold parse_byte, my_mavlink_parse_char in E.
  pose proof (parse_frame_char_fed crcs accept_unsigned (prs s) c (msg (recv_msg s)) st) as Hf.
  destruct (parse_frame_char crcs accept_unsigned (prs s) c _ st) as [[[p m] st'] r']. destruct Hf as [-> ->].
  injection E as <- _ <-. cbn [prs send_msg telem_raw] in IH. cbn [app]. by rewrite last_cons_default.
Qed.

(** After whole frames the parser is between two frames; inside a frame it
    has nothing to report. *)
Lemma fed_frames ms : forall p,
  between_frames p -> Forall relayable ms ->
  between_frames (fed crcs accept_unsigned p (concat (map _mavlink_resend_uart ms))).
Proof.
  induction ms as [|m ms IH]; intros p Hp Hms; cbn [map concat].
  { unfold fed. cbn. by destruct p. }
  apply List.Forall_cons_iff in Hms as [(Hm & _ & Hb) Hms]. rewrite (proj1 (fed_app _ _ _ _ _)). apply IH; [|done].
  destruct (wire_split_last m) as (front & c & Hw). rewrite Hw in *.
  exact (proj1 (proj2 (proj2 (fed_frame crcs accept_unsigned p m front c Hp Hm Hw Hb)))).
Qed.

Lemma inside_frame p m a b x :
  between_frames p -> relayable m -> _mavlink_resend_uart m = a ++ b -> a <> [] -> b <> [] ->
  List.last (returned crcs accept_unsigned p a) x = 0.
Proof.
  intros Hp (Hm & _ & Hby) Hw Ha Hb. destruct (exists_last Hb) as (b' & c & ->). rewrite app_assoc in Hw.
  rewrite Hw in Hby. destruct (fed_frame crcs accept_unsigned p m (a ++ b') c Hp Hm Hw Hby) as (Hr & _).
  rewrite (proj2 (fed_app _ _ _ _ _)), length_app, replicate_add in Hr.
  apply app_inj_1 in Hr as [-> _]; [|by rewrite length_returned, length_replicate].
  destruct (length a) as [|k] eqn:E; [by apply nil_length_inv in E|]. clear. revert x.
  induction k as [|k IH]; intros x; [done|]. change (replicate (S (S k)) 0) with (0 :: replicate (S k) 0).
  rewrite last_cons_default. apply IH.
Qed.

(** The last byte of a frame puts the message in [recv_msg]. *)
Lemma frame_in_recv_msg s st r m front c :
  between_frames (prs s) -> relayable m -> _mavlink_resend_uart m = front ++ [c] ->
  let '(s', _, r') := parse_all (s, st, r) (front ++ [c]) in
  r' = verdict crcs m /\ is_msg (recv_msg s') = 1 /\ wf_message (msg (recv_msg s')) /\ wire_of (msg (recv_msg s')) = _mavlink_resend_uart m /\
  send_msg s' = send_msg s /\ telem_raw s' = telem_raw s.
Proof.
  intros Hs (Hm & Htr & Hby) Hw. rewrite Hw in Hby. rewrite foldl_app. cbn [foldl].
  destruct (fed_frame crcs accept_unsigned (prs s) m front c Hs Hm Hw Hby) as (_ & _ & _ & Ho).
  pose proof (parse_all_run front s st r) as Hf. destruct (parse_all (s, st, r) front) as [[s1 st1] r1].
  destruct Hf as (Hp & _ & Hse & Hte). rewrite <- Hp in Ho.
  destruct (Ho (msg (recv_msg s1)) (Some st1)) as [H1 H2].
  unfold parse_byte, my_mavlink_parse_char, parse_frame_char. rewrite H1, H2.
  rewrite (proj2 (Z.eqb_neq _ _) (verdict_nonzero crcs m)). cbn. split_and!; try done.
  { by apply (frame_message_wf crcs accept_unsigned _ m front c). }
  rewrite wire_of_received; [|apply Hs|done]. unfold wire_of. by rewrite Htr.
Qed.

(** The first [n] bytes of a stream of frames, cut at the last whole frame. *)
Lemma stream_cut (ws : list (list Z)) n :
  (n <= length (concat ws))%nat ->
  let k := whole_frames n ws in
  let a := drop (length (concat (take k ws))) (take n (concat ws)) in
  take n (concat ws) = concat (take k ws) ++ a /\ (length (concat (take k ws)) + length a = n)%nat /\
  (a <> [] -> exists b, b <> [] /\ ws !! k = Some (a ++ b)).
Proof.
  intros Hn k a. destruct (whole_frames_spec ws n) as (Hk & Hl & Hnext). fold k in Hk, Hl, Hnext.
  assert (concat ws = concat (take k ws) ++ concat (drop k ws)) as Hc by (by rewrite <- concat_app, take_drop).
  assert (take n (concat ws) = concat (take k ws) ++ a) as Ht.
  { unfold a. rewrite Hc, take_app_ge by done. f_equal. by rewrite drop_app_length. }
  split; [exact Ht|]. split; [apply (f_equal length) in Ht; rewrite length_app, length_take in Ht; lia|].
  intros Ha. destruct Hnext as [Hk'|Hlt].
  { destruct Ha. unfold a. rewrite Hk', firstn_all. apply drop_ge. rewrite length_take. lia. }
  destruct (ws !! k) as [w|] eqn:Ew.
  2:{ apply lookup_ge_None in Ew. rewrite !take_ge in * by lia. lia. }
  rewrite (take_S_r _ _ w Ew), concat_app, length_app in Hlt. cbn [concat] in Hlt. rewrite app_nil_r in Hlt.
  exists (drop (n - length (concat (take k ws))) w). split.
  { intros E. apply (f_equal length) in E. rewrite length_drop in E. cbn in E. lia. }
  f_equal. unfold a. rewrite Hc, take_app_ge, drop_app_length by done.
  rewrite (drop_S _ w k Ew). cbn [concat]. rewrite take_app_le by lia. by rewrite take_drop.
Qed.

(** C32. Of the messages in a block Encrypt forwards the last one, and that only
    when the block ends with it: a block that ends inside a frame forwards
    nothing, however many whole frames it has.  What is forwarded reaches the
    dataport of Telemetry as it came. *)
Theorem block_forwards_last_message u_status u_result ms n raw_data s :
  let ws := map _mavlink_resend_uart ms in
  let k := whole_frames n ws in
  let s' := read_from_uart crcs accept_unsigned u_status u_result raw_data (Z.of_nat n) s in
  between_frames (prs s) -> Forall relayable ms -> length (telem_raw s) = 300%nat ->
  (0 < n <= length (concat ws))%nat -> take n raw_data = take n (concat ws) ->
  if (n =? length (concat (take k ws)))%nat then
    exists s2 ws' w, send_to_telemetry s' = Some s2 /\ take k ws = ws' ++ [w] /\
      take (Z.to_nat (telem_len s2)) (telem_raw s2) = w
  else send_msg s' = send_msg s.
Proof.
  intros ws k s' Hs Hms Hte Hn Hraw. destruct (stream_cut ws n (proj2 Hn)) as (Hcut & Hla & Ha). fold k in Hcut, Hla, Ha.
  unfold s', read_from_uart. rewrite Nat2Z.id, Hraw, Hcut. set (a := drop _ _) in *.
  assert (Forall relayable (take k ms)) as Hk by (by apply Forall_take).
  assert (take k ws = map _mavlink_resend_uart (take k ms)) as Hmap by (unfold ws; by rewrite firstn_map).
  rewrite Hmap in *. destruct (Nat.eqb_spec n (length (concat (map _mavlink_resend_uart (take k ms))))) as [E|E].
  - assert (a = []) as -> by (apply nil_length_inv; lia). rewrite app_nil_r.
    destruct (exists_last (l := take k ms)) as (ms' & m & Hlast); [intros H0; rewrite H0 in E; cbn in E; lia|].
    rewrite Hlast in Hk |- *. apply List.Forall_app in Hk as [Hk' Hm]. apply List.Forall_cons_iff in Hm as [Hm _].
    rewrite map_app, concat_app, foldl_app. cbn [map concat]. rewrite app_nil_r. clear Hmap.
    pose proof (parse_all_run (concat (map _mavlink_resend_uart ms')) s u_status u_result) as H1.
    destruct (parse_all (s, u_status, u_result) _) as [[s1 st1] r1]. destruct H1 as (Hp & _ & _ & Ht1).
    pose proof (fed_frames ms' (prs s) Hs Hk') as Hb. rewrite <- Hp in Hb.
    destruct (wire_split_last m) as (front & c & Hw). rewrite Hw.
    pose proof (frame_in_recv_msg s1 st1 r1 m front c Hb Hm Hw) as H2.
    destruct (parse_all (s1, st1, r1) _) as [[s2 st2] r2]. destruct H2 as (-> & Hi & Hwf & Hwire & _ & Ht2).
    rewrite (proj2 (Z.eqb_neq _ _) (verdict_nonzero crcs m)). unfold Encrypt_FC_Data_to_Telem_Data. rewrite Hi.
    unfold send_to_telemetry. cbn [Z.eqb send_msg telem_raw]. rewrite Hi. cbn [Z.eqb]. rewrite (to_send_buffer_memcpy _ _ Hwf).
    eexists _, _, _. split; [done|]. split; [done|]. cbn [telem_raw telem_len].
    destruct (wire_of_ok _ Hwf) as [_ Hl]. unfold wire_of in Hl.
    rewrite Nat2Z.id, memcpy_at_spec by (rewrite Ht2, Ht1, Hte; lia).
    rewrite take_0. cbn [app]. rewrite take_app_length. fold (wire_of (msg (recv_msg s2))). by rewrite Hwire.
  - destruct (Ha ltac:(intros ->; cbn in Hla; lia)) as (b & Hb0 & Hb). unfold ws in Hb.
    apply list_lookup_fmap_Some in Hb as (m & Hab & Hm). symmetry in Hab.
    pose proof (proj1 (Forall_lookup _ _) Hms k m Hm) as Hrm.
    pose proof (parse_all_run (concat (map _mavlink_resend_uart (take k ms)) ++ a) s u_status u_result) as H1.
    destruct (parse_all (s, u_status, u_result) _) as [[s1 st1] r1]. destruct H1 as (_ & -> & <- & _).
    rewrite (proj2 (fed_app _ _ _ _ _)). pose proof (fed_frames (take k ms) (prs s) Hs Hk) as Hp.
    assert (forall l x, List.last (l ++ returned crcs accept_unsigned (fed crcs accept_unsigned (prs s)
      (concat (map _mavlink_resend_uart (take k ms)))) a) x = 0) as H0.
    { intros l. induction l as [|y l IH]; intros x; cbn [app]; [|rewrite last_cons_default; apply IH].
      apply (inside_frame _ m a b x Hp Hrm Hab); [|done]. intros ->. cbn in Hla. lia. }
    by rewrite H0.
Qed.
End blocks.

(** ** The theorem on the sample heartbeats *)

#[local] Abbreviation start := (Encrypt.pre_init (Encrypt.mk_state idle_parser
  (Encrypt.mk_message blank_message 1) (Encrypt.mk_message blank_message 1) (replicate 300 9) 5)).

(** Of two whole heartbeats one goes out; with a byte of the third there is
    nothing to send. *)
Lemma block_forwards_last_message_witness :
  (exists s2, send_to_telemetry (read_from_uart ardupilotmega_crcs None blank_status 7 heartbeats 26 start) = Some s2 /\
     take (Z.to_nat (telem_len s2)) (telem_raw s2) = take 13 heartbeats) /\
  send_to_telemetry (read_from_uart ardupilotmega_crcs None blank_status 7 heartbeats 27 start) = None.
Proof.
  destruct heartbeat_relayable as [Hr Hl].
  assert (Forall relayable (replicate 6 heartbeat_message)) as Hms by (by apply Forall_replicate).
  pose proof (fun n => block_forwards_last_message ardupilotmega_crcs None blank_status 7 (replicate 6 heartbeat_message) n
    heartbeats start idle_parser_between Hms eq_refl) as H. cbv zeta in H. rewrite Hl in H. split.
  - specialize (H 26%nat ltac:(vm_compute; lia) eq_refl).
    destruct H as (s2 & ws' & w & E & Hw & Ht). exists s2. split; [exact E|]. rewrite Ht.
    change (take 2 (replicate 6 (take 13 heartbeats)) = ws' ++ [w]) in Hw.
    by apply (app_inj_tail [take 13 heartbeats] ws') in Hw as [_ <-].
  - specialize (H 27%nat ltac:(vm_compute; lia) eq_refl). unfold send_to_telemetry.
    change (send_msg (read_from_uart ardupilotmega_crcs None blank_status 7 heartbeats 27 start) = send_msg start) in H.
    by rewrite H.
Defined.
